(** * The TorchTNT train loop: a shallow embedding and its properties

    This development embeds [torchtnt/runner/state.py] and
    [torchtnt/runner/train.py] and proves properties of the train loop
    state machine: progress counters, termination predicates, interleaved
    evaluation, the stop latch, exception dispatch and module-mode
    restoration. It also embeds the constructor of [MultiDataLoader] and
    the state dicts of [StatefulDataLoader] of
    [torchtnt/data/dataloaders.py].

    Conventions of the embedding:
    - Python integers are [Z]; [Optional[int]] is [option Z].
    - The mutable [State] object, the training flags of the unit's tracked
      modules and the history of observable calls form a [World] that is
      threaded through every operation.
    - A Python function that may raise is a function [World -> Result A]:
      either it returns normally, or it raises an exception (the world
      reached at the raise is kept, since Python does not roll back), or
      a loop ran out of fuel.
    - User code (unit hooks, step functions, callbacks) is a function of
      the world it is called in; what it may do to the driver's state is
      to call [State.stop()], to raise, and (for a step that receives the
      raw iterator) to consume batches.
    - Timer scopes never affect control flow and are left out. *)

From Stdlib Require Import ZArith List Bool Lia.
From stdpp Require Import gmap strings list fin_maps.

Local Open Scope Z_scope.

(** ** Exceptions *)

Inductive RuntimeMsg :=
| ExpectedTrainState                       (* "Expected train_state to be initialized!" *)
| ExpectedEvalState
| ExpectedMaxEpochsOne (received : option Z). (* "Expected state.train_state.max_epochs to be 1, but received ..." *)

Inductive exn :=
| StopIteration
| RuntimeError (msg : RuntimeMsg)
| ValueError (name : string) (val : Z)
| AssertionError
| UserError (tag : nat)       (* any other subclass of Exception raised by user code *)
| BaseError (tag : nat).      (* KeyboardInterrupt, SystemExit, ...: not a subclass of Exception *)

(** [isinstance(e, Exception)], the class test of [except Exception]. *)
Definition is_Exception (e : exn) : bool :=
  match e with
  | BaseError _ => false
  | _ => true
  end.

(** [isinstance(e, StopIteration)], the class test of [except StopIteration]. *)
Definition is_StopIteration (e : exn) : bool :=
  match e with
  | StopIteration => true
  | _ => false
  end.

(** ** state.py: enums, Progress, PhaseState, State *)

Inductive EntryPoint := FIT | TRAIN | EVALUATE | PREDICT.

Module ActivePhase.
Inductive t := TRAIN | EVALUATE | PREDICT.
End ActivePhase.

Definition Batch := nat.

Record Progress := mkProgress {
  num_epochs_completed : Z;
  num_steps_completed : Z;
  num_steps_completed_in_epoch : Z
}.

(** Modelled from the spec: [Progress] (torchtnt/runner/progress.py is not
    among the sources). A fresh tracker has all counters at 0;
    [increment_step] adds one to both step counters; [increment_epoch]
    adds one to the epoch counter and resets the in-epoch step counter. *)
Definition Progress_init : Progress := mkProgress 0 0 0.

Definition increment_step (p : Progress) : Progress :=
  mkProgress (num_epochs_completed p)
             (num_steps_completed p + 1)
             (num_steps_completed_in_epoch p + 1).

Definition increment_epoch (p : Progress) : Progress :=
  mkProgress (num_epochs_completed p + 1)
             (num_steps_completed p)
             0.

Record PhaseState := mkPhaseState {
  dataloader : list Batch;
  progress : Progress;
  max_epochs : option Z;
  max_steps : option Z;
  max_steps_per_epoch : option Z;
  evaluate_every_n_steps : option Z;
  evaluate_every_n_epochs : option Z;
  step_output : option Z
}.

Definition _check_loop_condition (name : string) (val : option Z) : option exn :=
  match val with
  | Some v => if v <? 0 then Some (ValueError name v) else None
  | None => None
  end.

(** [PhaseState.__init__]: the five checks run in order, the first failing
    one raises; [inl e] is a raise of [e]. *)
Definition PhaseState_init (dl : list Batch) (prog : option Progress)
    (me ms mspe een_steps een_epochs : option Z) : exn + PhaseState :=
  match _check_loop_condition "max_epochs" me with Some e => inl e | None =>
  match _check_loop_condition "max_steps" ms with Some e => inl e | None =>
  match _check_loop_condition "max_steps_per_epoch" mspe with Some e => inl e | None =>
  match _check_loop_condition "evaluate_every_n_steps" een_steps with Some e => inl e | None =>
  match _check_loop_condition "evaluate_every_n_epochs" een_epochs with Some e => inl e | None =>
    inr (mkPhaseState dl (default Progress_init prog) me ms mspe een_steps een_epochs None)
  end end end end end.

Record State := mkState {
  entry_point : EntryPoint;
  train_state : option PhaseState;
  eval_state : option PhaseState;
  predict_state : option PhaseState;
  should_stop : bool;
  active_phase : ActivePhase.t
}.

Definition State_init (ep : EntryPoint) (ts es ps : option PhaseState) : State :=
  mkState ep ts es ps false ActivePhase.TRAIN.

(** [State.stop]: the flag is set, whatever it was. *)
Definition stop (s : State) : State :=
  mkState (entry_point s) (train_state s) (eval_state s) (predict_state s)
          true (active_phase s).

Definition set_entry_point (ep : EntryPoint) (s : State) : State :=
  mkState ep (train_state s) (eval_state s) (predict_state s)
          (should_stop s) (active_phase s).

Definition set_active_phase (ph : ActivePhase.t) (s : State) : State :=
  mkState (entry_point s) (train_state s) (eval_state s) (predict_state s)
          (should_stop s) ph.

Definition upd_train_state (f : PhaseState -> PhaseState) (s : State) : State :=
  mkState (entry_point s) (f <$> train_state s) (eval_state s) (predict_state s)
          (should_stop s) (active_phase s).

Definition upd_eval_state (f : PhaseState -> PhaseState) (s : State) : State :=
  mkState (entry_point s) (train_state s) (f <$> eval_state s) (predict_state s)
          (should_stop s) (active_phase s).

Definition upd_progress (f : Progress -> Progress) (ps : PhaseState) : PhaseState :=
  mkPhaseState (dataloader ps) (f (progress ps)) (max_epochs ps) (max_steps ps)
               (max_steps_per_epoch ps) (evaluate_every_n_steps ps)
               (evaluate_every_n_epochs ps) (step_output ps).

Definition set_step_output (o : option Z) (ps : PhaseState) : PhaseState :=
  mkPhaseState (dataloader ps) (progress ps) (max_epochs ps) (max_steps ps)
               (max_steps_per_epoch ps) (evaluate_every_n_steps ps)
               (evaluate_every_n_epochs ps) o.

(** [init_train_state] of train.py. *)
Definition init_train_state (dl : list Batch) (me ms mspe : option Z) : exn + State :=
  match PhaseState_init dl None me ms mspe None None with
  | inl e => inl e
  | inr ts => inr (State_init TRAIN (Some ts) None None)
  end.

(** ** Observable history *)

Inductive Hook :=
| on_train_start | on_train_epoch_start | on_train_step_start
| on_train_step_end | on_train_epoch_end | on_train_end
| on_eval_start | on_eval_epoch_start | on_eval_step_start
| on_eval_step_end | on_eval_epoch_end | on_eval_end
| on_exception (e : exn).

(** What a step function receives: one batch pulled by the driver, or the
    data iterator itself (here: the batches it has not yielded yet). *)
Inductive StepInput :=
| InBatch (b : Batch)
| InIter (remaining : list Batch).

Inductive LogMsg :=
| StartedTrain            (* info, _train_impl *)
| FinishedTrain           (* info, train and train_epoch *)
| ExceptionDuringTrain (e : exn)
| StartedTrainEpochEntry  (* info, train_epoch *)
| ExceptionDuringTrainEpoch (e : exn)
| StartedTrainEpoch       (* info, _train_epoch_impl *)
| NoStepsCompleted        (* warning: "No steps completed during train epoch!" *)
| EndedTrainEpoch         (* info, _train_epoch_impl *)
| ReceivedSignalToStop.   (* warning, State.stop *)

(** The two places of [_train_epoch_impl] that call [_evaluate_impl]. *)
Inductive EvalSite := AfterStep | AfterEpoch.

Inductive Event :=
| EvUnit (h : Hook)                 (* a lifecycle method of the unit is called *)
| EvTrainStep (input : StepInput)   (* train_unit.train_step is called *)
| EvEvalStep (input : StepInput)    (* eval_unit.eval_step is called *)
| EvCallback (i : nat) (h : Hook)   (* hook h of the i-th callback is called *)
| EvLog (m : LogMsg)
| EvEvaluate (site : EvalSite).     (* _evaluate_impl is called *)

#[global] Instance RuntimeMsg_eq_dec : EqDecision RuntimeMsg.
Proof. solve_decision. Defined.
#[global] Instance exn_eq_dec : EqDecision exn.
Proof. solve_decision. Defined.
#[global] Instance Hook_eq_dec : EqDecision Hook.
Proof. solve_decision. Defined.
#[global] Instance StepInput_eq_dec : EqDecision StepInput.
Proof. solve_decision. Defined.
#[global] Instance LogMsg_eq_dec : EqDecision LogMsg.
Proof. solve_decision. Defined.
#[global] Instance EvalSite_eq_dec : EqDecision EvalSite.
Proof. solve_decision. Defined.
#[global] Instance Event_eq_dec : EqDecision Event.
Proof. solve_decision. Defined.

(** ** The world and the monad of drivers *)

Record World := mkWorld {
  state : State;
  modules : gmap string bool;   (* training flag of each tracked module, by name *)
  trace : list Event            (* oldest event first *)
}.

Definition upd_state (f : State -> State) (w : World) : World :=
  mkWorld (f (state w)) (modules w) (trace w).

Definition set_modules (m : gmap string bool) (w : World) : World :=
  mkWorld (state w) m (trace w).

Definition add_event (ev : Event) (w : World) : World :=
  mkWorld (state w) (modules w) (trace w ++ [ev]).

Inductive Result (A : Type) :=
| Ok (w : World) (a : A)
| Raise (w : World) (e : exn)
| OutOfFuel.
Arguments Ok {A} w a.
Arguments Raise {A} w e.
Arguments OutOfFuel {A}.

Definition M (A : Type) : Type := World -> Result A.

Definition ret {A} (a : A) : M A := fun w => Ok w a.

Definition bind {A B} (m : M A) (k : A -> M B) : M B :=
  fun w =>
    match m w with
    | Ok w' a => k a w'
    | Raise w' e => Raise w' e
    | OutOfFuel => OutOfFuel
    end.

Definition raise {A} (e : exn) : M A := fun w => Raise w e.

Definition out_of_fuel {A} : M A := fun _ => OutOfFuel.

Definition get : M World := fun w => Ok w w.

Definition modify (f : World -> World) : M unit := fun w => Ok (f w) tt.

Definition emit (ev : Event) : M unit := modify (add_event ev).

(** [try: body except <class> as e: handler e]. *)
Definition try_except {A} (body : M A) (catches : exn -> bool) (handler : exn -> M A) : M A :=
  fun w =>
    match body w with
    | Raise w' e => if catches e then handler e w' else Raise w' e
    | r => r
    end.

Notation "'let*' x ':=' m 'in' k" := (bind m (fun x => k))
  (at level 10, x name, m at level 100, k at level 200).

Definition when (b : bool) (m : M unit) : M unit := if b then m else ret tt.

(** ** User code: units and callbacks *)

Record HookOutcome := mkHookOutcome {
  ho_stop : bool;            (* the hook called state.stop() *)
  ho_raise : option exn      (* the hook ended by raising *)
}.

Record StepOutcome := mkStepOutcome {
  so_outcome : HookOutcome;
  so_consumed : nat;         (* batches the step pulled from the raw iterator *)
  so_output : Z              (* the value the step returns *)
}.

Definition quiet : HookOutcome := mkHookOutcome false None.

Record TrainUnit := mkTrainUnit {
  unit_hook : Hook -> World -> HookOutcome;
  train_step : StepInput -> World -> StepOutcome;
  eval_step : StepInput -> World -> StepOutcome;
  (* _step_requires_iterator(train_unit.train_step) *)
  train_step_requires_iterator : bool
}.

(** A callback exposes a subset of the hooks. *)
Definition Callback := Hook -> option (World -> HookOutcome).

(** The effect of [State.stop()] called from user code. *)
Definition world_stop (w : World) : World :=
  upd_state stop (add_event (EvLog ReceivedSignalToStop) w).

Definition after_hook (o : HookOutcome) (w : World) : World :=
  if ho_stop o then world_stop w else w.

(** Calling user code: the call is recorded, then the code runs. *)
Definition run_hook (ev : Event) (f : World -> HookOutcome) : M unit :=
  fun w =>
    let w1 := add_event ev w in
    let o := f w1 in
    match ho_raise o with
    | Some e => Raise (after_hook o w1) e
    | None => Ok (after_hook o w1) tt
    end.

Definition run_step (ev : Event) (f : World -> StepOutcome) : M (nat * Z) :=
  fun w =>
    let w1 := add_event ev w in
    let o := f w1 in
    match ho_raise (so_outcome o) with
    | Some e => Raise (after_hook (so_outcome o) w1) e
    | None => Ok (after_hook (so_outcome o) w1) (so_consumed o, so_output o)
    end.

Definition run_unit_hook (u : TrainUnit) (h : Hook) : M unit :=
  run_hook (EvUnit h) (unit_hook u h).

(** ** utils.py *)

(** Modelled from the spec: [_run_callback_fn] (torchtnt/runner/utils.py is
    not among the sources). For each callback in list order, if it exposes
    the hook, invoke it; callbacks without the hook are skipped; a callback
    that raises short-circuits the remaining ones. *)
Fixpoint run_callbacks_from (i : nat) (callbacks : list Callback) (h : Hook) : M unit :=
  match callbacks with
  | [] => ret tt
  | cb :: rest =>
      match cb h with
      | Some f => let* _ := run_hook (EvCallback i h) f in
                  run_callbacks_from (S i) rest h
      | None => run_callbacks_from (S i) rest h
      end
  end.

Definition _run_callback_fn (callbacks : list Callback) (h : Hook) : M unit :=
  run_callbacks_from 0 callbacks h.

(** Modelled from the spec: [_is_done] and [_is_epoch_done] (utils.py is
    not among the sources), section 4.2. *)
Definition limit_reached (count : Z) (limit : option Z) : bool :=
  match limit with
  | Some m => m <=? count
  | None => false
  end.

Definition _is_done (p : Progress) (max_epochs max_steps : option Z) : bool :=
  limit_reached (num_steps_completed p) max_steps
  || limit_reached (num_epochs_completed p) max_epochs.

Definition _is_epoch_done (p : Progress) (max_steps_per_epoch max_steps : option Z) : bool :=
  limit_reached (num_steps_completed_in_epoch p) max_steps_per_epoch
  || limit_reached (num_steps_completed p) max_steps.

(** [train_unit.tracked_modules()]: the names of the tracked modules. *)
Definition tracked_modules : M (gset string) :=
  fun w => Ok w (dom (modules w)).

Definition restrict (names : gset string) (m : gmap string bool) : gmap string bool :=
  filter (fun kv => kv.1 ∈ names) m.

(** Modelled from the spec: [_set_module_training_mode] and
    [_reset_module_training_mode] (utils.py is not among the sources),
    section 4.5. Setting records the current mode of each tracked module,
    switches it to the requested mode and returns the recorded modes;
    resetting gives each tracked module its recorded mode back. *)
Definition _set_module_training_mode (tracked : gset string) (mode : bool)
  : M (gmap string bool) :=
  fun w =>
    let prior := restrict tracked (modules w) in
    Ok (set_modules (((fun _ => mode) <$> prior) ∪ modules w) w) prior.

Definition _reset_module_training_mode (tracked : gset string)
    (prior : gmap string bool) : M unit :=
  modify (fun w => set_modules (restrict tracked prior ∪ modules w) w).

(** ** train.py *)

(** Python truthiness of an [Optional[int]]: [None] and [0] are falsy. *)
Definition truthy (v : option Z) : bool :=
  match v with
  | Some k => negb (k =? 0)
  | None => false
  end.

(** Lines 191-197 of [_train_epoch_impl]: the cadences are taken from the
    eval PhaseState, each one only if it is truthy. *)
Definition resolve_cadence (v : option Z) : option Z :=
  if truthy v then v else None.

Definition eval_cadence (s : State) : option Z * option Z :=
  match eval_state s with
  | Some es => (resolve_cadence (evaluate_every_n_steps es),
                resolve_cadence (evaluate_every_n_epochs es))
  | None => (None, None)
  end.

(** [every_n and count % every_n == 0]. *)
Definition is_due (every_n : option Z) (count : Z) : bool :=
  truthy every_n &&
  match every_n with
  | Some k => count mod k =? 0
  | None => false
  end.

(** The local reference [train_state]: the PhaseState object held by the
    state; [missing] is raised where the source tests or asserts it. *)
Definition get_train_state (missing : exn) : M PhaseState :=
  fun w =>
    match train_state (state w) with
    | Some ts => Ok w ts
    | None => Raise w missing
    end.

Definition modify_train_state (f : PhaseState -> PhaseState) : M unit :=
  modify (upd_state (upd_train_state f)).

Section Drivers.

(** [_evaluate_impl] of torchtnt/runner/evaluate.py is not among the
    sources: the drivers take it as a parameter. *)
Variable _evaluate_impl : TrainUnit -> list Callback -> M unit.

Definition call_evaluate (site : EvalSite) (u : TrainUnit) (callbacks : list Callback)
  : M unit :=
  let* _ := emit (EvEvaluate site) in
  _evaluate_impl u callbacks.

(** What the step receives and what is left of the iterator: the iterator
    itself, or the batch pulled with [next(data_iter)], which raises
    StopIteration on an exhausted iterator. *)
Definition fetch_step_input (pass_data_iter_to_step : bool) (data_iter : list Batch)
  : M (StepInput * list Batch) :=
  if pass_data_iter_to_step then ret (InIter data_iter, data_iter)
  else match data_iter with
       | [] => raise StopIteration
       | b :: rest => ret (InBatch b, rest)
       end.

(** Lines 226-251: the body of the [try] of the step loop. It returns
    what is left of the data iterator. *)
Definition train_step_body (u : TrainUnit) (callbacks : list Callback)
    (every_n_steps : option Z) (data_iter : list Batch) : M (list Batch) :=
  let pass_data_iter_to_step := train_step_requires_iterator u in
  let* fetched := fetch_step_input pass_data_iter_to_step data_iter in
  let* _ := _run_callback_fn callbacks on_train_step_start in
  let* r := run_step (EvTrainStep (fst fetched)) (train_step u (fst fetched)) in
  let* _ := modify_train_state (set_step_output (Some (snd r))) in
  let* _ := modify_train_state (upd_progress increment_step) in
  let* _ := _run_callback_fn callbacks on_train_step_end in
  let* _ := modify_train_state (set_step_output None) in
  let* ts := get_train_state AssertionError in
  let* _ := when (is_due every_n_steps (num_steps_completed_in_epoch (progress ts)))
                 (call_evaluate AfterStep u callbacks) in
  ret (if pass_data_iter_to_step then drop (fst r) (snd fetched) else snd fetched).

(** Lines 219-254: the step loop. [None] from the guarded body is the
    [break] of [except StopIteration]. *)
Fixpoint train_step_loop (fuel : nat) (u : TrainUnit) (callbacks : list Callback)
    (every_n_steps : option Z) (data_iter : list Batch) : M unit :=
  match fuel with
  | O => out_of_fuel
  | S fuel' =>
      let* w := get in
      let* ts := get_train_state AssertionError in
      if should_stop (state w)
         || _is_epoch_done (progress ts) (max_steps_per_epoch ts) (max_steps ts)
      then ret tt
      else
        let* next :=
          try_except
            (let* it := train_step_body u callbacks every_n_steps data_iter in
             ret (Some it))
            is_StopIteration
            (fun _ => ret None) in
        match next with
        | Some it => train_step_loop fuel' u callbacks every_n_steps it
        | None => ret tt
        end
  end.

Definition _train_epoch_impl (fuel : nat) (u : TrainUnit) (callbacks : list Callback)
  : M unit :=
  let* _ := emit (EvLog StartedTrainEpoch) in
  let* _ := modify (upd_state (set_active_phase ActivePhase.TRAIN)) in
  let* tracked := tracked_modules in
  let* prior_module_train_states := _set_module_training_mode tracked true in
  let* ts := get_train_state AssertionError in
  let* w := get in
  let every_n_steps := fst (eval_cadence (state w)) in
  let every_n_epochs := snd (eval_cadence (state w)) in
  let* _ := when (num_steps_completed_in_epoch (progress ts) =? 0)
                 (let* _ := run_unit_hook u on_train_epoch_start in
                  _run_callback_fn callbacks on_train_epoch_start) in
  let* ts := get_train_state AssertionError in
  let data_iter := dataloader ts in
  let prev_steps_in_epoch := num_steps_completed_in_epoch (progress ts) in
  let* _ := train_step_loop fuel u callbacks every_n_steps data_iter in
  let* ts := get_train_state AssertionError in
  let any_steps_completed :=
    Z.abs (num_steps_completed_in_epoch (progress ts) - prev_steps_in_epoch) >? 0 in
  let* _ := when (negb any_steps_completed) (emit (EvLog NoStepsCompleted)) in
  let* _ := modify_train_state (upd_progress increment_epoch) in
  let* _ := run_unit_hook u on_train_epoch_end in
  let* _ := _run_callback_fn callbacks on_train_epoch_end in
  let* ts := get_train_state AssertionError in
  let* _ := when (is_due every_n_epochs (num_epochs_completed (progress ts)))
                 (call_evaluate AfterEpoch u callbacks) in
  let* _ := _reset_module_training_mode tracked prior_module_train_states in
  emit (EvLog EndedTrainEpoch).

(** Lines 114-118: the epoch loop of [_train_impl]. *)
Fixpoint train_epoch_loop (fuel_epochs fuel_steps : nat) (u : TrainUnit)
    (callbacks : list Callback) : M unit :=
  match fuel_epochs with
  | O => out_of_fuel
  | S fuel' =>
      let* w := get in
      let* ts := get_train_state AssertionError in
      if should_stop (state w)
         || _is_done (progress ts) (max_epochs ts) (max_steps ts)
      then ret tt
      else
        let* _ := _train_epoch_impl fuel_steps u callbacks in
        train_epoch_loop fuel' fuel_steps u callbacks
  end.

Definition _train_impl (fuel_epochs fuel_steps : nat) (u : TrainUnit)
    (callbacks : list Callback) : M unit :=
  let* _ := get_train_state (RuntimeError ExpectedTrainState) in
  let* _ := emit (EvLog StartedTrain) in
  let* _ := modify (upd_state (set_active_phase ActivePhase.TRAIN)) in
  let* tracked := tracked_modules in
  let* prior_module_train_states := _set_module_training_mode tracked true in
  let* _ := run_unit_hook u on_train_start in
  let* _ := _run_callback_fn callbacks on_train_start in
  let* _ := train_epoch_loop fuel_epochs fuel_steps u callbacks in
  let* _ := run_unit_hook u on_train_end in
  let* _ := _run_callback_fn callbacks on_train_end in
  _reset_module_training_mode tracked prior_module_train_states.

(** The [except Exception as e] block shared by [train] and [train_epoch]. *)
Definition exception_handler (msg : exn -> LogMsg) (u : TrainUnit)
    (callbacks : list Callback) (e : exn) : M unit :=
  let* _ := emit (EvLog (msg e)) in
  let* _ := run_unit_hook u (on_exception e) in
  let* _ := _run_callback_fn callbacks (on_exception e) in
  raise e.

(** Lines 79-82: the body of the [try] of [train]. *)
Definition train_body (fuel_epochs fuel_steps : nat) (u : TrainUnit)
    (callbacks : list Callback) : M unit :=
  let* _ := modify (upd_state (set_entry_point TRAIN)) in
  let* _ := _train_impl fuel_epochs fuel_steps u callbacks in
  emit (EvLog FinishedTrain).

Definition train (fuel_epochs fuel_steps : nat) (u : TrainUnit)
    (callbacks : option (list Callback)) : M unit :=
  let callbacks := default [] callbacks in
  try_except (train_body fuel_epochs fuel_steps u callbacks)
             is_Exception
             (exception_handler ExceptionDuringTrain u callbacks).

(** Lines 149-166: the body of the [try] of [train_epoch]. *)
Definition train_epoch_body (fuel : nat) (u : TrainUnit) (callbacks : list Callback)
  : M unit :=
  let* ts := get_train_state (RuntimeError ExpectedTrainState) in
  if negb (bool_decide (max_epochs ts = Some 1))
  then raise (RuntimeError (ExpectedMaxEpochsOne (max_epochs ts)))
  else
    let* _ := modify (upd_state (set_entry_point TRAIN)) in
    let* _ := emit (EvLog StartedTrainEpochEntry) in
    let* _ := _train_epoch_impl fuel u callbacks in
    emit (EvLog FinishedTrain).

Definition train_epoch (fuel : nat) (u : TrainUnit)
    (callbacks : option (list Callback)) : M unit :=
  let callbacks := default [] callbacks in
  try_except (train_epoch_body fuel u callbacks)
             is_Exception
             (exception_handler ExceptionDuringTrainEpoch u callbacks).

End Drivers.

(** ** An evaluation pass *)

(** Modelled from the spec: [_evaluate_impl] (torchtnt/runner/evaluate.py
    is not among the sources), sections 4.3 and 4.4 for the EVALUATE phase.
    The pass needs the eval PhaseState, tags the active phase, switches the
    tracked modules to eval mode, fires [on_eval_start], runs one epoch
    routine over the eval dataloader (epoch-start hooks guarded by the
    in-epoch step count, one [eval_step] per batch while neither
    [should_stop] nor the epoch-done predicate holds, epoch increment,
    epoch-end hooks), fires [on_eval_end] and restores the module modes.
    The pass runs one epoch whatever [max_epochs] is, and the step is given
    batches. *)
Definition get_eval_state (missing : exn) : M PhaseState :=
  fun w =>
    match eval_state (state w) with
    | Some es => Ok w es
    | None => Raise w missing
    end.

Definition modify_eval_state (f : PhaseState -> PhaseState) : M unit :=
  modify (upd_state (upd_eval_state f)).

Definition eval_step_body (u : TrainUnit) (callbacks : list Callback) (b : Batch)
  : M unit :=
  let* _ := _run_callback_fn callbacks on_eval_step_start in
  let* r := run_step (EvEvalStep (InBatch b)) (eval_step u (InBatch b)) in
  let* _ := modify_eval_state (set_step_output (Some (snd r))) in
  let* _ := modify_eval_state (upd_progress increment_step) in
  let* _ := _run_callback_fn callbacks on_eval_step_end in
  modify_eval_state (set_step_output None).

Fixpoint eval_step_loop (u : TrainUnit) (callbacks : list Callback)
    (data_iter : list Batch) : M unit :=
  match data_iter with
  | [] => ret tt
  | b :: rest =>
      let* w := get in
      let* es := get_eval_state AssertionError in
      if should_stop (state w)
         || _is_epoch_done (progress es) (max_steps_per_epoch es) (max_steps es)
      then ret tt
      else
        let* continue :=
          try_except
            (let* _ := eval_step_body u callbacks b in ret true)
            is_StopIteration
            (fun _ => ret false) in
        if continue then eval_step_loop u callbacks rest else ret tt
  end.

Definition evaluate_pass (u : TrainUnit) (callbacks : list Callback) : M unit :=
  let* _ := get_eval_state (RuntimeError ExpectedEvalState) in
  let* _ := modify (upd_state (set_active_phase ActivePhase.EVALUATE)) in
  let* tracked := tracked_modules in
  let* prior_module_train_states := _set_module_training_mode tracked false in
  let* _ := run_unit_hook u on_eval_start in
  let* _ := _run_callback_fn callbacks on_eval_start in
  let* es := get_eval_state AssertionError in
  let* _ := when (num_steps_completed_in_epoch (progress es) =? 0)
                 (let* _ := run_unit_hook u on_eval_epoch_start in
                  _run_callback_fn callbacks on_eval_epoch_start) in
  let* es := get_eval_state AssertionError in
  let* _ := eval_step_loop u callbacks (dataloader es) in
  let* _ := modify_eval_state (upd_progress increment_epoch) in
  let* _ := run_unit_hook u on_eval_epoch_end in
  let* _ := _run_callback_fn callbacks on_eval_epoch_end in
  let* _ := run_unit_hook u on_eval_end in
  let* _ := _run_callback_fn callbacks on_eval_end in
  _reset_module_training_mode tracked prior_module_train_states.

(** ** Vocabulary of the statements *)

(** The world a run ends in, whether it returned or raised. *)
Definition final {A} (r : Result A) : option World :=
  match r with
  | Ok w _ => Some w
  | Raise w _ => Some w
  | OutOfFuel => None
  end.

(** The events recorded between two worlds of one run. *)
Definition new_events (w w' : World) : list Event :=
  drop (length (trace w)) (trace w').

(** [ensures R m]: every run of [m] that ends relates the world it started
    in to the world it ended in. *)
Definition ensures {A} (R : relation World) (m : M A) : Prop :=
  forall w w', final (m w) = Some w' -> R w w'.

Definition stop_mono (w w' : World) : Prop :=
  should_stop (state w) = true -> should_stop (state w') = true.

Definition extends (P : Event -> bool) (w w' : World) : Prop :=
  exists evs, trace w' = trace w ++ evs /\ forallb P evs = true.

Definition same_config (a b : PhaseState) : Prop :=
  dataloader b = dataloader a /\ max_epochs b = max_epochs a /\
  max_steps b = max_steps a /\ max_steps_per_epoch b = max_steps_per_epoch a.

Definition train_rel (Rp : relation Progress) (w w' : World) : Prop :=
  match train_state (state w), train_state (state w') with
  | Some a, Some b => same_config a b /\ Rp (progress a) (progress b)
  | None, None => True
  | _, _ => False
  end.

Definition eval_kept (w w' : World) : Prop :=
  is_Some (eval_state (state w)) -> is_Some (eval_state (state w')).

(** The stop flag is raised by a call of [State.stop] only, which leaves
    its warning in the trace. *)
Definition stop_set_by_call (w w' : World) : Prop :=
  should_stop (state w') = true ->
  should_stop (state w) = true \/ In (EvLog ReceivedSignalToStop) (new_events w w').

(** How a piece of the run may change the world: the stop flag is never
    cleared and is set by [State.stop] only, the trace grows by events
    satisfying [P], the train PhaseState keeps its configuration while its
    progress moves along [Rp], and an eval PhaseState stays in place. *)
Record evolves (Rp : relation Progress) (P : Event -> bool) (w w' : World) : Prop :=
  mkEvolves {
    ev_stop : stop_mono w w';
    ev_trace : extends P w w';
    ev_train : train_rel Rp w w';
    ev_eval : eval_kept w w';
    ev_set : stop_set_by_call w w'
  }.

(** Progress inside the step loop: the epoch count stands still and both
    step counters advance together. *)
Definition step_rel (p p' : Progress) : Prop :=
  num_epochs_completed p' = num_epochs_completed p /\
  num_steps_completed p' - num_steps_completed p
    = num_steps_completed_in_epoch p' - num_steps_completed_in_epoch p /\
  num_steps_completed_in_epoch p <= num_steps_completed_in_epoch p'.

Definition any_progress (p p' : Progress) : Prop := True.

Definition any_event (e : Event) : bool := true.

Definition is_eval_hook (h : Hook) : bool :=
  match h with
  | on_eval_start | on_eval_epoch_start | on_eval_step_start
  | on_eval_step_end | on_eval_epoch_end | on_eval_end => true
  | _ => false
  end.

(** What an evaluation pass may record: eval hooks of the unit and of the
    callbacks, eval steps, and the warning of [State.stop]. *)
Definition is_eval_event (e : Event) : bool :=
  match e with
  | EvUnit h => is_eval_hook h
  | EvCallback _ h => is_eval_hook h
  | EvEvalStep _ => true
  | EvLog ReceivedSignalToStop => true
  | _ => false
  end.

(** The assumptions on the evaluation pass. It leaves the train PhaseState
    alone, keeps the stop latch and the eval PhaseState, and records only
    evaluation events. *)
Definition evaluate_frame (ev : TrainUnit -> list Callback -> M unit) : Prop :=
  forall u callbacks, ensures (evolves eq is_eval_event) (ev u callbacks).

(** Events of the step loop. *)
Definition step_event (e : Event) : bool :=
  match e with
  | EvCallback _ on_train_step_start | EvCallback _ on_train_step_end => true
  | EvTrainStep _ => true
  | EvEvaluate AfterStep => true
  | _ => is_eval_event e
  end.

(** Events of the exception handler. *)
Definition handler_event (e : Event) : bool :=
  match e with
  | EvUnit (on_exception _) | EvCallback _ (on_exception _) | EvLog _ => true
  | _ => false
  end.

Definition negative (v : option Z) : bool :=
  match v with
  | Some x => x <? 0
  | None => false
  end.

(** With an eval PhaseState in place the evaluation pass of [u] returns
    normally and does not request a stop. *)
Definition evaluate_quiet (ev : TrainUnit -> list Callback -> M unit)
    (u : TrainUnit) (callbacks : list Callback) : Prop :=
  forall w, is_Some (eval_state (state w)) ->
    exists w', ev u callbacks w = Ok w' tt /\
               should_stop (state w') = should_stop (state w).

(** User code that neither raises nor stops. *)
Definition quiet_unit (u : TrainUnit) : Prop :=
  (forall h w, unit_hook u h w = quiet) /\
  (forall i w, so_outcome (train_step u i w) = quiet) /\
  (forall i w, so_outcome (eval_step u i w) = quiet).

Definition quiet_callbacks (callbacks : list Callback) : Prop :=
  forall cb h f w, cb ∈ callbacks -> cb h = Some f -> f w = quiet.

(** The calls [_run_callback_fn] makes when no callback raises: one per
    callback that exposes the hook, in list order. *)
Fixpoint callback_events (i : nat) (callbacks : list Callback) (h : Hook) : list Event :=
  match callbacks with
  | [] => []
  | cb :: rest =>
      match cb h with
      | Some _ => EvCallback i h :: callback_events (S i) rest h
      | None => callback_events (S i) rest h
      end
  end.

(** Calls, as opposed to log records. *)
Definition is_call (e : Event) : bool :=
  match e with
  | EvLog _ => false
  | _ => true
  end.

Definition is_train_step (e : Event) : bool :=
  match e with
  | EvTrainStep _ => true
  | _ => false
  end.

Definition is_hook_event (h : Hook) (e : Event) : bool :=
  match e with
  | EvUnit h' => bool_decide (h' = h)
  | EvCallback _ h' => bool_decide (h' = h)
  | _ => false
  end.

Definition is_evaluate_at (site : EvalSite) (e : Event) : bool :=
  match e with
  | EvEvaluate s => bool_decide (s = site)
  | _ => false
  end.

Definition is_log (m : LogMsg) (e : Event) : bool :=
  match e with
  | EvLog m' => bool_decide (m' = m)
  | _ => false
  end.

(** Events of the train phase: hooks and steps of the train loop, its log
    records, the exception hook, and the calls of the evaluation pass (but
    nothing the evaluation pass or [State.stop] records). *)
Definition train_event (e : Event) : bool :=
  negb (is_eval_event e).

(** [summary T l w w']: between [w] and [w'] the trace grew, and [l] is
    what [T] keeps of the new events. *)
Definition summary (T : Event -> bool) (l : list Event) (w w' : World) : Prop :=
  exists evs, trace w' = trace w ++ evs /\ List.filter T evs = l.

Definition same_modules (w w' : World) : Prop := modules w' = modules w.

(** What the [except Exception] block of an entry point [run] does with an
    exception [e] that left its body in world [w1]: it always ends by
    raising; if no [on_exception] handler raises, it has called the handler
    of the unit and then of each callback that exposes one, and raises [e];
    if the handler of the unit raises, that exception leaves the entry
    point and no callback is called; if the handler of a callback is the
    first to raise, that exception leaves the entry point, the handlers
    before it have been called and no callback after it is. *)
Definition exception_dispatched (run : M unit) (u : TrainUnit)
    (callbacks : list Callback) (w w1 : World) (e : exn) : Prop :=
  (exists w2 e2, run w = Raise w2 e2)
  /\ ((forall wx, ho_raise (unit_hook u (on_exception e) wx) = None) ->
      (forall cb f wx, cb ∈ callbacks -> cb (on_exception e) = Some f ->
                       ho_raise (f wx) = None) ->
      exists w2, run w = Raise w2 e
        /\ List.filter is_call (new_events w1 w2)
           = EvUnit (on_exception e) :: callback_events 0 callbacks (on_exception e))
  /\ (forall e', (forall wx, ho_raise (unit_hook u (on_exception e) wx) = Some e') ->
      exists w2, run w = Raise w2 e'
        /\ List.filter is_call (new_events w1 w2) = [EvUnit (on_exception e)])
  /\ (forall before cb after f e',
        callbacks = before ++ cb :: after ->
        cb (on_exception e) = Some f ->
        (forall wx, ho_raise (unit_hook u (on_exception e) wx) = None) ->
        (forall cb0 f0 wx, cb0 ∈ before -> cb0 (on_exception e) = Some f0 ->
                           ho_raise (f0 wx) = None) ->
        (forall wx, ho_raise (f wx) = Some e') ->
        exists w2, run w = Raise w2 e'
          /\ List.filter is_call (new_events w1 w2)
             = EvUnit (on_exception e)
               :: callback_events 0 (before ++ [cb]) (on_exception e)).

(** [progress_moved f w w']: the train PhaseState is still there with its
    configuration, and its progress went through [f]. *)
Definition progress_moved (f : Progress -> Progress) (w w' : World) : Prop :=
  forall ts, train_state (state w) = Some ts ->
    exists ts', train_state (state w') = Some ts' /\ same_config ts ts'
                /\ progress ts' = f (progress ts).

(** The train events of one completed step: the callbacks before the step,
    the step, the callbacks after it, and the evaluation pass if it is due
    at the in-epoch step count [count] reached by this step. *)
Definition step_calls (callbacks : list Callback) (input : StepInput)
    (every_n_steps : option Z) (count : Z) : list Event :=
  callback_events 0 callbacks on_train_step_start
  ++ [EvTrainStep input]
  ++ callback_events 0 callbacks on_train_step_end
  ++ (if is_due every_n_steps count then [EvEvaluate AfterStep] else []).

(** The train events of the epoch routine before its step loop, entered
    with in-epoch step count [count]. *)
Definition epoch_start_calls (callbacks : list Callback) (count : Z) : list Event :=
  EvLog StartedTrainEpoch
  :: (if count =? 0
      then EvUnit on_train_epoch_start :: callback_events 0 callbacks on_train_epoch_start
      else []).

(** The train events of the epoch routine after its step loop. *)
Definition epoch_end_calls (callbacks : list Callback) (every_n_epochs : option Z)
    (any_steps_completed : bool) (epochs : Z) : list Event :=
  (if any_steps_completed then [] else [EvLog NoStepsCompleted])
  ++ [EvUnit on_train_epoch_end]
  ++ callback_events 0 callbacks on_train_epoch_end
  ++ (if is_due every_n_epochs epochs then [EvEvaluate AfterEpoch] else [])
  ++ [EvLog EndedTrainEpoch].

(** Events of a step loop that runs no evaluation pass. *)
Definition plain_step_event (e : Event) : bool :=
  match e with
  | EvCallback _ on_train_step_start | EvCallback _ on_train_step_end => true
  | EvTrainStep _ => true
  | EvLog ReceivedSignalToStop => true
  | _ => false
  end.

Definition not_event (Q : Event -> bool) (e : Event) : bool := negb (Q e).

(** The train events of a step loop that completed the steps [steps],
    entered with in-epoch step count [count]. *)
Fixpoint loop_calls (callbacks : list Callback) (every_n_steps : option Z)
    (count : Z) (steps : list StepInput) : list Event :=
  match steps with
  | [] => []
  | input :: rest =>
      step_calls callbacks input every_n_steps (count + 1)
      ++ loop_calls callbacks every_n_steps (count + 1) rest
  end.

(** [n] is a multiple of [k]. *)
Definition multiple_of (k n : Z) : bool :=
  if k =? 0 then n =? 0 else n mod k =? 0.

(** Steps and the evaluation passes between them: after the step that
    brings the in-epoch step count to a multiple of [k] comes one
    evaluation pass, after any other step none. *)
Fixpoint interleaved (k : Z) (count : Z) (steps : list StepInput) : list Event :=
  match steps with
  | [] => []
  | input :: rest =>
      EvTrainStep input
      :: (if multiple_of k (count + 1) then [EvEvaluate AfterStep] else [])
      ++ interleaved k (count + 1) rest
  end.

Definition step_or_evaluation (e : Event) : bool :=
  is_train_step e || is_evaluate_at AfterStep e.

(** [succeeds I Q m]: started in a world satisfying [I], [m] returns
    normally, in a world satisfying [I], a value satisfying [Q]. *)
Definition succeeds {A} (I : World -> Prop) (Q : A -> Prop) (m : M A) : Prop :=
  forall w, I w -> exists w' a, m w = Ok w' a /\ I w' /\ Q a.

(** The worlds of an undisturbed epoch: nobody asked to stop, the train
    PhaseState has no step limit and a dataloader shorter than the fuel of
    the step loop, and the eval PhaseState is in place if one is needed. *)
Definition steady (fuel : nat) (has_eval : bool) (w : World) : Prop :=
  should_stop (state w) = false
  /\ (exists ts, train_state (state w) = Some ts
                 /\ (length (dataloader ts) < fuel)%nat
                 /\ max_steps_per_epoch ts = None /\ max_steps ts = None)
  /\ (has_eval = true -> is_Some (eval_state (state w))).

Definition anything {A} (a : A) : Prop := True.

(** The world in which the epoch routine tests the in-epoch step count:
    the start is logged, the phase is tagged, the modules are in train
    mode. *)
Definition epoch_entry (w : World) : World :=
  set_modules
    (((fun _ => true) <$> restrict (dom (modules w)) (modules w)) ∪ modules w)
    (upd_state (set_active_phase ActivePhase.TRAIN)
       (add_event (EvLog StartedTrainEpoch) w)).

(** ** Concrete units, callbacks and worlds *)

Definition quiet_step : StepOutcome := mkStepOutcome quiet 0 0.

Definition raising (e : exn) : HookOutcome := mkHookOutcome false (Some e).

(** A unit whose hooks and steps do nothing; its step takes batches. *)
Definition calm_unit : TrainUnit :=
  mkTrainUnit (fun _ _ => quiet) (fun _ _ => quiet_step) (fun _ _ => quiet_step) false.

(** A unit whose [train_step] raises [e]. *)
Definition failing_unit (e : exn) : TrainUnit :=
  mkTrainUnit (fun _ _ => quiet)
              (fun _ _ => mkStepOutcome (raising e) 0 0)
              (fun _ _ => quiet_step) false.

(** A unit whose [train_step] calls [state.stop()]. *)
Definition stopping_unit : TrainUnit :=
  mkTrainUnit (fun _ _ => quiet)
              (fun _ _ => mkStepOutcome (mkHookOutcome true None) 0 0)
              (fun _ _ => quiet_step) false.

(** A unit whose [train_step] takes the data iterator and pulls [per_call]
    batches from it with [next]; when fewer than [per_call] batches are
    left, [next] raises StopIteration out of the step. *)
Definition pulling_unit (per_call : nat) : TrainUnit :=
  mkTrainUnit (fun _ _ => quiet)
              (fun input _ =>
                 match input with
                 | InIter remaining =>
                     if (length remaining <? per_call)%nat
                     then mkStepOutcome (raising StopIteration) 0 0
                     else mkStepOutcome quiet per_call 0
                 | InBatch _ => quiet_step
                 end)
              (fun _ _ => quiet_step) true.

(** A callback that exposes every hook and does nothing, and one that
    exposes none. *)
Definition observer : Callback := fun _ => Some (fun _ => quiet).

Definition bystander : Callback := fun _ => None.

Definition demo_train (dl : list Batch) (p : Progress) (me : option Z) : PhaseState :=
  mkPhaseState dl p me None None None None None.

Definition demo_eval (every_n_steps every_n_epochs : option Z) : PhaseState :=
  mkPhaseState [7%nat] Progress_init None None None every_n_steps every_n_epochs None.

(** A world with one tracked module, in eval mode. *)
Definition demo_world (ts : option PhaseState) (es : option PhaseState) : World :=
  mkWorld (State_init TRAIN ts es None) {[ "encoder" := false ]} [].

Definition world_after {A} (r : Result A) (w0 : World) : World :=
  default w0 (final r).

(** Two batches, one epoch allowed. *)
Definition one_epoch_world : World :=
  demo_world (Some (demo_train [1; 2]%nat Progress_init (Some 1))) None.

(** A dataloader and no limit at all. *)
Definition unlimited_world (dl : list Batch) : World :=
  demo_world (Some (demo_train dl Progress_init None)) None.

(** An epoch entered again after two of its steps, as after a checkpoint
    reload. *)
Definition resumed_world : World :=
  demo_world (Some (demo_train [1; 2]%nat (mkProgress 0 2 2) None)) None.

(** Four batches and an eval PhaseState with the given cadences. *)
Definition interleaved_world (every_n_steps every_n_epochs : option Z) : World :=
  demo_world (Some (demo_train [1; 2; 3; 4]%nat Progress_init None))
             (Some (demo_eval every_n_steps every_n_epochs)).

(** No train PhaseState. *)
Definition unconfigured_world : World := demo_world None None.

(** * data/dataloaders.py *)

(** ** MultiDataLoader *)

(** What the dict of dataloaders may hold ([Union[DataLoader, Iterable]]):
    an object whose [iter] starts a new pass each time (a DataLoader, a
    list), or an iterator (a generator), whose [iter] is the object itself
    and whose elements are gone once yielded. *)
Inductive Source :=
| Reiterable (items : list Batch)
| OneShot (remaining : list Batch).

Definition contents (s : Source) : list Batch :=
  match s with
  | Reiterable items => items
  | OneShot remaining => remaining
  end.

(** [next(iter(s))]: the element obtained ([None] stands for StopIteration)
    and the object afterwards. *)
Definition probe (s : Source) : option Batch * Source :=
  match s with
  | Reiterable items => (head items, Reiterable items)
  | OneShot remaining => (head remaining, OneShot (tail remaining))
  end.

(** Python objects are shared by reference: the dataloaders live in a store
    indexed by object identity, and the dict maps names to identities, in
    insertion order. *)
Definition Store := nat -> Source.

Definition store_set (h : Store) (i : nat) (s : Source) : Store :=
  fun j => if Nat.eqb j i then s else h j.

Definition Dict := list (string * nat).

Definition dict_keys (d : Dict) : list string := map fst d.

Definition dict_get (d : Dict) (name : string) : option nat :=
  snd <$> List.find (fun kv => String.eqb (fst kv) name) d.

Inductive DataExn :=
| NoDataError (name : string)   (* ValueError("DataLoader '{name}' contains no data.") *)
| DictKeyError (name : string). (* KeyError of a dict subscript *)

(** The outcome of a constructor: the object or the exception, with the
    store it leaves and the warnings it logged. *)
Inductive Built (A : Type) :=
| Constructed (a : A) (h : Store) (warnings : list string)
| Failed (e : DataExn) (h : Store) (warnings : list string).
Arguments Constructed {A} a h warnings.
Arguments Failed {A} e h warnings.

(** The [for name in list(individual_dataloaders.keys())] loop of
    [MultiDataLoader.__init__]. *)
Fixpoint probe_each (d : Dict) (ignore_empty_data : bool) (names : list string)
    (h : Store) (warnings : list string) : Built unit :=
  match names with
  | [] => Constructed tt h warnings
  | name :: rest =>
      match dict_get d name with
      | None => Failed (DictKeyError name) h warnings
      | Some i =>
          let r := probe (h i) in
          let h' := store_set h i (snd r) in
          match fst r with
          | Some _ => probe_each d ignore_empty_data rest h' warnings
          | None =>
              if negb ignore_empty_data
              then Failed (NoDataError name) h' warnings
              else probe_each d ignore_empty_data rest h' (warnings ++ [name])
          end
      end
  end.

Section MultiDataLoader.

(** [DataIterationStrategy] and the subclasses of [MultiIterator] belong to
    torchtnt/data/iterators.py, which is not among the sources; the
    constructor only stores them. *)
Context {DataIterationStrategy MultiIteratorCls : Type}.

Record MultiDataLoader := mkMultiDataLoader {
  individual_dataloaders : Dict;
  iteration_strategy : DataIterationStrategy;
  iterator_cls : option MultiIteratorCls
}.

Definition MultiDataLoader_init (d : Dict) (strategy : DataIterationStrategy)
    (cls : option MultiIteratorCls) (ignore_empty_data : bool) (h : Store)
  : Built MultiDataLoader :=
  match probe_each d ignore_empty_data (dict_keys d) h [] with
  | Constructed _ h' warnings => Constructed (mkMultiDataLoader d strategy cls) h' warnings
  | Failed e h' warnings => Failed e h' warnings
  end.

End MultiDataLoader.

(** The object after one probe. *)
Definition advance (s : Source) : Source := snd (probe s).

Definition is_exhausted (h : Store) (kv : string * nat) : bool :=
  bool_decide (contents (h (snd kv)) = []).

(** ** StatefulDataLoader *)

(** The values of a state dict: integers and nested dicts. *)
#[warnings="-register-all"]
Inductive Value :=
| VInt (n : Z)
| VDict (d : gmap string Value).

Inductive StateExn :=
| AttributeError (attr : string)
| TypeError
| KeyError (key : string).

Section StatefulDataLoader.

(** [StatefulDistributedSampler] belongs to torchtnt/data/samplers.py, which
    is not among the sources: its methods are parameters. [Loaded] is
    whatever [sampler.load_state_dict] does with the dict it is given. *)
Context {Sampler Loaded : Type}.
Variable sampler_state_dict : Sampler -> gmap string Value.
Variable sampler_load_state_dict : gmap string Value -> Sampler -> Loaded.
Variable world_size : Sampler -> Z.

(** [_iter] is assigned by [__iter__] only: [None] is the attribute not
    being there, [Some n] an iterator with [_num_yielded = n]. [batch_size]
    is the attribute of the torch DataLoader, an [Optional[int]]. *)
Record StatefulDataLoader := mkStatefulDataLoader {
  sampler : Sampler;
  batch_size : option Z;
  _iter : option Z
}.

Definition state_dict (dl : StatefulDataLoader) : StateExn + gmap string Value :=
  let s := sampler_state_dict (sampler dl) in
  match _iter dl with
  | None => inl (AttributeError "_iter")
  | Some num_yielded =>
      match batch_size dl with
      | None => inl TypeError
      | Some b =>
          inr (<["start_index" := VInt (num_yielded * b * world_size (sampler dl))]>
                 {[ "sampler" := VDict s ]})
      end
  end.

(** [load_state_dict] updates the dict held under "sampler" in place, so
    the caller's [state_dict] changes too: the result is the argument as it
    is afterwards, and what [sampler.load_state_dict] made of the updated
    dict. *)
Definition load_state_dict (sd : gmap string Value) (dl : StatefulDataLoader)
  : StateExn + (gmap string Value * Loaded) :=
  match sd !! "sampler" with
  | None => inl (KeyError "sampler")
  | Some (VInt _) => inl (AttributeError "update")
  | Some (VDict s) =>
      match sd !! "start_index" with
      | None => inl (KeyError "start_index")
      | Some v =>
          let s' := <["start_index" := v]> s in
          inr (<["sampler" := VDict s']> sd, sampler_load_state_dict s' (sampler dl))
      end
  end.

End StatefulDataLoader.

(** ** Concrete dataloaders *)

(** Three objects: a DataLoader of two batches, an exhausted generator and
    a generator with two elements left. *)
Definition demo_store : Store :=
  fun i => match i with
           | O => Reiterable [1; 2]%nat
           | S O => OneShot []
           | _ => OneShot [5; 6]%nat
           end.

Definition demo_dict : Dict := [("images", 0%nat); ("audio", 1%nat); ("text", 2%nat)].

(** A sampler reduced to its state dict. *)
Definition demo_loader : @StatefulDataLoader (gmap string Value) :=
  mkStatefulDataLoader {[ "epoch" := VInt 3; "start_index" := VInt 0 ]} (Some 4) (Some 5).

(** * More vocabulary for train.py *)

(** The first negative value of a list of named limits. *)
Fixpoint first_negative (limits : list (string * option Z)) : option (string * Z) :=
  match limits with
  | [] => None
  | (name, v) :: rest =>
      if negative v then Some (name, default 0 v) else first_negative rest
  end.

(** Everything but what [_train_impl] alone records: the start log and the
    [on_train_start] and [on_train_end] hooks. *)
Definition epoch_level_event (e : Event) : bool :=
  match e with
  | EvUnit on_train_start | EvUnit on_train_end => false
  | EvCallback _ on_train_start | EvCallback _ on_train_end => false
  | EvLog StartedTrain => false
  | _ => true
  end.

(** What a train run records outside its epochs: the logs of [train] and
    [_train_impl], the [on_train_start], [on_train_end] and [on_exception]
    hooks, and the warning of [State.stop]. *)
Definition outer_event (e : Event) : bool :=
  match e with
  | EvUnit on_train_start | EvUnit on_train_end | EvUnit (on_exception _) => true
  | EvCallback _ on_train_start | EvCallback _ on_train_end
  | EvCallback _ (on_exception _) => true
  | EvLog StartedTrain | EvLog FinishedTrain | EvLog (ExceptionDuringTrain _)
  | EvLog ReceivedSignalToStop => true
  | _ => false
  end.

(** [ends m]: [m] returns or raises, it does not run out of fuel. *)
Definition ends {A} (m : M A) : Prop :=
  forall w, exists w', final (m w) = Some w'.

(** ** Step budgets *)

(** Progress outside the step loop: the completed steps stand still. *)
Definition steps_kept (p p' : Progress) : Prop :=
  num_steps_completed p' = num_steps_completed p.

(** [one_more w w']: a piece of a run during which at most one step was
    completed, both step counters moving together. *)
Definition one_more (w w' : World) : Prop :=
  evolves step_rel any_event w w'
  /\ forall ts ts',
       train_state (state w) = Some ts -> train_state (state w') = Some ts' ->
       num_steps_completed (progress ts') <= num_steps_completed (progress ts) + 1.

(** [loop_capped w w']: a piece of the step loop. It takes neither the
    completed steps beyond [max_steps] nor the steps completed in the epoch
    beyond [max_steps_per_epoch], unless they were beyond already. *)
Definition loop_capped (w w' : World) : Prop :=
  evolves step_rel any_event w w'
  /\ forall ts ts',
       train_state (state w) = Some ts -> train_state (state w') = Some ts' ->
       (forall m, max_steps ts = Some m ->
          num_steps_completed (progress ts')
          <= Z.max (num_steps_completed (progress ts)) m)
       /\ (forall m, max_steps_per_epoch ts = Some m ->
             num_steps_completed_in_epoch (progress ts')
             <= Z.max (num_steps_completed_in_epoch (progress ts)) m).

(** [epoch_capped w w']: a piece of the epoch routine. The completed steps
    do not decrease, do not go beyond [max_steps] unless they were beyond
    already, and grow by no more than what [max_steps_per_epoch] leaves
    after the steps already completed in the epoch. *)
Definition epoch_capped (w w' : World) : Prop :=
  evolves any_progress any_event w w'
  /\ forall ts ts',
       train_state (state w) = Some ts -> train_state (state w') = Some ts' ->
       num_steps_completed (progress ts) <= num_steps_completed (progress ts')
       /\ (forall m, max_steps ts = Some m ->
             num_steps_completed (progress ts')
             <= Z.max (num_steps_completed (progress ts)) m)
       /\ (forall m, max_steps_per_epoch ts = Some m ->
             num_steps_completed (progress ts') - num_steps_completed (progress ts)
             <= Z.max 0 (m - num_steps_completed_in_epoch (progress ts))).

(** [capped w w']: a piece of a train run. The completed steps do not
    decrease and do not go beyond [max_steps], unless they were beyond
    already. *)
Definition capped (w w' : World) : Prop :=
  evolves any_progress any_event w w'
  /\ forall ts ts',
       train_state (state w) = Some ts -> train_state (state w') = Some ts' ->
       num_steps_completed (progress ts) <= num_steps_completed (progress ts')
       /\ (forall m, max_steps ts = Some m ->
             num_steps_completed (progress ts')
             <= Z.max (num_steps_completed (progress ts)) m).

(** A world whose train PhaseState has the given progress and limits. *)
Definition limited_world (dl : list Batch) (p : Progress)
    (me ms mspe : option Z) : World :=
  demo_world (Some (mkPhaseState dl p me ms mspe None None None)) None.

(** ** Undisturbed runs under limits *)

(** The worlds of an undisturbed run: nobody asked to stop, the train
    PhaseState is there with the configuration of [cfg], and an eval
    PhaseState is there exactly when [has_eval] says so. *)
Definition settled (cfg : PhaseState) (has_eval : bool) (w : World) : Prop :=
  should_stop (state w) = false
  /\ (exists ts, train_state (state w) = Some ts /\ same_config cfg ts)
  /\ (if has_eval then is_Some (eval_state (state w))
      else eval_state (state w) = None).

(** How many more steps a limit leaves after [count] of them; [None] when
    there is no limit. *)
Definition room (count : Z) (limit : option Z) : option nat :=
  (fun m => Z.to_nat (m - count)) <$> limit.

Definition cap (r : option nat) (n : nat) : nat :=
  match r with
  | Some k => Nat.min k n
  | None => n
  end.

(** The number of steps the step loop takes over [n] batches, entered with
    progress [p] under the two step limits. *)
Definition allowance (p : Progress) (max_steps_per_epoch max_steps : option Z)
    (n : nat) : nat :=
  cap (room (num_steps_completed_in_epoch p) max_steps_per_epoch)
      (cap (room (num_steps_completed p) max_steps) n).

(** The world after [_run_callback_fn] when no callback raises or stops. *)
Definition after_callbacks (callbacks : list Callback) (h : Hook) (w : World) : World :=
  mkWorld (state w) (modules w) (trace w ++ callback_events 0 callbacks h).

(** The world in which [_train_impl] enters its epoch loop when the
    [on_train_start] hooks neither raise nor stop. *)
Definition train_entry (callbacks : list Callback) (w : World) : World :=
  let w2 := upd_state (set_active_phase ActivePhase.TRAIN)
              (add_event (EvLog StartedTrain)
                 (upd_state (set_entry_point TRAIN) w)) in
  let w3 := set_modules
              (((fun _ => true) <$> restrict (dom (modules w2)) (modules w2))
                 ∪ modules w2) w2 in
  after_callbacks callbacks on_train_start (add_event (EvUnit on_train_start) w3).

(** The world [train] returns in when the epoch loop ended in [w5] and the
    [on_train_end] hooks neither raise nor stop. *)
Definition train_exit (callbacks : list Callback) (w w5 : World) : World :=
  add_event (EvLog FinishedTrain)
    (set_modules
       (restrict (dom (modules w)) (restrict (dom (modules w)) (modules w))
          ∪ modules w5)
       (after_callbacks callbacks on_train_end (add_event (EvUnit on_train_end) w5))).

(** ** The except block in the history *)

(** What only the [except Exception] block of an entry point records. *)
Definition is_exception_event (e : Event) : bool :=
  match e with
  | EvUnit (on_exception _) | EvCallback _ (on_exception _) => true
  | EvLog (ExceptionDuringTrain _) | EvLog (ExceptionDuringTrainEpoch _) => true
  | _ => false
  end.

Definition body_event (e : Event) : bool := negb (is_exception_event e).

(** What follows the [on_exception] call on the unit: the [on_exception]
    calls on the callbacks, and the warning of [State.stop] if one of the
    handlers calls it. *)
Definition exception_callback_event (e : Event) : bool :=
  match e with
  | EvCallback _ (on_exception _) | EvLog ReceivedSignalToStop => true
  | _ => false
  end.

(** ** Steps that are cut short *)

(** In the run that led to [w'], [train_step] was called on [input] and
    raised: the world [wx] of the call has the record of the call as its
    last event and its history is an initial part of the history of
    [w']. *)
Definition step_raised (u : TrainUnit) (input : StepInput) (w' : World) : Prop :=
  exists wx e,
    ho_raise (so_outcome (train_step u input wx)) = Some e
    /\ last (trace wx) = Some (EvTrainStep input)
    /\ trace wx `prefix_of` trace w'.

(** In the run that led to [w'], a callback was called in
    [on_train_step_end] and raised. *)
Definition step_end_raised (callbacks : list Callback) (w' : World) : Prop :=
  exists i cb f wx e,
    callbacks !! i = Some cb /\ cb on_train_step_end = Some f
    /\ ho_raise (f wx) = Some e
    /\ last (trace wx) = Some (EvCallback i on_train_step_end)
    /\ trace wx `prefix_of` trace w'.

(** How the last pass through the body of the step loop may fall short of
    its evaluation test: not at all ([last] is empty); [train_step] raised,
    and the step is not counted; or [train_step] returned, the step was
    counted, and a callback raised in [on_train_step_end]. [last] holds
    the [train_step] call of that pass and [counted] says whether it was
    counted. *)
Definition cut_short (u : TrainUnit) (callbacks : list Callback) (w' : World)
    (last : list Event) (counted : nat) : Prop :=
  (last = [] /\ counted = 0%nat)
  \/ (exists input, last = [EvTrainStep input] /\ counted = 0%nat
                    /\ step_raised u input w')
  \/ (exists input, last = [EvTrainStep input] /\ counted = 1%nat
                    /\ step_end_raised callbacks w').

(** A callback that raises StopIteration in [on_train_step_end] and
    exposes no other hook. *)
Definition quitting_callback : Callback :=
  fun h =>
    match h with
    | on_train_step_end => Some (fun _ => raising StopIteration)
    | _ => None
    end.

(** ** Runs that end *)

(** The evaluation pass ends: it returns or raises. *)
Definition evaluate_ends (ev : TrainUnit -> list Callback -> M unit) : Prop :=
  forall u callbacks, ends (ev u callbacks).

(** A step that takes the data iterator pulls from it: a call that returns
    has pulled at least one batch, and no more than were left, so that on
    the exhausted iterator the call raises (the StopIteration of [next]).
    Nothing is asked of a step that takes batches. *)
Definition step_advances (u : TrainUnit) : Prop :=
  train_step_requires_iterator u = true ->
  forall remaining w,
    ho_raise (so_outcome (train_step u (InIter remaining) w)) = None ->
    (0 < so_consumed (train_step u (InIter remaining) w) <= length remaining)%nat.

(** ** Where an exception comes from *)

Definition is_train_hook (h : Hook) : bool :=
  match h with
  | on_train_start | on_train_epoch_start | on_train_step_start
  | on_train_step_end | on_train_epoch_end | on_train_end => true
  | _ => false
  end.

(** Records of the calls the train loop makes: train hooks of the unit and
    of the callbacks, [train_step], and the evaluation pass. *)
Definition is_train_call (c : Event) : bool :=
  match c with
  | EvUnit h | EvCallback _ h => is_train_hook h
  | EvTrainStep _ | EvEvaluate _ => true
  | _ => false
  end.

(** The exception with which the code behind a call record of the train
    loop ends when it is called in the world [wx], the world right after
    the record was made: a train hook of the unit, [train_step], a train
    hook of the [i]-th callback, or the evaluation pass. [None] when that
    code returns, and for any other record. *)
Definition raised_by (ev : TrainUnit -> list Callback -> M unit) (u : TrainUnit)
    (callbacks : list Callback) (c : Event) (wx : World) : option exn :=
  match c with
  | EvUnit h => if is_train_hook h then ho_raise (unit_hook u h wx) else None
  | EvTrainStep input => ho_raise (so_outcome (train_step u input wx))
  | EvCallback i h =>
      if is_train_hook h
      then match callbacks !! i with
           | Some cb => match cb h with
                        | Some f => ho_raise (f wx)
                        | None => None
                        end
           | None => None
           end
      else None
  | EvEvaluate _ =>
      match ev u callbacks wx with
      | Raise _ e => Some e
      | _ => None
      end
  | _ => None
  end.

(** [raises_at ev u callbacks e history]: the last record of [history] is
    a call of the train loop, and the code it calls raises [e] whenever it
    is called with this history behind it. *)
Definition raises_at (ev : TrainUnit -> list Callback -> M unit) (u : TrainUnit)
    (callbacks : list Callback) (e : exn) (history : list Event) : Prop :=
  exists c, last history = Some c
    /\ forall wx, trace wx = history -> raised_by ev u callbacks c wx = Some e.

(** Calls made inside the [try] of the step loop. *)
Definition in_step_try (c : Event) : bool :=
  match c with
  | EvTrainStep _ | EvCallback _ on_train_step_start
  | EvCallback _ on_train_step_end | EvEvaluate AfterStep => true
  | _ => false
  end.

(** A history at which [e] is raised out of reach of the
    [except StopIteration] of the step loop. *)
Definition struck_at (ev : TrainUnit -> list Callback -> M unit) (u : TrainUnit)
    (callbacks : list Callback) (e : exn) (history : list Event) : Prop :=
  raises_at ev u callbacks e history
  /\ forall c, last history = Some c -> is_StopIteration e && in_step_try c = false.

(** The exception a piece of a run ended with, if any. *)
Definition outcome {A} (r : Result A) : option exn :=
  match r with
  | Raise _ e => Some e
  | _ => None
  end.

(** [unswallowed ev u callbacks e r w w']: in the piece of a run from [w]
    to [w'], which ended with [r], a call at which [e] is raised has ended
    the piece with [e]: after the call nothing but the events of an
    evaluation pass or the warning of [State.stop] is recorded. *)
Definition unswallowed (ev : TrainUnit -> list Callback -> M unit) (u : TrainUnit)
    (callbacks : list Callback) (e : exn) (r : option exn) (w w' : World) : Prop :=
  exists evs, trace w' = trace w ++ evs
    /\ forall pre c rest, evs = pre ++ c :: rest ->
         struck_at ev u callbacks e (trace w ++ pre ++ [c]) ->
         r = Some e /\ forallb is_eval_event rest = true.

(** [transparent ev u callbacks e m]: [m] lets [e] through. *)
Definition transparent (ev : TrainUnit -> list Callback -> M unit) (u : TrainUnit)
    (callbacks : list Callback) (e : exn) {A} (m : M A) : Prop :=
  forall w w', final (m w) = Some w' ->
    unswallowed ev u callbacks e (outcome (m w)) w w'.

(** A callback whose [on_exception] handler raises [e'], and which
    exposes no other hook. *)
Definition failing_handler (e' : exn) : Callback :=
  fun h =>
    match h with
    | on_exception _ => Some (fun _ => raising e')
    | _ => None
    end.

(** * Reasoning principles *)

Lemma bind_Ok_inv {A B} (m : M A) (k : A -> M B) w w' b :
  bind m k w = Ok w' b -> exists w1 a, m w = Ok w1 a /\ k a w1 = Ok w' b.
Proof. unfold bind. destruct (m w) as [w1 a| |]; [eauto | discriminate..]. Qed.

Lemma bind_Raise_inv {A B} (m : M A) (k : A -> M B) w w' e :
  bind m k w = Raise w' e ->
  m w = Raise w' e \/ exists w1 a, m w = Ok w1 a /\ k a w1 = Raise w' e.
Proof.
  unfold bind. destruct (m w) as [w1 a| |]; intros H.
  - right. exists w1, a. auto.
  - left. injection H as -> ->. reflexivity.
  - discriminate.
Qed.

Lemma bind_final_inv {A B} (m : M A) (k : A -> M B) w w' :
  final (bind m k w) = Some w' ->
  (exists e, m w = Raise w' e) \/
  exists w1 a, m w = Ok w1 a /\ final (k a w1) = Some w'.
Proof.
  unfold bind. destruct (m w) as [w1 a|w1 e|]; simpl; intros H.
  - right; eauto.
  - left; exists e; congruence.
  - discriminate.
Qed.

Lemma bind_Ok {A B} (m : M A) (k : A -> M B) w w1 a :
  m w = Ok w1 a -> bind m k w = k a w1.
Proof. unfold bind. intros ->. reflexivity. Qed.

Lemma new_events_app w w' evs :
  trace w' = trace w ++ evs -> new_events w w' = evs.
Proof. unfold new_events. intros ->. apply drop_app_length. Qed.

Section Ensures.
Context {A : Type} (R : relation World).

Lemma ensures_ret `{!Reflexive R} (a : A) : ensures R (ret a).
Proof. intros w w' [= <-]. reflexivity. Qed.

Lemma ensures_raise `{!Reflexive R} (e : exn) : ensures R (@raise A e).
Proof. intros w w' [= <-]. reflexivity. Qed.

Lemma ensures_out_of_fuel : ensures R (@out_of_fuel A).
Proof. intros w w' [=]. Qed.

Lemma ensures_bind `{!Transitive R} {B} (m : M B) (k : B -> M A) :
  ensures R m -> (forall b, ensures R (k b)) -> ensures R (bind m k).
Proof.
  intros Hm Hk w w' H. apply bind_final_inv in H as [[e H]|(w1 & b & H1 & H2)].
  - apply Hm. rewrite H. reflexivity.
  - transitivity w1.
    + apply Hm. rewrite H1. reflexivity.
    + eapply Hk, H2.
Qed.

Lemma ensures_try_except `{!Transitive R} (body : M A) catches handler :
  ensures R body -> (forall e, ensures R (handler e)) ->
  ensures R (try_except body catches handler).
Proof.
  intros Hb Hh w w'. unfold try_except.
  destruct (body w) as [w1 a|w1 e|] eqn:E; simpl.
  - intros [= <-]. apply Hb. rewrite E. reflexivity.
  - destruct (catches e).
    + intros H. transitivity w1.
      * apply Hb. rewrite E. reflexivity.
      * eapply Hh, H.
    + simpl. intros [= <-]. apply Hb. rewrite E. reflexivity.
  - discriminate.
Qed.

Lemma ensures_weaken (R' : relation World) (m : M A) :
  (forall w w', R' w w' -> R w w') -> ensures R' m -> ensures R m.
Proof. intros H Hm w w' Hf. apply H, Hm, Hf. Qed.
End Ensures.

Lemma ensures_get (R : relation World) `{!Reflexive R} : ensures R get.
Proof. intros w w' [= <-]. reflexivity. Qed.

Lemma ensures_when (R : relation World) `{!Reflexive R} b m :
  ensures R m -> ensures R (when b m).
Proof. destruct b; simpl; [trivial | intros _; apply ensures_ret; assumption]. Qed.

Lemma ensures_modify (R : relation World) f :
  (forall w, R w (f w)) -> ensures R (modify f).
Proof. intros H w w' [= <-]. apply H. Qed.

(** ** The relations are preorders *)

#[global] Instance step_rel_preorder : PreOrder step_rel.
Proof.
  split.
  - intros p. unfold step_rel. lia.
  - intros p q r. unfold step_rel. lia.
Qed.

#[global] Instance any_progress_preorder : PreOrder any_progress.
Proof. split; intros ?; unfold any_progress; auto. Qed.

Lemma same_config_refl a : same_config a a.
Proof. unfold same_config. auto. Qed.

Lemma same_config_trans a b c : same_config a b -> same_config b c -> same_config a c.
Proof. unfold same_config. intros (?&?&?&?) (?&?&?&?). repeat split; congruence. Qed.

Lemma extends_refl P w : extends P w w.
Proof. exists []. split; [symmetry; apply app_nil_r | reflexivity]. Qed.

Lemma extends_trans P w1 w2 w3 : extends P w1 w2 -> extends P w2 w3 -> extends P w1 w3.
Proof.
  intros (e1 & H1 & F1) (e2 & H2 & F2). exists (e1 ++ e2). split.
  - rewrite H2, H1. symmetry. apply app_assoc.
  - rewrite forallb_app, F1, F2. reflexivity.
Qed.

Lemma extends_weaken (P Q : Event -> bool) w w' :
  (forall e, P e = true -> Q e = true) -> extends P w w' -> extends Q w w'.
Proof.
  intros H (evs & Ht & F). exists evs. split; [assumption|].
  rewrite forallb_forall in *. auto.
Qed.

Lemma train_rel_refl Rp `{!Reflexive Rp} w : train_rel Rp w w.
Proof.
  unfold train_rel. destruct (train_state (state w)); [|trivial].
  split; [apply same_config_refl | reflexivity].
Qed.

Lemma train_rel_trans Rp `{!Transitive Rp} w1 w2 w3 :
  train_rel Rp w1 w2 -> train_rel Rp w2 w3 -> train_rel Rp w1 w3.
Proof.
  unfold train_rel.
  destruct (train_state (state w1)), (train_state (state w2)),
    (train_state (state w3)); try tauto.
  intros [C1 P1] [C2 P2]. split.
  - eapply same_config_trans; eassumption.
  - etransitivity; eassumption.
Qed.

Lemma train_rel_weaken (Rp Rq : relation Progress) w w' :
  (forall p q, Rp p q -> Rq p q) -> train_rel Rp w w' -> train_rel Rq w w'.
Proof.
  unfold train_rel. intros H.
  destruct (train_state (state w)), (train_state (state w')); try tauto.
  intros [? ?]. auto.
Qed.

Lemma stop_set_same w w' :
  should_stop (state w') = should_stop (state w) -> stop_set_by_call w w'.
Proof. intros E H. left. congruence. Qed.

Lemma stop_set_by_call_trans P w1 w2 w3 :
  extends P w1 w2 -> extends P w2 w3 ->
  stop_set_by_call w1 w2 -> stop_set_by_call w2 w3 -> stop_set_by_call w1 w3.
Proof.
  intros (e1 & H1 & _) (e2 & H2 & _) S1 S2 H3.
  assert (H13 : trace w3 = trace w1 ++ (e1 ++ e2))
    by (rewrite H2, H1; symmetry; apply app_assoc).
  rewrite (new_events_app _ _ _ H13).
  destruct (S2 H3) as [Hs2|Hin].
  - destruct (S1 Hs2) as [Hs1|Hin]; [left; exact Hs1|].
    right. rewrite (new_events_app _ _ _ H1) in Hin. apply in_or_app. auto.
  - right. rewrite (new_events_app _ _ _ H2) in Hin. apply in_or_app. auto.
Qed.

#[global] Instance evolves_preorder Rp `{!PreOrder Rp} P : PreOrder (evolves Rp P).
Proof.
  split.
  - intros w. split.
    + intros H. exact H.
    + apply extends_refl.
    + apply train_rel_refl. apply _.
    + intros H. exact H.
    + apply stop_set_same. reflexivity.
  - intros w1 w2 w3 [S1 T1 R1 E1 C1] [S2 T2 R2 E2 C2]. split.
    + intros H. auto.
    + eapply extends_trans; eassumption.
    + eapply train_rel_trans; [apply _ | eassumption..].
    + intros H. auto.
    + eapply stop_set_by_call_trans; eassumption.
Qed.

Lemma evolves_weaken (Rp Rq : relation Progress) (P Q : Event -> bool) w w' :
  (forall p q, Rp p q -> Rq p q) ->
  (forall e, P e = true -> Q e = true) ->
  evolves Rp P w w' -> evolves Rq Q w w'.
Proof.
  intros HR HP [S T R E C]. split; [assumption| | |assumption|assumption].
  - eapply extends_weaken; eassumption.
  - eapply train_rel_weaken; eassumption.
Qed.

(** ** What each operation does to the world *)

Lemma train_rel_same Rp `{!Reflexive Rp} w w' :
  train_state (state w') = train_state (state w) -> train_rel Rp w w'.
Proof.
  unfold train_rel. intros ->. destruct (train_state (state w)); [|trivial].
  split; [apply same_config_refl | reflexivity].
Qed.

Lemma extends_same P w w' : trace w' = trace w -> extends P w w'.
Proof. intros H. exists []. split; [rewrite H; symmetry; apply app_nil_r | reflexivity]. Qed.

Section Primitives.
Context (Rp : relation Progress) `{!PreOrder Rp} (P : Event -> bool).

Lemma evolves_add_event ev w : P ev = true -> evolves Rp P w (add_event ev w).
Proof.
  intros HP. split.
  - intros H. exact H.
  - exists [ev]. simpl. rewrite HP. auto.
  - apply train_rel_same; [apply _ | reflexivity].
  - intros H. exact H.
  - apply stop_set_same. reflexivity.
Qed.

Lemma evolves_upd_state f w :
  should_stop (f (state w)) = should_stop (state w) ->
  train_state (f (state w)) = train_state (state w) ->
  (is_Some (eval_state (state w)) -> is_Some (eval_state (f (state w)))) ->
  evolves Rp P w (upd_state f w).
Proof.
  intros Hs Ht He. split.
  - intros H. simpl. congruence.
  - apply extends_same; reflexivity.
  - apply train_rel_same; [apply _ | exact Ht].
  - exact He.
  - apply stop_set_same. exact Hs.
Qed.

Lemma evolves_set_modules m w : evolves Rp P w (set_modules m w).
Proof.
  split.
  - intros H. exact H.
  - apply extends_same; reflexivity.
  - apply train_rel_same; [apply _ | reflexivity].
  - intros H. exact H.
  - apply stop_set_same. reflexivity.
Qed.

Lemma evolves_after_hook o w :
  P (EvLog ReceivedSignalToStop) = true -> evolves Rp P w (after_hook o w).
Proof.
  intros HP. unfold after_hook. destruct (ho_stop o); [|reflexivity].
  split.
  - intros _. reflexivity.
  - exists [EvLog ReceivedSignalToStop]. simpl. rewrite HP. auto.
  - apply train_rel_same; [apply _ | reflexivity].
  - intros H. exact H.
  - intros _. right. unfold new_events. simpl.
    rewrite drop_app_length. left. reflexivity.
Qed.

Lemma ensures_emit ev : P ev = true -> ensures (evolves Rp P) (emit ev).
Proof. intros HP. apply ensures_modify. intros w. apply evolves_add_event, HP. Qed.

Lemma ensures_set_active_phase ph :
  ensures (evolves Rp P) (modify (upd_state (set_active_phase ph))).
Proof. apply ensures_modify. intros w. apply evolves_upd_state; simpl; auto. Qed.

Lemma ensures_set_entry_point ep :
  ensures (evolves Rp P) (modify (upd_state (set_entry_point ep))).
Proof. apply ensures_modify. intros w. apply evolves_upd_state; simpl; auto. Qed.

Lemma ensures_tracked_modules : ensures (evolves Rp P) tracked_modules.
Proof. intros w w' [= <-]. reflexivity. Qed.

Lemma ensures_set_module_training_mode tracked mode :
  ensures (evolves Rp P) (_set_module_training_mode tracked mode).
Proof. intros w w' [= <-]. apply evolves_set_modules. Qed.

Lemma ensures_reset_module_training_mode tracked prior :
  ensures (evolves Rp P) (_reset_module_training_mode tracked prior).
Proof. apply ensures_modify. intros w. apply evolves_set_modules. Qed.

Lemma ensures_get_train_state e : ensures (evolves Rp P) (get_train_state e).
Proof.
  intros w w'. unfold get_train_state.
  destruct (train_state (state w)); intros [= <-]; reflexivity.
Qed.

Lemma ensures_get_eval_state e : ensures (evolves Rp P) (get_eval_state e).
Proof.
  intros w w'. unfold get_eval_state.
  destruct (eval_state (state w)); intros [= <-]; reflexivity.
Qed.

Lemma ensures_run_hook ev f :
  P ev = true -> P (EvLog ReceivedSignalToStop) = true ->
  ensures (evolves Rp P) (run_hook ev f).
Proof.
  intros He Hs w w'. unfold run_hook.
  destruct (ho_raise (f (add_event ev w))); intros [= <-];
    (etransitivity; [apply evolves_add_event, He | apply evolves_after_hook, Hs]).
Qed.

Lemma ensures_run_step {ev} f :
  P ev = true -> P (EvLog ReceivedSignalToStop) = true ->
  ensures (evolves Rp P) (run_step ev f).
Proof.
  intros He Hs w w'. unfold run_step.
  destruct (ho_raise (so_outcome (f (add_event ev w)))); intros [= <-];
    (etransitivity; [apply evolves_add_event, He | apply evolves_after_hook, Hs]).
Qed.

Lemma ensures_run_unit_hook u h :
  P (EvUnit h) = true -> P (EvLog ReceivedSignalToStop) = true ->
  ensures (evolves Rp P) (run_unit_hook u h).
Proof. apply ensures_run_hook. Qed.

Lemma ensures_run_callbacks_from callbacks h :
  (forall j, P (EvCallback j h) = true) -> P (EvLog ReceivedSignalToStop) = true ->
  forall i, ensures (evolves Rp P) (run_callbacks_from i callbacks h).
Proof.
  intros Hc Hs. induction callbacks as [|cb rest IH]; intros i; simpl.
  - apply ensures_ret. apply _.
  - destruct (cb h); [|apply IH].
    apply ensures_bind; [apply _ | apply ensures_run_hook; auto | intros _; apply IH].
Qed.

Lemma ensures_run_callback_fn callbacks h :
  (forall j, P (EvCallback j h) = true) -> P (EvLog ReceivedSignalToStop) = true ->
  ensures (evolves Rp P) (_run_callback_fn callbacks h).
Proof. intros. apply ensures_run_callbacks_from; assumption. Qed.

Lemma ensures_modify_train_state f :
  (forall ts, same_config ts (f ts) /\ Rp (progress ts) (progress (f ts))) ->
  ensures (evolves Rp P) (modify_train_state f).
Proof.
  intros Hf. apply ensures_modify. intros w. split.
  - intros H. exact H.
  - apply extends_same; reflexivity.
  - unfold train_rel. simpl. destruct (train_state (state w)); simpl; [apply Hf | trivial].
  - intros H. exact H.
  - apply stop_set_same. reflexivity.
Qed.

Lemma ensures_modify_eval_state f : ensures (evolves Rp P) (modify_eval_state f).
Proof.
  apply ensures_modify. intros w. split.
  - intros H. exact H.
  - apply extends_same; reflexivity.
  - apply train_rel_same; [apply _ | reflexivity].
  - unfold eval_kept. simpl. intros [x ->]. simpl. eauto.
  - apply stop_set_same. reflexivity.
Qed.

Lemma ensures_call_evaluate ev site u callbacks :
  evaluate_frame ev ->
  P (EvEvaluate site) = true ->
  (forall e, is_eval_event e = true -> P e = true) ->
  ensures (evolves Rp P) (call_evaluate ev site u callbacks).
Proof.
  intros Hev Hm Hsub. unfold call_evaluate.
  apply ensures_bind; [apply _ | apply ensures_emit, Hm | intros _].
  eapply ensures_weaken; [|apply Hev].
  intros w w'. apply evolves_weaken; [|exact Hsub].
  intros p q ->. reflexivity.
Qed.
End Primitives.

Lemma set_step_output_config o ts (Rp : relation Progress) `{!Reflexive Rp} :
  same_config ts (set_step_output o ts)
  /\ Rp (progress ts) (progress (set_step_output o ts)).
Proof. split; [unfold same_config; simpl; auto | reflexivity]. Qed.

Lemma increment_step_rel ts :
  same_config ts (upd_progress increment_step ts)
  /\ step_rel (progress ts) (progress (upd_progress increment_step ts)).
Proof. split; [unfold same_config; simpl; auto | unfold step_rel; simpl; lia]. Qed.

Lemma upd_progress_any f ts :
  same_config ts (upd_progress f ts)
  /\ any_progress (progress ts) (progress (upd_progress f ts)).
Proof. split; [unfold same_config; simpl; auto | exact I]. Qed.

Ltac event_cases :=
  let e := fresh "e" in
  intros e; destruct e as [[]| | |? []|[]|[]]; simpl;
  let H := fresh in intros H; first [discriminate H | reflexivity | congruence].

(** Solves [ensures (evolves Rp P) m] for straight-line driver code and a
    concrete [P]. *)
Ltac ens_side :=
  first
    [ apply _
    | reflexivity
    | assumption
    | intros ?; reflexivity
    | event_cases
    | intros ?; apply set_step_output_config; apply _
    | intros ?; apply increment_step_rel
    | intros ?; apply upd_progress_any ].

Ltac ens_prim :=
  first
    [ solve [apply ensures_ret; ens_side]
    | solve [apply ensures_raise; ens_side]
    | solve [apply ensures_get; ens_side]
    | apply ensures_out_of_fuel
    | solve [apply ensures_emit; ens_side]
    | solve [apply ensures_set_active_phase; ens_side]
    | solve [apply ensures_set_entry_point; ens_side]
    | solve [apply ensures_tracked_modules; ens_side]
    | solve [apply ensures_set_module_training_mode; ens_side]
    | solve [apply ensures_reset_module_training_mode; ens_side]
    | solve [apply ensures_get_train_state; ens_side]
    | solve [apply ensures_get_eval_state; ens_side]
    | solve [apply ensures_run_unit_hook; ens_side]
    | solve [apply ensures_run_step; ens_side]
    | solve [apply ensures_run_callback_fn; ens_side]
    | solve [apply ensures_modify_eval_state; ens_side]
    | solve [apply ensures_modify_train_state; ens_side]
    | solve [apply ensures_call_evaluate; ens_side] ].

Ltac ens :=
  repeat first
    [ ens_prim
    | apply ensures_bind; [apply _ | | intros ?]
    | apply ensures_when; [apply _ | ]
    | apply ensures_try_except; [apply _ | | intros ?] ].

Section StepLoop.
Context (ev : TrainUnit -> list Callback -> M unit) (Hev : evaluate_frame ev).
Context (u : TrainUnit) (callbacks : list Callback) (every_n_steps : option Z).

Lemma ensures_train_step_body data_iter :
  ensures (evolves step_rel step_event)
          (train_step_body ev u callbacks every_n_steps data_iter).
Proof.
  unfold train_step_body, fetch_step_input.
  destruct (train_step_requires_iterator u); [|destruct data_iter]; ens.
Qed.

Lemma ensures_train_step_loop fuel : forall data_iter,
  ensures (evolves step_rel step_event)
          (train_step_loop ev fuel u callbacks every_n_steps data_iter).
Proof.
  induction fuel as [|fuel IH]; intros data_iter; simpl.
  - apply ensures_out_of_fuel.
  - apply ensures_bind; [apply _ | ens | intros w0].
    apply ensures_bind; [apply _ | ens | intros ts].
    destruct (_ || _); [ens|].
    apply ensures_bind; [apply _ | | intros [it|]; [apply IH | ens]].
    apply ensures_try_except; [apply _ | | intros _; ens].
    apply ensures_bind; [apply _ | apply ensures_train_step_body | intros it; ens].
Qed.
End StepLoop.

Section EpochLoop.
Context (ev : TrainUnit -> list Callback -> M unit) (Hev : evaluate_frame ev).
Context (u : TrainUnit) (callbacks : list Callback).

Lemma ensures_train_step_loop_any fuel every_n_steps data_iter :
  ensures (evolves any_progress any_event)
          (train_step_loop ev fuel u callbacks every_n_steps data_iter).
Proof.
  eapply ensures_weaken; [|apply ensures_train_step_loop, Hev].
  intros w w'. apply evolves_weaken; [intros; exact I | reflexivity].
Qed.

Lemma ensures_train_epoch_impl fuel :
  ensures (evolves any_progress any_event) (_train_epoch_impl ev fuel u callbacks).
Proof. unfold _train_epoch_impl. ens. apply ensures_train_step_loop_any. Qed.

Lemma ensures_train_epoch_loop fuel_steps fuel_epochs :
  ensures (evolves any_progress any_event)
          (train_epoch_loop ev fuel_epochs fuel_steps u callbacks).
Proof.
  induction fuel_epochs as [|fuel IH]; simpl.
  - apply ensures_out_of_fuel.
  - apply ensures_bind; [apply _ | ens | intros w0].
    apply ensures_bind; [apply _ | ens | intros ts].
    destruct (_ || _); [ens|].
    apply ensures_bind; [apply _ | apply ensures_train_epoch_impl | intros _; apply IH].
Qed.

Lemma ensures_train_impl fuel_epochs fuel_steps :
  ensures (evolves any_progress any_event)
          (_train_impl ev fuel_epochs fuel_steps u callbacks).
Proof. unfold _train_impl. ens. apply ensures_train_epoch_loop. Qed.

Lemma ensures_exception_handler msg e :
  ensures (evolves any_progress any_event) (exception_handler msg u callbacks e).
Proof. unfold exception_handler. ens. Qed.

Lemma ensures_train_body fuel_epochs fuel_steps :
  ensures (evolves any_progress any_event)
          (train_body ev fuel_epochs fuel_steps u callbacks).
Proof.
  unfold train_body.
  apply ensures_bind; [apply _ | ens | intros _].
  apply ensures_bind; [apply _ | apply ensures_train_impl | intros _; ens].
Qed.
End EpochLoop.

Lemma ensures_train ev fuel_epochs fuel_steps u callbacks :
  evaluate_frame ev ->
  ensures (evolves any_progress any_event) (train ev fuel_epochs fuel_steps u callbacks).
Proof.
  intros Hev. unfold train.
  apply ensures_try_except; [apply _ | apply ensures_train_body, Hev | intros e].
  apply ensures_exception_handler.
Qed.

Lemma ensures_train_epoch ev fuel u callbacks :
  evaluate_frame ev ->
  ensures (evolves any_progress any_event) (train_epoch ev fuel u callbacks).
Proof.
  intros Hev. unfold train_epoch.
  apply ensures_try_except; [apply _ | | intros e; apply ensures_exception_handler].
  unfold train_epoch_body.
  apply ensures_bind; [apply _ | ens | intros ts].
  destruct (negb _); [ens|].
  apply ensures_bind; [apply _ | ens | intros _].
  apply ensures_bind; [apply _ | ens | intros _].
  apply ensures_bind; [apply _ | apply ensures_train_epoch_impl, Hev | intros _; ens].
Qed.

(** ** The evaluation pass of this development meets the assumptions *)

Lemma ensures_eval_step_loop u callbacks data_iter :
  ensures (evolves eq is_eval_event) (eval_step_loop u callbacks data_iter).
Proof.
  induction data_iter as [|b rest IH]; simpl.
  - ens.
  - apply ensures_bind; [apply _ | ens | intros w0].
    apply ensures_bind; [apply _ | ens | intros es].
    destruct (_ || _); [ens|].
    apply ensures_bind; [apply _ | | intros [|]; [apply IH | ens]].
    unfold eval_step_body. ens.
Qed.

Lemma evaluate_pass_frame : evaluate_frame evaluate_pass.
Proof.
  intros u callbacks. unfold evaluate_pass. ens. apply ensures_eval_step_loop.
Qed.

(** ** First events and totality of the handlers *)

Lemma starts_with_emit {A} e0 (k : M A) w w' :
  ensures (evolves any_progress any_event) k ->
  final ((let* _ := emit e0 in k) w) = Some w' ->
  exists rest, trace w' = trace w ++ e0 :: rest.
Proof.
  intros Hk H. unfold bind, emit, modify in H.
  destruct (ev_trace _ _ _ _ (Hk _ _ H)) as (evs & Ht & _).
  exists evs. rewrite Ht. simpl. rewrite <- app_assoc. reflexivity.
Qed.

Lemma after_hook_trace o w : exists evs, trace (after_hook o w) = trace w ++ evs.
Proof.
  unfold after_hook. destruct (ho_stop o).
  - eexists. reflexivity.
  - exists []. symmetry. apply app_nil_r.
Qed.

Lemma starts_with_hook {A} e0 f (k : M A) w w' :
  ensures (evolves any_progress any_event) k ->
  final ((let* _ := run_hook e0 f in k) w) = Some w' ->
  exists rest, trace w' = trace w ++ e0 :: rest.
Proof.
  intros Hk H. unfold bind, run_hook in H.
  destruct (after_hook_trace (f (add_event e0 w)) (add_event e0 w)) as (ev1 & H1).
  destruct (ho_raise (f (add_event e0 w))).
  - injection H as <-. exists ev1. rewrite H1. simpl. rewrite <- app_assoc. reflexivity.
  - destruct (ev_trace _ _ _ _ (Hk _ _ H)) as (evs & Ht & _).
    exists (ev1 ++ evs). rewrite Ht, H1. simpl. rewrite <- !app_assoc. reflexivity.
Qed.

Lemma trace_neq_cons (l : list Event) e rest : l <> l ++ e :: rest.
Proof.
  intros H. apply (f_equal length) in H. rewrite length_app in H. simpl in H. lia.
Qed.

Lemma run_hook_ends e0 f w : exists w', final (run_hook e0 f w) = Some w'.
Proof. unfold run_hook. destruct (ho_raise _); simpl; eauto. Qed.

Lemma run_callbacks_from_ends callbacks h : forall i w,
  exists w', final (run_callbacks_from i callbacks h w) = Some w'.
Proof.
  induction callbacks as [|cb rest IH]; intros i w; simpl.
  - unfold ret. simpl. eauto.
  - destruct (cb h) as [f|]; [|apply IH].
    unfold bind, run_hook. destruct (ho_raise _); simpl; [eauto | apply IH].
Qed.

Lemma exception_handler_raises msg u callbacks e w :
  exists w' e', exception_handler msg u callbacks e w = Raise w' e'
                /\ extends handler_event w w'.
Proof.
  assert (Hens : ensures (evolves any_progress handler_event)
                         (exception_handler msg u callbacks e)).
  { unfold exception_handler. ens. }
  assert (Hraise : forall w1 a, exception_handler msg u callbacks e w <> Ok w1 a
                   /\ exception_handler msg u callbacks e w <> OutOfFuel).
  { intros w1 a. unfold exception_handler, bind, emit, modify, run_unit_hook.
    destruct (run_hook_ends (EvUnit (on_exception e)) (unit_hook u (on_exception e))
                (add_event (EvLog (msg e)) w)) as (w2 & H2).
    destruct (run_hook _ _ _) as [w3 []|w3 e3|]; [|split; discriminate|discriminate].
    unfold _run_callback_fn.
    destruct (run_callbacks_from_ends callbacks (on_exception e) 0 w3) as (w4 & H4).
    destruct (run_callbacks_from _ _ _ _) as [w5 []|w5 e5|];
      [unfold raise|..]; try (split; discriminate); discriminate. }
  destruct (exception_handler msg u callbacks e w) as [w1 a|w1 e1|] eqn:E.
  - destruct (Hraise w1 a) as [H _]. congruence.
  - exists w1, e1. split; [reflexivity|].
    apply (ev_trace _ _ _ _ (Hens w w1 ltac:(rewrite E; reflexivity))).
  - destruct (Hraise w tt) as [_ H]. congruence.
Qed.

Lemma no_step_in_handler_events evs :
  forallb handler_event evs = true -> List.filter is_train_step evs = [].
Proof.
  induction evs as [|e evs IH]; simpl; [reflexivity|].
  intros H. apply andb_true_iff in H as [He Hr].
  destruct e as [[]| | |? []|[]|[]]; simpl in *; try discriminate; auto.
Qed.

(** ** Configuration errors *)

Lemma check_loop_condition_spec name v :
  _check_loop_condition name v = if negative v then Some (ValueError name (default 0 v)) else None.
Proof. destruct v as [x|]; simpl; [destruct (x <? 0)|]; reflexivity. Qed.

Lemma PhaseState_init_raises_iff dl prog me ms mspe een_steps een_epochs :
  (exists e, PhaseState_init dl prog me ms mspe een_steps een_epochs = inl e)
  <-> negative me || negative ms || negative mspe
      || negative een_steps || negative een_epochs = true.
Proof.
  unfold PhaseState_init. rewrite !check_loop_condition_spec.
  destruct (negative me), (negative ms), (negative mspe),
    (negative een_steps), (negative een_epochs); simpl;
    split; intros H; try reflexivity; try discriminate; eauto;
    destruct H as [e H]; discriminate.
Qed.

Section ConfigurationErrors.
Context (ev : TrainUnit -> list Callback -> M unit) (Hev : evaluate_frame ev).
Context (u : TrainUnit) (callbacks : list Callback).

Lemma train_impl_first_event fuel_epochs fuel_steps w w' ts :
  train_state (state w) = Some ts ->
  final (_train_impl ev fuel_epochs fuel_steps u callbacks w) = Some w' ->
  exists rest, trace w' = trace w ++ EvLog StartedTrain :: rest.
Proof.
  intros E H. unfold _train_impl in H.
  unfold bind at 1, get_train_state in H. rewrite E in H. cbv beta iota in H.
  eapply starts_with_emit; [|exact H].
  ens. apply ensures_train_epoch_loop, Hev.
Qed.

Lemma train_epoch_impl_first_event fuel w w' :
  final (_train_epoch_impl ev fuel u callbacks w) = Some w' ->
  exists rest, trace w' = trace w ++ EvLog StartedTrainEpoch :: rest.
Proof.
  intros H. unfold _train_epoch_impl in H.
  eapply starts_with_emit; [|exact H].
  ens. apply ensures_train_step_loop_any, Hev.
Qed.

Lemma train_body_first_event fuel_epochs fuel_steps w w' ts :
  train_state (state w) = Some ts ->
  final (train_body ev fuel_epochs fuel_steps u callbacks w) = Some w' ->
  exists rest, trace w' = trace w ++ EvLog StartedTrain :: rest.
Proof.
  intros E H. unfold train_body in H.
  unfold bind at 1, modify at 1 in H.
  apply bind_final_inv in H as [[e H]|(w1 & [] & H1 & H2)].
  - eapply (train_impl_first_event _ _ (upd_state (set_entry_point TRAIN) w));
      [exact E | rewrite H; reflexivity].
  - destruct (train_impl_first_event fuel_epochs fuel_steps
                (upd_state (set_entry_point TRAIN) w) w1 ts E) as (rest & Hr);
      [rewrite H1; reflexivity|].
    injection H2 as <-. simpl in *. rewrite Hr.
    eexists. rewrite <- app_assoc. reflexivity.
Qed.

Lemma train_body_missing_state fuel_epochs fuel_steps w :
  train_state (state w) = None <->
  train_body ev fuel_epochs fuel_steps u callbacks w
  = Raise (upd_state (set_entry_point TRAIN) w) (RuntimeError ExpectedTrainState).
Proof.
  split.
  - intros H. unfold train_body, _train_impl, bind, modify, get_train_state.
    simpl. rewrite H. reflexivity.
  - intros H. destruct (train_state (state w)) as [ts|] eqn:E; [exfalso|reflexivity].
    destruct (train_body_first_event fuel_epochs fuel_steps w
                (upd_state (set_entry_point TRAIN) w) ts E) as (rest & Hr).
    + rewrite H. reflexivity.
    + simpl in Hr. exact (trace_neq_cons _ _ _ Hr).
Qed.

Lemma guarded_raise msg (body : M unit) w w1 e :
  body w = Raise w1 e -> is_Exception e = true ->
  exists w' e',
    try_except body is_Exception (exception_handler msg u callbacks) w = Raise w' e'
    /\ extends handler_event w1 w'.
Proof.
  intros Hb He. unfold try_except. rewrite Hb, He.
  apply exception_handler_raises.
Qed.

Lemma train_epoch_body_first_event fuel w w' ts :
  train_state (state w) = Some ts -> max_epochs ts = Some 1 ->
  final (train_epoch_body ev fuel u callbacks w) = Some w' ->
  exists rest, trace w' = trace w ++ EvLog StartedTrainEpochEntry :: rest.
Proof.
  intros E H1 H. unfold train_epoch_body in H.
  unfold bind at 1, get_train_state in H. rewrite E in H. cbv beta iota in H.
  rewrite bool_decide_eq_true_2 in H by exact H1. cbv beta iota in H.
  unfold negb in H. unfold bind at 1, modify at 1 in H.
  eapply (starts_with_emit _ _ (upd_state (set_entry_point TRAIN) w)); [|exact H].
  apply ensures_bind; [apply _ | apply ensures_train_epoch_impl, Hev | intros _; ens].
Qed.

Lemma train_epoch_body_bad_max_epochs fuel w ts :
  train_state (state w) = Some ts ->
  (max_epochs ts <> Some 1 <->
   train_epoch_body ev fuel u callbacks w
   = Raise w (RuntimeError (ExpectedMaxEpochsOne (max_epochs ts)))).
Proof.
  intros E. split.
  - intros H. unfold train_epoch_body, bind, get_train_state. rewrite E.
    rewrite bool_decide_eq_false_2 by exact H. reflexivity.
  - intros H H1.
    destruct (train_epoch_body_first_event fuel w w ts E H1) as (rest & Hr).
    + rewrite H. reflexivity.
    + exact (trace_neq_cons _ _ _ Hr).
Qed.
End ConfigurationErrors.

Lemma raises_before_any_step w w1 w' :
  trace w1 = trace w -> extends handler_event w1 w' ->
  List.filter is_train_step (new_events w w') = [].
Proof.
  intros Ht (evs & He & Hf). rewrite Ht in He.
  rewrite (new_events_app _ _ _ He). apply no_step_in_handler_events, Hf.
Qed.

(** C8. Configuration errors are raised at construction or at entry, before
    any step runs: constructing a PhaseState raises exactly when one of the
    five loop limits is a negative number; [train] raises when the train
    PhaseState is missing, and this check fails exactly then; [train_epoch]
    raises when [max_epochs] of the train PhaseState is not 1, and this
    check fails exactly then. *)
Theorem configuration_errors_raised_at_entry
    (ev : TrainUnit -> list Callback -> M unit) (u : TrainUnit)
    (callbacks : option (list Callback)) :
  evaluate_frame ev ->
  (forall dl prog me ms mspe een_steps een_epochs,
     (exists e, PhaseState_init dl prog me ms mspe een_steps een_epochs = inl e)
     <-> negative me || negative ms || negative mspe
         || negative een_steps || negative een_epochs = true)
  /\ (forall fuel_epochs fuel_steps w,
        (train_state (state w) = None <->
         train_body ev fuel_epochs fuel_steps u (default [] callbacks) w
         = Raise (upd_state (set_entry_point TRAIN) w) (RuntimeError ExpectedTrainState))
        /\ (train_state (state w) = None ->
            exists w' e', train ev fuel_epochs fuel_steps u callbacks w = Raise w' e'
                          /\ List.filter is_train_step (new_events w w') = []))
  /\ (forall fuel w ts, train_state (state w) = Some ts ->
        (max_epochs ts <> Some 1 <->
         train_epoch_body ev fuel u (default [] callbacks) w
         = Raise w (RuntimeError (ExpectedMaxEpochsOne (max_epochs ts))))
        /\ (max_epochs ts <> Some 1 ->
            exists w' e', train_epoch ev fuel u callbacks w = Raise w' e'
                          /\ List.filter is_train_step (new_events w w') = [])).
Proof.
  intros Hev. split; [|split].
  - intros. apply PhaseState_init_raises_iff.
  - intros fe fs w. split; [apply train_body_missing_state, Hev|].
    intros H. apply (train_body_missing_state ev Hev u (default [] callbacks) fe fs) in H.
    destruct (guarded_raise u (default [] callbacks) ExceptionDuringTrain _ _ _ _ H eq_refl)
      as (w' & e' & Hr & Hx).
    exists w', e'. split; [exact Hr|].
    eapply raises_before_any_step; [|exact Hx]. reflexivity.
  - intros fuel w ts E. split; [apply train_epoch_body_bad_max_epochs; assumption|].
    intros H. apply (train_epoch_body_bad_max_epochs ev Hev u (default [] callbacks) fuel w ts E) in H.
    destruct (guarded_raise u (default [] callbacks) ExceptionDuringTrainEpoch _ _ _ _ H eq_refl)
      as (w' & e' & Hr & Hx).
    exists w', e'. split; [exact Hr|].
    eapply raises_before_any_step; [|exact Hx]. reflexivity.
Qed.

(** ** Summaries of normal runs *)

Lemma filter_none (P T : Event -> bool) evs :
  (forall e, P e = true -> T e = false) ->
  forallb P evs = true -> List.filter T evs = [].
Proof.
  intros H. induction evs as [|e evs IH]; simpl; [reflexivity|].
  intros Hf. apply andb_true_iff in Hf as [He Hr].
  rewrite (H e He). auto.
Qed.

Lemma filter_all (T : Event -> bool) evs :
  forallb T evs = true -> List.filter T evs = evs.
Proof.
  induction evs as [|e evs IH]; simpl; [reflexivity|].
  intros Hf. apply andb_true_iff in Hf as [He Hr]. rewrite He, IH; auto.
Qed.

Lemma filter_refine (Q T : Event -> bool) evs :
  (forall e, Q e = true -> T e = true) ->
  List.filter Q (List.filter T evs) = List.filter Q evs.
Proof.
  intros H. induction evs as [|e evs IH]; simpl; [reflexivity|].
  destruct (T e) eqn:Ht; simpl.
  - destruct (Q e); rewrite IH; reflexivity.
  - destruct (Q e) eqn:Hq; [rewrite (H e Hq) in Ht; discriminate | exact IH].
Qed.

Lemma summary_refl T w : summary T [] w w.
Proof. exists []. split; [symmetry; apply app_nil_r | reflexivity]. Qed.

Lemma summary_same T w w' : trace w' = trace w -> summary T [] w w'.
Proof. intros H. exists []. split; [rewrite H; symmetry; apply app_nil_r | reflexivity]. Qed.

Lemma summary_trans T l1 l2 w1 w2 w3 :
  summary T l1 w1 w2 -> summary T l2 w2 w3 -> summary T (l1 ++ l2) w1 w3.
Proof.
  intros (e1 & H1 & F1) (e2 & H2 & F2). exists (e1 ++ e2). split.
  - rewrite H2, H1. symmetry. apply app_assoc.
  - rewrite List.filter_app, F1, F2. reflexivity.
Qed.

Lemma summary_extends P T w w' :
  (forall e, P e = true -> T e = false) -> extends P w w' -> summary T [] w w'.
Proof.
  intros H (evs & Ht & Hf). exists evs. split; [exact Ht|].
  eapply filter_none; eassumption.
Qed.

Lemma summary_new_events T l w w' :
  summary T l w w' -> List.filter T (new_events w w') = l.
Proof. intros (evs & Ht & Hf). rewrite (new_events_app _ _ _ Ht). exact Hf. Qed.

Lemma summary_refine (Q T : Event -> bool) l w w' :
  (forall e, Q e = true -> T e = true) ->
  summary T l w w' -> summary Q (List.filter Q l) w w'.
Proof.
  intros H (evs & Ht & Hf). exists evs. split; [exact Ht|].
  rewrite <- Hf. symmetry. apply filter_refine, H.
Qed.

Section Summaries.
Context (T : Event -> bool) (HT : T (EvLog ReceivedSignalToStop) = false).

Lemma summary_add_event e0 w : summary T (List.filter T [e0]) w (add_event e0 w).
Proof. exists [e0]. auto. Qed.

Lemma summary_after_hook o w : summary T [] w (after_hook o w).
Proof.
  unfold after_hook. destruct (ho_stop o); [|apply summary_refl].
  exists [EvLog ReceivedSignalToStop]. simpl. rewrite HT. auto.
Qed.

Lemma summary_run_hook e0 f w w' :
  final (run_hook e0 f w) = Some w' -> summary T (List.filter T [e0]) w w'.
Proof.
  unfold run_hook. intros H.
  assert (w' = after_hook (f (add_event e0 w)) (add_event e0 w)) as ->
    by (destruct (ho_raise _); simpl in H; congruence).
  rewrite <- (app_nil_r (List.filter T [e0])).
  eapply summary_trans; [apply summary_add_event | apply summary_after_hook].
Qed.

Lemma summary_run_step e0 f w w' a :
  run_step e0 f w = Ok w' a -> summary T (List.filter T [e0]) w w'.
Proof.
  unfold run_step. intros H.
  assert (w' = after_hook (so_outcome (f (add_event e0 w))) (add_event e0 w)) as ->
    by (destruct (ho_raise _); simpl in H; congruence).
  rewrite <- (app_nil_r (List.filter T [e0])).
  eapply summary_trans; [apply summary_add_event | apply summary_after_hook].
Qed.

Lemma summary_run_callbacks_from callbacks h : forall i w w' a,
  run_callbacks_from i callbacks h w = Ok w' a ->
  summary T (List.filter T (callback_events i callbacks h)) w w'.
Proof.
  induction callbacks as [|cb rest IH]; intros i w w' a; simpl.
  - intros [= <-]. apply summary_refl.
  - destruct (cb h) as [f|]; [|apply IH].
    intros H. apply bind_Ok_inv in H as (w1 & [] & H1 & H2).
    change (EvCallback i h :: callback_events (S i) rest h)
      with ([EvCallback i h] ++ callback_events (S i) rest h).
    rewrite List.filter_app. eapply summary_trans.
    + apply (summary_run_hook _ f). rewrite H1. reflexivity.
    + eapply IH, H2.
Qed.

Lemma summary_run_callback_fn callbacks h w w' a :
  _run_callback_fn callbacks h w = Ok w' a ->
  summary T (List.filter T (callback_events 0 callbacks h)) w w'.
Proof. apply summary_run_callbacks_from. Qed.
End Summaries.

Lemma callback_events_hook h callbacks : forall i,
  forallb (is_hook_event h) (callback_events i callbacks h) = true.
Proof.
  induction callbacks as [|cb rest IH]; intros i; simpl; [reflexivity|].
  destruct (cb h); simpl; [|apply IH].
  rewrite bool_decide_eq_true_2 by reflexivity. apply IH.
Qed.

Lemma callback_events_calls h callbacks : forall i,
  forallb is_call (callback_events i callbacks h) = true.
Proof.
  induction callbacks as [|cb rest IH]; intros i; simpl; [reflexivity|].
  destruct (cb h); simpl; apply IH.
Qed.

(** Callbacks that do not raise all run. *)
Lemma run_callbacks_from_no_raise callbacks h :
  (forall cb f w, cb ∈ callbacks -> cb h = Some f -> ho_raise (f w) = None) ->
  forall i w, exists w', run_callbacks_from i callbacks h w = Ok w' tt.
Proof.
  induction callbacks as [|cb rest IH]; intros Hq i w; simpl.
  - unfold ret. eauto.
  - assert (Hrest : forall cb0 f w0, cb0 ∈ rest -> cb0 h = Some f -> ho_raise (f w0) = None)
      by (intros cb0 f w0 Hin; apply Hq; right; exact Hin).
    destruct (cb h) as [f|] eqn:E; [|apply IH, Hrest].
    unfold bind, run_hook. rewrite (Hq cb f _ ltac:(left) E).
    apply IH, Hrest.
Qed.

(** ** C2: the exception handler *)

Section ExceptionHandler.
Context (msg : exn -> LogMsg) (u : TrainUnit) (callbacks : list Callback).
Context (body : M unit) (w w1 : World) (e : exn).
Hypothesis Hbody : body w = Raise w1 e.
Hypothesis Hexc : is_Exception e = true.

Let guarded := try_except body is_Exception (exception_handler msg u callbacks).

Lemma guarded_always_raises : exists w2 e2, guarded w = Raise w2 e2.
Proof.
  unfold guarded, try_except. rewrite Hbody, Hexc.
  destruct (exception_handler_raises msg u callbacks e w1) as (w2 & e2 & H & _).
  eauto.
Qed.

Lemma guarded_dispatch :
  (forall wx, ho_raise (unit_hook u (on_exception e) wx) = None) ->
  (forall cb f wx, cb ∈ callbacks -> cb (on_exception e) = Some f ->
                   ho_raise (f wx) = None) ->
  exists w2, guarded w = Raise w2 e
    /\ List.filter is_call (new_events w1 w2)
       = EvUnit (on_exception e) :: callback_events 0 callbacks (on_exception e).
Proof.
  intros Hu Hc. unfold guarded, try_except. rewrite Hbody, Hexc.
  unfold exception_handler, bind at 1, emit, modify.
  unfold bind at 1, run_unit_hook.
  destruct (run_hook _ _ _) as [w3 []|w3 e3|] eqn:E3.
  - destruct (run_callbacks_from_no_raise callbacks (on_exception e) Hc 0 w3)
      as (w4 & H4).
    unfold bind, _run_callback_fn. rewrite H4. unfold raise.
    exists w4. split; [reflexivity|].
    apply summary_new_events.
    change (EvUnit (on_exception e) :: callback_events 0 callbacks (on_exception e))
      with ([] ++ [EvUnit (on_exception e)]
               ++ callback_events 0 callbacks (on_exception e)).
    eapply summary_trans; [|eapply summary_trans].
    + apply (summary_add_event is_call (EvLog (msg e))).
    + apply (summary_run_hook is_call eq_refl (EvUnit (on_exception e))
               (unit_hook u (on_exception e))). rewrite E3.
      reflexivity.
    + rewrite <- (filter_all is_call (callback_events 0 callbacks (on_exception e))).
      * eapply (summary_run_callbacks_from is_call eq_refl), H4.
      * apply callback_events_calls.
  - exfalso. unfold run_hook in E3. rewrite Hu in E3. discriminate.
  - exfalso. unfold run_hook in E3. rewrite Hu in E3. discriminate.
Qed.

Lemma guarded_handler_failure e' :
  (forall wx, ho_raise (unit_hook u (on_exception e) wx) = Some e') ->
  exists w2, guarded w = Raise w2 e'
    /\ List.filter is_call (new_events w1 w2) = [EvUnit (on_exception e)].
Proof.
  intros Hu. unfold guarded, try_except. rewrite Hbody, Hexc.
  unfold exception_handler, bind at 1, emit, modify.
  unfold bind at 1, run_unit_hook.
  destruct (run_hook _ _ _) as [w3 []|w3 e3|] eqn:E3.
  - exfalso. unfold run_hook in E3. rewrite Hu in E3. discriminate.
  - assert (e3 = e') as ->.
    { unfold run_hook in E3. rewrite Hu in E3. congruence. }
    exists w3. split; [reflexivity|].
    apply summary_new_events.
    change [EvUnit (on_exception e)] with ([] ++ [EvUnit (on_exception e)]).
    eapply summary_trans.
    + apply (summary_add_event is_call (EvLog (msg e))).
    + apply (summary_run_hook is_call eq_refl (EvUnit (on_exception e))
               (unit_hook u (on_exception e))). rewrite E3.
      reflexivity.
  - exfalso. unfold run_hook in E3. rewrite Hu in E3. discriminate.
Qed.
End ExceptionHandler.

(** ** Inversion of normal runs *)

Ltac inv_ok H :=
  repeat match type of H with
         | bind _ _ _ = Ok _ _ =>
             let w1 := fresh "w" in
             let a := fresh "a" in
             let H1 := fresh "Hop" in
             apply bind_Ok_inv in H as (w1 & a & H1 & H)
         end.

Lemma emit_Ok e0 w w' a : emit e0 w = Ok w' a -> w' = add_event e0 w.
Proof. intros [= <-]. reflexivity. Qed.

Lemma modify_Ok f w w' a : modify f w = Ok w' a -> w' = f w.
Proof. intros [= <-]. reflexivity. Qed.

Lemma get_train_state_Ok e w w' ts :
  get_train_state e w = Ok w' ts -> w' = w /\ train_state (state w) = Some ts.
Proof.
  unfold get_train_state. destruct (train_state (state w)); [|discriminate].
  intros [= <- <-]. auto.
Qed.

Lemma try_except_handler_Ok msg u callbacks (body : M unit) w w' a :
  try_except body is_Exception (exception_handler msg u callbacks) w = Ok w' a ->
  body w = Ok w' a.
Proof.
  unfold try_except. destruct (body w) as [w1 a1|w1 e1|]; [trivial| |discriminate].
  destruct (is_Exception e1); [|discriminate].
  destruct (exception_handler_raises msg u callbacks e1 w1) as (w2 & e2 & H & _).
  rewrite H. discriminate.
Qed.

(** ** C1: module modes *)

Lemma restrict_dom (m : gmap string bool) : restrict (dom m) m = m.
Proof.
  unfold restrict. apply map_filter_id. intros i x H. simpl.
  apply elem_of_dom. eauto.
Qed.

Lemma reset_restores (prior cur : gmap string bool) name :
  name ∈ dom prior ->
  (restrict (dom prior) (restrict (dom prior) prior) ∪ cur) !! name = prior !! name.
Proof.
  intros H. rewrite !restrict_dom. apply elem_of_dom in H as [b Hb].
  rewrite Hb. apply lookup_union_Some_l. exact Hb.
Qed.

Lemma train_impl_restores ev fuel_epochs fuel_steps u callbacks w w' a :
  _train_impl ev fuel_epochs fuel_steps u callbacks w = Ok w' a ->
  forall name, name ∈ dom (modules w) -> modules w' !! name = modules w !! name.
Proof.
  intros H name Hin. unfold _train_impl in H. inv_ok H.
  apply get_train_state_Ok in Hop as [-> _].
  apply emit_Ok in Hop0 as ->. apply modify_Ok in Hop1 as ->.
  injection Hop2 as <- <-. injection Hop3 as <- <-.
  apply modify_Ok in H as ->. simpl.
  apply reset_restores. exact Hin.
Qed.

Section SameModules.
#[local] Instance same_modules_preorder : PreOrder same_modules.
Proof.
  split.
  - intros w. reflexivity.
  - intros w1 w2 w3 H1 H2. unfold same_modules in *. congruence.
Qed.

Lemma same_modules_run_hook e0 f : ensures same_modules (run_hook e0 f).
Proof.
  intros w w'. unfold run_hook, after_hook.
  destruct (ho_raise _); destruct (ho_stop _); intros [= <-]; reflexivity.
Qed.

Lemma same_modules_run_callbacks callbacks h : forall i,
  ensures same_modules (run_callbacks_from i callbacks h).
Proof.
  induction callbacks as [|cb rest IH]; intros i; simpl.
  - apply ensures_ret. apply _.
  - destruct (cb h); [|apply IH].
    apply ensures_bind; [apply _ | apply same_modules_run_hook | intros _; apply IH].
Qed.

Lemma same_modules_exception_handler msg u callbacks e :
  ensures same_modules (exception_handler msg u callbacks e).
Proof.
  unfold exception_handler.
  apply ensures_bind; [apply _ | apply ensures_modify; reflexivity | intros _].
  apply ensures_bind; [apply _ | apply same_modules_run_hook | intros _].
  apply ensures_bind; [apply _ | apply same_modules_run_callbacks | intros _].
  apply ensures_raise. apply _.
Qed.
End SameModules.

(** C1 (amended). A train run that returns normally leaves every tracked
    module with the training mode it had at entry. A run that leaves
    through an exception performs no restoration: the modules keep the
    modes they had where the exception left the body of [train]. *)
Theorem train_restores_module_modes_on_normal_exit
    (ev : TrainUnit -> list Callback -> M unit) (fuel_epochs fuel_steps : nat)
    (u : TrainUnit) (callbacks : option (list Callback)) (w : World) :
  (forall w', train ev fuel_epochs fuel_steps u callbacks w = Ok w' tt ->
     forall name, name ∈ dom (modules w) -> modules w' !! name = modules w !! name)
  /\ (forall w1 e w' e',
        train_body ev fuel_epochs fuel_steps u (default [] callbacks) w = Raise w1 e ->
        train ev fuel_epochs fuel_steps u callbacks w = Raise w' e' ->
        modules w' = modules w1).
Proof.
  split.
  - intros w' H name Hin. unfold train in H.
    apply try_except_handler_Ok in H. unfold train_body in H. inv_ok H.
    apply modify_Ok in Hop as ->. apply emit_Ok in H as ->. simpl.
    eapply (train_impl_restores _ _ _ _ _ (upd_state (set_entry_point TRAIN) w));
      [exact Hop0 | exact Hin].
  - intros w1 e w' e' Hb H. unfold train, try_except in H. rewrite Hb in H.
    destruct (is_Exception e).
    + apply (same_modules_exception_handler ExceptionDuringTrain u
               (default [] callbacks) e w1 w').
      rewrite H. reflexivity.
    + injection H as <- <-. reflexivity.
Qed.

(** ** Progress of the train PhaseState along a run *)

Lemma ensures_Ok {A} (R : relation World) (m : M A) w w' a :
  ensures R m -> m w = Ok w' a -> R w w'.
Proof. intros Hm H. apply Hm. rewrite H. reflexivity. Qed.

Lemma progress_moved_trans f g w1 w2 w3 :
  progress_moved f w1 w2 -> progress_moved g w2 w3 ->
  progress_moved (fun p => g (f p)) w1 w3.
Proof.
  intros H1 H2 ts E. destruct (H1 ts E) as (ts2 & E2 & C2 & P2).
  destruct (H2 ts2 E2) as (ts3 & E3 & C3 & P3).
  exists ts3. split; [exact E3|]. split.
  - eapply same_config_trans; eassumption.
  - rewrite P3, P2. reflexivity.
Qed.

Lemma progress_moved_same w w' :
  train_state (state w') = train_state (state w) -> progress_moved (fun p => p) w w'.
Proof.
  intros H ts E. exists ts. rewrite H. split; [exact E|].
  split; [apply same_config_refl | reflexivity].
Qed.

Lemma progress_moved_evolves P w w' :
  evolves eq P w w' -> progress_moved (fun p => p) w w'.
Proof.
  intros [_ _ H _ _] ts E. unfold train_rel in H. rewrite E in H.
  destruct (train_state (state w')) as [ts'|]; [|contradiction].
  destruct H as [C Hp]. exists ts'. auto.
Qed.

Lemma progress_moved_modify f g w w' a :
  (forall ts, same_config ts (g ts) /\ progress (g ts) = f (progress ts)) ->
  modify_train_state g w = Ok w' a -> progress_moved f w w'.
Proof.
  intros Hg [= <-] ts E. exists (g ts). simpl. rewrite E. simpl.
  split; [reflexivity|]. apply Hg.
Qed.

Lemma train_event_callback_events h callbacks : forall i,
  is_eval_hook h = false ->
  List.filter train_event (callback_events i callbacks h) = callback_events i callbacks h.
Proof.
  intros i Hh. apply filter_all. revert i.
  induction callbacks as [|cb rest IH]; intros i; simpl; [reflexivity|].
  destruct (cb h); simpl; [|apply IH].
  unfold train_event at 1. simpl. rewrite Hh. apply IH.
Qed.

Lemma train_event_eval_event e : is_eval_event e = true -> train_event e = false.
Proof. intros H. unfold train_event. rewrite H. reflexivity. Qed.

Section StepBody.
Context (ev : TrainUnit -> list Callback -> M unit) (Hev : evaluate_frame ev).
Context (u : TrainUnit) (callbacks : list Callback) (every_n_steps : option Z).

Lemma call_evaluate_Ok site w w' a :
  call_evaluate ev site u callbacks w = Ok w' a ->
  progress_moved (fun p => p) w w' /\ summary train_event [EvEvaluate site] w w'.
Proof.
  intros H. unfold call_evaluate in H. inv_ok H. apply emit_Ok in Hop as ->.
  pose proof (ensures_Ok _ _ _ _ _ (Hev u callbacks) H) as Hf. split.
  - eapply (progress_moved_trans (fun p => p) (fun p => p) w
              (add_event (EvEvaluate site) w));
      [apply progress_moved_same; reflexivity | eapply progress_moved_evolves, Hf].
  - change [EvEvaluate site] with (List.filter train_event [EvEvaluate site] ++ []).
    eapply summary_trans; [apply summary_add_event|].
    eapply summary_extends; [apply train_event_eval_event | apply (ev_trace _ _ _ _ Hf)].
Qed.

Lemma train_step_body_Ok data_iter w w1 it' ts :
  train_step_body ev u callbacks every_n_steps data_iter w = Ok w1 it' ->
  train_state (state w) = Some ts ->
  exists ts1 input,
    train_state (state w1) = Some ts1 /\ same_config ts ts1
    /\ progress ts1 = increment_step (progress ts)
    /\ summary train_event
         (step_calls callbacks input every_n_steps
            (num_steps_completed_in_epoch (progress ts) + 1)) w w1
    /\ exists rest,
         fetch_step_input (train_step_requires_iterator u) data_iter w
         = Ok w (input, rest).
Proof.
  intros H E. unfold train_step_body in H. inv_ok H.
  assert (w0 = w) as ->.
  { unfold fetch_step_input in Hop. destruct (train_step_requires_iterator u).
    - injection Hop as <- _. reflexivity.
    - destruct data_iter; [discriminate|]. injection Hop as <- _. reflexivity. }
  injection H as <- _.
  apply get_train_state_Ok in Hop6 as [-> E7].
  (* progress *)
  assert (Hp : progress_moved increment_step w w7).
  { eapply (progress_moved_trans (fun p => p) increment_step);
      [|eapply (progress_moved_trans (fun p => p) increment_step);
        [|eapply (progress_moved_trans (fun p => p) increment_step);
          [|eapply (progress_moved_trans increment_step (fun p => p));
            [|eapply (progress_moved_trans (fun p => p) (fun p => p))]]]].
    - eapply (progress_moved_evolves any_event), ensures_Ok; [|exact Hop0].
      apply ensures_run_callback_fn; [apply _ | reflexivity..].
    - eapply (progress_moved_evolves any_event), ensures_Ok; [|exact Hop1].
      apply ensures_run_step; [apply _ | reflexivity..].
    - eapply progress_moved_modify; [|exact Hop2]. intros ts0. split; [|reflexivity].
      unfold same_config. simpl. auto.
    - eapply progress_moved_modify; [|exact Hop3]. intros ts0. split; [|reflexivity].
      unfold same_config. simpl. auto.
    - eapply (progress_moved_evolves any_event), ensures_Ok; [|exact Hop4].
      apply ensures_run_callback_fn; [apply _ | reflexivity..].
    - eapply progress_moved_modify; [|exact Hop5]. intros ts0. split; [|reflexivity].
      unfold same_config. simpl. auto. }
  destruct (Hp ts E) as (ts7 & E7' & C7 & P7).
  rewrite E7 in E7'. injection E7' as ->.
  (* trace *)
  assert (Hs : summary train_event
                 (callback_events 0 callbacks on_train_step_start
                    ++ [EvTrainStep a.1]
                    ++ callback_events 0 callbacks on_train_step_end) w w7).
  { assert (S0 := summary_run_callback_fn train_event eq_refl _ _ _ _ _ Hop0).
    rewrite (train_event_callback_events on_train_step_start callbacks 0 eq_refl) in S0.
    assert (S1 : summary train_event [EvTrainStep a.1] w2 w3)
      by exact (summary_run_step train_event eq_refl _ _ _ _ _ Hop1).
    assert (S2 : summary train_event [] w3 w5).
    { apply summary_same. apply modify_Ok in Hop2 as ->. apply modify_Ok in Hop3 as ->.
      reflexivity. }
    assert (S3 := summary_run_callback_fn train_event eq_refl _ _ _ _ _ Hop4).
    rewrite (train_event_callback_events on_train_step_end callbacks 0 eq_refl) in S3.
    assert (S4 : summary train_event [] w6 w7).
    { apply summary_same. apply modify_Ok in Hop5 as ->. reflexivity. }
    pose proof (summary_trans _ _ _ _ _ _ S0
                  (summary_trans _ _ _ _ _ _ S1
                     (summary_trans _ _ _ _ _ _ S2
                        (summary_trans _ _ _ _ _ _ S3 S4)))) as S.
    simpl in S. rewrite app_nil_r in S. exact S. }
  rewrite P7 in Hop7. simpl in Hop7.
  unfold step_calls.
  destruct (is_due every_n_steps (num_steps_completed_in_epoch (progress ts) + 1));
    simpl in Hop7.
  - apply call_evaluate_Ok in Hop7 as [Hp8 Hs8].
    destruct (Hp8 ts7 E7) as (ts8 & E8 & C8 & P8).
    exists ts8, a.1. split; [exact E8|]. split; [eapply same_config_trans; eassumption|].
    split; [congruence|]. split; [|exists a.2; destruct a; exact Hop].
    rewrite !app_assoc. eapply summary_trans; [|exact Hs8].
    rewrite <- !app_assoc. exact Hs.
  - injection Hop7 as <-. exists ts7, a.1. rewrite app_nil_r.
    repeat (split; [assumption|]). exists a.2. destruct a. exact Hop.
Qed.
End StepBody.

Lemma filter_hook_callback_events h h' callbacks : forall i,
  List.filter (is_hook_event h) (callback_events i callbacks h')
  = if bool_decide (h' = h) then callback_events i callbacks h' else [].
Proof.
  induction callbacks as [|cb rest IH]; intros i; simpl.
  - destruct (bool_decide _); reflexivity.
  - destruct (cb h'); simpl; rewrite IH; destruct (bool_decide (h' = h)); reflexivity.
Qed.

Lemma hook_event_is_train_event h e :
  is_eval_hook h = false -> is_hook_event h e = true -> train_event e = true.
Proof.
  intros Hh. destruct e as [h'| | |i h'| |]; simpl; try discriminate;
    intros H; apply bool_decide_eq_true in H; subst h'; unfold train_event; simpl;
    rewrite Hh; reflexivity.
Qed.

(** ** C3: the stop latch *)

Section StopLatch.
Context (ev : TrainUnit -> list Callback -> M unit) (Hev : evaluate_frame ev).
Context (u : TrainUnit) (callbacks : list Callback).

Lemma train_step_loop_stopped fuel every_n_steps data_iter w ts :
  train_state (state w) = Some ts -> should_stop (state w) = true ->
  train_step_loop ev (S fuel) u callbacks every_n_steps data_iter w = Ok w tt.
Proof.
  intros E Hs. simpl. unfold bind, get, get_train_state. rewrite E, Hs. reflexivity.
Qed.

Lemma train_epoch_loop_stopped fuel_epochs fuel_steps w ts :
  train_state (state w) = Some ts -> should_stop (state w) = true ->
  train_epoch_loop ev (S fuel_epochs) fuel_steps u callbacks w = Ok w tt.
Proof.
  intros E Hs. simpl. unfold bind, get, get_train_state. rewrite E, Hs. reflexivity.
Qed.

Lemma train_step_loop_unfold fuel every_n_steps data_iter w ts w1 it' :
  train_state (state w) = Some ts ->
  should_stop (state w)
  || _is_epoch_done (progress ts) (max_steps_per_epoch ts) (max_steps ts) = false ->
  train_step_body ev u callbacks every_n_steps data_iter w = Ok w1 it' ->
  train_step_loop ev (S fuel) u callbacks every_n_steps data_iter w
  = train_step_loop ev fuel u callbacks every_n_steps it' w1.
Proof.
  intros E Hc Hb. simpl. unfold bind at 1, get. unfold bind at 1, get_train_state.
  rewrite E, Hc. unfold bind at 1, try_except. unfold bind at 1. rewrite Hb.
  reflexivity.
Qed.

Lemma step_in_flight_completes fuel every_n_steps data_iter w ts w1 it' :
  train_state (state w) = Some ts ->
  should_stop (state w)
  || _is_epoch_done (progress ts) (max_steps_per_epoch ts) (max_steps ts) = false ->
  train_step_body ev u callbacks every_n_steps data_iter w = Ok w1 it' ->
  should_stop (state w1) = true ->
  train_step_loop ev (S (S fuel)) u callbacks every_n_steps data_iter w = Ok w1 tt
  /\ (exists ts1, train_state (state w1) = Some ts1
                  /\ progress ts1 = increment_step (progress ts))
  /\ List.filter (is_hook_event on_train_step_end) (new_events w w1)
     = callback_events 0 callbacks on_train_step_end.
Proof.
  intros E Hc Hb Hs.
  destruct (train_step_body_Ok ev Hev u callbacks every_n_steps data_iter w w1 it' ts Hb E)
    as (ts1 & input & E1 & C1 & P1 & S1 & _).
  split; [|split].
  - rewrite (train_step_loop_unfold _ _ _ _ _ _ _ E Hc Hb).
    eapply train_step_loop_stopped; eassumption.
  - eauto.
  - apply summary_new_events.
    eapply (summary_refine (is_hook_event on_train_step_end)) in S1;
      [|intros e0; apply hook_event_is_train_event; reflexivity].
    unfold step_calls in S1. rewrite !List.filter_app in S1.
    rewrite !filter_hook_callback_events in S1. simpl in S1.
    destruct (is_due _ _); simpl in S1; rewrite ?app_nil_r in S1; exact S1.
Qed.
End StopLatch.

(** C3. [should_stop] starts false; [stop] sets it and is the only thing
    that does; a train run never clears it. The step loop and the epoch
    loop test it before every iteration: with the flag set neither starts
    another step or epoch, while a step during which the flag was set runs
    to its end (progress incremented, [on_train_step_end] callbacks called)
    and is the last one. *)
Theorem should_stop_is_a_one_way_latch
    (ev : TrainUnit -> list Callback -> M unit) (u : TrainUnit)
    (callbacks : list Callback) :
  evaluate_frame ev ->
  (forall ep ts es ps, should_stop (State_init ep ts es ps) = false)
  /\ (forall s, should_stop (stop s) = true /\ stop (stop s) = stop s)
  /\ (forall fuel_epochs fuel_steps w w',
        final (train ev fuel_epochs fuel_steps u (Some callbacks) w) = Some w' ->
        (should_stop (state w) = true -> should_stop (state w') = true)
        /\ (should_stop (state w') = true ->
            should_stop (state w) = true
            \/ In (EvLog ReceivedSignalToStop) (new_events w w')))
  /\ (forall w ts, train_state (state w) = Some ts -> should_stop (state w) = true ->
        (forall fuel every_n_steps data_iter,
           train_step_loop ev (S fuel) u callbacks every_n_steps data_iter w = Ok w tt)
        /\ (forall fuel_epochs fuel_steps,
              train_epoch_loop ev (S fuel_epochs) fuel_steps u callbacks w = Ok w tt))
  /\ (forall fuel every_n_steps data_iter w ts w1 it',
        train_state (state w) = Some ts ->
        should_stop (state w)
        || _is_epoch_done (progress ts) (max_steps_per_epoch ts) (max_steps ts) = false ->
        train_step_body ev u callbacks every_n_steps data_iter w = Ok w1 it' ->
        should_stop (state w1) = true ->
        train_step_loop ev (S (S fuel)) u callbacks every_n_steps data_iter w = Ok w1 tt
        /\ (exists ts1, train_state (state w1) = Some ts1
                        /\ progress ts1 = increment_step (progress ts))
        /\ List.filter (is_hook_event on_train_step_end) (new_events w w1)
           = callback_events 0 callbacks on_train_step_end).
Proof.
  intros Hev. split; [|split; [|split; [|split]]].
  - reflexivity.
  - intros s. split; reflexivity.
  - intros fe fs w w' H.
    pose proof (ensures_train ev fe fs u (Some callbacks) Hev _ _ H) as He.
    split; [apply (ev_stop _ _ _ _ He) | apply (ev_set _ _ _ _ He)].
  - intros w ts E Hs. split; intros.
    + eapply train_step_loop_stopped; eassumption.
    + eapply train_epoch_loop_stopped; eassumption.
  - intros. eapply step_in_flight_completes; eassumption.
Qed.

(** ** C4: the epoch loop of train *)

Lemma is_done_spec p me ms :
  _is_done p me ms = true
  <-> (exists m, ms = Some m /\ m <= num_steps_completed p)
      \/ (exists m, me = Some m /\ m <= num_epochs_completed p).
Proof.
  unfold _is_done, limit_reached. rewrite orb_true_iff. split.
  - intros [H|H].
    + left. destruct ms as [m|]; [|discriminate]. exists m. split; [reflexivity | lia].
    + right. destruct me as [m|]; [|discriminate]. exists m. split; [reflexivity | lia].
  - intros [(m & -> & H)|(m & -> & H)]; [left | right]; lia.
Qed.

Section EpochLoopCondition.
Context (ev : TrainUnit -> list Callback -> M unit) (Hev : evaluate_frame ev).
Context (u : TrainUnit) (callbacks : list Callback).

Lemma train_epoch_loop_unfold fuel_epochs fuel_steps w ts :
  train_state (state w) = Some ts ->
  train_epoch_loop ev (S fuel_epochs) fuel_steps u callbacks w
  = if should_stop (state w) || _is_done (progress ts) (max_epochs ts) (max_steps ts)
    then Ok w tt
    else (let* _ := _train_epoch_impl ev fuel_steps u callbacks in
          train_epoch_loop ev fuel_epochs fuel_steps u callbacks) w.
Proof.
  intros E. simpl. unfold bind at 1, get. unfold bind at 1, get_train_state.
  rewrite E. destruct (_ || _); reflexivity.
Qed.

Lemma epoch_started_iff fuel_epochs fuel_steps w ts w' :
  train_state (state w) = Some ts ->
  final (train_epoch_loop ev (S fuel_epochs) fuel_steps u callbacks w) = Some w' ->
  (should_stop (state w) || _is_done (progress ts) (max_epochs ts) (max_steps ts) = false
   <-> exists rest, trace w' = trace w ++ EvLog StartedTrainEpoch :: rest).
Proof.
  intros E H. rewrite (train_epoch_loop_unfold _ _ _ _ E) in H.
  destruct (_ || _).
  - injection H as <-. split; [discriminate|].
    intros (rest & Hr). exfalso. exact (trace_neq_cons _ _ _ Hr).
  - split; [intros _|reflexivity].
    apply bind_final_inv in H as [[e H]|(w1 & [] & H1 & H2)].
    + eapply train_epoch_impl_first_event; [exact Hev | rewrite H; reflexivity].
    + destruct (train_epoch_impl_first_event ev Hev u callbacks fuel_steps w w1)
        as (rest & Hr); [rewrite H1; reflexivity|].
      destruct (ev_trace _ _ _ _
                  (ensures_train_epoch_loop ev Hev u callbacks _ _ _ _ H2))
        as (evs & Ht & _).
      exists (rest ++ evs). rewrite Ht, Hr, <- app_assoc. reflexivity.
Qed.
End EpochLoopCondition.

(** C4. [_is_done] holds exactly when a set [max_steps] is reached by the
    completed steps or a set [max_epochs] by the completed epochs, so with
    both limits unset it never holds. The epoch loop of [_train_impl]
    returns at once when [should_stop] or [_is_done] holds and otherwise
    runs the epoch routine and loops: it starts a new epoch exactly when
    neither holds. *)
Theorem train_loop_starts_epoch_iff_not_stopped_or_done
    (ev : TrainUnit -> list Callback -> M unit) (u : TrainUnit)
    (callbacks : list Callback) :
  evaluate_frame ev ->
  (forall p me ms,
     _is_done p me ms = true
     <-> (exists m, ms = Some m /\ m <= num_steps_completed p)
         \/ (exists m, me = Some m /\ m <= num_epochs_completed p))
  /\ (forall p, _is_done p None None = false)
  /\ (forall fuel_epochs fuel_steps w ts,
        train_state (state w) = Some ts ->
        train_epoch_loop ev (S fuel_epochs) fuel_steps u callbacks w
        = (if should_stop (state w)
              || _is_done (progress ts) (max_epochs ts) (max_steps ts)
           then Ok w tt
           else (let* _ := _train_epoch_impl ev fuel_steps u callbacks in
                 train_epoch_loop ev fuel_epochs fuel_steps u callbacks) w)
        /\ (forall w',
              final (train_epoch_loop ev (S fuel_epochs) fuel_steps u callbacks w)
              = Some w' ->
              (should_stop (state w)
               || _is_done (progress ts) (max_epochs ts) (max_steps ts) = false
               <-> exists rest, trace w' = trace w ++ EvLog StartedTrainEpoch :: rest))).
Proof.
  intros Hev. split; [|split].
  - apply is_done_spec.
  - reflexivity.
  - intros fe fs w ts E. split.
    + apply train_epoch_loop_unfold, E.
    + intros w'. apply epoch_started_iff; assumption.
Qed.

(** ** The epoch routine, taken apart *)

Lemma when_Ok b (m : M unit) w w' a :
  when b m w = Ok w' a -> if b then m w = Ok w' a else w' = w.
Proof. destruct b; simpl; [trivial | intros [= <-]; reflexivity]. Qed.

Lemma train_event_run_unit_hook u h w w' a :
  is_eval_hook h = false ->
  run_unit_hook u h w = Ok w' a ->
  summary train_event [EvUnit h] w w' /\ progress_moved (fun p => p) w w'.
Proof.
  intros Hh H. split.
  - assert (Hf : List.filter train_event [EvUnit h] = [EvUnit h]).
    { cbn [List.filter]. change (train_event (EvUnit h)) with (negb (is_eval_hook h)).
      rewrite Hh. reflexivity. }
    rewrite <- Hf. apply (summary_run_hook train_event eq_refl _ (unit_hook u h)).
    unfold run_unit_hook in H. rewrite H. reflexivity.
  - eapply (progress_moved_evolves any_event), ensures_Ok; [|exact H].
    apply ensures_run_unit_hook; [apply _ | reflexivity..].
Qed.

Lemma train_event_run_callback_fn callbacks h w w' a :
  is_eval_hook h = false ->
  _run_callback_fn callbacks h w = Ok w' a ->
  summary train_event (callback_events 0 callbacks h) w w'
  /\ progress_moved (fun p => p) w w'.
Proof.
  intros Hh H. split.
  - rewrite <- (train_event_callback_events h callbacks 0 Hh).
    eapply (summary_run_callback_fn train_event eq_refl), H.
  - eapply (progress_moved_evolves any_event), ensures_Ok; [|exact H].
    apply ensures_run_callback_fn; [apply _ | reflexivity..].
Qed.

Section EpochRoutine.
Context (ev : TrainUnit -> list Callback -> M unit) (Hev : evaluate_frame ev).
Context (u : TrainUnit) (callbacks : list Callback).

Lemma train_epoch_impl_Ok fuel w w' a ts :
  _train_epoch_impl ev fuel u callbacks w = Ok w' a ->
  train_state (state w) = Some ts ->
  exists wa tsa wb tsb,
    summary train_event
      (epoch_start_calls callbacks (num_steps_completed_in_epoch (progress ts))) w wa
    /\ train_state (state wa) = Some tsa /\ same_config ts tsa
    /\ progress tsa = progress ts
    /\ train_step_loop ev fuel u callbacks (eval_cadence (state w)).1
         (dataloader ts) wa = Ok wb tt
    /\ train_state (state wb) = Some tsb
    /\ summary train_event
         (epoch_end_calls callbacks (eval_cadence (state w)).2
            (Z.abs (num_steps_completed_in_epoch (progress tsb)
                    - num_steps_completed_in_epoch (progress ts)) >? 0)
            (num_epochs_completed (progress tsb) + 1)) wb w'
    /\ progress_moved increment_epoch wb w'
    /\ when (num_steps_completed_in_epoch (progress ts) =? 0)
            (let* _ := run_unit_hook u on_train_epoch_start in
             _run_callback_fn callbacks on_train_epoch_start)
            (epoch_entry w) = Ok wa tt.
Proof.
  intros H E. unfold _train_epoch_impl in H. inv_ok H.
  apply emit_Ok in Hop as ->. apply modify_Ok in Hop0 as ->.
  injection Hop1 as <- <-. injection Hop2 as <- <-.
  apply get_train_state_Ok in Hop3 as [-> E4]. simpl in E4. rewrite E in E4.
  injection E4 as <-. injection Hop4 as <- <-.
  change (eval_cadence (state _)) with (eval_cadence (state w)) in Hop7, Hop14.
  apply get_train_state_Ok in Hop6 as [-> E6].
  apply get_train_state_Ok in Hop8 as [-> E8].
  apply get_train_state_Ok in Hop13 as [-> E13].
  destruct a8, a6. pose proof Hop5 as Hentry.
  (* before the step loop *)
  match type of Hop5 with when _ _ ?w0 = _ => set (w4 := w0) in * end.
  assert (S4 : summary train_event [EvLog StartedTrainEpoch] w w4)
    by (exists [EvLog StartedTrainEpoch]; split; reflexivity).
  assert (P4 : progress_moved (fun p => p) w w4)
    by (apply progress_moved_same; reflexivity).
  assert (Hpro : summary train_event
                   (epoch_start_calls callbacks
                      (num_steps_completed_in_epoch (progress ts))) w w6
                 /\ progress_moved (fun p => p) w w6).
  { unfold epoch_start_calls. apply when_Ok in Hop5.
    destruct (num_steps_completed_in_epoch (progress ts) =? 0).
    - inv_ok Hop5.
      apply (train_event_run_unit_hook u on_train_epoch_start _ _ _ eq_refl) in Hop as [Sa Pa].
      apply (train_event_run_callback_fn callbacks on_train_epoch_start _ _ _ eq_refl)
        in Hop5 as [Sb Pb].
      split.
      + exact (summary_trans _ _ _ _ _ _ S4 (summary_trans _ _ _ _ _ _ Sa Sb)).
      + exact (progress_moved_trans _ _ _ _ _ P4 (progress_moved_trans _ _ _ _ _ Pa Pb)).
    - subst w6. auto. }
  destruct Hpro as [Spro Ppro].
  destruct (Ppro ts E) as (tsa & Ea & Ca & Pa). rewrite E6 in Ea. injection Ea as ->.
  assert (Hdl : dataloader tsa = dataloader ts) by apply Ca. rewrite Hdl in Hop7.
  rewrite Pa in Hop9.
  (* after the step loop *)
  set (any := Z.abs (num_steps_completed_in_epoch (progress a9)
                     - num_steps_completed_in_epoch (progress ts)) >? 0) in *.
  assert (S10 : summary train_event (if any then [] else [EvLog NoStepsCompleted]) w8 w10
                /\ progress_moved (fun p => p) w8 w10).
  { apply when_Ok in Hop9. destruct any; simpl in Hop9.
    - subst w10. split; [apply summary_refl | apply progress_moved_same; reflexivity].
    - apply emit_Ok in Hop9 as ->.
      split; [exists [EvLog NoStepsCompleted]; split; reflexivity
             | apply progress_moved_same; reflexivity]. }
  destruct S10 as [S10 P10].
  assert (P11 : progress_moved increment_epoch w10 w11).
  { eapply progress_moved_modify; [|exact Hop10]. intros ts0. split; [|reflexivity].
    unfold same_config. simpl. auto. }
  assert (S11 : summary train_event [] w10 w11)
    by (apply summary_same; apply modify_Ok in Hop10 as ->; reflexivity).
  apply (train_event_run_unit_hook u on_train_epoch_end _ _ _ eq_refl) in Hop11 as [S12 P12].
  apply (train_event_run_callback_fn callbacks on_train_epoch_end _ _ _ eq_refl)
    in Hop12 as [S13 P13].
  pose proof (progress_moved_trans _ _ _ _ _ P10
                (progress_moved_trans _ _ _ _ _ P11
                   (progress_moved_trans _ _ _ _ _ P12 P13))) as P8_13.
  simpl in P8_13.
  destruct (P8_13 a9 E8) as (ts13 & E13' & C13 & Pr13).
  rewrite E13 in E13'. injection E13' as ->.
  rewrite Pr13 in Hop14. simpl in Hop14.
  assert (H15 : summary train_event
                  (if is_due (eval_cadence (state w)).2
                        (num_epochs_completed (progress a9) + 1)
                   then [EvEvaluate AfterEpoch] else []) w13 w15
                /\ progress_moved (fun p => p) w13 w15).
  { apply when_Ok in Hop14. destruct (is_due _ _).
    - apply (call_evaluate_Ok ev Hev) in Hop14 as [Pe Se]. auto.
    - subst w15. split; [apply summary_refl | apply progress_moved_same; reflexivity]. }
  destruct H15 as [S15 P15].
  apply modify_Ok in Hop15 as ->. apply emit_Ok in H as ->.
  exists w6, tsa, w8, a9. repeat (split; [assumption|]). split.
  - unfold epoch_end_calls.
    pose proof (summary_trans _ _ _ _ _ _ S10
                  (summary_trans _ _ _ _ _ _ S11
                     (summary_trans _ _ _ _ _ _ S12
                        (summary_trans _ _ _ _ _ _ S13 S15)))) as S.
    destruct S as (evs & Ht & Hf). exists (evs ++ [EvLog EndedTrainEpoch]). split.
    + simpl. rewrite Ht, app_assoc. reflexivity.
    + rewrite List.filter_app, Hf. subst any.
      destruct (Z.abs _ >? 0), (is_due _ _); simpl; rewrite <- ?app_assoc;
        reflexivity.
  - split; [|exact Hentry].
    pose proof (progress_moved_trans _ _ _ _ _ P8_13 P15) as P.
    intros ts0 E0. destruct (P ts0 E0) as (ts1 & E1 & C1 & Pr1).
    exists ts1. simpl. auto.
Qed.
End EpochRoutine.

(** ** Filtering the events of the epoch routine *)

Lemma filter_callback_events_none (Q : Event -> bool) h callbacks :
  (forall i, Q (EvCallback i h) = false) ->
  forall i, List.filter Q (callback_events i callbacks h) = [].
Proof.
  intros HQ. induction callbacks as [|cb rest IH]; intros i; simpl; [reflexivity|].
  destruct (cb h); simpl; [rewrite HQ|]; apply IH.
Qed.

Lemma train_step_loop_summary_none ev (Hev : evaluate_frame ev) (Q : Event -> bool)
    fuel u callbacks every_n_steps data_iter w w' :
  (forall e, step_event e = true -> Q e = false) ->
  final (train_step_loop ev fuel u callbacks every_n_steps data_iter w) = Some w' ->
  summary Q [] w w'.
Proof.
  intros HQ H. eapply summary_extends; [exact HQ|].
  apply (ev_trace _ _ _ _ (ensures_train_step_loop ev Hev u callbacks _ _ _ _ _ H)).
Qed.

Lemma train_step_loop_epochs ev (Hev : evaluate_frame ev)
    fuel u callbacks every_n_steps data_iter w w' a tsa tsb :
  train_step_loop ev fuel u callbacks every_n_steps data_iter w = Ok w' a ->
  train_state (state w) = Some tsa -> train_state (state w') = Some tsb ->
  same_config tsa tsb /\ step_rel (progress tsa) (progress tsb).
Proof.
  intros H Ea Eb.
  pose proof (ev_train _ _ _ _
                (ensures_Ok _ _ _ _ _
                   (ensures_train_step_loop ev Hev u callbacks every_n_steps fuel data_iter)
                   H)) as Hr.
  unfold train_rel in Hr. rewrite Ea, Eb in Hr. exact Hr.
Qed.

Lemma hook_event_train_event h e :
  is_eval_hook h = false -> is_hook_event h e = true -> train_event e = true.
Proof. apply hook_event_is_train_event. Qed.

Lemma evaluate_at_train_event site e : is_evaluate_at site e = true -> train_event e = true.
Proof. destruct e; simpl; try discriminate. reflexivity. Qed.

Lemma step_event_not_hook h e :
  h = on_train_epoch_start \/ h = on_train_epoch_end ->
  step_event e = true -> is_hook_event h e = false.
Proof.
  intros Hh. destruct e as [h'| | |i h'|m|s]; simpl; try reflexivity;
    destruct h'; simpl; try discriminate; intros _;
    destruct Hh as [-> | ->]; reflexivity.
Qed.

Lemma step_event_not_after_epoch e :
  step_event e = true -> is_evaluate_at AfterEpoch e = false.
Proof. destruct e as [h'| | |i h'|m|[]]; simpl; try reflexivity; discriminate. Qed.

Lemma filter_evaluate_callback_events site h callbacks i :
  List.filter (is_evaluate_at site) (callback_events i callbacks h) = [].
Proof. apply filter_callback_events_none. reflexivity. Qed.

Lemma filter_hook_epoch_start_calls h callbacks count :
  List.filter (is_hook_event h) (epoch_start_calls callbacks count)
  = if bool_decide (on_train_epoch_start = h) && (count =? 0)
    then EvUnit on_train_epoch_start :: callback_events 0 callbacks on_train_epoch_start
    else [].
Proof.
  unfold epoch_start_calls. destruct (count =? 0); simpl.
  - rewrite filter_hook_callback_events. repeat case_bool_decide; simpl; congruence.
  - rewrite andb_false_r. reflexivity.
Qed.

Lemma filter_hook_epoch_end_calls h callbacks every_n any count :
  List.filter (is_hook_event h) (epoch_end_calls callbacks every_n any count)
  = if bool_decide (on_train_epoch_end = h)
    then EvUnit on_train_epoch_end :: callback_events 0 callbacks on_train_epoch_end
    else [].
Proof.
  unfold epoch_end_calls. rewrite !List.filter_app, filter_hook_callback_events.
  destruct any, (is_due every_n count); simpl; repeat case_bool_decide;
    simpl; rewrite ?app_nil_r; congruence.
Qed.

Lemma filter_evaluate_epoch_start_calls site callbacks count :
  List.filter (is_evaluate_at site) (epoch_start_calls callbacks count) = [].
Proof.
  unfold epoch_start_calls. destruct (count =? 0); simpl; [|reflexivity].
  apply filter_evaluate_callback_events.
Qed.

Lemma filter_evaluate_epoch_end_calls site callbacks every_n any count :
  List.filter (is_evaluate_at site) (epoch_end_calls callbacks every_n any count)
  = if bool_decide (AfterEpoch = site) && is_due every_n count
    then [EvEvaluate AfterEpoch] else [].
Proof.
  unfold epoch_end_calls. rewrite !List.filter_app, filter_evaluate_callback_events.
  destruct any, (is_due every_n count); simpl; repeat case_bool_decide;
    simpl; congruence.
Qed.

(** ** C9: every normal run of the epoch routine completes an epoch *)

Section EpochCompleted.
Context (ev : TrainUnit -> list Callback -> M unit) (Hev : evaluate_frame ev).
Context (u : TrainUnit) (callbacks : list Callback).

Lemma epoch_summary (Q : Event -> bool) fuel w w' ts :
  (forall e, Q e = true -> train_event e = true) ->
  (forall e, step_event e = true -> Q e = false) ->
  _train_epoch_impl ev fuel u callbacks w = Ok w' tt ->
  train_state (state w) = Some ts ->
  exists tsb ts',
    train_state (state w') = Some ts' /\ same_config ts ts'
    /\ step_rel (progress ts) (progress tsb)
    /\ progress ts' = increment_epoch (progress tsb)
    /\ List.filter Q (new_events w w')
       = List.filter Q
           (epoch_start_calls callbacks (num_steps_completed_in_epoch (progress ts)))
         ++ List.filter Q
              (epoch_end_calls callbacks (eval_cadence (state w)).2
                 (Z.abs (num_steps_completed_in_epoch (progress tsb)
                         - num_steps_completed_in_epoch (progress ts)) >? 0)
                 (num_epochs_completed (progress tsb) + 1)).
Proof.
  intros HQ1 HQ2 H E.
  destruct (train_epoch_impl_Ok ev Hev u callbacks fuel w w' tt ts H E)
    as (wa & tsa & wb & tsb & Sa & Ea & Ca & Pa & Hl & Eb & Sb & Pb & _).
  destruct (train_step_loop_epochs ev Hev _ _ _ _ _ _ _ _ _ _ Hl Ea Eb) as [Cb Rb].
  destruct (Pb tsb Eb) as (ts' & E' & C' & P').
  exists tsb, ts'. split; [exact E'|]. split.
  { eapply same_config_trans; [exact Ca|]. eapply same_config_trans; eassumption. }
  split; [rewrite <- Pa; exact Rb|]. split; [exact P'|].
  apply summary_new_events.
  apply (summary_refine Q _ _ _ _ HQ1) in Sa.
  apply (summary_refine Q _ _ _ _ HQ1) in Sb.
  assert (Sl : summary Q [] wa wb).
  { eapply train_step_loop_summary_none; [exact Hev | exact HQ2 | rewrite Hl; reflexivity]. }
  exact (summary_trans _ _ _ _ _ _ Sa (summary_trans _ _ _ _ _ _ Sl Sb)).
Qed.
End EpochCompleted.

(** C9. Every call of the epoch routine that returns normally has
    incremented [num_epochs_completed] by exactly one and reset the
    in-epoch step count, has called [on_train_epoch_end] of the unit and of
    each callback exposing it exactly once, and has tested the
    every-n-epochs cadence against the new epoch count: the evaluation pass
    after the epoch runs exactly when that cadence is due. Nothing is
    assumed about how the step loop ended. *)
Theorem train_epoch_always_completes_an_epoch
    (ev : TrainUnit -> list Callback -> M unit) (fuel : nat) (u : TrainUnit)
    (callbacks : list Callback) (w w' : World) (ts : PhaseState) :
  evaluate_frame ev ->
  train_state (state w) = Some ts ->
  _train_epoch_impl ev fuel u callbacks w = Ok w' tt ->
  exists ts',
    train_state (state w') = Some ts'
    /\ num_epochs_completed (progress ts') = num_epochs_completed (progress ts) + 1
    /\ num_steps_completed_in_epoch (progress ts') = 0
    /\ List.filter (is_hook_event on_train_epoch_end) (new_events w w')
       = EvUnit on_train_epoch_end :: callback_events 0 callbacks on_train_epoch_end
    /\ List.filter (is_evaluate_at AfterEpoch) (new_events w w')
       = if is_due (eval_cadence (state w)).2
                   (num_epochs_completed (progress ts) + 1)
         then [EvEvaluate AfterEpoch] else [].
Proof.
  intros Hev E H.
  destruct (epoch_summary ev Hev u callbacks (is_hook_event on_train_epoch_end)
              fuel w w' ts) as (tsb & ts' & E' & C' & (Re & _) & P' & F1); auto.
  { intros e. apply hook_event_train_event. reflexivity. }
  { intros e. apply step_event_not_hook. auto. }
  destruct (epoch_summary ev Hev u callbacks (is_evaluate_at AfterEpoch)
              fuel w w' ts) as (tsb2 & ts2 & E2 & C2 & (Re2 & _) & P2 & F2); auto.
  { intros e. apply evaluate_at_train_event. }
  { intros e. apply step_event_not_after_epoch. }
  exists ts'. split; [exact E'|]. rewrite P'. simpl. split; [lia|]. split; [reflexivity|].
  split.
  - rewrite F1, filter_hook_epoch_start_calls, filter_hook_epoch_end_calls. reflexivity.
  - rewrite F2, filter_evaluate_epoch_start_calls, filter_evaluate_epoch_end_calls.
    rewrite Re2. reflexivity.
Qed.

(** ** The epoch routine after its first statements *)

Lemma bind_assoc_at {A B C} (m : M A) (f : A -> M B) (g : B -> M C) w :
  bind (bind m f) g w = bind m (fun x => bind (f x) g) w.
Proof. unfold bind. destruct (m w); reflexivity. Qed.

Lemma ensures_train_step_loop_plain ev u callbacks fuel : forall data_iter,
  ensures (evolves step_rel plain_step_event)
          (train_step_loop ev fuel u callbacks None data_iter).
Proof.
  induction fuel as [|fuel IH]; intros data_iter; simpl.
  - apply ensures_out_of_fuel.
  - apply ensures_bind; [apply _ | ens | intros w0].
    apply ensures_bind; [apply _ | ens | intros ts].
    destruct (_ || _); [ens|].
    apply ensures_bind; [apply _ | | intros [it|]; [apply IH | ens]].
    apply ensures_try_except; [apply _ | | intros _; ens].
    apply ensures_bind; [apply _ | | intros it; ens].
    unfold train_step_body, fetch_step_input. cbn [is_due truthy andb when].
    destruct (train_step_requires_iterator u); [|destruct data_iter]; ens.
Qed.

Ltac run_prefix H E :=
  repeat (erewrite bind_Ok in H
            by first [ reflexivity
                     | unfold get_train_state; simpl; rewrite E; reflexivity ]).

Section EpochStartHooks.
Context (ev : TrainUnit -> list Callback -> M unit) (Hev : evaluate_frame ev).
Context (u : TrainUnit) (callbacks : list Callback).

Lemma stale_epoch_fires_no_start_hook fuel w w' ts :
  train_state (state w) = Some ts ->
  num_steps_completed_in_epoch (progress ts) <> 0 ->
  final (_train_epoch_impl ev fuel u callbacks w) = Some w' ->
  List.filter (is_hook_event on_train_epoch_start) (new_events w w') = [].
Proof.
  intros E Hc H. unfold _train_epoch_impl in H. run_prefix H E.
  rewrite (proj2 (Z.eqb_neq _ _) Hc) in H. run_prefix H E.
  match type of H with
  | final (?k ?w0) = _ =>
      assert (Hk : ensures (evolves any_progress
                              (not_event (is_hook_event on_train_epoch_start))) k)
  end.
  { ens. eapply ensures_weaken; [|apply ensures_train_step_loop, Hev].
    intros w1 w2. apply evolves_weaken; [intros; exact I|].
    intros e He. unfold not_event.
    rewrite (step_event_not_hook on_train_epoch_start e); auto. }
  apply summary_new_events.
  change (@nil Event) with
    (List.filter (is_hook_event on_train_epoch_start) [EvLog StartedTrainEpoch] ++ []).
  eapply summary_trans; [apply summary_add_event|].
  eapply summary_extends; [|apply (ev_trace _ _ _ _ (Hk _ _ H))].
  intros e. unfold not_event. destruct (is_hook_event _ e); [discriminate | reflexivity].
Qed.

Lemma fresh_epoch_calls_start_hook_first fuel w w' ts :
  train_state (state w) = Some ts ->
  num_steps_completed_in_epoch (progress ts) = 0 ->
  final (_train_epoch_impl ev fuel u callbacks w) = Some w' ->
  exists rest,
    new_events w w' = EvLog StartedTrainEpoch :: EvUnit on_train_epoch_start :: rest.
Proof.
  intros E Hc H. unfold _train_epoch_impl in H. run_prefix H E.
  rewrite Hc in H. cbn [Z.eqb when] in H.
  rewrite bind_assoc_at in H. unfold run_unit_hook in H.
  eapply starts_with_hook in H.
  - destruct H as (rest & Hr). exists rest. apply new_events_app.
    rewrite Hr. simpl. rewrite <- app_assoc. reflexivity.
  - ens. apply ensures_train_step_loop_any, Hev.
Qed.
End EpochStartHooks.

(** ** C10: a cadence of 0 *)

Section ZeroCadence.
Context (ev : TrainUnit -> list Callback -> M unit) (Hev : evaluate_frame ev).
Context (u : TrainUnit) (callbacks : list Callback).

Lemma no_step_cadence_no_evaluation fuel w w' ts :
  train_state (state w) = Some ts ->
  (eval_cadence (state w)).1 = None ->
  final (_train_epoch_impl ev fuel u callbacks w) = Some w' ->
  List.filter (is_evaluate_at AfterStep) (new_events w w') = [].
Proof.
  intros E Hc H. unfold _train_epoch_impl in H. run_prefix H E.
  change (eval_cadence (state _)) with (eval_cadence (state w)) in H.
  rewrite Hc in H.
  match type of H with
  | final (?k ?w0) = _ =>
      assert (Hk : ensures (evolves any_progress
                              (not_event (is_evaluate_at AfterStep))) k)
  end.
  { ens. eapply ensures_weaken; [|apply ensures_train_step_loop_plain].
    intros w1 w2. apply evolves_weaken; [intros; exact I|]. event_cases. }
  apply summary_new_events.
  change (@nil Event) with
    (List.filter (is_evaluate_at AfterStep) [EvLog StartedTrainEpoch] ++ []).
  eapply summary_trans; [apply summary_add_event|].
  eapply summary_extends; [|apply (ev_trace _ _ _ _ (Hk _ _ H))].
  intros e. unfold not_event. destruct (is_evaluate_at _ e); [discriminate | reflexivity].
Qed.

Lemma no_epoch_cadence_no_evaluation fuel w w' ts :
  train_state (state w) = Some ts ->
  (eval_cadence (state w)).2 = None ->
  final (_train_epoch_impl ev fuel u callbacks w) = Some w' ->
  List.filter (is_evaluate_at AfterEpoch) (new_events w w') = [].
Proof.
  intros E Hc H. unfold _train_epoch_impl in H. run_prefix H E.
  change (eval_cadence (state _)) with (eval_cadence (state w)) in H.
  rewrite Hc in H. cbn [is_due truthy andb when] in H.
  match type of H with
  | final (?k ?w0) = _ =>
      assert (Hk : ensures (evolves any_progress
                              (not_event (is_evaluate_at AfterEpoch))) k)
  end.
  { ens. eapply ensures_weaken; [|apply ensures_train_step_loop, Hev].
    intros w1 w2. apply evolves_weaken; [intros; exact I|].
    intros e He. unfold not_event. rewrite (step_event_not_after_epoch e He).
    reflexivity. }
  apply summary_new_events.
  change (@nil Event) with
    (List.filter (is_evaluate_at AfterEpoch) [EvLog StartedTrainEpoch] ++ []).
  eapply summary_trans; [apply summary_add_event|].
  eapply summary_extends; [|apply (ev_trace _ _ _ _ (Hk _ _ H))].
  intros e. unfold not_event. destruct (is_evaluate_at _ e); [discriminate | reflexivity].
Qed.
End ZeroCadence.

(** C10. A PhaseState is constructed with cadences of 0 without raising;
    the cadence taken from the eval PhaseState is the same for 0 as for
    None, namely none; and with a cadence of 0 or None the epoch routine
    never calls the evaluation pass at the corresponding place, however the
    run ends. *)
Theorem zero_cadence_means_no_interleaved_evaluation
    (ev : TrainUnit -> list Callback -> M unit) (fuel : nat) (u : TrainUnit)
    (callbacks : list Callback) :
  evaluate_frame ev ->
  (forall dl prog me ms mspe,
     negative me || negative ms || negative mspe = false ->
     PhaseState_init dl prog me ms mspe (Some 0) (Some 0)
     = inr (mkPhaseState dl (default Progress_init prog) me ms mspe
                         (Some 0) (Some 0) None))
  /\ resolve_cadence (Some 0) = resolve_cadence None
  /\ (forall s es, eval_state s = Some es ->
        (evaluate_every_n_steps es = Some 0 \/ evaluate_every_n_steps es = None ->
         (eval_cadence s).1 = None)
        /\ (evaluate_every_n_epochs es = Some 0 \/ evaluate_every_n_epochs es = None ->
            (eval_cadence s).2 = None))
  /\ (forall w w' ts es,
        train_state (state w) = Some ts -> eval_state (state w) = Some es ->
        final (_train_epoch_impl ev fuel u callbacks w) = Some w' ->
        (evaluate_every_n_steps es = Some 0 \/ evaluate_every_n_steps es = None ->
         List.filter (is_evaluate_at AfterStep) (new_events w w') = [])
        /\ (evaluate_every_n_epochs es = Some 0 \/ evaluate_every_n_epochs es = None ->
            List.filter (is_evaluate_at AfterEpoch) (new_events w w') = [])).
Proof.
  intros Hev.
  assert (Hc : forall s es, eval_state s = Some es ->
        (evaluate_every_n_steps es = Some 0 \/ evaluate_every_n_steps es = None ->
         (eval_cadence s).1 = None)
        /\ (evaluate_every_n_epochs es = Some 0 \/ evaluate_every_n_epochs es = None ->
            (eval_cadence s).2 = None)).
  { intros s es E. unfold eval_cadence. rewrite E. simpl.
    split; intros [-> | ->]; reflexivity. }
  split; [|split; [|split]].
  - intros dl prog me ms mspe H. unfold PhaseState_init.
    rewrite !check_loop_condition_spec.
    apply orb_false_iff in H as [H H3]. apply orb_false_iff in H as [H1 H2].
    rewrite H1, H2, H3. reflexivity.
  - reflexivity.
  - exact Hc.
  - intros w w' ts es E Ee H. destruct (Hc (state w) es Ee) as [Hs He]. split; intros Hz.
    + eapply no_step_cadence_no_evaluation; eauto.
    + eapply no_epoch_cadence_no_evaluation; eauto.
Qed.

(** ** C5: evaluation every n steps *)

Lemma multiple_of_spec k n : multiple_of k n = true <-> (k | n).
Proof.
  unfold multiple_of. destruct (Z.eqb_spec k 0) as [->|Hk].
  - rewrite Z.eqb_eq. split; [intros ->; apply Z.divide_0_r | apply Z.divide_0_l].
  - rewrite Z.eqb_eq. apply Z.mod_divide. exact Hk.
Qed.

Lemma is_due_resolved k n :
  0 < n -> is_due (resolve_cadence (Some k)) n = multiple_of k n.
Proof.
  intros Hn. unfold resolve_cadence, multiple_of, is_due, truthy.
  destruct (Z.eqb_spec k 0) as [->|Hk]; simpl.
  - symmetry. apply Z.eqb_neq. lia.
  - destruct (Z.eqb_spec k 0); [contradiction | reflexivity].
Qed.

Lemma summary_run_step_final (T : Event -> bool) e0 f w w' :
  T (EvLog ReceivedSignalToStop) = false ->
  final (run_step e0 f w) = Some w' -> summary T (List.filter T [e0]) w w'.
Proof.
  intros HT. unfold run_step. intros H.
  assert (w' = after_hook (so_outcome (f (add_event e0 w))) (add_event e0 w)) as ->
    by (destruct (ho_raise _); simpl in H; congruence).
  rewrite <- (app_nil_r (List.filter T [e0])).
  eapply summary_trans; [apply summary_add_event | apply summary_after_hook, HT].
Qed.

Lemma iter_increment_step n p :
  Nat.iter n increment_step p
  = mkProgress (num_epochs_completed p)
               (num_steps_completed p + Z.of_nat n)
               (num_steps_completed_in_epoch p + Z.of_nat n).
Proof.
  induction n as [|n IH].
  - destruct p. simpl. f_equal; lia.
  - rewrite Nat.iter_succ, IH. unfold increment_step. simpl. f_equal; lia.
Qed.

Lemma filter_step_or_evaluation_callbacks h callbacks i :
  List.filter step_or_evaluation (callback_events i callbacks h) = [].
Proof. apply filter_callback_events_none. reflexivity. Qed.

Lemma filter_step_or_evaluation_step_calls callbacks input every_n count :
  List.filter step_or_evaluation (step_calls callbacks input every_n count)
  = EvTrainStep input :: (if is_due every_n count then [EvEvaluate AfterStep] else []).
Proof.
  unfold step_calls.
  rewrite !List.filter_app, !filter_step_or_evaluation_callbacks.
  destruct (is_due every_n count); reflexivity.
Qed.

Lemma filter_step_or_evaluation_loop_calls callbacks k steps : forall count,
  0 <= count ->
  List.filter step_or_evaluation
    (loop_calls callbacks (resolve_cadence (Some k)) count steps)
  = interleaved k count steps.
Proof.
  induction steps as [|input rest IH]; intros count Hc; simpl; [reflexivity|].
  rewrite List.filter_app, filter_step_or_evaluation_step_calls.
  rewrite is_due_resolved by lia. rewrite IH by lia. reflexivity.
Qed.

Lemma filter_step_or_evaluation_epoch_start callbacks count :
  List.filter step_or_evaluation (epoch_start_calls callbacks count) = [].
Proof.
  unfold epoch_start_calls. destruct (count =? 0); simpl; [|reflexivity].
  apply filter_step_or_evaluation_callbacks.
Qed.

Lemma filter_step_or_evaluation_epoch_end callbacks every_n any count :
  List.filter step_or_evaluation (epoch_end_calls callbacks every_n any count) = [].
Proof.
  unfold epoch_end_calls.
  rewrite !List.filter_app, filter_step_or_evaluation_callbacks.
  destruct any, (is_due every_n count); reflexivity.
Qed.

Lemma step_or_evaluation_train_event e :
  step_or_evaluation e = true -> train_event e = true.
Proof. destruct e; simpl; try discriminate; reflexivity. Qed.

(** ** Undisturbed runs return *)

Lemma succeeds_ret {A} (Inv : World -> Prop) (Q : A -> Prop) a :
  Q a -> succeeds Inv Q (ret a).
Proof. intros HQ w HI. exists w, a. auto. Qed.

Lemma succeeds_bind {A B} (Inv : World -> Prop) (Q1 : A -> Prop) (Q2 : B -> Prop)
    (m : M A) (k : A -> M B) :
  succeeds Inv Q1 m -> (forall a, Q1 a -> succeeds Inv Q2 (k a)) ->
  succeeds Inv Q2 (bind m k).
Proof.
  intros Hm Hk w HI. destruct (Hm w HI) as (w1 & a & E & HI1 & HQ1).
  destruct (Hk a HQ1 w1 HI1) as (w2 & b & E2 & HI2 & HQ2).
  exists w2, b. unfold bind. rewrite E. auto.
Qed.

Lemma succeeds_when (Inv : World -> Prop) b m :
  (b = true -> succeeds Inv anything m) -> succeeds Inv anything (when b m).
Proof.
  destruct b; simpl; intros H; [apply H; reflexivity|].
  apply succeeds_ret. exact Logic.I.
Qed.

Lemma succeeds_modify (Inv : World -> Prop) f :
  (forall w, Inv w -> Inv (f w)) -> succeeds Inv anything (modify f).
Proof. intros H w HI. exists (f w), tt. split; [reflexivity|]. split; [auto | exact Logic.I]. Qed.

Section Steady.
Context (fuel : nat) (has_eval : bool).
#[local] Abbreviation Inv := (steady fuel has_eval).

Lemma steady_same w w' :
  state w' = state w -> Inv w -> Inv w'.
Proof. unfold steady. intros ->. trivial. Qed.

Lemma steady_upd_train f w :
  (forall ts, same_config ts (f ts)) -> Inv w -> Inv (upd_state (upd_train_state f) w).
Proof.
  intros Hf (Hs & (ts & E & Hl & H1 & H2) & He). split; [exact Hs|]. split; [|exact He].
  exists (f ts). simpl. rewrite E. simpl. split; [reflexivity|].
  destruct (Hf ts) as (-> & _ & -> & ->). auto.
Qed.

Lemma succeeds_emit e0 : succeeds Inv anything (emit e0).
Proof. apply succeeds_modify. intros w. apply steady_same. reflexivity. Qed.

Lemma succeeds_set_active_phase ph :
  succeeds Inv anything (modify (upd_state (set_active_phase ph))).
Proof.
  apply succeeds_modify. intros w (Hs & Ht & He). split; [exact Hs|]. split; assumption.
Qed.

Lemma succeeds_reset tracked prior :
  succeeds Inv anything (_reset_module_training_mode tracked prior).
Proof. apply succeeds_modify. intros w. apply steady_same. reflexivity. Qed.

Lemma succeeds_modify_train_state f :
  (forall ts, same_config ts (f ts)) -> succeeds Inv anything (modify_train_state f).
Proof. intros Hf. apply succeeds_modify. intros w. apply steady_upd_train, Hf. Qed.

Lemma succeeds_get_train_state e :
  succeeds Inv (fun ts => (length (dataloader ts) < fuel)%nat
                        /\ max_steps_per_epoch ts = None /\ max_steps ts = None)
           (get_train_state e).
Proof.
  intros w HI. pose proof HI as (Hs & (ts & E & Hc) & He).
  exists w, ts. unfold get_train_state. rewrite E. auto.
Qed.

Lemma succeeds_run_hook e0 f :
  (forall w, f w = quiet) -> succeeds Inv anything (run_hook e0 f).
Proof.
  intros Hq w HI. exists (add_event e0 w), tt. unfold run_hook. rewrite Hq. simpl.
  split; [reflexivity|]. split; [|exact Logic.I].
  eapply steady_same; [|exact HI]. reflexivity.
Qed.

Lemma succeeds_run_step e0 f :
  (forall w, so_outcome (f w) = quiet) -> succeeds Inv anything (run_step e0 f).
Proof.
  intros Hq w HI. eexists (add_event e0 w), _. unfold run_step. rewrite Hq. simpl.
  split; [reflexivity|]. split; [|exact Logic.I].
  eapply steady_same; [|exact HI]. reflexivity.
Qed.

Lemma succeeds_run_callbacks_from callbacks h :
  quiet_callbacks callbacks ->
  forall i, succeeds Inv anything (run_callbacks_from i callbacks h).
Proof.
  induction callbacks as [|cb rest IH]; intros Hq i; simpl.
  - apply succeeds_ret. exact Logic.I.
  - assert (Hrest : quiet_callbacks rest)
      by (intros cb0 h0 f w Hin; apply Hq; right; exact Hin).
    destruct (cb h) as [f|] eqn:E; [|apply IH, Hrest].
    eapply succeeds_bind; [|intros _ _; apply IH, Hrest].
    apply succeeds_run_hook. intros w. eapply Hq; [left | exact E].
Qed.

Lemma succeeds_call_evaluate ev site u callbacks :
  evaluate_frame ev -> evaluate_quiet ev u callbacks -> has_eval = true ->
  succeeds Inv anything (call_evaluate ev site u callbacks).
Proof.
  intros Hev Hq Hh w HI. unfold call_evaluate, bind, emit, modify.
  assert (HI1 : Inv (add_event (EvEvaluate site) w))
    by (eapply steady_same; [|exact HI]; reflexivity).
  destruct HI1 as (Hs & (ts & E & Hl & H1 & H2) & He).
  destruct (Hq _ (He Hh)) as (w' & Hr & Hs').
  exists w', tt. split; [exact Hr|]. split; [|exact Logic.I].
  pose proof (ensures_Ok _ _ _ _ _ (Hev u callbacks) Hr) as [_ _ Htr Hek _].
  split; [congruence|]. split; [|intros _; apply Hek, He, Hh].
  unfold train_rel in Htr. rewrite E in Htr.
  destruct (train_state (state w')) as [ts'|]; [|contradiction].
  destruct Htr as [(Hd & _ & Hm & Hm') _]. exists ts'.
  rewrite Hd, Hm, Hm'. auto.
Qed.
End Steady.

Ltac suc_side :=
  first [ exact Logic.I
        | assumption
        | reflexivity
        | intros ?; unfold same_config; simpl; auto ].

Section QuietEpoch.
Context (ev : TrainUnit -> list Callback -> M unit) (Hev : evaluate_frame ev).
Context (u : TrainUnit) (callbacks : list Callback).
Hypothesis Hu : quiet_unit u.
Hypothesis Hc : quiet_callbacks callbacks.
Hypothesis Hq : evaluate_quiet ev u callbacks.
Hypothesis Hbatch : train_step_requires_iterator u = false.
Context (fuel : nat) (has_eval : bool).
#[local] Abbreviation Inv := (steady fuel has_eval).

Lemma succeeds_maybe_evaluate every_n count site :
  (every_n = None \/ has_eval = true) ->
  succeeds Inv anything (when (is_due every_n count) (call_evaluate ev site u callbacks)).
Proof.
  intros [-> | Hh]; [apply succeeds_ret; exact Logic.I|].
  apply succeeds_when. intros _. apply succeeds_call_evaluate; assumption.
Qed.

Lemma succeeds_train_step_body every_n b rest :
  (every_n = None \/ has_eval = true) ->
  succeeds Inv (fun it => it = rest)
           (train_step_body ev u callbacks every_n (b :: rest)).
Proof.
  intros Hn. unfold train_step_body. rewrite Hbatch. simpl.
  eapply (succeeds_bind _ (eq (InBatch b, rest)));
    [apply succeeds_ret; reflexivity | intros ? <-].
  eapply succeeds_bind;
    [apply succeeds_run_callbacks_from, Hc | intros _ _].
  eapply succeeds_bind; [apply succeeds_run_step, Hu | intros ? _].
  eapply succeeds_bind; [apply succeeds_modify_train_state; suc_side | intros _ _].
  eapply succeeds_bind; [apply succeeds_modify_train_state; suc_side | intros _ _].
  eapply succeeds_bind;
    [apply succeeds_run_callbacks_from, Hc | intros _ _].
  eapply succeeds_bind; [apply succeeds_modify_train_state; suc_side | intros _ _].
  eapply succeeds_bind; [apply succeeds_get_train_state | intros ts _].
  eapply succeeds_bind; [apply succeeds_maybe_evaluate, Hn | intros _ _].
  apply succeeds_ret. reflexivity.
Qed.
End QuietEpoch.

Section QuietLoop.
Context (ev : TrainUnit -> list Callback -> M unit) (Hev : evaluate_frame ev).
Context (u : TrainUnit) (callbacks : list Callback).
Hypothesis Hu : quiet_unit u.
Hypothesis Hc : quiet_callbacks callbacks.
Hypothesis Hq : evaluate_quiet ev u callbacks.
Hypothesis Hbatch : train_step_requires_iterator u = false.
Context (fuel : nat) (has_eval : bool) (every_n : option Z).
Hypothesis Hn : every_n = None \/ has_eval = true.

Lemma quiet_train_step_loop data_iter : forall fuel_steps w ts,
  steady fuel has_eval w ->
  train_state (state w) = Some ts ->
  (length data_iter < fuel_steps)%nat ->
  exists w' ts',
    train_step_loop ev fuel_steps u callbacks every_n data_iter w = Ok w' tt
    /\ steady fuel has_eval w'
    /\ train_state (state w') = Some ts'
    /\ progress ts' = Nat.iter (length data_iter) increment_step (progress ts)
    /\ summary train_event
         (loop_calls callbacks every_n (num_steps_completed_in_epoch (progress ts))
            (map InBatch data_iter)) w w'.
Proof.
  induction data_iter as [|b rest IH]; intros fuel_steps w ts HI E Hlen;
    (destruct fuel_steps as [|fuel_steps]; [simpl in Hlen; lia|]).
  - exists w, ts. split; [|split; [exact HI|split; [exact E|split; [reflexivity|]]]].
    + destruct HI as (Hs & (ts0 & E0 & _ & H1 & H2) & _).
      rewrite E in E0. injection E0 as <-.
      simpl. unfold bind at 1, get. unfold bind at 1, get_train_state.
      rewrite E, Hs. unfold _is_epoch_done. rewrite H1, H2. simpl.
      unfold bind at 1, try_except. unfold bind at 1.
      unfold train_step_body. rewrite Hbatch. reflexivity.
    + apply summary_refl.
  - destruct (succeeds_train_step_body ev Hev u callbacks Hu Hc Hq Hbatch
                fuel has_eval every_n b rest Hn w HI) as (w1 & it & Eb & HI1 & ->).
    destruct (train_step_body_Ok ev Hev u callbacks every_n _ _ _ _ ts Eb E)
      as (ts1 & input & E1 & C1 & P1 & S1 & (rest0 & Hf)).
    unfold fetch_step_input in Hf. rewrite Hbatch in Hf. injection Hf as <- _.
    destruct (IH fuel_steps w1 ts1 HI1 E1 ltac:(simpl in Hlen; lia))
      as (w' & ts' & Hl & HI' & E' & P' & S').
    exists w', ts'. split; [|split; [exact HI'|split; [exact E'|split]]].
    + pose proof HI as (Hs & (ts0 & E0 & _ & H1 & H2) & _).
      rewrite E in E0. injection E0 as <-.
      assert (Hcond : should_stop (state w)
                      || _is_epoch_done (progress ts) (max_steps_per_epoch ts)
                           (max_steps ts) = false)
        by (rewrite Hs; unfold _is_epoch_done; rewrite H1, H2; reflexivity).
      rewrite (train_step_loop_unfold ev u callbacks _ _ _ _ ts _ _ E Hcond Eb).
      exact Hl.
    + rewrite P', P1. symmetry. apply Nat.iter_succ_r.
    + simpl. rewrite P1 in S'. simpl in S'.
      exact (summary_trans _ _ _ _ _ _ S1 S').
Qed.

Lemma succeeds_train_step_loop data_iter fuel_steps :
  (length data_iter < fuel_steps)%nat ->
  succeeds (steady fuel has_eval) anything
           (train_step_loop ev fuel_steps u callbacks every_n data_iter).
Proof.
  intros Hlen w HI. pose proof HI as (_ & (ts & E & _) & _).
  destruct (quiet_train_step_loop data_iter fuel_steps w ts HI E Hlen)
    as (w' & ts' & Hl & HI' & _).
  exists w', tt. split; [exact Hl|]. split; [exact HI' | exact Logic.I].
Qed.
End QuietLoop.

Section QuietEpochRoutine.
Context (ev : TrainUnit -> list Callback -> M unit) (Hev : evaluate_frame ev).
Context (u : TrainUnit) (callbacks : list Callback).
Hypothesis Hu : quiet_unit u.
Hypothesis Hc : quiet_callbacks callbacks.
Hypothesis Hq : evaluate_quiet ev u callbacks.
Hypothesis Hbatch : train_step_requires_iterator u = false.
Context (fuel : nat) (has_eval : bool).

Lemma succeeds_run_unit_hook h :
  succeeds (steady fuel has_eval) anything (run_unit_hook u h).
Proof. apply succeeds_run_hook. intros w. apply Hu. Qed.

Lemma succeeds_epoch_start_hooks b :
  succeeds (steady fuel has_eval) anything
    (when b (let* _ := run_unit_hook u on_train_epoch_start in
             _run_callback_fn callbacks on_train_epoch_start)).
Proof.
  apply succeeds_when. intros _.
  eapply succeeds_bind; [apply succeeds_run_unit_hook | intros _ _].
  apply succeeds_run_callbacks_from, Hc.
Qed.

Lemma steady_epoch_entry w : steady fuel has_eval w -> steady fuel has_eval (epoch_entry w).
Proof. intros (Hs & Ht & He). split; [exact Hs|]. split; assumption. Qed.

Lemma quiet_train_epoch_impl_returns w :
  steady fuel has_eval w ->
  ((eval_cadence (state w)).1 = None \/ has_eval = true) ->
  ((eval_cadence (state w)).2 = None \/ has_eval = true) ->
  exists w', _train_epoch_impl ev fuel u callbacks w = Ok w' tt.
Proof.
  intros HI H1 H2. pose proof HI as (_ & (ts & E & _) & _).
  eassert (Hrw : _train_epoch_impl ev fuel u callbacks w = _).
  { unfold _train_epoch_impl.
    repeat (erewrite bind_Ok
              by first [ reflexivity
                       | unfold get_train_state; simpl; rewrite E; reflexivity ]).
    reflexivity. }
  rewrite Hrw. clear Hrw.
  match goal with
  | |- exists w', ?m ?w0 = Ok w' tt =>
      assert (Hm : succeeds (steady fuel has_eval) anything m);
        [| destruct (Hm w0 (steady_epoch_entry w HI)) as (w' & [] & Hr & _);
           exists w'; exact Hr ]
  end.
  eapply succeeds_bind; [apply succeeds_epoch_start_hooks | intros _ _].
  eapply succeeds_bind; [apply succeeds_get_train_state | intros ts0 (Hl & _)].
  eapply succeeds_bind;
    [apply (succeeds_train_step_loop ev Hev u callbacks Hu Hc Hq Hbatch);
     [exact H1 | exact Hl] | intros _ _].
  eapply succeeds_bind; [apply succeeds_get_train_state | intros ts1 _].
  eapply succeeds_bind;
    [apply succeeds_when; intros _; apply succeeds_emit | intros _ _].
  eapply succeeds_bind; [apply succeeds_modify_train_state; suc_side | intros _ _].
  eapply succeeds_bind; [apply succeeds_run_unit_hook | intros _ _].
  eapply succeeds_bind; [apply succeeds_run_callbacks_from, Hc | intros _ _].
  eapply succeeds_bind; [apply succeeds_get_train_state | intros ts2 _].
  eapply succeeds_bind;
    [apply (succeeds_maybe_evaluate ev Hev u callbacks Hq); exact H2 | intros _ _].
  eapply succeeds_bind; [apply succeeds_reset | intros _ _].
  apply succeeds_emit.
Qed.
End QuietEpochRoutine.

(** ** C6: an undisturbed epoch over n batches *)

Lemma filter_step_calls (Q : Event -> bool) callbacks input every_n count :
  (forall i h, Q (EvCallback i h) = false) ->
  List.filter Q (step_calls callbacks input every_n count)
  = List.filter Q
      (EvTrainStep input :: (if is_due every_n count then [EvEvaluate AfterStep] else [])).
Proof.
  intros HQ. unfold step_calls.
  rewrite !List.filter_app, !(filter_callback_events_none Q) by (intros; apply HQ).
  simpl. destruct (Q (EvTrainStep input)); reflexivity.
Qed.

Lemma filter_epoch_start_calls (Q : Event -> bool) callbacks count :
  (forall i h, Q (EvCallback i h) = false) ->
  List.filter Q (epoch_start_calls callbacks count)
  = List.filter Q
      (EvLog StartedTrainEpoch
       :: (if count =? 0 then [EvUnit on_train_epoch_start] else [])).
Proof.
  intros HQ. unfold epoch_start_calls. destruct (count =? 0); [|reflexivity].
  change (EvLog StartedTrainEpoch :: EvUnit on_train_epoch_start
          :: callback_events 0 callbacks on_train_epoch_start)
    with ([EvLog StartedTrainEpoch; EvUnit on_train_epoch_start]
          ++ callback_events 0 callbacks on_train_epoch_start).
  rewrite List.filter_app, (filter_callback_events_none Q) by (intros; apply HQ).
  apply app_nil_r.
Qed.

Lemma filter_epoch_end_calls (Q : Event -> bool) callbacks every_n any count :
  (forall i h, Q (EvCallback i h) = false) ->
  List.filter Q (epoch_end_calls callbacks every_n any count)
  = List.filter Q
      ((if any then [] else [EvLog NoStepsCompleted])
       ++ [EvUnit on_train_epoch_end]
       ++ (if is_due every_n count then [EvEvaluate AfterEpoch] else [])
       ++ [EvLog EndedTrainEpoch]).
Proof.
  intros HQ. unfold epoch_end_calls.
  rewrite !List.filter_app, (filter_callback_events_none Q) by (intros; apply HQ).
  simpl. destruct any; simpl;
    repeat match goal with |- context [if Q ?e then _ else _] => destruct (Q e) end;
    reflexivity.
Qed.

Lemma filter_train_step_loop_calls callbacks every_n data : forall count,
  List.filter is_train_step (loop_calls callbacks every_n count (map InBatch data))
  = map (fun b => EvTrainStep (InBatch b)) data.
Proof.
  induction data as [|b rest IH]; intros count; simpl; [reflexivity|].
  rewrite List.filter_app, filter_step_calls by reflexivity.
  rewrite IH. destruct (is_due _ _); reflexivity.
Qed.

Lemma filter_log_loop_calls m callbacks every_n steps : forall count,
  List.filter (is_log m) (loop_calls callbacks every_n count steps) = [].
Proof.
  induction steps as [|input rest IH]; intros count; simpl; [reflexivity|].
  rewrite List.filter_app, filter_step_calls by reflexivity.
  rewrite IH. destruct (is_due _ _); reflexivity.
Qed.

Lemma train_step_is_train_event e : is_train_step e = true -> train_event e = true.
Proof. destruct e; simpl; try discriminate; reflexivity. Qed.

Lemma log_is_train_event m e :
  m <> ReceivedSignalToStop -> is_log m e = true -> train_event e = true.
Proof.
  intros Hm. destruct e as [| | | |m'|]; simpl; try discriminate.
  intros H. apply bool_decide_eq_true in H. subst m'.
  destruct m; try reflexivity. contradiction.
Qed.

(** C6 (amended). Let the step take batches, let no user code raise or
    stop, and let the evaluation pass return without stopping. For a
    dataloader of n batches and a train PhaseState without step limits the
    epoch routine returns normally: the end of the dataloader ends the step
    loop. It has called [train_step] once on each batch, in order, has
    added n to [num_steps_completed] and 1 to [num_epochs_completed], and
    has logged the empty-epoch warning exactly when n = 0. *)
Theorem undisturbed_epoch_runs_every_batch_once
    (ev : TrainUnit -> list Callback -> M unit) (fuel : nat) (u : TrainUnit)
    (callbacks : list Callback) (w : World) (ts : PhaseState) :
  evaluate_frame ev ->
  evaluate_quiet ev u callbacks ->
  quiet_unit u ->
  quiet_callbacks callbacks ->
  train_step_requires_iterator u = false ->
  train_state (state w) = Some ts ->
  max_steps_per_epoch ts = None ->
  max_steps ts = None ->
  should_stop (state w) = false ->
  (length (dataloader ts) < fuel)%nat ->
  exists w' ts',
    _train_epoch_impl ev fuel u callbacks w = Ok w' tt
    /\ train_state (state w') = Some ts'
    /\ List.filter is_train_step (new_events w w')
       = map (fun b => EvTrainStep (InBatch b)) (dataloader ts)
    /\ num_steps_completed (progress ts')
       = num_steps_completed (progress ts) + Z.of_nat (length (dataloader ts))
    /\ num_epochs_completed (progress ts') = num_epochs_completed (progress ts) + 1
    /\ num_steps_completed_in_epoch (progress ts') = 0
    /\ List.filter (is_log NoStepsCompleted) (new_events w w')
       = match dataloader ts with
         | [] => [EvLog NoStepsCompleted]
         | _ :: _ => []
         end.
Proof.
  intros Hev Hq Hu Hc Hbatch E Hm1 Hm2 Hs Hlen.
  set (has_eval := bool_decide (is_Some (eval_state (state w)))).
  assert (HI : steady fuel has_eval w).
  { split; [exact Hs|]. split; [exists ts; auto|].
    intros H. apply bool_decide_eq_true in H. exact H. }
  assert (Hcad : ((eval_cadence (state w)).1 = None \/ has_eval = true)
                 /\ ((eval_cadence (state w)).2 = None \/ has_eval = true)).
  { unfold eval_cadence, has_eval. destruct (eval_state (state w)) as [es|].
    - split; right; apply bool_decide_eq_true_2; eauto.
    - split; left; reflexivity. }
  destruct Hcad as [Hc1 Hc2].
  destruct (quiet_train_epoch_impl_returns ev Hev u callbacks Hu Hc Hq Hbatch
              fuel has_eval w HI Hc1 Hc2) as (w' & Hok).
  destruct (train_epoch_impl_Ok ev Hev u callbacks fuel w w' tt ts Hok E)
    as (wa & tsa & wb & tsb & Sa & Ea & Ca & Pa & Hl & Eb & Sb & Pb & Hentry).
  destruct (succeeds_epoch_start_hooks u callbacks Hu Hc fuel has_eval
              (num_steps_completed_in_epoch (progress ts) =? 0) (epoch_entry w)
              (steady_epoch_entry fuel has_eval w HI)) as (wa' & [] & Hr & HIa & _).
  rewrite Hentry in Hr. injection Hr as <-.
  destruct (quiet_train_step_loop ev Hev u callbacks Hu Hc Hq Hbatch fuel has_eval
              _ Hc1 (dataloader ts) fuel wa tsa HIa Ea Hlen)
    as (wb' & tsb' & Hl' & _ & Eb' & Pl & Sl).
  rewrite Hl in Hl'. injection Hl' as <-. rewrite Eb in Eb'. injection Eb' as <-.
  destruct (Pb tsb Eb) as (ts' & E' & C' & P').
  pose proof (summary_trans _ _ _ _ _ _ Sa (summary_trans _ _ _ _ _ _ Sl Sb)) as S.
  rewrite Pa in Pl. rewrite iter_increment_step in Pl.
  exists w', ts'. split; [exact Hok|]. split; [exact E'|].
  rewrite P', Pl. simpl. split; [|split; [reflexivity|split; [reflexivity|split;
    [reflexivity|]]]].
  - apply summary_new_events.
    apply (summary_refine is_train_step _ _ _ _ train_step_is_train_event) in S.
    rewrite !List.filter_app in S.
    rewrite filter_epoch_start_calls, filter_epoch_end_calls in S by reflexivity.
    rewrite filter_train_step_loop_calls in S.
    replace (map (fun b => EvTrainStep (InBatch b)) (dataloader ts))
      with ([] ++ map (fun b => EvTrainStep (InBatch b)) (dataloader ts) ++ [])
      by (simpl; apply app_nil_r).
    destruct S as (evs & Ht & Hf). exists evs. split; [exact Ht|].
    rewrite Hf. f_equal.
    + destruct (_ =? 0); reflexivity.
    + f_equal. rewrite !List.filter_app. destruct (_ >? 0), (is_due _ _); reflexivity.
  - apply summary_new_events.
    apply (summary_refine (is_log NoStepsCompleted)) in S;
      [|intros e; apply log_is_train_event; discriminate].
    rewrite !List.filter_app in S.
    rewrite filter_epoch_start_calls, filter_epoch_end_calls in S by reflexivity.
    rewrite filter_log_loop_calls in S.
    destruct S as (evs & Ht & Hf). exists evs. split; [exact Ht|].
    rewrite Hf, Pl. simpl.
    replace (num_steps_completed_in_epoch (progress ts)
             + Z.of_nat (length (dataloader ts))
             - num_steps_completed_in_epoch (progress ts))
      with (Z.of_nat (length (dataloader ts))) by lia.
    destruct (_ =? 0); simpl;
      (destruct (dataloader ts) as [|b rest]; simpl length;
       [ change (Z.abs (Z.of_nat 0) >? 0) with false
       | replace (Z.abs (Z.of_nat (S (length rest))) >? 0) with true
           by (symmetry; apply Z.gtb_lt; lia) ];
       simpl; rewrite ?List.filter_app;
       repeat match goal with
              | |- context [if ?c then _ else _] => destruct c
              end; reflexivity).
Qed.

(** ** The evaluation pass of this development returns for quiet user code *)

Lemma succeeds_try_except {A} (Inv : World -> Prop) (Q : A -> Prop) body catches handler :
  succeeds Inv Q body -> succeeds Inv Q (try_except body catches handler).
Proof.
  intros Hb w HI. destruct (Hb w HI) as (w' & a & E & HI' & HQ).
  exists w', a. unfold try_except. rewrite E. auto.
Qed.

Lemma succeeds_get (Inv : World -> Prop) : succeeds Inv anything get.
Proof. intros w HI. exists w, w. split; [reflexivity|]. split; [exact HI | exact Logic.I]. Qed.

Section CalmEvaluation.
Context (u : TrainUnit) (callbacks : list Callback).
Hypothesis Hu : quiet_unit u.
Hypothesis Hc : quiet_callbacks callbacks.
Context (s0 : bool).

Let calm (w : World) : Prop :=
  should_stop (state w) = s0 /\ is_Some (eval_state (state w)).

Lemma calm_same w w' : state w' = state w -> calm w -> calm w'.
Proof. unfold calm. intros ->. trivial. Qed.

Lemma calm_run_hook e0 f : (forall w, f w = quiet) -> succeeds calm anything (run_hook e0 f).
Proof.
  intros Hq w HI. exists (add_event e0 w), tt. unfold run_hook. rewrite Hq. simpl.
  split; [reflexivity|]. split; [|exact Logic.I].
  eapply calm_same; [|exact HI]. reflexivity.
Qed.

Lemma calm_run_step e0 f :
  (forall w, so_outcome (f w) = quiet) -> succeeds calm anything (run_step e0 f).
Proof.
  intros Hq w HI. eexists (add_event e0 w), _. unfold run_step. rewrite Hq. simpl.
  split; [reflexivity|]. split; [|exact Logic.I].
  eapply calm_same; [|exact HI]. reflexivity.
Qed.

Lemma calm_run_callbacks h : forall i,
  succeeds calm anything (run_callbacks_from i callbacks h).
Proof.
  revert Hc. induction callbacks as [|cb rest IH]; intros Hq i; simpl.
  - apply succeeds_ret. exact Logic.I.
  - assert (Hrest : quiet_callbacks rest)
      by (intros cb0 h0 f w Hin; apply Hq; right; exact Hin).
    destruct (cb h) as [f|] eqn:E; [|apply IH, Hrest].
    eapply succeeds_bind; [|intros _ _; apply IH, Hrest].
    apply calm_run_hook. intros w. eapply Hq; [left | exact E].
Qed.

Lemma calm_modify_eval_state f : succeeds calm anything (modify_eval_state f).
Proof.
  apply succeeds_modify. intros w [Hs [es He]]. split; [exact Hs|].
  simpl. rewrite He. simpl. eauto.
Qed.

Lemma calm_modify_modules (f : World -> gmap string bool) :
  succeeds calm anything (modify (fun w => set_modules (f w) w)).
Proof. apply succeeds_modify. intros w. apply calm_same. reflexivity. Qed.

Lemma calm_get_eval_state e : succeeds calm anything (get_eval_state e).
Proof.
  intros w HI. pose proof HI as [_ [es He]]. exists w, es.
  unfold get_eval_state. rewrite He. split; [reflexivity|]. split; [exact HI | exact Logic.I].
Qed.

Lemma calm_eval_step_body b : succeeds calm anything (eval_step_body u callbacks b).
Proof.
  unfold eval_step_body.
  eapply succeeds_bind; [apply calm_run_callbacks | intros _ _].
  eapply succeeds_bind; [apply calm_run_step, Hu | intros ? _].
  eapply succeeds_bind; [apply calm_modify_eval_state | intros _ _].
  eapply succeeds_bind; [apply calm_modify_eval_state | intros _ _].
  eapply succeeds_bind; [apply calm_run_callbacks | intros _ _].
  apply calm_modify_eval_state.
Qed.

Lemma calm_eval_step_loop data_iter :
  succeeds calm anything (eval_step_loop u callbacks data_iter).
Proof.
  induction data_iter as [|b rest IH]; simpl.
  - apply succeeds_ret. exact Logic.I.
  - eapply succeeds_bind; [apply succeeds_get | intros w0 _].
    eapply succeeds_bind; [apply calm_get_eval_state | intros es _].
    destruct (_ || _); [apply succeeds_ret; exact Logic.I|].
    eapply (succeeds_bind _ anything);
      [|intros [|] _; [apply IH | apply succeeds_ret; exact Logic.I]].
    apply succeeds_try_except.
    eapply succeeds_bind; [apply calm_eval_step_body | intros _ _].
    apply succeeds_ret. exact Logic.I.
Qed.

Lemma calm_evaluate_pass : succeeds calm anything (evaluate_pass u callbacks).
Proof.
  unfold evaluate_pass.
  eapply succeeds_bind; [apply calm_get_eval_state | intros _ _].
  eapply (succeeds_bind _ anything); [|intros _ _].
  { apply succeeds_modify. intros w [Hs He]. split; assumption. }
  eapply (succeeds_bind _ anything); [|intros tracked _].
  { intros w HI. exists w, (dom (modules w)). split; [reflexivity|].
    split; [exact HI | exact Logic.I]. }
  eapply (succeeds_bind _ anything); [|intros prior _].
  { intros w HI. eexists _, _. split; [reflexivity|]. split; [|exact Logic.I].
    eapply calm_same; [|exact HI]. reflexivity. }
  eapply succeeds_bind; [apply calm_run_hook, Hu | intros _ _].
  eapply succeeds_bind; [apply calm_run_callbacks | intros _ _].
  eapply succeeds_bind; [apply calm_get_eval_state | intros es _].
  eapply (succeeds_bind _ anything); [|intros _ _].
  { apply succeeds_when. intros _.
    eapply succeeds_bind; [apply calm_run_hook, Hu | intros _ _].
    apply calm_run_callbacks. }
  eapply succeeds_bind; [apply calm_get_eval_state | intros es1 _].
  eapply succeeds_bind; [apply calm_eval_step_loop | intros _ _].
  eapply succeeds_bind; [apply calm_modify_eval_state | intros _ _].
  eapply succeeds_bind; [apply calm_run_hook, Hu | intros _ _].
  eapply succeeds_bind; [apply calm_run_callbacks | intros _ _].
  eapply succeeds_bind; [apply calm_run_hook, Hu | intros _ _].
  eapply succeeds_bind; [apply calm_run_callbacks | intros _ _].
  apply calm_modify_modules.
Qed.
End CalmEvaluation.

Lemma evaluate_pass_quiet u callbacks :
  quiet_unit u -> quiet_callbacks callbacks -> evaluate_quiet evaluate_pass u callbacks.
Proof.
  intros Hu Hc w He.
  destruct (calm_evaluate_pass u callbacks Hu Hc (should_stop (state w)) w)
    as (w' & [] & Hr & [Hs _] & _); [split; [reflexivity | exact He]|].
  exists w'. auto.
Qed.

(** * Instances *)

Lemma calm_unit_quiet : quiet_unit calm_unit.
Proof. split; [|split]; intros; reflexivity. Qed.

Lemma observers_quiet callbacks :
  Forall (fun cb => cb = observer \/ cb = bystander) callbacks -> quiet_callbacks callbacks.
Proof.
  intros HF cb h f w Hin Hf. rewrite Forall_forall in HF.
  destruct (HF cb Hin) as [-> | ->]; [|discriminate].
  injection Hf as <-. reflexivity.
Qed.

Ltac known_callbacks :=
  repeat (apply List.Forall_cons; [first [left; reflexivity | right; reflexivity]|]);
  apply List.Forall_nil.

Lemma module_modes_restored_witness :
  train evaluate_pass 2 3 calm_unit None one_epoch_world
  = Ok (world_after (train evaluate_pass 2 3 calm_unit None one_epoch_world)
                    one_epoch_world) tt
  /\ "encoder" ∈ dom (modules one_epoch_world)
  /\ modules (world_after (train evaluate_pass 2 3 calm_unit None one_epoch_world)
                          one_epoch_world) !! "encoder"
     = modules one_epoch_world !! "encoder".
Proof.
  assert (H : train evaluate_pass 2 3 calm_unit None one_epoch_world
              = Ok (world_after (train evaluate_pass 2 3 calm_unit None one_epoch_world)
                                one_epoch_world) tt)
    by (vm_compute; reflexivity).
  assert (Hin : "encoder" ∈ dom (modules one_epoch_world))
    by (apply elem_of_dom; vm_compute; eauto).
  split; [exact H|]. split; [exact Hin|].
  exact (proj1 (train_restores_module_modes_on_normal_exit
                  evaluate_pass 2 3 calm_unit None one_epoch_world) _ H "encoder" Hin).
Defined.

(** The claim of C1 fails on the exceptional exit: the module was in eval
    mode before [train] and is in train mode after it. *)
Lemma module_modes_not_restored_after_exception :
  exists w',
    train evaluate_pass 2 3 (failing_unit (UserError 7)) None one_epoch_world
    = Raise w' (UserError 7)
    /\ modules one_epoch_world !! "encoder" = Some false
    /\ modules w' !! "encoder" = Some true.
Proof. eexists. vm_compute. repeat split. Qed.

Lemma stop_latch_witness :
  train_step_loop evaluate_pass 2 stopping_unit [observer] None [1; 2; 3]%nat
                  (unlimited_world [1; 2; 3]%nat)
  = Ok (world_after (train_step_body evaluate_pass stopping_unit [observer] None
                       [1; 2; 3]%nat (unlimited_world [1; 2; 3]%nat))
                    (unlimited_world [1; 2; 3]%nat)) tt
  /\ (exists ts1,
        train_state (state (world_after
                              (train_step_body evaluate_pass stopping_unit [observer]
                                 None [1; 2; 3]%nat (unlimited_world [1; 2; 3]%nat))
                              (unlimited_world [1; 2; 3]%nat))) = Some ts1
        /\ progress ts1 = increment_step (progress (demo_train [1; 2; 3]%nat
                                                      Progress_init None)))
  /\ List.filter (is_hook_event on_train_step_end)
       (new_events (unlimited_world [1; 2; 3]%nat)
          (world_after (train_step_body evaluate_pass stopping_unit [observer] None
                          [1; 2; 3]%nat (unlimited_world [1; 2; 3]%nat))
                       (unlimited_world [1; 2; 3]%nat)))
     = callback_events 0 [observer] on_train_step_end.
Proof.
  apply (proj2 (proj2 (proj2 (proj2
           (should_stop_is_a_one_way_latch evaluate_pass stopping_unit [observer]
              evaluate_pass_frame))))
           0%nat None [1; 2; 3]%nat (unlimited_world [1; 2; 3]%nat)
           (demo_train [1; 2; 3]%nat Progress_init None) _ [2; 3]%nat).
  - reflexivity.
  - reflexivity.
  - vm_compute. reflexivity.
  - reflexivity.
Defined.

Lemma epoch_loop_witness :
  should_stop (state one_epoch_world)
  || _is_done (progress (demo_train [1; 2]%nat Progress_init (Some 1)))
              (Some 1) None = false
  <-> exists rest,
        trace (world_after (train_epoch_loop evaluate_pass 2 3 calm_unit [] one_epoch_world)
                           one_epoch_world)
        = trace one_epoch_world ++ EvLog StartedTrainEpoch :: rest.
Proof.
  apply (proj2 (proj2 (proj2
           (train_loop_starts_epoch_iff_not_stopped_or_done evaluate_pass calm_unit []
              evaluate_pass_frame)) 1%nat 3%nat one_epoch_world
           (demo_train [1; 2]%nat Progress_init (Some 1)) eq_refl)).
  vm_compute. reflexivity.
Defined.

Lemma three_batch_epoch_witness :
  exists w' ts',
    _train_epoch_impl evaluate_pass 4 calm_unit [observer] (unlimited_world [1; 2; 3]%nat)
    = Ok w' tt
    /\ train_state (state w') = Some ts'
    /\ List.filter is_train_step (new_events (unlimited_world [1; 2; 3]%nat) w')
       = map (fun b => EvTrainStep (InBatch b)) [1; 2; 3]%nat
    /\ num_steps_completed (progress ts') = 0 + Z.of_nat 3
    /\ num_epochs_completed (progress ts') = 0 + 1
    /\ num_steps_completed_in_epoch (progress ts') = 0
    /\ List.filter (is_log NoStepsCompleted) (new_events (unlimited_world [1; 2; 3]%nat) w')
       = [].
Proof.
  apply (undisturbed_epoch_runs_every_batch_once evaluate_pass 4 calm_unit [observer]
           (unlimited_world [1; 2; 3]%nat) (demo_train [1; 2; 3]%nat Progress_init None)).
  - exact evaluate_pass_frame.
  - apply evaluate_pass_quiet;
      [exact calm_unit_quiet | apply observers_quiet; known_callbacks].
  - exact calm_unit_quiet.
  - apply observers_quiet. known_callbacks.
  - reflexivity.
  - reflexivity.
  - reflexivity.
  - reflexivity.
  - reflexivity.
  - simpl. lia.
Defined.

(** The claim of C6 fails for a step that takes the data iterator: over
    two batches [train_step] is called three times when it pulls one batch
    per call, and one step is completed when it pulls two. *)
Lemma iterator_step_is_called_once_more :
  length (dataloader (demo_train [1; 2]%nat Progress_init None)) = 2%nat
  /\ (exists w',
        _train_epoch_impl evaluate_pass 5 (pulling_unit 1) [] (unlimited_world [1; 2]%nat)
        = Ok w' tt
        /\ length (List.filter is_train_step
                     (new_events (unlimited_world [1; 2]%nat) w')) = 3%nat)
  /\ (exists w' ts',
        _train_epoch_impl evaluate_pass 5 (pulling_unit 2) [] (unlimited_world [1; 2]%nat)
        = Ok w' tt
        /\ train_state (state w') = Some ts'
        /\ num_steps_completed (progress ts') = 1).
Proof.
  split; [reflexivity|]. split.
  - eexists. split; vm_compute; reflexivity.
  - eexists _, _. split; [vm_compute; reflexivity|]. split; vm_compute; reflexivity.
Qed.

Lemma missing_train_state_witness :
  exists w' e',
    train evaluate_pass 1 1 calm_unit None unconfigured_world = Raise w' e'
    /\ List.filter is_train_step (new_events unconfigured_world w') = [].
Proof.
  apply (proj2 (proj1 (proj2
           (configuration_errors_raised_at_entry evaluate_pass calm_unit None
              evaluate_pass_frame)) 1%nat 1%nat unconfigured_world)).
  reflexivity.
Defined.

Lemma empty_epoch_witness :
  exists ts',
    train_state (state (world_after
                          (_train_epoch_impl evaluate_pass 1 calm_unit [observer]
                             (unlimited_world []))
                          (unlimited_world []))) = Some ts'
    /\ num_epochs_completed (progress ts') = 0 + 1
    /\ num_steps_completed_in_epoch (progress ts') = 0
    /\ List.filter (is_hook_event on_train_epoch_end)
         (new_events (unlimited_world [])
            (world_after (_train_epoch_impl evaluate_pass 1 calm_unit [observer]
                            (unlimited_world []))
                         (unlimited_world [])))
       = EvUnit on_train_epoch_end :: callback_events 0 [observer] on_train_epoch_end
    /\ List.filter (is_evaluate_at AfterEpoch)
         (new_events (unlimited_world [])
            (world_after (_train_epoch_impl evaluate_pass 1 calm_unit [observer]
                            (unlimited_world []))
                         (unlimited_world [])))
       = if is_due (eval_cadence (state (unlimited_world []))).2 (0 + 1)
         then [EvEvaluate AfterEpoch] else [].
Proof.
  apply (train_epoch_always_completes_an_epoch evaluate_pass 1 calm_unit [observer]
           (unlimited_world []) _ (demo_train [] Progress_init None)).
  - exact evaluate_pass_frame.
  - reflexivity.
  - vm_compute. reflexivity.
Defined.

Lemma zero_cadence_witness :
  List.filter (is_evaluate_at AfterStep)
    (new_events (interleaved_world (Some 0) (Some 0))
       (world_after (_train_epoch_impl evaluate_pass 5 calm_unit [observer]
                       (interleaved_world (Some 0) (Some 0)))
                    (interleaved_world (Some 0) (Some 0))))
  = []
  /\ List.filter (is_evaluate_at AfterEpoch)
       (new_events (interleaved_world (Some 0) (Some 0))
          (world_after (_train_epoch_impl evaluate_pass 5 calm_unit [observer]
                          (interleaved_world (Some 0) (Some 0)))
                       (interleaved_world (Some 0) (Some 0))))
     = [].
Proof.
  destruct (proj2 (proj2 (proj2
              (zero_cadence_means_no_interleaved_evaluation evaluate_pass 5 calm_unit
                 [observer] evaluate_pass_frame)))
              (interleaved_world (Some 0) (Some 0))
              (world_after (_train_epoch_impl evaluate_pass 5 calm_unit [observer]
                              (interleaved_world (Some 0) (Some 0)))
                           (interleaved_world (Some 0) (Some 0)))
              (demo_train [1; 2; 3; 4]%nat Progress_init None)
              (demo_eval (Some 0) (Some 0)) eq_refl eq_refl) as [H1 H2].
  - vm_compute. reflexivity.
  - split; [apply H1 | apply H2]; left; reflexivity.
Defined.

(** * Dataloaders *)

Lemma dict_get_here (d : Dict) name i rest :
  dict_get ((name, i) :: rest) name = Some i.
Proof. unfold dict_get. simpl. rewrite String.eqb_refl. reflexivity. Qed.

Lemma dict_get_in (d : Dict) name i :
  NoDup (dict_keys d) -> In (name, i) d -> dict_get d name = Some i.
Proof.
  unfold dict_get, dict_keys. induction d as [|[k v] d IH]; simpl; [tauto|].
  intros Hnd [Heq|Hin].
  - injection Heq as -> ->. rewrite String.eqb_refl. reflexivity.
  - apply NoDup_cons in Hnd as [Hk Hnd].
    destruct (String.eqb k name) eqn:E; [|apply IH; assumption].
    apply String.eqb_eq in E. subst k. exfalso. apply Hk.
    apply list_elem_of_In. apply (in_map fst) in Hin. exact Hin.
Qed.

Lemma head_None_iff {A} (l : list A) : head l = None <-> l = [].
Proof. destruct l; simpl; split; congruence. Qed.

Lemma probe_fst s : fst (probe s) = head (contents s).
Proof. destruct s; reflexivity. Qed.

Lemma advance_exhausted s : contents s = [] -> advance s = s.
Proof. destruct s as [l|l]; simpl; intros ->; reflexivity. Qed.

Lemma advance_contents s :
  contents (advance s) = match s with
                         | Reiterable items => items
                         | OneShot remaining => tail remaining
                         end.
Proof. destruct s; reflexivity. Qed.

Lemma store_set_eq h i s : store_set h i s i = s.
Proof. unfold store_set. rewrite Nat.eqb_refl. reflexivity. Qed.

Lemma store_set_ne h i s j : j <> i -> store_set h i s j = h j.
Proof.
  unfold store_set. intros H. apply Nat.eqb_neq in H. rewrite H. reflexivity.
Qed.

Lemma filter_ext_in_snd (h h' : Store) (l : Dict) :
  (forall j, In j (map snd l) -> h' j = h j) ->
  List.filter (is_exhausted h') l = List.filter (is_exhausted h) l.
Proof.
  intros H. apply List.filter_ext_in. intros [k v] Hin. unfold is_exhausted. simpl.
  rewrite H; [reflexivity|]. apply (in_map snd) in Hin. exact Hin.
Qed.

Section ProbeEach.
Context (d : Dict).

(** Every probe advances the object it reaches, whatever it holds; with
    [ignore_empty_data] the loop goes through all the names. *)
Lemma probe_each_lenient suffix : forall h warnings,
  (forall kv, In kv suffix -> dict_get d (fst kv) = Some (snd kv)) ->
  exists h' logged,
    probe_each d true (map fst suffix) h warnings = Constructed tt h' (warnings ++ logged)
    /\ (forall j, h' j = Nat.iter (count_occ Nat.eq_dec (map snd suffix) j) advance (h j))
    /\ (NoDup (map snd suffix) -> logged = map fst (List.filter (is_exhausted h) suffix)).
Proof.
  induction suffix as [|[name i] rest IH]; intros h warnings Hget.
  - exists h, []. simpl. rewrite app_nil_r. auto.
  - pose proof (Hget (name, i) (or_introl eq_refl)) as Hg. simpl in Hg.
    simpl. rewrite Hg. simpl.
    assert (Hrest : forall kv, In kv rest -> dict_get d (fst kv) = Some (snd kv))
      by (intros kv Hin; apply Hget; right; exact Hin).
    change (snd (probe (h i))) with (advance (h i)).
    set (h1 := store_set h i (advance (h i))).
    assert (Hcount : forall h' : Store,
              (forall j, h' j = Nat.iter (count_occ Nat.eq_dec (map snd rest) j)
                                  advance (h1 j)) ->
              forall j, h' j = Nat.iter (if Nat.eq_dec i j
                                         then S (count_occ Nat.eq_dec (map snd rest) j)
                                         else count_occ Nat.eq_dec (map snd rest) j)
                                  advance (h j)).
    { intros h' H j. rewrite H. destruct (Nat.eq_dec i j) as [<-|Hne].
      - unfold h1. rewrite store_set_eq. symmetry. apply Nat.iter_succ_r.
      - unfold h1. rewrite store_set_ne by congruence. reflexivity. }
    assert (Hfilter : NoDup (i :: map snd rest) ->
              List.filter (is_exhausted h1) rest = List.filter (is_exhausted h) rest).
    { intros Hnd. apply NoDup_cons in Hnd as [Hi _]. apply filter_ext_in_snd.
      intros j Hj. unfold h1. apply store_set_ne. intros ->. apply Hi.
      apply list_elem_of_In. exact Hj. }
    rewrite probe_fst.
    destruct (contents (h i)) as [|b bs] eqn:Ec; simpl.
    + destruct (IH h1 (warnings ++ [name]) Hrest) as (h' & logged & Hr & Hh & Hl).
      exists h', (name :: logged). rewrite Hr, <- app_assoc. simpl.
      split; [reflexivity|]. split; [apply Hcount, Hh|].
      intros Hnd. unfold is_exhausted at 1. simpl.
      rewrite bool_decide_eq_true_2 by exact Ec. simpl. f_equal.
      rewrite Hl by (apply NoDup_cons in Hnd as [_ Hnd]; exact Hnd).
      rewrite Hfilter by exact Hnd. reflexivity.
    + destruct (IH h1 warnings Hrest) as (h' & logged & Hr & Hh & Hl).
      exists h', logged. rewrite Hr. split; [reflexivity|]. split; [apply Hcount, Hh|].
      intros Hnd. unfold is_exhausted at 1. simpl.
      rewrite bool_decide_eq_false_2 by (rewrite Ec; discriminate).
      rewrite Hl by (apply NoDup_cons in Hnd as [_ Hnd]; exact Hnd).
      rewrite Hfilter by exact Hnd. reflexivity.
Qed.

(** Without [ignore_empty_data] the loop goes through the loaders that
    hold data and stops at the first one that does not. *)
Lemma probe_each_strict pre : forall h warnings,
  (forall kv, In kv pre -> dict_get d (fst kv) = Some (snd kv)) ->
  NoDup (map snd pre) ->
  Forall (fun kv => contents (h (snd kv)) <> []) pre ->
  forall rest,
  exists h',
    probe_each d false (map fst (pre ++ rest)) h warnings
    = probe_each d false (map fst rest) h' warnings
    /\ forall j, h' j = if bool_decide (j ∈ map snd pre) then advance (h j) else h j.
Proof.
  induction pre as [|[name i] pre IH]; intros h warnings Hget Hnd Hne rest.
  - exists h. split; [reflexivity|]. intros j.
    case_bool_decide as H; [|reflexivity]. apply elem_of_nil in H. contradiction.
  - pose proof (Hget (name, i) (or_introl eq_refl)) as Hg. simpl in Hg.
    simpl. rewrite Hg. simpl.
    apply Forall_cons in Hne as [Hi Hne]. simpl in Hi.
    apply NoDup_cons in Hnd as [Hfresh Hnd].
    rewrite probe_fst. destruct (contents (h i)) as [|b bs] eqn:Ec; [congruence|]. simpl.
    change (snd (probe (h i))) with (advance (h i)).
    set (h1 := store_set h i (advance (h i))).
    assert (Hsame : forall j, j ∈ map snd pre -> h1 j = h j).
    { intros j Hj. unfold h1. apply store_set_ne. intros ->. exact (Hfresh Hj). }
    destruct (IH h1 warnings) with (rest := rest) as (h' & Hr & Hh).
    + intros kv Hin. apply Hget. right. exact Hin.
    + exact Hnd.
    + apply Forall_forall. intros kv Hin. rewrite Forall_forall in Hne.
      rewrite Hsame; [apply Hne, Hin|].
      apply list_elem_of_fmap. exists kv. auto.
    + exists h'. split; [exact Hr|]. intros j. rewrite Hh.
      destruct (decide (j = i)) as [->|Hji].
      * rewrite bool_decide_eq_false_2 by exact Hfresh.
        rewrite bool_decide_eq_true_2 by (left).
        unfold h1. apply store_set_eq.
      * unfold h1. rewrite store_set_ne by exact Hji.
        destruct (decide (j ∈ map snd pre)) as [Hin|Hout].
        -- rewrite !bool_decide_eq_true_2; [reflexivity | right; exact Hin | exact Hin].
        -- rewrite !bool_decide_eq_false_2; [reflexivity | | exact Hout].
           intros H. apply elem_of_cons in H as [H|H]; [congruence | contradiction].
Qed.
End ProbeEach.

Lemma tail_drop {A} (l : list A) : forall n, tail (drop n l) = drop (S n) l.
Proof.
  induction l as [|a l IH]; intros n; [destruct n; reflexivity|].
  destruct n; [reflexivity | exact (IH n)].
Qed.

Lemma first_exhausted (h : Store) (d : Dict) :
  Exists (fun kv => contents (h (snd kv)) = []) d ->
  exists pre name i post,
    d = pre ++ (name, i) :: post
    /\ Forall (fun kv => contents (h (snd kv)) <> []) pre
    /\ contents (h i) = [].
Proof.
  induction d as [|[k v] d IH]; intros H; [inversion H|].
  destruct (decide (contents (h v) = [])) as [He|Hne].
  - exists [], k, v, d. auto.
  - assert (Hd : Exists (fun kv => contents (h (snd kv)) = []) d)
      by (apply Exists_cons in H as [H|H]; [contradiction | exact H]).
    destruct (IH Hd) as (pre & name & i & post & -> & Hpre & Hi).
    exists ((k, v) :: pre), name, i, post. split; [reflexivity|]. split; [|exact Hi].
    apply Forall_cons. auto.
Qed.

Lemma dict_get_all (d : Dict) :
  NoDup (dict_keys d) -> forall kv, In kv d -> dict_get d (fst kv) = Some (snd kv).
Proof. intros Hnd [k v] Hin. apply dict_get_in; assumption. Qed.

(** X8. Without [ignore_empty_data], the constructor of [MultiDataLoader]
    raises the ValueError of the first loader (in dict order) that yields
    nothing; the loaders before it have been probed with [next(iter(..))],
    the ones after it have not, and no warning is logged. It raises exactly
    when some loader yields nothing; otherwise it returns the object
    holding the dict as given, with every loader probed once. The loaders
    are distinct objects. *)
Theorem MultiDataLoader_rejects_first_empty_loader
    {Strategy Cls : Type} (strategy : Strategy) (cls : option Cls)
    (d : Dict) (h : Store) :
  NoDup (dict_keys d) ->
  NoDup (map snd d) ->
  (forall pre name i post,
     d = pre ++ (name, i) :: post ->
     Forall (fun kv => contents (h (snd kv)) <> []) pre ->
     contents (h i) = [] ->
     exists h',
       MultiDataLoader_init d strategy cls false h = Failed (NoDataError name) h' []
       /\ forall j, h' j = if bool_decide (j ∈ map snd pre) then advance (h j) else h j)
  /\ (Forall (fun kv => contents (h (snd kv)) <> []) d ->
      exists h',
        MultiDataLoader_init d strategy cls false h
        = Constructed (mkMultiDataLoader d strategy cls) h' []
        /\ forall j, h' j = if bool_decide (j ∈ map snd d) then advance (h j) else h j)
  /\ ((exists e h' warnings, MultiDataLoader_init d strategy cls false h = Failed e h' warnings)
      <-> Exists (fun kv => contents (h (snd kv)) = []) d).
Proof.
  intros Hkeys Hids.
  assert (Hfail : forall pre name i post,
            d = pre ++ (name, i) :: post ->
            Forall (fun kv => contents (h (snd kv)) <> []) pre ->
            contents (h i) = [] ->
            exists h',
              MultiDataLoader_init d strategy cls false h = Failed (NoDataError name) h' []
              /\ forall j, h' j = if bool_decide (j ∈ map snd pre)
                                  then advance (h j) else h j).
  { intros pre name i post Hd Hpre Hi. unfold MultiDataLoader_init, dict_keys.
    pose proof (dict_get_all d Hkeys) as Hget.
    assert (Hids' : NoDup (map snd pre) /\ i ∉ map snd pre).
    { rewrite Hd, map_app in Hids. apply NoDup_app in Hids as (H1 & H2 & H3).
      split; [exact H1|]. intros Hin. apply (H2 i Hin). simpl. left. }
    destruct Hids' as [Hnd Hfresh].
    destruct (probe_each_strict d pre h [] ltac:(intros kv Hin; apply Hget; rewrite Hd;
                apply in_or_app; left; exact Hin) Hnd Hpre ((name, i) :: post))
      as (h' & Hr & Hh).
    replace (map fst d) with (map fst (pre ++ (name, i) :: post))
      by (f_equal; symmetry; exact Hd).
    rewrite Hr. simpl.
    pose proof (Hget (name, i) ltac:(rewrite Hd; apply in_or_app; right; left;
                                      reflexivity)) as Hg.
    simpl in Hg. rewrite Hg. simpl. rewrite probe_fst.
    assert (Hi' : h' i = h i) by (rewrite Hh, bool_decide_eq_false_2 by exact Hfresh;
                                  reflexivity).
    rewrite Hi', Hi. simpl. eexists. split; [reflexivity|]. intros j.
    destruct (decide (j = i)) as [->|Hji].
    - rewrite store_set_eq, bool_decide_eq_false_2 by exact Hfresh.
      change (snd (probe (h i))) with (advance (h i)). apply advance_exhausted, Hi.
    - rewrite store_set_ne by exact Hji. apply Hh. }
  assert (Hpass : Forall (fun kv => contents (h (snd kv)) <> []) d ->
            exists h',
              MultiDataLoader_init d strategy cls false h
              = Constructed (mkMultiDataLoader d strategy cls) h' []
              /\ forall j, h' j = if bool_decide (j ∈ map snd d)
                                  then advance (h j) else h j).
  { intros Hall. unfold MultiDataLoader_init, dict_keys.
    destruct (probe_each_strict d d h [] (dict_get_all d Hkeys) Hids Hall [])
      as (h' & Hr & Hh).
    rewrite app_nil_r in Hr. rewrite Hr. simpl. exists h'. auto. }
  split; [exact Hfail|]. split; [exact Hpass|]. split.
  - intros (e & h' & warnings & Hr).
    destruct (decide (Exists (fun kv => contents (h (snd kv)) = []) d)) as [H|H];
      [exact H|].
    apply not_Exists_Forall in H; [|intros kv; apply _].
    destruct (Hpass H) as (h2 & Hr2 & _). congruence.
  - intros H. destruct (first_exhausted h d H) as (pre & name & i & post & Hd & Hpre & Hi).
    destruct (Hfail pre name i post Hd Hpre Hi) as (h' & Hr & _). eauto.
Qed.

Lemma MultiDataLoader_rejects_first_empty_loader_witness :
  exists h',
    MultiDataLoader_init demo_dict tt (@None unit) false demo_store
    = Failed (NoDataError "audio") h' []
    /\ forall j, h' j = if bool_decide (j ∈ map snd [("images", 0%nat)])
                        then advance (demo_store j) else demo_store j.
Proof.
  apply (proj1 (MultiDataLoader_rejects_first_empty_loader tt (@None unit)
                  demo_dict demo_store ltac:(compute_done) ltac:(compute_done))
           [("images", 0%nat)] "audio" 1%nat [("text", 2%nat)]).
  - reflexivity.
  - repeat constructor. discriminate.
  - reflexivity.
Defined.

(** X9. With [ignore_empty_data] the constructor of [MultiDataLoader] never
    raises and keeps the whole dict, empty loaders included. Each object is
    advanced by one [next] for every name it is registered under: a
    re-iterable loader is unaffected, an iterator loses an element per
    probe. When the loaders are distinct objects, the warnings name the
    empty loaders, once each, in dict order. *)
Theorem MultiDataLoader_lenient_keeps_every_loader
    {Strategy Cls : Type} (strategy : Strategy) (cls : option Cls)
    (d : Dict) (h : Store) :
  NoDup (dict_keys d) ->
  exists h' warnings,
    MultiDataLoader_init d strategy cls true h
    = Constructed (mkMultiDataLoader d strategy cls) h' warnings
    /\ (forall j, h' j = Nat.iter (count_occ Nat.eq_dec (map snd d) j) advance (h j))
    /\ (forall j items, h j = Reiterable items -> h' j = Reiterable items)
    /\ (forall j remaining, h j = OneShot remaining ->
          h' j = OneShot (drop (count_occ Nat.eq_dec (map snd d) j) remaining))
    /\ (NoDup (map snd d) -> warnings = map fst (List.filter (is_exhausted h) d)).
Proof.
  intros Hkeys. unfold MultiDataLoader_init, dict_keys.
  destruct (probe_each_lenient d d h [] (dict_get_all d Hkeys)) as (h' & logged & Hr & Hh & Hl).
  rewrite Hr. exists h', logged. split; [reflexivity|]. split; [exact Hh|].
  split; [|split; [|exact Hl]].
  - intros j items Hj. rewrite Hh, Hj.
    induction (count_occ Nat.eq_dec (map snd d) j) as [|n IH]; [reflexivity|].
    simpl. rewrite IH. reflexivity.
  - intros j remaining Hj. rewrite Hh, Hj.
    induction (count_occ Nat.eq_dec (map snd d) j) as [|n IH].
    + reflexivity.
    + rewrite <- tail_drop. change (Nat.iter (S n) advance (OneShot remaining))
        with (advance (Nat.iter n advance (OneShot remaining))).
      rewrite IH. reflexivity.
Qed.

Lemma MultiDataLoader_lenient_keeps_every_loader_witness :
  exists h' warnings,
    MultiDataLoader_init demo_dict tt (@None unit) true demo_store
    = Constructed (mkMultiDataLoader demo_dict tt None) h' warnings
    /\ (forall j, h' j = Nat.iter (count_occ Nat.eq_dec (map snd demo_dict) j) advance
                           (demo_store j))
    /\ (forall j items, demo_store j = Reiterable items -> h' j = Reiterable items)
    /\ (forall j remaining, demo_store j = OneShot remaining ->
          h' j = OneShot (drop (count_occ Nat.eq_dec (map snd demo_dict) j) remaining))
    /\ (NoDup (map snd demo_dict) ->
        warnings = map fst (List.filter (is_exhausted demo_store) demo_dict)).
Proof.
  apply (MultiDataLoader_lenient_keeps_every_loader tt (@None unit) demo_dict demo_store).
  compute_done.
Defined.

(** ** StatefulDataLoader *)

(** X10. Once iteration has started, [state_dict] returns a dict with
    exactly the keys "sampler" and "start_index", the latter being
    [_num_yielded * batch_size * world_size]; before the first [__iter__]
    it raises AttributeError. Loading that dict back hands the sampler its
    own state dict with "start_index" replaced by the loader's figure. *)
Theorem state_dict_round_trip
    {Sampler Loaded : Type}
    (sampler_state_dict : Sampler -> gmap string Value)
    (sampler_load_state_dict : gmap string Value -> Sampler -> Loaded)
    (world_size : Sampler -> Z)
    (dl : @StatefulDataLoader Sampler) :
  (_iter dl = None ->
   state_dict sampler_state_dict world_size dl = inl (AttributeError "_iter"))
  /\ (forall n b, _iter dl = Some n -> batch_size dl = Some b ->
      let start := VInt (n * b * world_size (sampler dl)) in
      exists sd,
        state_dict sampler_state_dict world_size dl = inr sd
        /\ dom sd = {[ "sampler"; "start_index" ]}
        /\ sd !! "sampler" = Some (VDict (sampler_state_dict (sampler dl)))
        /\ sd !! "start_index" = Some start
        /\ load_state_dict sampler_load_state_dict sd dl
           = inr (<["sampler" := VDict (<["start_index" := start]>
                                          (sampler_state_dict (sampler dl)))]> sd,
                  sampler_load_state_dict
                    (<["start_index" := start]> (sampler_state_dict (sampler dl)))
                    (sampler dl))).
Proof.
  split.
  - intros H. unfold state_dict. rewrite H. reflexivity.
  - intros n b Hn Hb start. unfold state_dict. rewrite Hn, Hb. eexists.
    split; [reflexivity|].
    assert (H1 : (<["start_index" := start]>
                    ({["sampler" := VDict (sampler_state_dict (sampler dl))]}
                       : gmap string Value)) !! "sampler"
                 = Some (VDict (sampler_state_dict (sampler dl)))).
    { rewrite lookup_insert_ne by discriminate. apply lookup_singleton_eq. }
    assert (H2 : (<["start_index" := start]>
                    ({["sampler" := VDict (sampler_state_dict (sampler dl))]}
                       : gmap string Value)) !! "start_index" = Some start)
      by apply lookup_insert_eq.
    split; [|split; [exact H1|split; [exact H2|]]].
    + rewrite dom_insert_L, dom_singleton_L. set_solver.
    + unfold load_state_dict. fold start. rewrite H1, H2. reflexivity.
Qed.

Lemma state_dict_round_trip_witness :
  exists sd,
    state_dict (fun s : gmap string Value => s) (fun _ => 2) demo_loader = inr sd
    /\ dom sd = {[ "sampler"; "start_index" ]}
    /\ sd !! "sampler" = Some (VDict (sampler demo_loader))
    /\ sd !! "start_index" = Some (VInt (5 * 4 * 2))
    /\ load_state_dict (fun s _ => s) sd demo_loader
       = inr (<["sampler" := VDict (<["start_index" := VInt (5 * 4 * 2)]>
                                      (sampler demo_loader))]> sd,
              <["start_index" := VInt (5 * 4 * 2)]> (sampler demo_loader)).
Proof.
  exact (proj2 (state_dict_round_trip (fun s : gmap string Value => s) (fun s _ => s)
                  (fun _ => 2) demo_loader) 5 4 eq_refl eq_refl).
Defined.

(** X11. [load_state_dict] fails with the KeyError of "sampler" exactly
    when that key is missing (whether or not "start_index" is there), and
    with the KeyError of "start_index" when only that one is missing.
    Otherwise it stores the outer "start_index" into the dict held under
    "sampler", in the caller's object: every other entry, inner and outer,
    is as before, and loading the same object again gives the sampler the
    same dict. *)
Theorem load_state_dict_updates_sampler_entry
    {Sampler Loaded : Type}
    (sampler_load_state_dict : gmap string Value -> Sampler -> Loaded)
    (sd : gmap string Value) (dl : @StatefulDataLoader Sampler) :
  (load_state_dict sampler_load_state_dict sd dl = inl (KeyError "sampler")
   <-> sd !! "sampler" = None)
  /\ (forall s, sd !! "sampler" = Some (VDict s) ->
      (load_state_dict sampler_load_state_dict sd dl = inl (KeyError "start_index")
       <-> sd !! "start_index" = None)
      /\ forall v, sd !! "start_index" = Some v ->
         exists sd' s',
           load_state_dict sampler_load_state_dict sd dl
           = inr (sd', sampler_load_state_dict s' (sampler dl))
           /\ sd' !! "sampler" = Some (VDict s')
           /\ s' !! "start_index" = Some v
           /\ (forall k, k <> "start_index" -> s' !! k = s !! k)
           /\ (forall k, k <> "sampler" -> sd' !! k = sd !! k)
           /\ load_state_dict sampler_load_state_dict sd' dl
              = inr (sd', sampler_load_state_dict s' (sampler dl))).
Proof.
  split.
  - unfold load_state_dict. destruct (sd !! "sampler") as [[n|s]|]; simpl.
    + split; discriminate.
    + destruct (sd !! "start_index"); split; discriminate.
    + tauto.
  - intros s Hs. unfold load_state_dict at 1 2. rewrite Hs. split.
    + destruct (sd !! "start_index"); split; congruence.
    + intros v Hv. rewrite Hv.
      exists (<["sampler" := VDict (<["start_index" := v]> s)]> sd),
             (<["start_index" := v]> s).
      split; [reflexivity|]. split; [apply lookup_insert_eq|].
      split; [apply lookup_insert_eq|].
      split; [intros k Hk; apply lookup_insert_ne; congruence|].
      split; [intros k Hk; apply lookup_insert_ne; congruence|].
      unfold load_state_dict. rewrite lookup_insert_eq.
      rewrite lookup_insert_ne by discriminate. rewrite Hv.
      rewrite !insert_insert_eq. reflexivity.
Qed.

Lemma load_state_dict_updates_sampler_entry_witness :
  exists sd' s',
    load_state_dict (fun s (_ : gmap string Value) => s)
      {[ "sampler" := VDict {[ "epoch" := VInt 3 ]}; "start_index" := VInt 40;
         "note" := VInt 1 ]} demo_loader
    = inr (sd', s')
    /\ sd' !! "sampler" = Some (VDict s')
    /\ s' !! "start_index" = Some (VInt 40)
    /\ (forall k, k <> "start_index" ->
          s' !! k = ({[ "epoch" := VInt 3 ]} : gmap string Value) !! k)
    /\ (forall k, k <> "sampler" ->
          sd' !! k = ({[ "sampler" := VDict {[ "epoch" := VInt 3 ]};
                         "start_index" := VInt 40; "note" := VInt 1 ]}
                        : gmap string Value) !! k)
    /\ load_state_dict (fun s (_ : gmap string Value) => s) sd' demo_loader
       = inr (sd', s').
Proof.
  exact (proj2 (proj2 (load_state_dict_updates_sampler_entry
                         (fun s (_ : gmap string Value) => s)
                         {[ "sampler" := VDict {[ "epoch" := VInt 3 ]};
                            "start_index" := VInt 40; "note" := VInt 1 ]} demo_loader)
                  {[ "epoch" := VInt 3 ]} eq_refl) (VInt 40) eq_refl).
Defined.

(** * More on train.py *)

(** X1. [init_train_state] raises the ValueError of the first negative
    limit, in the order max_epochs, max_steps, max_steps_per_epoch; with no
    negative limit it returns a State for the TRAIN entry point whose train
    PhaseState holds the dataloader, the limits and a fresh Progress, with
    no eval or predict PhaseState, no step output and the stop flag down. *)
Theorem init_train_state_reports_first_negative_limit
    (dl : list Batch) (me ms mspe : option Z) :
  init_train_state dl me ms mspe
  = match first_negative [("max_epochs", me); ("max_steps", ms);
                          ("max_steps_per_epoch", mspe)] with
    | Some (name, v) => inl (ValueError name v)
    | None =>
        inr (mkState TRAIN
               (Some (mkPhaseState dl (mkProgress 0 0 0) me ms mspe None None None))
               None None false ActivePhase.TRAIN)
    end.
Proof.
  unfold init_train_state, PhaseState_init.
  rewrite !check_loop_condition_spec. simpl.
  destruct (negative me); [reflexivity|].
  destruct (negative ms); [reflexivity|].
  destruct (negative mspe); reflexivity.
Qed.

Lemma filter_hook_epoch_level h evs :
  (forall i, epoch_level_event (EvCallback i h) = false) ->
  forallb epoch_level_event evs = true ->
  List.filter (is_hook_event h) evs = [].
Proof.
  intros Hh. induction evs as [|e evs IH]; simpl; [reflexivity|].
  intros H. apply andb_true_iff in H as [He Hr]. rewrite (IH Hr).
  destruct e as [h'| | |i h'| |]; simpl; try reflexivity.
  - case_bool_decide as E; [|reflexivity]. subst h'.
    pose proof (Hh 0%nat) as H0. destruct h; simpl in *; congruence.
  - case_bool_decide as E; [|reflexivity]. subst h'.
    rewrite Hh in He. discriminate.
Qed.

Section EpochLevel.
Context (ev : TrainUnit -> list Callback -> M unit) (Hev : evaluate_frame ev).
Context (u : TrainUnit) (callbacks : list Callback).

Lemma ensures_train_step_loop_epoch_level fuel every_n_steps data_iter :
  ensures (evolves any_progress epoch_level_event)
          (train_step_loop ev fuel u callbacks every_n_steps data_iter).
Proof.
  eapply ensures_weaken; [|apply ensures_train_step_loop, Hev].
  intros w w'. apply evolves_weaken; [intros; exact I | event_cases].
Qed.

Lemma ensures_train_epoch_impl_epoch_level fuel :
  ensures (evolves any_progress epoch_level_event) (_train_epoch_impl ev fuel u callbacks).
Proof. unfold _train_epoch_impl. ens. apply ensures_train_step_loop_epoch_level. Qed.

Lemma ensures_train_epoch_epoch_level fuel callbacks' :
  callbacks = default [] callbacks' ->
  ensures (evolves any_progress epoch_level_event) (train_epoch ev fuel u callbacks').
Proof.
  intros Hc. unfold train_epoch. rewrite <- Hc.
  apply ensures_try_except; [apply _ | | intros e; unfold exception_handler; ens].
  unfold train_epoch_body.
  apply ensures_bind; [apply _ | ens | intros ts].
  destruct (negb _); [ens|].
  apply ensures_bind; [apply _ | ens | intros _].
  apply ensures_bind; [apply _ | ens | intros _].
  apply ensures_bind; [apply _ | apply ensures_train_epoch_impl_epoch_level | intros _; ens].
Qed.
End EpochLevel.

(** X2. Whatever the user code does and however it ends, [train_epoch]
    never calls [on_train_start] or [on_train_end], neither on the unit nor
    on a callback. *)
Theorem train_epoch_skips_on_train_start_and_end
    (ev : TrainUnit -> list Callback -> M unit) (fuel : nat) (u : TrainUnit)
    (callbacks : option (list Callback)) (w w' : World) :
  evaluate_frame ev ->
  final (train_epoch ev fuel u callbacks w) = Some w' ->
  List.filter (is_hook_event on_train_start) (new_events w w') = []
  /\ List.filter (is_hook_event on_train_end) (new_events w w') = [].
Proof.
  intros Hev H.
  destruct (ev_trace _ _ _ _
              (ensures_train_epoch_epoch_level ev Hev u (default [] callbacks) fuel
                 callbacks eq_refl w w' H)) as (evs & Ht & Hall).
  rewrite (new_events_app _ _ _ Ht).
  split; apply filter_hook_epoch_level; auto.
Qed.

Lemma train_epoch_skips_on_train_start_and_end_witness :
  List.filter (is_hook_event on_train_start)
    (new_events one_epoch_world
       (world_after (train_epoch evaluate_pass 3 calm_unit (Some [observer]) one_epoch_world)
                    one_epoch_world)) = []
  /\ List.filter (is_hook_event on_train_end)
       (new_events one_epoch_world
          (world_after (train_epoch evaluate_pass 3 calm_unit (Some [observer])
                          one_epoch_world)
                       one_epoch_world)) = [].
Proof.
  apply (train_epoch_skips_on_train_start_and_end evaluate_pass 3 calm_unit
           (Some [observer]) one_epoch_world _ evaluate_pass_frame).
  vm_compute. reflexivity.
Defined.

Lemma forallb_filter_keep {A} (P Q : A -> bool) (l : list A) :
  forallb P l = true -> forallb P (List.filter Q l) = true.
Proof.
  induction l as [|a l IH]; simpl; [reflexivity|].
  intros H. apply andb_true_iff in H as [Ha Hl].
  destruct (Q a); simpl; [rewrite Ha|]; auto.
Qed.

Section TrainBrackets.
Context (ev : TrainUnit -> list Callback -> M unit) (Hev : evaluate_frame ev).
Context (u : TrainUnit) (callbacks : list Callback).

Lemma ensures_train_epoch_loop_epoch_level fuel_steps fuel_epochs :
  ensures (evolves any_progress epoch_level_event)
          (train_epoch_loop ev fuel_epochs fuel_steps u callbacks).
Proof.
  induction fuel_epochs as [|fuel IH]; simpl.
  - apply ensures_out_of_fuel.
  - apply ensures_bind; [apply _ | ens | intros w0].
    apply ensures_bind; [apply _ | ens | intros ts].
    destruct (_ || _); [ens|].
    apply ensures_bind;
      [apply _ | apply ensures_train_epoch_impl_epoch_level, Hev | intros _; apply IH].
Qed.

Lemma train_epoch_loop_summary fuel_epochs fuel_steps w w' a :
  train_epoch_loop ev fuel_epochs fuel_steps u callbacks w = Ok w' a ->
  exists middle, summary train_event middle w w'
                 /\ forallb epoch_level_event middle = true.
Proof.
  intros H.
  destruct (ev_trace _ _ _ _
              (ensures_Ok _ _ _ _ _
                 (ensures_train_epoch_loop_epoch_level fuel_steps fuel_epochs) H))
    as (evs & Ht & Hall).
  exists (List.filter train_event evs). split.
  - exists evs. auto.
  - apply forallb_filter_keep, Hall.
Qed.

Lemma train_impl_Ok fuel_epochs fuel_steps w w' a :
  _train_impl ev fuel_epochs fuel_steps u callbacks w = Ok w' a ->
  exists middle,
    summary train_event
      ([EvLog StartedTrain; EvUnit on_train_start]
       ++ callback_events 0 callbacks on_train_start
       ++ middle
       ++ [EvUnit on_train_end]
       ++ callback_events 0 callbacks on_train_end) w w'
    /\ forallb epoch_level_event middle = true.
Proof.
  intros H. unfold _train_impl in H. inv_ok H.
  apply get_train_state_Ok in Hop as [-> _].
  apply emit_Ok in Hop0 as ->. apply modify_Ok in Hop1 as ->.
  injection Hop2 as <- <-. injection Hop3 as <- <-.
  apply (train_event_run_unit_hook u on_train_start _ _ _ eq_refl) in Hop4 as [S4 _].
  apply (train_event_run_callback_fn callbacks on_train_start _ _ _ eq_refl)
    in Hop5 as [S5 _].
  apply train_epoch_loop_summary in Hop6 as (middle & S6 & Hm).
  apply (train_event_run_unit_hook u on_train_end _ _ _ eq_refl) in Hop7 as [S7 _].
  apply (train_event_run_callback_fn callbacks on_train_end _ _ _ eq_refl)
    in Hop8 as [S8 _].
  apply modify_Ok in H as ->.
  exists middle. split; [|exact Hm].
  assert (S0 : summary train_event [EvLog StartedTrain] w
                 (set_modules
                    (((fun _ => true) <$> restrict (dom (modules w)) (modules w))
                       ∪ modules w)
                    (upd_state (set_active_phase ActivePhase.TRAIN)
                       (add_event (EvLog StartedTrain) w))))
    by (exists [EvLog StartedTrain]; split; reflexivity).
  pose proof (summary_trans _ _ _ _ _ _ S0
                (summary_trans _ _ _ _ _ _ S4
                   (summary_trans _ _ _ _ _ _ S5
                      (summary_trans _ _ _ _ _ _ S6
                         (summary_trans _ _ _ _ _ _ S7 S8))))) as S.
  destruct S as (evs & Ht & Hf). exists evs. split; [exact Ht|].
  rewrite Hf. reflexivity.
Qed.
End TrainBrackets.

(** X3. A [train] run that returns normally has logged its start, called
    [on_train_start] on the unit and then on each callback that has it, run
    the epoch loop (which calls neither [on_train_start] nor
    [on_train_end]), called [on_train_end] on the unit and then on each
    callback that has it, and logged its end: each of the two hooks is
    dispatched exactly once. *)
Theorem train_brackets_the_epochs_with_start_and_end_hooks
    (ev : TrainUnit -> list Callback -> M unit) (fuel_epochs fuel_steps : nat)
    (u : TrainUnit) (callbacks : option (list Callback)) (w w' : World) :
  evaluate_frame ev ->
  train ev fuel_epochs fuel_steps u callbacks w = Ok w' tt ->
  exists middle,
    List.filter train_event (new_events w w')
    = [EvLog StartedTrain; EvUnit on_train_start]
      ++ callback_events 0 (default [] callbacks) on_train_start
      ++ middle
      ++ [EvUnit on_train_end]
      ++ callback_events 0 (default [] callbacks) on_train_end
      ++ [EvLog FinishedTrain]
    /\ forallb epoch_level_event middle = true.
Proof.
  intros Hev H. unfold train in H. apply try_except_handler_Ok in H.
  unfold train_body in H. inv_ok H.
  apply modify_Ok in Hop as ->. apply emit_Ok in H as ->.
  apply (train_impl_Ok ev Hev) in Hop0 as (middle & (evs & Ht & Hf) & Hm).
  exists middle. split; [|exact Hm].
  assert (Htr : trace (add_event (EvLog FinishedTrain) w1)
                = trace w ++ (evs ++ [EvLog FinishedTrain]))
    by (simpl; rewrite Ht; simpl; rewrite <- app_assoc; reflexivity).
  rewrite (new_events_app _ _ _ Htr), List.filter_app, Hf. simpl.
  rewrite <- !app_assoc. reflexivity.
Qed.

Lemma train_brackets_the_epochs_with_start_and_end_hooks_witness :
  exists middle,
    List.filter train_event
      (new_events one_epoch_world
         (world_after (train evaluate_pass 2 3 calm_unit (Some [observer; bystander])
                         one_epoch_world) one_epoch_world))
    = [EvLog StartedTrain; EvUnit on_train_start]
      ++ callback_events 0 (default [] (Some [observer; bystander])) on_train_start
      ++ middle
      ++ [EvUnit on_train_end]
      ++ callback_events 0 (default [] (Some [observer; bystander])) on_train_end
      ++ [EvLog FinishedTrain]
    /\ forallb epoch_level_event middle = true.
Proof.
  apply (train_brackets_the_epochs_with_start_and_end_hooks evaluate_pass 2 3 calm_unit
           (Some [observer; bystander]) one_epoch_world _ evaluate_pass_frame).
  vm_compute. reflexivity.
Defined.

(** ** A run that has nothing left to do *)

Lemma bind_cong_from {A B} (R : relation World) `{!Transitive R} (w0 : World)
    (m : M A) (k k' : A -> M B) (w : World) :
  R w0 w -> ensures R m ->
  (forall a w1, R w0 w1 -> k a w1 = k' a w1) ->
  bind m k w = bind m k' w.
Proof.
  intros H0 Hm Hk. unfold bind. destruct (m w) as [w1 a| |] eqn:E; try reflexivity.
  apply Hk. transitivity w; [exact H0|]. apply Hm. rewrite E. reflexivity.
Qed.

Lemma ends_ret {A} (a : A) : ends (ret a).
Proof. intros w. exists w. reflexivity. Qed.

Lemma ends_raise {A} e : ends (@raise A e).
Proof. intros w. exists w. reflexivity. Qed.

Lemma ends_modify f : ends (modify f).
Proof. intros w. exists (f w). reflexivity. Qed.

Lemma ends_bind {A B} (m : M A) (k : A -> M B) :
  ends m -> (forall a, ends (k a)) -> ends (bind m k).
Proof.
  intros Hm Hk w. unfold bind. destruct (Hm w) as (w1 & H1).
  destruct (m w) as [w2 a|w2 e|]; [apply Hk | exists w2; reflexivity | discriminate].
Qed.

Lemma ends_try_except {A} (body : M A) catches handler :
  ends body -> (forall e, ends (handler e)) -> ends (try_except body catches handler).
Proof.
  intros Hb Hh w. unfold try_except. destruct (Hb w) as (w1 & H1).
  destruct (body w) as [w2 a|w2 e|]; [exists w2; reflexivity | | discriminate].
  destruct (catches e); [apply Hh | exists w2; reflexivity].
Qed.

Lemma ends_run_unit_hook u h : ends (run_unit_hook u h).
Proof. intros w. apply run_hook_ends. Qed.

Lemma ends_run_callback_fn callbacks h : ends (_run_callback_fn callbacks h).
Proof. intros w. apply run_callbacks_from_ends. Qed.

Lemma ends_get_train_state e : ends (get_train_state e).
Proof.
  intros w. unfold get_train_state. destruct (train_state (state w)); exists w; reflexivity.
Qed.

Lemma ends_exception_handler msg u callbacks e : ends (exception_handler msg u callbacks e).
Proof.
  intros w. destruct (exception_handler_raises msg u callbacks e w) as (w' & e' & H & _).
  exists w'. rewrite H. reflexivity.
Qed.

Section NothingLeft.
Context (ev : TrainUnit -> list Callback -> M unit).
Context (u : TrainUnit) (callbacks : list Callback).

(** [_train_impl] without its epoch loop. *)
Let idle_train_impl : M unit :=
  let* _ := get_train_state (RuntimeError ExpectedTrainState) in
  let* _ := emit (EvLog StartedTrain) in
  let* _ := modify (upd_state (set_active_phase ActivePhase.TRAIN)) in
  let* tracked := tracked_modules in
  let* prior_module_train_states := _set_module_training_mode tracked true in
  let* _ := run_unit_hook u on_train_start in
  let* _ := _run_callback_fn callbacks on_train_start in
  let* _ := ret tt in
  let* _ := run_unit_hook u on_train_end in
  let* _ := _run_callback_fn callbacks on_train_end in
  _reset_module_training_mode tracked prior_module_train_states.

Lemma loop_condition_kept w w1 ts :
  train_state (state w) = Some ts ->
  should_stop (state w)
  || _is_done (progress ts) (max_epochs ts) (max_steps ts) = true ->
  evolves eq outer_event w w1 ->
  exists ts1, train_state (state w1) = Some ts1
    /\ should_stop (state w1)
       || _is_done (progress ts1) (max_epochs ts1) (max_steps ts1) = true.
Proof.
  intros E Hc [Hs _ Ht _ _]. unfold train_rel in Ht. rewrite E in Ht.
  destruct (train_state (state w1)) as [ts1|]; [|contradiction].
  destruct Ht as [(_ & Hme & Hms & _) Hp]. exists ts1. split; [reflexivity|].
  apply orb_true_iff in Hc as [Hc|Hc].
  - rewrite (Hs Hc). reflexivity.
  - rewrite <- Hp, Hme, Hms, Hc. apply orb_true_r.
Qed.

Lemma train_impl_idle fuel_epochs fuel_steps w ts :
  train_state (state w) = Some ts ->
  should_stop (state w)
  || _is_done (progress ts) (max_epochs ts) (max_steps ts) = true ->
  _train_impl ev (S fuel_epochs) fuel_steps u callbacks w = idle_train_impl w.
Proof.
  intros E Hc. unfold _train_impl, idle_train_impl.
  match goal with
  | |- ?l w = ?r w =>
      enough (H : forall w0, evolves eq outer_event w w0 -> l w0 = r w0)
        by (apply H; reflexivity)
  end.
  intros w0 R0.
  repeat (apply (bind_cong_from (evolves eq outer_event) w); [exact R0 | ens |];
          clear w0 R0; intros ? w0 R0).
  destruct (loop_condition_kept w w0 ts E Hc R0) as (ts1 & E1 & Hc1).
  unfold bind at 1 3. rewrite (train_epoch_loop_unfold ev u callbacks _ _ _ _ E1), Hc1.
  reflexivity.
Qed.

Lemma ensures_idle_train_impl : ensures (evolves eq outer_event) idle_train_impl.
Proof. unfold idle_train_impl. ens. Qed.

Lemma ends_idle_train_impl : ends idle_train_impl.
Proof.
  unfold idle_train_impl.
  repeat first
    [ apply ends_bind; [|intros ?]
    | apply ends_get_train_state
    | apply ends_modify
    | apply ends_run_unit_hook
    | apply ends_run_callback_fn
    | apply ends_ret
    | intros w0; eexists; reflexivity ].
Qed.

Lemma train_idle fuel_epochs fuel_steps callbacks' w ts :
  callbacks = default [] callbacks' ->
  train_state (state w) = Some ts ->
  should_stop (state w)
  || _is_done (progress ts) (max_epochs ts) (max_steps ts) = true ->
  train ev (S fuel_epochs) fuel_steps u callbacks' w
  = try_except
      (let* _ := modify (upd_state (set_entry_point TRAIN)) in
       let* _ := idle_train_impl in
       emit (EvLog FinishedTrain))
      is_Exception (exception_handler ExceptionDuringTrain u callbacks) w.
Proof.
  intros Hcb E Hc. unfold train, train_body, try_except. rewrite <- Hcb.
  unfold bind at 1 3. unfold modify at 1 2.
  unfold bind at 1 2.
  rewrite (train_impl_idle fuel_epochs fuel_steps
             (upd_state (set_entry_point TRAIN) w) ts E Hc).
  reflexivity.
Qed.

Lemma ensures_idle_train :
  ensures (evolves eq outer_event)
    (try_except
       (let* _ := modify (upd_state (set_entry_point TRAIN)) in
        let* _ := idle_train_impl in
        emit (EvLog FinishedTrain))
       is_Exception (exception_handler ExceptionDuringTrain u callbacks)).
Proof.
  apply ensures_try_except; [apply _ | | intros e; unfold exception_handler; ens].
  apply ensures_bind; [apply _ | ens | intros _].
  apply ensures_bind; [apply _ | apply ensures_idle_train_impl | intros _; ens].
Qed.

Lemma ends_idle_train :
  ends
    (try_except
       (let* _ := modify (upd_state (set_entry_point TRAIN)) in
        let* _ := idle_train_impl in
        emit (EvLog FinishedTrain))
       is_Exception (exception_handler ExceptionDuringTrain u callbacks)).
Proof.
  apply ends_try_except; [|intros e; apply ends_exception_handler].
  apply ends_bind; [apply ends_modify | intros _].
  apply ends_bind; [apply ends_idle_train_impl | intros _; apply ends_modify].
Qed.
End NothingLeft.

(** X4. When [train] is entered with the stop flag up, or with [max_steps]
    or [max_epochs] already reached, it ends without starting an epoch: it
    calls [on_train_start] and [on_train_end] (and [on_exception] if one of
    them raises) and nothing else, no [train_step], no epoch hook and no
    evaluation, and the progress counters are as they were. Here
    [_is_done] is the predicate of utils.py as the spec describes it. *)
Theorem train_with_nothing_left_starts_no_epoch
    (ev : TrainUnit -> list Callback -> M unit) (fuel_epochs fuel_steps : nat)
    (u : TrainUnit) (callbacks : option (list Callback)) (w : World) (ts : PhaseState) :
  train_state (state w) = Some ts ->
  should_stop (state w)
  || _is_done (progress ts) (max_epochs ts) (max_steps ts) = true ->
  (exists w', final (train ev (S fuel_epochs) fuel_steps u callbacks w) = Some w')
  /\ forall w', final (train ev (S fuel_epochs) fuel_steps u callbacks w) = Some w' ->
       forallb outer_event (new_events w w') = true
       /\ exists ts', train_state (state w') = Some ts' /\ progress ts' = progress ts.
Proof.
  intros E Hc.
  rewrite (train_idle ev u (default [] callbacks) fuel_epochs fuel_steps callbacks w ts
             eq_refl E Hc).
  split; [apply ends_idle_train|].
  intros w' H. apply ensures_idle_train in H as [_ (evs & Ht & Hall) Hr _ _].
  rewrite (new_events_app _ _ _ Ht). split; [exact Hall|].
  unfold train_rel in Hr. rewrite E in Hr.
  destruct (train_state (state w')) as [ts'|]; [|contradiction].
  exists ts'. split; [reflexivity|]. symmetry. apply Hr.
Qed.

Lemma train_with_nothing_left_starts_no_epoch_witness :
  (exists w', final (train evaluate_pass 1 0 stopping_unit (Some [observer])
                       (demo_world (Some (demo_train [1; 2]%nat (mkProgress 1 2 0) (Some 1)))
                          None)) = Some w')
  /\ forall w', final (train evaluate_pass 1 0 stopping_unit (Some [observer])
                        (demo_world (Some (demo_train [1; 2]%nat (mkProgress 1 2 0) (Some 1)))
                           None)) = Some w' ->
       forallb outer_event
         (new_events (demo_world (Some (demo_train [1; 2]%nat (mkProgress 1 2 0) (Some 1)))
                        None) w') = true
       /\ exists ts', train_state (state w') = Some ts'
                      /\ progress ts' = progress (demo_train [1; 2]%nat (mkProgress 1 2 0)
                                                    (Some 1)).
Proof.
  apply (train_with_nothing_left_starts_no_epoch evaluate_pass 0 0 stopping_unit
           (Some [observer])
           (demo_world (Some (demo_train [1; 2]%nat (mkProgress 1 2 0) (Some 1))) None)
           (demo_train [1; 2]%nat (mkProgress 1 2 0) (Some 1))).
  - reflexivity.
  - reflexivity.
Defined.

(** ** Step budgets: what the limits guarantee for any user code *)

#[global] Instance steps_kept_preorder : PreOrder steps_kept.
Proof. split; [intros p | intros p q r]; unfold steps_kept; congruence. Qed.

Lemma ensures_bind2 {A B} (R1 R2 R : relation World) (m : M A) (k : A -> M B) :
  ensures R1 m -> (forall a, ensures R2 (k a)) ->
  (forall x y, R1 x y -> R x y) ->
  (forall x y z, R1 x y -> R2 y z -> R x z) ->
  ensures R (bind m k).
Proof.
  intros Hm Hk H1 H12 w w' H. apply bind_final_inv in H as [[e H]|(w1 & b & Ha & Hb)].
  - apply H1, Hm. rewrite H. reflexivity.
  - eapply H12; [apply Hm; rewrite Ha; reflexivity | eapply Hk, Hb].
Qed.

(** The train PhaseState on both sides of a piece of a run. *)
Lemma train_rel_states Rp w w' ts :
  train_rel Rp w w' -> train_state (state w) = Some ts ->
  exists ts', train_state (state w') = Some ts' /\ same_config ts ts'
              /\ Rp (progress ts) (progress ts').
Proof.
  unfold train_rel. intros H E. rewrite E in H.
  destruct (train_state (state w')) as [ts'|]; [|contradiction].
  exists ts'. destruct H. auto.
Qed.

Lemma evolves_any Rp P w w' :
  evolves Rp P w w' -> evolves any_progress any_event w w'.
Proof. apply evolves_weaken; [intros; exact I | reflexivity]. Qed.

Ltac states H E :=
  let ts := fresh "ts" in
  let E' := fresh "E" in
  let C := fresh "C" in
  let P := fresh "P" in
  destruct (train_rel_states _ _ _ _ (ev_train _ _ _ _ H) E) as (ts & E' & C & P).

Lemma still_one_more w w' : evolves eq any_event w w' -> one_more w w'.
Proof.
  intros H. split.
  - revert H. apply evolves_weaken; [intros p q ->; reflexivity | reflexivity].
  - intros ts ts' E E'. states H E. rewrite E' in E0. injection E0 as <-. rewrite <- P. lia.
Qed.

Lemma still_then_one_more x y z :
  evolves eq any_event x y -> one_more y z -> one_more x z.
Proof.
  intros H [G Hg]. split.
  - transitivity y; [|exact G].
    revert H. apply evolves_weaken; [intros p q ->; reflexivity | reflexivity].
  - intros ts ts' E E'. states H E. rewrite P. apply Hg; assumption.
Qed.

Lemma one_more_then_still x y z :
  one_more x y -> evolves eq any_event y z -> one_more x z.
Proof.
  intros [G Hg] H. split.
  - transitivity y; [exact G|].
    revert H. apply evolves_weaken; [intros p q ->; reflexivity | reflexivity].
  - intros ts ts' E E'. states G E. states H E0. rewrite E' in E1. injection E1 as <-.
    rewrite <- P0. apply Hg; assumption.
Qed.

Lemma increment_step_one_more :
  ensures one_more (modify_train_state (upd_progress increment_step)).
Proof.
  intros w w' [= <-]. split.
  - apply (ensures_modify_train_state step_rel any_event (upd_progress increment_step)
             increment_step_rel w); reflexivity.
  - intros ts ts' E. simpl. rewrite E. simpl. intros [= <-]. simpl. lia.
Qed.

#[global] Instance loop_capped_preorder : PreOrder loop_capped.
Proof.
  split.
  - intros w. split; [reflexivity|]. intros ts ts' E E'. rewrite E in E'.
    injection E' as <-. split; intros m _; lia.
  - intros x y z [G1 H1] [G2 H2]. split; [etransitivity; eassumption|].
    intros ts ts' E E'. states G1 E. destruct C as (_ & _ & Cm & Cs).
    destruct (H1 _ _ E E0) as [A1 B1]. destruct (H2 _ _ E0 E') as [A2 B2].
    split; intros m Hm.
    + specialize (A1 m Hm). specialize (A2 m ltac:(congruence)). lia.
    + specialize (B1 m Hm). specialize (B2 m ltac:(congruence)). lia.
Qed.

Section StepBudget.
Context (ev : TrainUnit -> list Callback -> M unit) (Hev : evaluate_frame ev).
Context (u : TrainUnit) (callbacks : list Callback) (every_n_steps : option Z).

(** One pass through the body of the step loop completes at most one
    step, however it ends. *)
Lemma ensures_train_step_body_one_more data_iter :
  ensures one_more (train_step_body ev u callbacks every_n_steps data_iter).
Proof.
  unfold train_step_body, fetch_step_input.
  destruct (train_step_requires_iterator u); [|destruct data_iter];
    try (intros w w' [= <-]; apply still_one_more; reflexivity);
    (do 4 (apply (ensures_bind2 (evolves eq any_event) one_more one_more);
           [ens | intros ? | apply still_one_more | apply still_then_one_more]);
     apply (ensures_bind2 one_more (evolves eq any_event) one_more);
       [apply increment_step_one_more | intros _; ens | trivial
       | apply one_more_then_still]).
Qed.

Lemma guarded_step_capped w w1 ts :
  train_state (state w) = Some ts ->
  _is_epoch_done (progress ts) (max_steps_per_epoch ts) (max_steps ts) = false ->
  one_more w w1 -> loop_capped w w1.
Proof.
  intros E Hg [G H]. split; [exact G|]. intros ts0 ts' E0 E'.
  rewrite E in E0. injection E0 as <-.
  states G E. rewrite E' in E0. injection E0 as <-.
  specialize (H _ _ E E'). destruct P as (_ & Hd & Hle).
  unfold _is_epoch_done in Hg. apply orb_false_iff in Hg as [Hge Hgt].
  split; intros m Hm; rewrite Hm in *; simpl in *.
  - apply Z.leb_gt in Hgt. lia.
  - apply Z.leb_gt in Hge. lia.
Qed.

Lemma ensures_train_step_loop_capped fuel : forall data_iter,
  ensures loop_capped (train_step_loop ev fuel u callbacks every_n_steps data_iter).
Proof.
  induction fuel as [|fuel IH]; intros data_iter w w' H; simpl in H; [discriminate|].
  unfold bind at 1, get in H. unfold bind at 1, get_train_state in H.
  destruct (train_state (state w)) as [ts|] eqn:E;
    [|injection H as <-; reflexivity].
  destruct (should_stop (state w)) eqn:Hs; simpl in H; [injection H as <-; reflexivity|].
  destruct (_is_epoch_done _ _ _) eqn:Hg; [injection H as <-; reflexivity|].
  pose proof (ensures_train_step_body_one_more data_iter w) as Hb.
  unfold bind at 1, try_except in H. unfold bind at 1 in H.
  destruct (train_step_body ev u callbacks every_n_steps data_iter w)
    as [w1 it|w1 e|] eqn:Eb; [| |discriminate].
  - simpl in H. transitivity w1.
    + eapply guarded_step_capped; [exact E | exact Hg | apply Hb; reflexivity].
    + eapply IH, H.
  - assert (Hc : loop_capped w w1)
      by (eapply guarded_step_capped; [exact E | exact Hg | apply Hb; reflexivity]).
    destruct (is_StopIteration e); simpl in H; injection H as <-; exact Hc.
Qed.
End StepBudget.

Lemma increment_epoch_steps_kept ts :
  same_config ts (upd_progress increment_epoch ts)
  /\ steps_kept (progress ts) (progress (upd_progress increment_epoch ts)).
Proof. split; [unfold same_config; simpl; auto | reflexivity]. Qed.

Lemma still_epoch_capped x y : evolves eq any_event x y -> epoch_capped x y.
Proof.
  intros H. split; [eapply evolves_any, H|]. intros ts ts' E E'.
  states H E. rewrite E' in E0. injection E0 as <-. rewrite <- P.
  split; [lia|]. split; intros m _; lia.
Qed.

Lemma still_then_epoch_capped x y z :
  evolves eq any_event x y -> epoch_capped y z -> epoch_capped x z.
Proof.
  intros H [G Hg]. split; [transitivity y; [eapply evolves_any, H | exact G]|].
  intros ts ts' E E'. states H E. destruct C as (_ & _ & Cm & Cs).
  rewrite P. destruct (Hg _ _ E0 E') as (A & B & D).
  split; [exact A|]. split; intros m Hm; [apply B | apply D]; congruence.
Qed.

Lemma loop_epoch_capped x y : loop_capped x y -> epoch_capped x y.
Proof.
  intros [G H]. split; [eapply evolves_any, G|]. intros ts ts' E E'.
  states G E. rewrite E' in E0. injection E0 as <-.
  destruct (H _ _ E E') as [A B]. destruct P as (_ & Hd & Hle).
  split; [lia|]. split; [exact A|]. intros m Hm. specialize (B m Hm). lia.
Qed.

Lemma epoch_capped_then_tail x y z :
  epoch_capped x y -> evolves steps_kept any_event y z -> epoch_capped x z.
Proof.
  intros [G H] T. split; [transitivity y; [exact G | eapply evolves_any, T]|].
  intros ts ts' E E'. states G E. states T E0. rewrite E' in E1. injection E1 as <-.
  unfold steps_kept in P0. rewrite P0. apply H; assumption.
Qed.

Lemma loop_then_tail x y z :
  loop_capped x y -> evolves steps_kept any_event y z -> epoch_capped x z.
Proof. intros H. apply epoch_capped_then_tail, loop_epoch_capped, H. Qed.

#[global] Instance capped_preorder : PreOrder capped.
Proof.
  split.
  - intros w. split; [reflexivity|]. intros ts ts' E E'. rewrite E in E'.
    injection E' as <-. split; [lia | intros m _; lia].
  - intros x y z [G1 H1] [G2 H2]. split; [etransitivity; eassumption|].
    intros ts ts' E E'. states G1 E. destruct C as (_ & _ & Cm & _).
    destruct (H1 _ _ E E0) as [A1 B1]. destruct (H2 _ _ E0 E') as [A2 B2].
    split; [lia|]. intros m Hm.
    specialize (B1 m Hm). specialize (B2 m ltac:(congruence)). lia.
Qed.

Lemma epoch_capped_capped x y : epoch_capped x y -> capped x y.
Proof.
  intros [G H]. split; [exact G|]. intros ts ts' E E'.
  destruct (H _ _ E E') as (A & B & _). auto.
Qed.

Lemma still_capped x y : evolves eq any_event x y -> capped x y.
Proof. intros H. apply epoch_capped_capped, still_epoch_capped, H. Qed.

(** Straight-line driver code that leaves the progress alone. *)
Ltac keeps_cap :=
  repeat first
    [ eapply ensures_weaken; [apply still_capped | ens_prim]
    | apply ensures_bind; [apply _ | | intros ?]
    | apply ensures_when; [apply _ | ]
    | apply ensures_try_except; [apply _ | | intros ?] ].

Section EpochBudget.
Context (ev : TrainUnit -> list Callback -> M unit) (Hev : evaluate_frame ev).
Context (u : TrainUnit) (callbacks : list Callback).

Lemma ensures_train_epoch_impl_capped fuel :
  ensures epoch_capped (_train_epoch_impl ev fuel u callbacks).
Proof.
  unfold _train_epoch_impl.
  do 8 (apply (ensures_bind2 (evolves eq any_event) epoch_capped epoch_capped);
        [ens | intros ? | apply still_epoch_capped | apply still_then_epoch_capped]).
  apply (ensures_bind2 loop_capped (evolves steps_kept any_event) epoch_capped);
    [apply ensures_train_step_loop_capped, Hev | intros _ | apply loop_epoch_capped
    | apply loop_then_tail].
  repeat first
    [ ens_prim
    | solve [apply ensures_modify_train_state; intros ?;
             apply increment_epoch_steps_kept]
    | apply ensures_bind; [apply _ | | intros ?]
    | apply ensures_when; [apply _ | ] ].
Qed.

Lemma ensures_train_epoch_capped fuel callbacks' :
  callbacks = default [] callbacks' ->
  ensures epoch_capped (train_epoch ev fuel u callbacks').
Proof.
  intros Hc w w' H. unfold train_epoch in H. rewrite <- Hc in H.
  unfold try_except in H.
  assert (Hb : ensures epoch_capped (train_epoch_body ev fuel u callbacks)).
  { unfold train_epoch_body.
    apply (ensures_bind2 (evolves eq any_event) epoch_capped epoch_capped);
      [ens | intros ts | apply still_epoch_capped | apply still_then_epoch_capped].
    destruct (negb _); [eapply ensures_weaken; [apply still_epoch_capped | ens]|].
    do 2 (apply (ensures_bind2 (evolves eq any_event) epoch_capped epoch_capped);
          [ens | intros ? | apply still_epoch_capped | apply still_then_epoch_capped]).
    apply (ensures_bind2 epoch_capped (evolves steps_kept any_event) epoch_capped);
      [apply ensures_train_epoch_impl_capped | intros _; ens | trivial
      | apply epoch_capped_then_tail]. }
  destruct (train_epoch_body ev fuel u callbacks w) as [w1 a|w1 e|] eqn:E;
    [injection H as <-; apply Hb; rewrite E; reflexivity | | discriminate].
  assert (H1 : epoch_capped w w1) by (apply Hb; rewrite E; reflexivity).
  destruct (is_Exception e); [|injection H as <-; exact H1].
  eapply epoch_capped_then_tail; [exact H1|].
  assert (Hh : ensures (evolves steps_kept any_event)
                 (exception_handler ExceptionDuringTrainEpoch u callbacks e))
    by (unfold exception_handler; ens).
  apply Hh, H.
Qed.

Lemma ensures_train_epoch_loop_capped fuel_steps fuel_epochs :
  ensures capped (train_epoch_loop ev fuel_epochs fuel_steps u callbacks).
Proof.
  induction fuel_epochs as [|fuel IH]; simpl.
  - apply ensures_out_of_fuel.
  - apply ensures_bind; [apply _ | keeps_cap | intros w0].
    apply ensures_bind; [apply _ | keeps_cap | intros ts].
    destruct (_ || _); [keeps_cap|].
    apply ensures_bind; [apply _ | | intros _; apply IH].
    eapply ensures_weaken; [apply epoch_capped_capped|].
    apply ensures_train_epoch_impl_capped.
Qed.

Lemma ensures_train_capped fuel_epochs fuel_steps callbacks' :
  callbacks = default [] callbacks' ->
  ensures capped (train ev fuel_epochs fuel_steps u callbacks').
Proof.
  intros Hc. unfold train. rewrite <- Hc.
  apply ensures_try_except; [apply _ | | intros e; unfold exception_handler; keeps_cap].
  unfold train_body.
  apply ensures_bind; [apply _ | keeps_cap | intros _].
  apply ensures_bind; [apply _ | | intros _; keeps_cap].
  unfold _train_impl.
  do 7 (apply ensures_bind; [apply _ | keeps_cap | intros ?]).
  apply ensures_bind; [apply _ | apply ensures_train_epoch_loop_capped | intros _; keeps_cap].
Qed.
End EpochBudget.

(** X5. However the user code behaves and however the run ends, [train]
    and [train_epoch] never decrease [num_steps_completed] and never take
    it beyond [max_steps]: if it was at most [max_steps] at entry, it is at
    most [max_steps] at exit. Here [_is_epoch_done] is the predicate of
    utils.py as the spec describes it. *)
Theorem train_never_overshoots_max_steps
    (ev : TrainUnit -> list Callback -> M unit) (fuel_epochs fuel_steps : nat)
    (u : TrainUnit) (callbacks : option (list Callback)) (w : World) (ts : PhaseState) :
  evaluate_frame ev ->
  train_state (state w) = Some ts ->
  (forall w', final (train ev fuel_epochs fuel_steps u callbacks w) = Some w' ->
     exists ts', train_state (state w') = Some ts'
       /\ num_steps_completed (progress ts) <= num_steps_completed (progress ts')
       /\ forall m, max_steps ts = Some m ->
            num_steps_completed (progress ts')
            <= Z.max (num_steps_completed (progress ts)) m)
  /\ (forall w', final (train_epoch ev fuel_steps u callbacks w) = Some w' ->
        exists ts', train_state (state w') = Some ts'
          /\ num_steps_completed (progress ts) <= num_steps_completed (progress ts')
          /\ forall m, max_steps ts = Some m ->
               num_steps_completed (progress ts')
               <= Z.max (num_steps_completed (progress ts)) m).
Proof.
  intros Hev E. split; intros w' H.
  - apply (ensures_train_capped ev Hev u (default [] callbacks) fuel_epochs fuel_steps
             callbacks eq_refl) in H as [G H].
    states G E. exists ts0. split; [exact E0|]. apply H; assumption.
  - apply (ensures_train_epoch_capped ev Hev u (default [] callbacks) fuel_steps
             callbacks eq_refl) in H.
    apply epoch_capped_capped in H as [G H].
    states G E. exists ts0. split; [exact E0|]. apply H; assumption.
Qed.

Lemma train_never_overshoots_max_steps_witness :
  exists ts',
    train_state
      (state (world_after
                (train evaluate_pass 3 6 calm_unit (Some [observer])
                   (limited_world [1; 2; 3; 4; 5]%nat Progress_init None (Some 3) None))
                (limited_world [1; 2; 3; 4; 5]%nat Progress_init None (Some 3) None)))
    = Some ts'
    /\ 0 <= num_steps_completed (progress ts')
    /\ forall m, Some 3 = Some m -> num_steps_completed (progress ts') <= Z.max 0 m.
Proof.
  apply (proj1 (train_never_overshoots_max_steps evaluate_pass 3 6 calm_unit
                  (Some [observer])
                  (limited_world [1; 2; 3; 4; 5]%nat Progress_init None (Some 3) None)
                  (mkPhaseState [1; 2; 3; 4; 5]%nat Progress_init None (Some 3) None
                     None None None)
                  evaluate_pass_frame eq_refl)).
  vm_compute. reflexivity.
Defined.

(** X6. However the user code behaves and however the call ends, one call
    of the epoch routine (and so of [train_epoch]) completes at most
    [max_steps_per_epoch] minus the steps already completed in the epoch:
    [num_steps_completed] does not decrease and grows by no more than that
    (by nothing when the limit was reached already). Here [_is_epoch_done]
    is the predicate of utils.py as the spec describes it. *)
Theorem epoch_stays_within_max_steps_per_epoch
    (ev : TrainUnit -> list Callback -> M unit) (fuel : nat)
    (u : TrainUnit) (callbacks : option (list Callback)) (w : World)
    (ts : PhaseState) (m : Z) :
  evaluate_frame ev ->
  train_state (state w) = Some ts ->
  max_steps_per_epoch ts = Some m ->
  (forall w', final (_train_epoch_impl ev fuel u (default [] callbacks) w) = Some w' ->
     exists ts', train_state (state w') = Some ts'
       /\ 0 <= num_steps_completed (progress ts') - num_steps_completed (progress ts)
            <= Z.max 0 (m - num_steps_completed_in_epoch (progress ts)))
  /\ (forall w', final (train_epoch ev fuel u callbacks w) = Some w' ->
        exists ts', train_state (state w') = Some ts'
          /\ 0 <= num_steps_completed (progress ts') - num_steps_completed (progress ts)
               <= Z.max 0 (m - num_steps_completed_in_epoch (progress ts))).
Proof.
  intros Hev E Hm. split; intros w' H.
  - apply (ensures_train_epoch_impl_capped ev Hev) in H as [G H].
    states G E. exists ts0. split; [exact E0|].
    destruct (H _ _ E E0) as (A & _ & B). specialize (B m Hm). lia.
  - apply (ensures_train_epoch_capped ev Hev u (default [] callbacks) fuel
             callbacks eq_refl) in H as [G H].
    states G E. exists ts0. split; [exact E0|].
    destruct (H _ _ E E0) as (A & _ & B). specialize (B m Hm). lia.
Qed.

Lemma epoch_stays_within_max_steps_per_epoch_witness :
  exists ts',
    train_state
      (state (world_after
                (train_epoch evaluate_pass 6 calm_unit (Some [observer])
                   (limited_world [1; 2; 3; 4; 5]%nat (mkProgress 0 1 1) (Some 1) None
                      (Some 3)))
                (limited_world [1; 2; 3; 4; 5]%nat (mkProgress 0 1 1) (Some 1) None
                   (Some 3))))
    = Some ts'
    /\ 0 <= num_steps_completed (progress ts') - 1 <= Z.max 0 (3 - 1).
Proof.
  apply (proj2 (epoch_stays_within_max_steps_per_epoch evaluate_pass 6 calm_unit
                  (Some [observer])
                  (limited_world [1; 2; 3; 4; 5]%nat (mkProgress 0 1 1) (Some 1) None
                     (Some 3))
                  (mkPhaseState [1; 2; 3; 4; 5]%nat (mkProgress 0 1 1) (Some 1) None
                     (Some 3) None None None) 3
                  evaluate_pass_frame eq_refl eq_refl)).
  vm_compute. reflexivity.
Defined.

(** ** Undisturbed runs under limits *)

Section Settled.
Context (cfg : PhaseState) (has_eval : bool).
#[local] Abbreviation Good := (settled cfg has_eval).

Lemma settled_same w w' : state w' = state w -> Good w -> Good w'.
Proof. unfold settled. intros ->. trivial. Qed.

Lemma settled_upd_train f w :
  (forall ts, same_config ts (f ts)) -> Good w -> Good (upd_state (upd_train_state f) w).
Proof.
  intros Hf (Hs & (ts & E & Hc) & He). split; [exact Hs|]. split; [|exact He].
  exists (f ts). simpl. rewrite E. simpl. split; [reflexivity|].
  eapply same_config_trans; [exact Hc | apply Hf].
Qed.

Lemma runs_emit e0 : succeeds Good anything (emit e0).
Proof. apply succeeds_modify. intros w. apply settled_same. reflexivity. Qed.

Lemma runs_set_active_phase ph :
  succeeds Good anything (modify (upd_state (set_active_phase ph))).
Proof.
  apply succeeds_modify. intros w (Hs & Ht & He). split; [exact Hs|]. split; assumption.
Qed.

Lemma runs_reset tracked prior :
  succeeds Good anything (_reset_module_training_mode tracked prior).
Proof. apply succeeds_modify. intros w. apply settled_same. reflexivity. Qed.

Lemma runs_modify_train_state f :
  (forall ts, same_config ts (f ts)) -> succeeds Good anything (modify_train_state f).
Proof. intros Hf. apply succeeds_modify. intros w. apply settled_upd_train, Hf. Qed.

Lemma runs_get_train_state e :
  succeeds Good (fun ts => same_config cfg ts) (get_train_state e).
Proof.
  intros w HI. pose proof HI as (Hs & (ts & E & Hc) & He).
  exists w, ts. unfold get_train_state. rewrite E. auto.
Qed.

Lemma runs_run_hook e0 f :
  (forall w, f w = quiet) -> succeeds Good anything (run_hook e0 f).
Proof.
  intros Hq w HI. exists (add_event e0 w), tt. unfold run_hook. rewrite Hq. simpl.
  split; [reflexivity|]. split; [|exact Logic.I].
  eapply settled_same; [|exact HI]. reflexivity.
Qed.

Lemma runs_run_step e0 f :
  (forall w, so_outcome (f w) = quiet) -> succeeds Good anything (run_step e0 f).
Proof.
  intros Hq w HI. eexists (add_event e0 w), _. unfold run_step. rewrite Hq. simpl.
  split; [reflexivity|]. split; [|exact Logic.I].
  eapply settled_same; [|exact HI]. reflexivity.
Qed.

Lemma runs_run_callbacks_from callbacks h :
  quiet_callbacks callbacks ->
  forall i, succeeds Good anything (run_callbacks_from i callbacks h).
Proof.
  induction callbacks as [|cb rest IH]; intros Hq i; simpl.
  - apply succeeds_ret. exact Logic.I.
  - assert (Hrest : quiet_callbacks rest)
      by (intros cb0 h0 f w Hin; apply Hq; right; exact Hin).
    destruct (cb h) as [f|] eqn:E; [|apply IH, Hrest].
    eapply succeeds_bind; [|intros _ _; apply IH, Hrest].
    apply runs_run_hook. intros w. eapply Hq; [left | exact E].
Qed.

Lemma runs_call_evaluate ev site u callbacks :
  evaluate_frame ev -> evaluate_quiet ev u callbacks -> has_eval = true ->
  succeeds Good anything (call_evaluate ev site u callbacks).
Proof.
  intros Hev Hq Hh w HI. unfold call_evaluate, bind, emit, modify.
  assert (HI1 : Good (add_event (EvEvaluate site) w))
    by (eapply settled_same; [|exact HI]; reflexivity).
  destruct HI1 as (Hs & (ts & E & Hc) & He). rewrite Hh in He.
  destruct (Hq _ He) as (w' & Hr & Hs').
  exists w', tt. split; [exact Hr|]. split; [|exact Logic.I].
  pose proof (ensures_Ok _ _ _ _ _ (Hev u callbacks) Hr) as [_ _ Htr Hek _].
  split; [congruence|]. split; [|rewrite Hh; apply Hek, He].
  destruct (train_rel_states _ _ _ _ Htr E) as (ts' & E' & C' & _).
  exists ts'. split; [exact E'|]. eapply same_config_trans; eassumption.
Qed.
End Settled.

Section QuietLimited.
Context (ev : TrainUnit -> list Callback -> M unit) (Hev : evaluate_frame ev).
Context (u : TrainUnit) (callbacks : list Callback).
Hypothesis Hu : quiet_unit u.
Hypothesis Hc : quiet_callbacks callbacks.
Hypothesis Hq : evaluate_quiet ev u callbacks.
Hypothesis Hbatch : train_step_requires_iterator u = false.
Context (cfg : PhaseState) (has_eval : bool).
#[local] Abbreviation Good := (settled cfg has_eval).

Lemma runs_maybe_evaluate every_n count site :
  (every_n = None \/ has_eval = true) ->
  succeeds Good anything (when (is_due every_n count) (call_evaluate ev site u callbacks)).
Proof.
  intros [-> | Hh]; [apply succeeds_ret; exact Logic.I|].
  apply succeeds_when. intros _. apply runs_call_evaluate; assumption.
Qed.

Lemma runs_train_step_body every_n b rest :
  (every_n = None \/ has_eval = true) ->
  succeeds Good (fun it => it = rest)
           (train_step_body ev u callbacks every_n (b :: rest)).
Proof.
  intros Hn. unfold train_step_body. rewrite Hbatch. simpl.
  eapply (succeeds_bind _ (eq (InBatch b, rest)));
    [apply succeeds_ret; reflexivity | intros ? <-].
  eapply succeeds_bind; [apply runs_run_callbacks_from, Hc | intros _ _].
  eapply succeeds_bind; [apply runs_run_step, Hu | intros ? _].
  eapply succeeds_bind; [apply runs_modify_train_state; suc_side | intros _ _].
  eapply succeeds_bind; [apply runs_modify_train_state; suc_side | intros _ _].
  eapply succeeds_bind; [apply runs_run_callbacks_from, Hc | intros _ _].
  eapply succeeds_bind; [apply runs_modify_train_state; suc_side | intros _ _].
  eapply succeeds_bind; [apply runs_get_train_state | intros ts _].
  eapply succeeds_bind; [apply runs_maybe_evaluate, Hn | intros _ _].
  apply succeeds_ret. reflexivity.
Qed.
End QuietLimited.

Lemma cap_nothing r : cap r 0 = 0%nat.
Proof. destruct r as [k|]; simpl; [apply Nat.min_0_r | reflexivity]. Qed.

Lemma cap_done count limit n :
  limit_reached count limit = true -> cap (room count limit) n = 0%nat.
Proof.
  destruct limit as [m|]; simpl; [|discriminate].
  intros H. apply Z.leb_le in H. replace (Z.to_nat (m - count)) with 0%nat by lia.
  reflexivity.
Qed.

Lemma cap_step count limit n :
  limit_reached count limit = false ->
  cap (room count limit) (S n) = S (cap (room (count + 1) limit) n).
Proof.
  destruct limit as [m|]; simpl; [|reflexivity].
  intros H. apply Z.leb_gt in H.
  replace (Z.to_nat (m - count)) with (S (Z.to_nat (m - (count + 1)))) by lia.
  reflexivity.
Qed.

Lemma allowance_nothing p mspe ms : allowance p mspe ms 0 = 0%nat.
Proof. unfold allowance. rewrite !cap_nothing. reflexivity. Qed.

Lemma allowance_done p mspe ms n :
  _is_epoch_done p mspe ms = true -> allowance p mspe ms n = 0%nat.
Proof.
  unfold _is_epoch_done, allowance. intros H. apply orb_true_iff in H as [H|H].
  - apply cap_done, H.
  - rewrite (cap_done _ _ n H). apply cap_nothing.
Qed.

Lemma allowance_step p mspe ms n :
  _is_epoch_done p mspe ms = false ->
  allowance p mspe ms (S n) = S (allowance (increment_step p) mspe ms n).
Proof.
  unfold _is_epoch_done, allowance. intros H. apply orb_false_iff in H as [H1 H2].
  rewrite (cap_step _ _ n H2), (cap_step _ _ _ H1). reflexivity.
Qed.

Lemma allowance_le p mspe ms n : (allowance p mspe ms n <= n)%nat.
Proof.
  unfold allowance, cap.
  destruct (room _ mspe), (room _ ms); lia.
Qed.

Section QuietLimitedLoop.
Context (ev : TrainUnit -> list Callback -> M unit) (Hev : evaluate_frame ev).
Context (u : TrainUnit) (callbacks : list Callback).
Hypothesis Hu : quiet_unit u.
Hypothesis Hc : quiet_callbacks callbacks.
Hypothesis Hq : evaluate_quiet ev u callbacks.
Hypothesis Hbatch : train_step_requires_iterator u = false.
Context (cfg : PhaseState) (has_eval : bool) (every_n : option Z).
Hypothesis Hn : every_n = None \/ has_eval = true.

(** The step loop of an undisturbed epoch takes the batches in order until
    the data ends or a step limit is reached. *)
Lemma quiet_train_step_loop_limited data_iter : forall fuel_steps w ts,
  settled cfg has_eval w ->
  train_state (state w) = Some ts ->
  (length data_iter < fuel_steps)%nat ->
  exists w' ts',
    train_step_loop ev fuel_steps u callbacks every_n data_iter w = Ok w' tt
    /\ settled cfg has_eval w'
    /\ train_state (state w') = Some ts'
    /\ same_config ts ts'
    /\ progress ts'
       = Nat.iter (allowance (progress ts) (max_steps_per_epoch ts) (max_steps ts)
                     (length data_iter))
                  increment_step (progress ts)
    /\ summary train_event
         (loop_calls callbacks every_n (num_steps_completed_in_epoch (progress ts))
            (map InBatch
               (take (allowance (progress ts) (max_steps_per_epoch ts) (max_steps ts)
                        (length data_iter)) data_iter))) w w'.
Proof.
  induction data_iter as [|b rest IH]; intros fuel_steps w ts HI E Hlen;
    (destruct fuel_steps as [|fuel_steps]; [simpl in Hlen; lia|]);
    pose proof HI as (Hs & _ & _).
  - exists w, ts. simpl length. rewrite allowance_nothing. simpl.
    split; [|split; [exact HI|split; [exact E|split; [apply same_config_refl|split;
      [reflexivity | apply summary_refl]]]]].
    unfold bind at 1, get. unfold bind at 1, get_train_state. rewrite E, Hs. simpl.
    destruct (_is_epoch_done _ _ _); [reflexivity|].
    unfold bind at 1, try_except. unfold bind at 1.
    unfold train_step_body. rewrite Hbatch. reflexivity.
  - destruct (_is_epoch_done (progress ts) (max_steps_per_epoch ts) (max_steps ts))
      eqn:Hg.
    + exists w, ts. rewrite (allowance_done _ _ _ _ Hg). simpl.
      split; [|split; [exact HI|split; [exact E|split; [apply same_config_refl|split;
        [reflexivity | apply summary_refl]]]]].
      unfold bind at 1, get. unfold bind at 1, get_train_state. rewrite E, Hs, Hg.
      reflexivity.
    + destruct (runs_train_step_body ev Hev u callbacks Hu Hc Hq Hbatch cfg has_eval
                  every_n b rest Hn w HI) as (w1 & it & Eb & HI1 & ->).
      destruct (train_step_body_Ok ev Hev u callbacks every_n _ _ _ _ ts Eb E)
        as (ts1 & input & E1 & C1 & P1 & S1 & (rest0 & Hf)).
      unfold fetch_step_input in Hf. rewrite Hbatch in Hf. injection Hf as <- _.
      destruct (IH fuel_steps w1 ts1 HI1 E1 ltac:(simpl in Hlen; lia))
        as (w' & ts' & Hl & HI' & E' & C' & P' & S').
      assert (Hcond : should_stop (state w)
                      || _is_epoch_done (progress ts) (max_steps_per_epoch ts)
                           (max_steps ts) = false)
        by (rewrite Hs, Hg; reflexivity).
      destruct C1 as (Cd & Ce & Cs & Cm).
      simpl length. rewrite (allowance_step _ _ _ _ Hg).
      rewrite Cm, Cs, P1 in P', S'.
      exists w', ts'. split; [|split; [exact HI'|split; [exact E'|split; [|split]]]].
      * rewrite (train_step_loop_unfold ev u callbacks _ _ _ _ ts _ _ E Hcond Eb).
        exact Hl.
      * eapply same_config_trans; [|exact C']. unfold same_config. auto.
      * rewrite P'. symmetry. apply Nat.iter_succ_r.
      * simpl. simpl in S'. exact (summary_trans _ _ _ _ _ _ S1 S').
Qed.
End QuietLimitedLoop.

Section QuietLimitedEpoch.
Context (ev : TrainUnit -> list Callback -> M unit) (Hev : evaluate_frame ev).
Context (u : TrainUnit) (callbacks : list Callback).
Hypothesis Hu : quiet_unit u.
Hypothesis Hc : quiet_callbacks callbacks.
Hypothesis Hq : evaluate_quiet ev u callbacks.
Hypothesis Hbatch : train_step_requires_iterator u = false.
Context (cfg : PhaseState) (has_eval : bool) (fuel : nat).
Hypothesis Hfuel : (length (dataloader cfg) < fuel)%nat.

Lemma runs_run_unit_hook h :
  succeeds (settled cfg has_eval) anything (run_unit_hook u h).
Proof. apply runs_run_hook. intros w. apply Hu. Qed.

Lemma runs_epoch_start_hooks b :
  succeeds (settled cfg has_eval) anything
    (when b (let* _ := run_unit_hook u on_train_epoch_start in
             _run_callback_fn callbacks on_train_epoch_start)).
Proof.
  apply succeeds_when. intros _.
  eapply succeeds_bind; [apply runs_run_unit_hook | intros _ _].
  apply runs_run_callbacks_from, Hc.
Qed.

Lemma settled_epoch_entry w :
  settled cfg has_eval w -> settled cfg has_eval (epoch_entry w).
Proof. intros (Hs & Ht & He). split; [exact Hs|]. split; assumption. Qed.

Lemma settled_cadence w :
  settled cfg has_eval w ->
  ((eval_cadence (state w)).1 = None \/ has_eval = true)
  /\ ((eval_cadence (state w)).2 = None \/ has_eval = true).
Proof.
  intros (_ & _ & He). destruct has_eval; [auto|].
  unfold eval_cadence. rewrite He. auto.
Qed.

Lemma runs_train_step_loop every_n data_iter :
  (every_n = None \/ has_eval = true) ->
  (length data_iter < fuel)%nat ->
  succeeds (settled cfg has_eval) anything
           (train_step_loop ev fuel u callbacks every_n data_iter).
Proof.
  intros Hn Hlen w HI. pose proof HI as (_ & (ts & E & _) & _).
  destruct (quiet_train_step_loop_limited ev Hev u callbacks Hu Hc Hq Hbatch cfg
              has_eval every_n Hn data_iter fuel w ts HI E Hlen)
    as (w' & ts' & Hl & HI' & _).
  exists w', tt. split; [exact Hl|]. split; [exact HI' | exact Logic.I].
Qed.

Lemma quiet_epoch_returns w :
  settled cfg has_eval w ->
  exists w', _train_epoch_impl ev fuel u callbacks w = Ok w' tt
             /\ settled cfg has_eval w'.
Proof.
  intros HI. pose proof HI as (_ & (ts & E & _) & _).
  destruct (settled_cadence w HI) as [H1 H2].
  eassert (Hrw : _train_epoch_impl ev fuel u callbacks w = _).
  { unfold _train_epoch_impl.
    repeat (erewrite bind_Ok
              by first [ reflexivity
                       | unfold get_train_state; simpl; rewrite E; reflexivity ]).
    reflexivity. }
  rewrite Hrw. clear Hrw.
  match goal with
  | |- exists w', ?m ?w0 = Ok w' tt /\ _ =>
      assert (Hm : succeeds (settled cfg has_eval) anything m);
        [| destruct (Hm w0 (settled_epoch_entry w HI)) as (w' & [] & Hr & HI' & _);
           exists w'; split; [exact Hr | exact HI'] ]
  end.
  eapply succeeds_bind; [apply runs_epoch_start_hooks | intros _ _].
  eapply succeeds_bind; [apply runs_get_train_state | intros ts0 (Hd & _)].
  eapply succeeds_bind;
    [apply runs_train_step_loop; [exact H1 | rewrite Hd; exact Hfuel] | intros _ _].
  eapply succeeds_bind; [apply runs_get_train_state | intros ts1 _].
  eapply succeeds_bind;
    [apply succeeds_when; intros _; apply runs_emit | intros _ _].
  eapply succeeds_bind; [apply runs_modify_train_state; suc_side | intros _ _].
  eapply succeeds_bind; [apply runs_run_unit_hook | intros _ _].
  eapply succeeds_bind; [apply runs_run_callbacks_from, Hc | intros _ _].
  eapply succeeds_bind; [apply runs_get_train_state | intros ts2 _].
  eapply succeeds_bind;
    [apply (runs_maybe_evaluate ev Hev u callbacks Hq); exact H2 | intros _ _].
  eapply succeeds_bind; [apply runs_reset | intros _ _].
  apply runs_emit.
Qed.

(** What an undisturbed call of the epoch routine does. *)
Lemma quiet_epoch_effect w ts :
  settled cfg has_eval w ->
  train_state (state w) = Some ts ->
  exists w' ts',
    _train_epoch_impl ev fuel u callbacks w = Ok w' tt
    /\ settled cfg has_eval w'
    /\ train_state (state w') = Some ts'
    /\ same_config ts ts'
    /\ progress ts'
       = increment_epoch
           (Nat.iter (allowance (progress ts) (max_steps_per_epoch ts) (max_steps ts)
                        (length (dataloader ts)))
                     increment_step (progress ts))
    /\ summary train_event
         (epoch_start_calls callbacks (num_steps_completed_in_epoch (progress ts))
          ++ loop_calls callbacks (eval_cadence (state w)).1
               (num_steps_completed_in_epoch (progress ts))
               (map InBatch
                  (take (allowance (progress ts) (max_steps_per_epoch ts) (max_steps ts)
                           (length (dataloader ts))) (dataloader ts)))
          ++ epoch_end_calls callbacks (eval_cadence (state w)).2
               (negb (Nat.eqb (allowance (progress ts) (max_steps_per_epoch ts)
                                 (max_steps ts) (length (dataloader ts))) 0))
               (num_epochs_completed (progress ts) + 1)) w w'.
Proof.
  intros HI E. destruct (quiet_epoch_returns w HI) as (w' & Hok & HI').
  destruct (settled_cadence w HI) as [H1 H2].
  destruct (train_epoch_impl_Ok ev Hev u callbacks fuel w w' tt ts Hok E)
    as (wa & tsa & wb & tsb & Sa & Ea & Ca & Pa & Hl & Eb & Sb & Pb & Hentry).
  destruct (runs_epoch_start_hooks
              (num_steps_completed_in_epoch (progress ts) =? 0) (epoch_entry w)
              (settled_epoch_entry w HI)) as (wa' & [] & Hr & HIa & _).
  rewrite Hentry in Hr. injection Hr as <-.
  assert (Hlen : (length (dataloader ts) < fuel)%nat).
  { destruct HI as (_ & (ts0 & E0 & (Hd & _)) & _). rewrite E in E0.
    injection E0 as <-. rewrite Hd. exact Hfuel. }
  destruct (quiet_train_step_loop_limited ev Hev u callbacks Hu Hc Hq Hbatch cfg
              has_eval _ H1 (dataloader ts) fuel wa tsa HIa Ea Hlen)
    as (wb' & tsb' & Hl' & _ & Eb' & Cb & Pl & Sl).
  rewrite Hl in Hl'. injection Hl' as <-. rewrite Eb in Eb'. injection Eb' as <-.
  destruct (Pb tsb Eb) as (ts' & E' & C' & P').
  destruct Ca as (Cd & Ce & Cs & Cm). rewrite Cm, Cs, Pa in Pl, Sl.
  set (k := allowance (progress ts) (max_steps_per_epoch ts) (max_steps ts)
              (length (dataloader ts))) in *.
  exists w', ts'. split; [exact Hok|]. split; [exact HI'|]. split; [exact E'|].
  split; [|split].
  - eapply same_config_trans; [|eapply same_config_trans; [exact Cb | exact C']].
    unfold same_config. auto.
  - rewrite P', Pl. reflexivity.
  - pose proof (summary_trans _ _ _ _ _ _ Sa (summary_trans _ _ _ _ _ _ Sl Sb)) as S.
    rewrite Pl in S. rewrite iter_increment_step in S. simpl in S.
    replace (Z.abs (num_steps_completed_in_epoch (progress ts) + Z.of_nat k
                    - num_steps_completed_in_epoch (progress ts)) >? 0)
      with (negb (Nat.eqb k 0)) in S; [exact S|].
    destruct k as [|k']; simpl Nat.eqb; simpl negb.
    + replace (_ + Z.of_nat 0 - _) with 0 by lia. reflexivity.
    + symmetry. apply Z.gtb_lt. lia.
Qed.
End QuietLimitedEpoch.

Lemma settled_at_entry w ts :
  train_state (state w) = Some ts -> should_stop (state w) = false ->
  settled ts (bool_decide (is_Some (eval_state (state w)))) w.
Proof.
  intros E Hs. split; [exact Hs|]. split; [exists ts; split; [exact E|apply same_config_refl]|].
  case_bool_decide as H; [exact H|].
  destruct (eval_state (state w)); [exfalso; apply H; eauto | reflexivity].
Qed.

(** X7. Let the step take batches, let no user code raise or stop, and let
    the evaluation pass return without stopping. One call of the epoch
    routine then returns normally after calling [train_step] on the first
    [k] batches of the dataloader, in order, where [k] is the smallest of
    the number of batches, what [max_steps_per_epoch] leaves after the
    steps already completed in the epoch, and what [max_steps] leaves after
    the steps completed so far. It adds [k] to [num_steps_completed] and 1
    to [num_epochs_completed], resets the in-epoch count, and logs the
    empty-epoch warning exactly when [k = 0]. In particular a resumed epoch
    starts again at the first batch of the dataloader. Here
    [_is_epoch_done] is the predicate of utils.py as the spec describes
    it. *)
Theorem undisturbed_epoch_stops_at_the_step_limits
    (ev : TrainUnit -> list Callback -> M unit) (fuel : nat) (u : TrainUnit)
    (callbacks : list Callback) (w : World) (ts : PhaseState) :
  evaluate_frame ev ->
  evaluate_quiet ev u callbacks ->
  quiet_unit u ->
  quiet_callbacks callbacks ->
  train_step_requires_iterator u = false ->
  train_state (state w) = Some ts ->
  should_stop (state w) = false ->
  (length (dataloader ts) < fuel)%nat ->
  let k := allowance (progress ts) (max_steps_per_epoch ts) (max_steps ts)
             (length (dataloader ts)) in
  exists w' ts',
    _train_epoch_impl ev fuel u callbacks w = Ok w' tt
    /\ train_state (state w') = Some ts'
    /\ List.filter is_train_step (new_events w w')
       = map (fun b => EvTrainStep (InBatch b)) (take k (dataloader ts))
    /\ num_steps_completed (progress ts')
       = num_steps_completed (progress ts) + Z.of_nat k
    /\ num_epochs_completed (progress ts') = num_epochs_completed (progress ts) + 1
    /\ num_steps_completed_in_epoch (progress ts') = 0
    /\ List.filter (is_log NoStepsCompleted) (new_events w w')
       = if Nat.eqb k 0 then [EvLog NoStepsCompleted] else [].
Proof.
  intros Hev Hq Hu Hc Hbatch E Hs Hlen k.
  destruct (quiet_epoch_effect ev Hev u callbacks Hu Hc Hq Hbatch ts _ fuel Hlen w ts
              (settled_at_entry w ts E Hs) E)
    as (w' & ts' & Hok & _ & E' & _ & P' & S).
  fold k in P', S. rewrite iter_increment_step in P'.
  exists w', ts'. split; [exact Hok|]. split; [exact E'|].
  rewrite P'. simpl. split; [|split; [reflexivity|split; [reflexivity|split;
    [reflexivity|]]]].
  - apply summary_new_events.
    apply (summary_refine is_train_step _ _ _ _ train_step_is_train_event) in S.
    rewrite !List.filter_app in S.
    rewrite filter_epoch_start_calls, filter_epoch_end_calls in S by reflexivity.
    rewrite filter_train_step_loop_calls in S.
    destruct S as (evs & Ht & Hf). exists evs. split; [exact Ht|].
    rewrite Hf.
    replace (map (fun b => EvTrainStep (InBatch b)) (take k (dataloader ts)))
      with ([] ++ map (fun b => EvTrainStep (InBatch b)) (take k (dataloader ts)) ++ [])
      at 2 by (simpl; apply app_nil_r).
    f_equal.
    + destruct (_ =? 0); reflexivity.
    + f_equal. rewrite !List.filter_app.
      destruct (negb _), (is_due _ _); reflexivity.
  - apply summary_new_events.
    apply (summary_refine (is_log NoStepsCompleted)) in S;
      [|intros e; apply log_is_train_event; discriminate].
    rewrite !List.filter_app in S.
    rewrite filter_epoch_start_calls, filter_epoch_end_calls in S by reflexivity.
    rewrite filter_log_loop_calls in S.
    destruct S as (evs & Ht & Hf). exists evs. split; [exact Ht|].
    rewrite Hf.
    destruct (_ =? 0), (Nat.eqb k 0); simpl; rewrite ?List.filter_app;
      repeat match goal with
             | |- context [if ?c then _ else _] => destruct c
             end; reflexivity.
Qed.

Lemma undisturbed_epoch_stops_at_the_step_limits_witness :
  exists w' ts',
    _train_epoch_impl evaluate_pass 6 calm_unit [observer]
      (limited_world [1; 2; 3; 4; 5]%nat (mkProgress 0 1 1) None (Some 10) (Some 3))
    = Ok w' tt
    /\ train_state (state w') = Some ts'
    /\ List.filter is_train_step
         (new_events
            (limited_world [1; 2; 3; 4; 5]%nat (mkProgress 0 1 1) None (Some 10) (Some 3))
            w')
       = map (fun b => EvTrainStep (InBatch b)) (take 2 [1; 2; 3; 4; 5]%nat)
    /\ num_steps_completed (progress ts') = 1 + Z.of_nat 2
    /\ num_epochs_completed (progress ts') = 0 + 1
    /\ num_steps_completed_in_epoch (progress ts') = 0
    /\ List.filter (is_log NoStepsCompleted)
         (new_events
            (limited_world [1; 2; 3; 4; 5]%nat (mkProgress 0 1 1) None (Some 10) (Some 3))
            w')
       = [].
Proof.
  apply (undisturbed_epoch_stops_at_the_step_limits evaluate_pass 6 calm_unit [observer]
           (limited_world [1; 2; 3; 4; 5]%nat (mkProgress 0 1 1) None (Some 10) (Some 3))
           (mkPhaseState [1; 2; 3; 4; 5]%nat (mkProgress 0 1 1) None (Some 10) (Some 3)
              None None None)).
  - exact evaluate_pass_frame.
  - apply evaluate_pass_quiet; [exact calm_unit_quiet | apply observers_quiet; known_callbacks].
  - exact calm_unit_quiet.
  - apply observers_quiet. known_callbacks.
  - reflexivity.
  - reflexivity.
  - reflexivity.
  - simpl. lia.
Defined.

(** ** Undisturbed train runs: how many epochs *)

Lemma quiet_run_hook e0 f w :
  (forall w0, f w0 = quiet) -> run_hook e0 f w = Ok (add_event e0 w) tt.
Proof. intros Hq. unfold run_hook. rewrite Hq. reflexivity. Qed.

Lemma quiet_run_callbacks_from callbacks h :
  quiet_callbacks callbacks ->
  forall i w,
    run_callbacks_from i callbacks h w
    = Ok (mkWorld (state w) (modules w) (trace w ++ callback_events i callbacks h)) tt.
Proof.
  induction callbacks as [|cb rest IH]; intros Hq i w; simpl.
  - rewrite app_nil_r. destruct w. reflexivity.
  - assert (Hrest : quiet_callbacks rest)
      by (intros cb0 h0 f w0 Hin; apply Hq; right; exact Hin).
    destruct (cb h) as [f|] eqn:E; [|apply IH, Hrest].
    unfold bind. rewrite quiet_run_hook by (intros w0; eapply Hq; [left | exact E]).
    rewrite (IH Hrest). simpl. rewrite <- app_assoc. reflexivity.
Qed.

Lemma quiet_hook_pair u callbacks h w :
  quiet_unit u -> quiet_callbacks callbacks ->
  (let* _ := run_unit_hook u h in _run_callback_fn callbacks h) w
  = Ok (mkWorld (state w) (modules w)
          (trace w ++ EvUnit h :: callback_events 0 callbacks h)) tt.
Proof.
  intros Hu Hc. unfold bind, run_unit_hook, _run_callback_fn.
  rewrite quiet_run_hook by (intros w0; apply Hu).
  rewrite (quiet_run_callbacks_from callbacks h Hc). simpl.
  rewrite <- app_assoc. reflexivity.
Qed.

Lemma filter_train_step_callback_events h callbacks i :
  List.filter is_train_step (callback_events i callbacks h) = [].
Proof. apply filter_callback_events_none. reflexivity. Qed.

Lemma summary_hook_pair h callbacks w :
  summary is_train_step []
    w (mkWorld (state w) (modules w)
         (trace w ++ EvUnit h :: callback_events 0 callbacks h)).
Proof.
  eexists. split; [reflexivity|]. simpl. apply filter_train_step_callback_events.
Qed.

(** [n] epochs of [per_epoch] steps each, from progress [p]. *)
Lemma epochs_done_iff (p : Progress) (me : Z) :
  _is_done p (Some me) None = true <-> Z.to_nat (me - num_epochs_completed p) = 0%nat.
Proof.
  unfold _is_done. simpl. rewrite Z.leb_le. lia.
Qed.

Section QuietEpochs.
Context (ev : TrainUnit -> list Callback -> M unit) (Hev : evaluate_frame ev).
Context (u : TrainUnit) (callbacks : list Callback).
Hypothesis Hu : quiet_unit u.
Hypothesis Hc : quiet_callbacks callbacks.
Hypothesis Hq : evaluate_quiet ev u callbacks.
Hypothesis Hbatch : train_step_requires_iterator u = false.
Context (cfg : PhaseState) (has_eval : bool) (fuel_steps : nat).
Hypothesis Hfuel : (length (dataloader cfg) < fuel_steps)%nat.

Lemma quiet_epoch_steps w ts :
  settled cfg has_eval w ->
  train_state (state w) = Some ts ->
  exists w' ts',
    _train_epoch_impl ev fuel_steps u callbacks w = Ok w' tt
    /\ settled cfg has_eval w'
    /\ train_state (state w') = Some ts'
    /\ same_config ts ts'
    /\ progress ts'
       = increment_epoch
           (Nat.iter (allowance (progress ts) (max_steps_per_epoch ts) (max_steps ts)
                        (length (dataloader ts)))
                     increment_step (progress ts))
    /\ summary is_train_step
         (map (fun b => EvTrainStep (InBatch b))
            (take (allowance (progress ts) (max_steps_per_epoch ts) (max_steps ts)
                     (length (dataloader ts))) (dataloader ts))) w w'.
Proof.
  intros HI E.
  destruct (quiet_epoch_effect ev Hev u callbacks Hu Hc Hq Hbatch cfg has_eval
              fuel_steps Hfuel w ts HI E)
    as (w' & ts' & Hok & HI' & E' & C' & P' & S).
  exists w', ts'. repeat (split; [assumption|]).
  apply (summary_refine is_train_step _ _ _ _ train_step_is_train_event) in S.
  rewrite !List.filter_app in S.
  rewrite filter_epoch_start_calls, filter_epoch_end_calls in S by reflexivity.
  rewrite filter_train_step_loop_calls in S.
  destruct S as (evs & Ht & Hf). exists evs. split; [exact Ht|].
  rewrite Hf.
  match goal with
  | |- _ = ?l => replace l with ([] ++ l ++ []) at 2 by (simpl; apply app_nil_r)
  end.
  f_equal.
  - destruct (_ =? 0); reflexivity.
  - f_equal. rewrite !List.filter_app. destruct (negb _), (is_due _ _); reflexivity.
Qed.

(** One undisturbed epoch logs its start once. *)
Lemma quiet_epoch_logs_start w ts :
  settled cfg has_eval w ->
  train_state (state w) = Some ts ->
  exists w' ts',
    _train_epoch_impl ev fuel_steps u callbacks w = Ok w' tt
    /\ settled cfg has_eval w'
    /\ train_state (state w') = Some ts'
    /\ same_config ts ts'
    /\ num_epochs_completed (progress ts') = num_epochs_completed (progress ts) + 1
    /\ num_steps_completed_in_epoch (progress ts') = 0
    /\ summary (is_log StartedTrainEpoch) [EvLog StartedTrainEpoch] w w'.
Proof.
  intros HI E.
  destruct (quiet_epoch_effect ev Hev u callbacks Hu Hc Hq Hbatch cfg has_eval
              fuel_steps Hfuel w ts HI E)
    as (w' & ts' & Hok & HI' & E' & C' & P' & S).
  exists w', ts'. repeat (split; [assumption|]).
  rewrite P', iter_increment_step. simpl. split; [reflexivity|]. split; [reflexivity|].
  apply (summary_refine (is_log StartedTrainEpoch) _ _ _ _
           (fun e => log_is_train_event StartedTrainEpoch e ltac:(congruence))) in S.
  rewrite !List.filter_app in S.
  rewrite filter_epoch_start_calls, filter_epoch_end_calls in S by reflexivity.
  rewrite filter_log_loop_calls in S.
  destruct S as (evs & Ht & Hf). exists evs. split; [exact Ht|].
  rewrite Hf. rewrite !List.filter_app.
  destruct (_ =? 0), (negb _), (is_due _ _); reflexivity.
Qed.

(** With [max_epochs] as the only limit in the way, the epoch loop runs
    the remaining epochs. *)
Lemma quiet_train_epoch_loop me r : forall fuel_epochs w ts,
  settled cfg has_eval w ->
  train_state (state w) = Some ts ->
  max_steps ts = None ->
  max_epochs ts = Some me ->
  num_steps_completed_in_epoch (progress ts) = 0 ->
  Z.to_nat (me - num_epochs_completed (progress ts)) = r ->
  (r < fuel_epochs)%nat ->
  exists w' ts',
    train_epoch_loop ev fuel_epochs fuel_steps u callbacks w = Ok w' tt
    /\ settled cfg has_eval w'
    /\ train_state (state w') = Some ts'
    /\ num_epochs_completed (progress ts')
       = num_epochs_completed (progress ts) + Z.of_nat r
    /\ num_steps_completed_in_epoch (progress ts') = 0
    /\ summary (is_log StartedTrainEpoch) (replicate r (EvLog StartedTrainEpoch)) w w'.
Proof.
  induction r as [|r IH]; intros fuel_epochs w ts HI E Hms Hme Hin Hr Hlt;
    (destruct fuel_epochs as [|fuel_epochs]; [lia|]);
    pose proof HI as (Hs & _ & _);
    rewrite (train_epoch_loop_unfold ev u callbacks _ _ _ _ E), Hs, Hme, Hms; simpl orb.
  - rewrite (proj2 (epochs_done_iff _ _) Hr).
    exists w, ts. split; [reflexivity|]. split; [exact HI|]. split; [exact E|].
    split; [simpl; lia|]. split; [exact Hin | apply summary_refl].
  - assert (Hnd : _is_done (progress ts) (Some me) None = false).
    { destruct (_is_done (progress ts) (Some me) None) eqn:Hd; [|reflexivity].
      apply epochs_done_iff in Hd. lia. }
    rewrite Hnd.
    destruct (quiet_epoch_logs_start w ts HI E)
      as (w1 & ts1 & Hok & HI1 & E1 & C1 & Pe1 & Pi1 & S1).
    unfold bind at 1. rewrite Hok.
    destruct C1 as (Cd & Ce & Cs & Cm).
    destruct (IH fuel_epochs w1 ts1 HI1 E1 ltac:(congruence) ltac:(congruence)
                Pi1 ltac:(rewrite Pe1; lia) ltac:(lia))
      as (w' & ts' & Hl & HI' & E' & Pe' & Pi' & S').
    exists w', ts'. split; [exact Hl|]. split; [exact HI'|]. split; [exact E'|].
    split; [rewrite Pe', Pe1; lia|]. split; [exact Pi'|].
    exact (summary_trans _ _ _ _ _ _ S1 S').
Qed.

(** Without [max_epochs], and with [max_steps] absent or out of reach
    because the dataloader is empty, the epoch loop does not end. *)
Lemma quiet_train_epoch_loop_diverges : forall fuel_epochs w ts,
  settled cfg has_eval w ->
  train_state (state w) = Some ts ->
  max_epochs ts = None ->
  (max_steps ts = None
   \/ (dataloader ts = []
       /\ exists m, max_steps ts = Some m /\ num_steps_completed (progress ts) < m)) ->
  train_epoch_loop ev fuel_epochs fuel_steps u callbacks w = OutOfFuel.
Proof.
  induction fuel_epochs as [|fuel_epochs IH]; intros w ts HI E Hme Hms; [reflexivity|].
  pose proof HI as (Hs & _ & _).
  rewrite (train_epoch_loop_unfold ev u callbacks _ _ _ _ E), Hs, Hme. simpl orb.
  assert (Hnd : _is_done (progress ts) None (max_steps ts) = false).
  { unfold _is_done. simpl. rewrite orb_false_r.
    destruct Hms as [->|(_ & m & -> & Hlt)]; [reflexivity|].
    simpl. apply Z.leb_gt. exact Hlt. }
  rewrite Hnd.
  destruct (quiet_epoch_steps w ts HI E)
    as (w1 & ts1 & Hok & HI1 & E1 & C1 & P1 & _).
  unfold bind at 1. rewrite Hok.
  destruct C1 as (Cd & Ce & Cs & Cm).
  apply (IH w1 ts1 HI1 E1); [congruence|].
  destruct Hms as [Hn|(Hd & m & Hm & Hlt)]; [left; congruence|].
  right. split; [congruence|]. exists m. split; [congruence|].
  rewrite P1, iter_increment_step, Hd. simpl length.
  rewrite allowance_nothing. simpl. lia.
Qed.
End QuietEpochs.

Lemma quiet_run_callback_fn callbacks h w :
  quiet_callbacks callbacks ->
  _run_callback_fn callbacks h w = Ok (after_callbacks callbacks h w) tt.
Proof. intros Hc. apply quiet_run_callbacks_from, Hc. Qed.

Lemma quiet_run_unit_hook u h w :
  quiet_unit u -> run_unit_hook u h w = Ok (add_event (EvUnit h) w) tt.
Proof. intros Hu. apply quiet_run_hook. intros w0. apply Hu. Qed.

Section QuietTrain.
Context (ev : TrainUnit -> list Callback -> M unit).
Context (u : TrainUnit) (callbacks : list Callback).
Hypothesis Hu : quiet_unit u.
Hypothesis Hc : quiet_callbacks callbacks.

Lemma quiet_train_impl fuel_epochs fuel_steps w ts :
  train_state (state w) = Some ts ->
  _train_impl ev fuel_epochs fuel_steps u callbacks (upd_state (set_entry_point TRAIN) w)
  = match train_epoch_loop ev fuel_epochs fuel_steps u callbacks (train_entry callbacks w)
    with
    | Ok w5 _ =>
        Ok (set_modules
              (restrict (dom (modules w)) (restrict (dom (modules w)) (modules w))
                 ∪ modules w5)
              (after_callbacks callbacks on_train_end
                 (add_event (EvUnit on_train_end) w5))) tt
    | Raise w5 e => Raise w5 e
    | OutOfFuel => OutOfFuel
    end.
Proof.
  intros E. unfold _train_impl.
  repeat (erewrite bind_Ok
            by first [ reflexivity
                     | unfold get_train_state; simpl; rewrite E; reflexivity
                     | apply quiet_run_unit_hook, Hu
                     | apply quiet_run_callback_fn, Hc ]).
  unfold bind at 1.
  change (train_epoch_loop ev fuel_epochs fuel_steps u callbacks _)
    with (train_epoch_loop ev fuel_epochs fuel_steps u callbacks (train_entry callbacks w)).
  destruct (train_epoch_loop ev fuel_epochs fuel_steps u callbacks
              (train_entry callbacks w)) as [w5 []|w5 e|]; [|reflexivity..].
  repeat (erewrite bind_Ok
            by first [ reflexivity
                     | apply quiet_run_unit_hook, Hu
                     | apply quiet_run_callback_fn, Hc ]).
  reflexivity.
Qed.

Lemma quiet_train_body fuel_epochs fuel_steps w ts :
  train_state (state w) = Some ts ->
  train_body ev fuel_epochs fuel_steps u callbacks w
  = match train_epoch_loop ev fuel_epochs fuel_steps u callbacks (train_entry callbacks w)
    with
    | Ok w5 _ => Ok (train_exit callbacks w w5) tt
    | Raise w5 e => Raise w5 e
    | OutOfFuel => OutOfFuel
    end.
Proof.
  intros E. unfold train_body. unfold bind at 1. unfold modify at 1.
  unfold bind at 1. rewrite (quiet_train_impl fuel_epochs fuel_steps w ts E).
  destruct (train_epoch_loop ev fuel_epochs fuel_steps u callbacks
              (train_entry callbacks w)) as [w5 []|w5 e|]; reflexivity.
Qed.

Lemma summary_train_entry w : summary is_train_step [] w (train_entry callbacks w).
Proof.
  eexists (([EvLog StartedTrain] ++ [EvUnit on_train_start])
           ++ callback_events 0 callbacks on_train_start).
  split.
  - unfold train_entry, after_callbacks. simpl. rewrite <- !app_assoc. reflexivity.
  - rewrite List.filter_app. simpl. apply filter_train_step_callback_events.
Qed.

Lemma summary_train_exit w w5 :
  summary is_train_step [] w5 (train_exit callbacks w w5).
Proof.
  eexists (([EvUnit on_train_end] ++ callback_events 0 callbacks on_train_end)
           ++ [EvLog FinishedTrain]).
  split.
  - unfold train_exit, after_callbacks. simpl. rewrite <- !app_assoc. reflexivity.
  - rewrite !List.filter_app. simpl. rewrite filter_train_step_callback_events.
    reflexivity.
Qed.

Lemma summary_log_train_entry w :
  summary (is_log StartedTrainEpoch) [] w (train_entry callbacks w).
Proof.
  eexists (([EvLog StartedTrain] ++ [EvUnit on_train_start])
           ++ callback_events 0 callbacks on_train_start).
  split.
  - unfold train_entry, after_callbacks. simpl. rewrite <- !app_assoc. reflexivity.
  - rewrite List.filter_app. simpl. apply filter_callback_events_none. reflexivity.
Qed.

Lemma summary_log_train_exit w w5 :
  summary (is_log StartedTrainEpoch) [] w5 (train_exit callbacks w w5).
Proof.
  eexists (([EvUnit on_train_end] ++ callback_events 0 callbacks on_train_end)
           ++ [EvLog FinishedTrain]).
  split.
  - unfold train_exit, after_callbacks. simpl. rewrite <- !app_assoc. reflexivity.
  - rewrite !List.filter_app. simpl.
    rewrite (filter_callback_events_none (is_log StartedTrainEpoch)) by reflexivity.
    reflexivity.
Qed.

Lemma settled_train_entry cfg has_eval w :
  settled cfg has_eval w -> settled cfg has_eval (train_entry callbacks w).
Proof. intros (Hs & Ht & He). split; [exact Hs|]. split; assumption. Qed.
End QuietTrain.

(** X12. Let the step take batches, let no user code raise or stop, and
    let the evaluation pass return without stopping. With [max_steps]
    unset, [max_epochs] set and a fresh epoch at entry, [train] returns
    normally after exactly the epochs that are left (none when
    [max_epochs] is reached already): it logs that many epoch starts, and
    at exit [num_epochs_completed] has grown by that number and no step
    is counted in the current epoch. Nothing is said about the batches of
    these epochs. Here [_is_done] and [_is_epoch_done] are the predicates
    of utils.py as the spec describes them. *)
Theorem train_runs_the_remaining_epochs
    (ev : TrainUnit -> list Callback -> M unit) (fuel_epochs fuel_steps : nat)
    (u : TrainUnit) (callbacks : option (list Callback)) (w : World)
    (ts : PhaseState) (me : Z) :
  evaluate_frame ev ->
  evaluate_quiet ev u (default [] callbacks) ->
  quiet_unit u ->
  quiet_callbacks (default [] callbacks) ->
  train_step_requires_iterator u = false ->
  train_state (state w) = Some ts ->
  should_stop (state w) = false ->
  max_steps ts = None ->
  max_epochs ts = Some me ->
  num_steps_completed_in_epoch (progress ts) = 0 ->
  (length (dataloader ts) < fuel_steps)%nat ->
  (Z.to_nat (me - num_epochs_completed (progress ts)) < fuel_epochs)%nat ->
  let r := Z.to_nat (me - num_epochs_completed (progress ts)) in
  exists w' ts',
    train ev fuel_epochs fuel_steps u callbacks w = Ok w' tt
    /\ train_state (state w') = Some ts'
    /\ num_epochs_completed (progress ts') = num_epochs_completed (progress ts) + Z.of_nat r
    /\ num_steps_completed_in_epoch (progress ts') = 0
    /\ List.filter (is_log StartedTrainEpoch) (new_events w w')
       = replicate r (EvLog StartedTrainEpoch).
Proof.
  intros Hev Hq Hu Hc Hbatch E Hs Hms Hme Hin Hfs Hfe r.
  pose proof (settled_train_entry (default [] callbacks) ts _ w
                (settled_at_entry w ts E Hs)) as HI.
  destruct (quiet_train_epoch_loop ev Hev u (default [] callbacks) Hu Hc Hq Hbatch ts _
              fuel_steps Hfs me r fuel_epochs (train_entry (default [] callbacks) w) ts
              HI E Hms Hme Hin eq_refl Hfe)
    as (w5 & ts5 & Hl & _ & E5 & Pe5 & Pi5 & S5).
  exists (train_exit (default [] callbacks) w w5), ts5.
  split; [|split; [exact E5|]].
  - unfold train, try_except.
    rewrite (quiet_train_body ev u (default [] callbacks) Hu Hc _ _ w ts E), Hl.
    reflexivity.
  - split; [exact Pe5|]. split; [exact Pi5|].
    apply summary_new_events.
    pose proof (summary_trans _ _ _ _ _ _ (summary_log_train_entry (default [] callbacks) w)
                  (summary_trans _ _ _ _ _ _ S5
                     (summary_log_train_exit (default [] callbacks) w w5))) as S.
    rewrite app_nil_l, app_nil_r in S. exact S.
Qed.

Lemma train_runs_the_remaining_epochs_witness :
  exists w' ts',
    train evaluate_pass 4 5 calm_unit (Some [observer])
      (limited_world [1; 2; 3]%nat (mkProgress 1 3 0) (Some 3) None (Some 2))
    = Ok w' tt
    /\ train_state (state w') = Some ts'
    /\ num_epochs_completed (progress ts') = 1 + Z.of_nat 2
    /\ num_steps_completed_in_epoch (progress ts') = 0
    /\ List.filter (is_log StartedTrainEpoch)
         (new_events
            (limited_world [1; 2; 3]%nat (mkProgress 1 3 0) (Some 3) None (Some 2)) w')
       = replicate 2 (EvLog StartedTrainEpoch).
Proof.
  apply (train_runs_the_remaining_epochs evaluate_pass 4 5 calm_unit (Some [observer])
           (limited_world [1; 2; 3]%nat (mkProgress 1 3 0) (Some 3) None (Some 2))
           (mkPhaseState [1; 2; 3]%nat (mkProgress 1 3 0) (Some 3) None (Some 2)
              None None None) 3).
  - exact evaluate_pass_frame.
  - apply evaluate_pass_quiet; [exact calm_unit_quiet | apply observers_quiet; known_callbacks].
  - exact calm_unit_quiet.
  - apply observers_quiet. known_callbacks.
  - reflexivity.
  - reflexivity.
  - reflexivity.
  - reflexivity.
  - reflexivity.
  - reflexivity.
  - simpl. lia.
  - simpl. lia.
Defined.

(** X13. Let the step take batches, let no user code raise or stop, and
    let the evaluation pass return without stopping. When [max_epochs] is
    unset and [max_steps] is unset too, or is set but not reached while the
    dataloader is empty, [train] does not end: whatever the bound on the
    number of epochs, the run goes beyond it. *)
Theorem train_without_reachable_limit_never_ends
    (ev : TrainUnit -> list Callback -> M unit) (fuel_steps : nat)
    (u : TrainUnit) (callbacks : option (list Callback)) (w : World) (ts : PhaseState) :
  evaluate_frame ev ->
  evaluate_quiet ev u (default [] callbacks) ->
  quiet_unit u ->
  quiet_callbacks (default [] callbacks) ->
  train_step_requires_iterator u = false ->
  train_state (state w) = Some ts ->
  should_stop (state w) = false ->
  max_epochs ts = None ->
  (max_steps ts = None
   \/ (dataloader ts = []
       /\ exists m, max_steps ts = Some m /\ num_steps_completed (progress ts) < m)) ->
  (length (dataloader ts) < fuel_steps)%nat ->
  forall fuel_epochs, train ev fuel_epochs fuel_steps u callbacks w = OutOfFuel.
Proof.
  intros Hev Hq Hu Hc Hbatch E Hs Hme Hms Hfs fuel_epochs.
  pose proof (settled_train_entry (default [] callbacks) ts _ w
                (settled_at_entry w ts E Hs)) as HI.
  unfold train, try_except.
  rewrite (quiet_train_body ev u (default [] callbacks) Hu Hc _ _ w ts E).
  rewrite (quiet_train_epoch_loop_diverges ev Hev u (default [] callbacks) Hu Hc Hq Hbatch
             ts _ fuel_steps Hfs fuel_epochs (train_entry (default [] callbacks) w) ts
             HI E Hme Hms).
  reflexivity.
Qed.

Lemma train_without_reachable_limit_never_ends_witness :
  train evaluate_pass 7 1 calm_unit (Some [observer])
    (limited_world [] Progress_init None (Some 10) None)
  = OutOfFuel.
Proof.
  apply (train_without_reachable_limit_never_ends evaluate_pass 1 calm_unit
           (Some [observer]) (limited_world [] Progress_init None (Some 10) None)
           (mkPhaseState [] Progress_init None (Some 10) None None None None)).
  - exact evaluate_pass_frame.
  - apply evaluate_pass_quiet; [exact calm_unit_quiet | apply observers_quiet; known_callbacks].
  - exact calm_unit_quiet.
  - apply observers_quiet. known_callbacks.
  - reflexivity.
  - reflexivity.
  - reflexivity.
  - reflexivity.
  - right. split; [reflexivity|]. exists 10. split; [reflexivity | simpl; lia].
  - simpl. lia.
Defined.

(** ** The single-epoch entry point *)

Lemma train_epoch_impl_restores ev fuel u callbacks w w' a :
  _train_epoch_impl ev fuel u callbacks w = Ok w' a ->
  forall name, name ∈ dom (modules w) -> modules w' !! name = modules w !! name.
Proof.
  intros H name Hin. unfold _train_epoch_impl in H. inv_ok H.
  apply emit_Ok in Hop as ->. apply modify_Ok in Hop0 as ->.
  injection Hop1 as <- <-. injection Hop2 as <- <-.
  apply modify_Ok in Hop15 as ->. apply emit_Ok in H as ->. simpl.
  apply reset_restores. exact Hin.
Qed.

Lemma train_epoch_body_Ok ev fuel u callbacks w w' a :
  train_epoch_body ev fuel u callbacks w = Ok w' a ->
  exists w3,
    _train_epoch_impl ev fuel u callbacks
      (add_event (EvLog StartedTrainEpochEntry) (upd_state (set_entry_point TRAIN) w))
    = Ok w3 tt
    /\ w' = add_event (EvLog FinishedTrain) w3.
Proof.
  intros H. unfold train_epoch_body in H.
  apply bind_Ok_inv in H as (w1 & ts & H1 & H).
  apply get_train_state_Ok in H1 as [-> _].
  destruct (negb _); [discriminate|].
  apply bind_Ok_inv in H as (w2 & [] & H2 & H). apply modify_Ok in H2 as ->.
  apply bind_Ok_inv in H as (w3 & [] & H3 & H). apply emit_Ok in H3 as ->.
  apply bind_Ok_inv in H as (w4 & [] & H4 & H). apply emit_Ok in H as ->.
  exists w4. split; [exact H4 | reflexivity].
Qed.

(** X15. A [train_epoch] call that returns normally leaves every tracked
    module with the training mode it had at entry, whatever the user code
    and the evaluation pass did to the modes in between. The mode helpers
    of utils.py are as the spec describes them. *)
Theorem train_epoch_restores_module_modes_on_normal_exit
    (ev : TrainUnit -> list Callback -> M unit) (fuel : nat) (u : TrainUnit)
    (callbacks : option (list Callback)) (w w' : World) :
  train_epoch ev fuel u callbacks w = Ok w' tt ->
  forall name, name ∈ dom (modules w) -> modules w' !! name = modules w !! name.
Proof.
  intros H name Hin. unfold train_epoch in H. apply try_except_handler_Ok in H.
  apply train_epoch_body_Ok in H as (w3 & H3 & ->). simpl.
  apply (train_epoch_impl_restores _ _ _ _ _ _ _ H3). exact Hin.
Qed.

Lemma train_epoch_restores_module_modes_on_normal_exit_witness :
  modules (world_after (train_epoch evaluate_pass 3 calm_unit (Some [observer])
                          one_epoch_world) one_epoch_world) !! "encoder"
  = modules one_epoch_world !! "encoder".
Proof.
  apply (train_epoch_restores_module_modes_on_normal_exit evaluate_pass 3 calm_unit
           (Some [observer]) one_epoch_world).
  - vm_compute. reflexivity.
  - apply elem_of_dom. vm_compute. eauto.
Defined.

(** X14. Let the step take batches, let no user code raise or stop, and
    let the evaluation pass return without stopping. Given a train
    PhaseState with [max_epochs = 1], [train_epoch] returns normally after
    one epoch, whatever [num_epochs_completed] was: it never consults
    [max_epochs] again, so a second call runs a second epoch. It calls
    [train_step] on the first [k] batches ([k] as the step limits allow),
    adds [k] to [num_steps_completed] and 1 to [num_epochs_completed]. *)
Theorem train_epoch_runs_one_more_epoch
    (ev : TrainUnit -> list Callback -> M unit) (fuel : nat) (u : TrainUnit)
    (callbacks : option (list Callback)) (w : World) (ts : PhaseState) :
  evaluate_frame ev ->
  evaluate_quiet ev u (default [] callbacks) ->
  quiet_unit u ->
  quiet_callbacks (default [] callbacks) ->
  train_step_requires_iterator u = false ->
  train_state (state w) = Some ts ->
  should_stop (state w) = false ->
  max_epochs ts = Some 1 ->
  (length (dataloader ts) < fuel)%nat ->
  let k := allowance (progress ts) (max_steps_per_epoch ts) (max_steps ts)
             (length (dataloader ts)) in
  exists w' ts',
    train_epoch ev fuel u callbacks w = Ok w' tt
    /\ train_state (state w') = Some ts'
    /\ num_epochs_completed (progress ts') = num_epochs_completed (progress ts) + 1
    /\ num_steps_completed (progress ts')
       = num_steps_completed (progress ts) + Z.of_nat k
    /\ num_steps_completed_in_epoch (progress ts') = 0
    /\ List.filter is_train_step (new_events w w')
       = map (fun b => EvTrainStep (InBatch b)) (take k (dataloader ts)).
Proof.
  intros Hev Hq Hu Hc Hbatch E Hs Hme Hlen k.
  set (w2 := add_event (EvLog StartedTrainEpochEntry)
               (upd_state (set_entry_point TRAIN) w)).
  assert (HI : settled ts (bool_decide (is_Some (eval_state (state w)))) w2).
  { destruct (settled_at_entry w ts E Hs) as (H1 & H2 & H3).
    split; [exact H1|]. split; assumption. }
  destruct (quiet_epoch_steps ev Hev u (default [] callbacks) Hu Hc Hq Hbatch ts _ fuel
              Hlen w2 ts HI E)
    as (w3 & ts3 & Hok & _ & E3 & _ & P3 & S3).
  fold k in P3, S3. rewrite iter_increment_step in P3.
  assert (Hrun : train_epoch ev fuel u callbacks w
                 = Ok (add_event (EvLog FinishedTrain) w3) tt).
  { assert (Hb : train_epoch_body ev fuel u (default [] callbacks) w
                 = Ok (add_event (EvLog FinishedTrain) w3) tt).
    { unfold train_epoch_body.
      erewrite bind_Ok by (unfold get_train_state; rewrite E; reflexivity).
      rewrite Hme, bool_decide_eq_true_2 by reflexivity.
      change (negb true) with false. cbv iota.
      do 2 (erewrite bind_Ok by reflexivity).
      erewrite bind_Ok by exact Hok. reflexivity. }
    unfold train_epoch, try_except. rewrite Hb. reflexivity. }
  exists (add_event (EvLog FinishedTrain) w3), ts3.
  split; [exact Hrun|]. split; [exact E3|].
  rewrite P3. simpl. split; [reflexivity|]. split; [reflexivity|]. split; [reflexivity|].
  apply summary_new_events.
  assert (S2 : summary is_train_step [] w w2)
    by (exists [EvLog StartedTrainEpochEntry]; split; reflexivity).
  assert (S4 : summary is_train_step [] w3 (add_event (EvLog FinishedTrain) w3))
    by (exists [EvLog FinishedTrain]; split; reflexivity).
  pose proof (summary_trans _ _ _ _ _ _ S2 (summary_trans _ _ _ _ _ _ S3 S4)) as S.
  rewrite app_nil_l, app_nil_r in S. exact S.
Qed.

Lemma train_epoch_runs_one_more_epoch_witness :
  exists w' ts',
    train_epoch evaluate_pass 3 calm_unit (Some [observer])
      (limited_world [1; 2]%nat (mkProgress 1 2 0) (Some 1) None None)
    = Ok w' tt
    /\ train_state (state w') = Some ts'
    /\ num_epochs_completed (progress ts') = 1 + 1
    /\ num_steps_completed (progress ts') = 2 + Z.of_nat 2
    /\ num_steps_completed_in_epoch (progress ts') = 0
    /\ List.filter is_train_step
         (new_events (limited_world [1; 2]%nat (mkProgress 1 2 0) (Some 1) None None) w')
       = map (fun b => EvTrainStep (InBatch b)) (take 2 [1; 2]%nat).
Proof.
  apply (train_epoch_runs_one_more_epoch evaluate_pass 3 calm_unit (Some [observer])
           (limited_world [1; 2]%nat (mkProgress 1 2 0) (Some 1) None None)
           (mkPhaseState [1; 2]%nat (mkProgress 1 2 0) (Some 1) None None None None None)).
  - exact evaluate_pass_frame.
  - apply evaluate_pass_quiet; [exact calm_unit_quiet | apply observers_quiet; known_callbacks].
  - exact calm_unit_quiet.
  - apply observers_quiet. known_callbacks.
  - reflexivity.
  - reflexivity.
  - reflexivity.
  - reflexivity.
  - simpl. lia.
Defined.

(** ** The except block comes last *)

Section BodyEvents.
Context (ev : TrainUnit -> list Callback -> M unit) (Hev : evaluate_frame ev).
Context (u : TrainUnit) (callbacks : list Callback).

Lemma ensures_train_epoch_impl_body fuel :
  ensures (evolves any_progress body_event) (_train_epoch_impl ev fuel u callbacks).
Proof.
  unfold _train_epoch_impl. ens.
  eapply ensures_weaken; [|apply ensures_train_step_loop, Hev].
  intros w w'. apply evolves_weaken; [intros; exact I | event_cases].
Qed.

Lemma ensures_train_epoch_loop_body fuel_steps fuel_epochs :
  ensures (evolves any_progress body_event)
          (train_epoch_loop ev fuel_epochs fuel_steps u callbacks).
Proof.
  induction fuel_epochs as [|fuel IH]; simpl.
  - apply ensures_out_of_fuel.
  - apply ensures_bind; [apply _ | ens | intros w0].
    apply ensures_bind; [apply _ | ens | intros ts].
    destruct (_ || _); [ens|].
    apply ensures_bind; [apply _ | apply ensures_train_epoch_impl_body | intros _; apply IH].
Qed.

Lemma ensures_train_body_body fuel_epochs fuel_steps :
  ensures (evolves any_progress body_event)
          (train_body ev fuel_epochs fuel_steps u callbacks).
Proof.
  unfold train_body.
  apply ensures_bind; [apply _ | ens | intros _].
  apply ensures_bind; [apply _ | | intros _; ens].
  unfold _train_impl. ens. apply ensures_train_epoch_loop_body.
Qed.

Lemma ensures_train_epoch_body_body fuel :
  ensures (evolves any_progress body_event) (train_epoch_body ev fuel u callbacks).
Proof.
  unfold train_epoch_body.
  apply ensures_bind; [apply _ | ens | intros ts].
  destruct (negb _); [ens|].
  apply ensures_bind; [apply _ | ens | intros _].
  apply ensures_bind; [apply _ | ens | intros _].
  apply ensures_bind; [apply _ | apply ensures_train_epoch_impl_body | intros _; ens].
Qed.

Lemma exception_handler_events msg e w1 w' :
  final (exception_handler msg u callbacks e w1) = Some w' ->
  exists rest,
    trace w' = trace w1 ++ EvLog (msg e) :: EvUnit (on_exception e) :: rest
    /\ forallb exception_callback_event rest = true.
Proof.
  intros H. unfold exception_handler in H.
  unfold bind at 1, emit, modify in H. unfold bind at 1, run_unit_hook, run_hook in H.
  set (w2 := add_event (EvUnit (on_exception e)) (add_event (EvLog (msg e)) w1)) in *.
  assert (H3 : exists evs, trace (after_hook (unit_hook u (on_exception e) w2) w2)
                           = trace w2 ++ evs
                           /\ forallb exception_callback_event evs = true).
  { unfold after_hook. destruct (ho_stop _).
    - exists [EvLog ReceivedSignalToStop]. split; reflexivity.
    - exists []. split; [symmetry; apply app_nil_r | reflexivity]. }
  destruct H3 as (evs & Ht & Hall).
  assert (Hw2 : trace w2 = trace w1 ++ [EvLog (msg e); EvUnit (on_exception e)])
    by (unfold w2; simpl; rewrite <- app_assoc; reflexivity).
  destruct (ho_raise (unit_hook u (on_exception e) w2)).
  - injection H as <-. exists evs. rewrite Ht, Hw2, <- app_assoc. auto.
  - assert (Hk : ensures (evolves any_progress exception_callback_event)
                   (let* _ := _run_callback_fn callbacks (on_exception e) in
                    @raise unit e)) by ens.
    destruct (ev_trace _ _ _ _ (Hk _ _ H)) as (evs2 & Ht2 & Hall2).
    exists (evs ++ evs2). rewrite Ht2, Ht, Hw2, <- !app_assoc.
    split; [reflexivity|]. rewrite forallb_app, Hall, Hall2. reflexivity.
Qed.

Lemma guarded_history msg (body : M unit) w w' :
  ensures (evolves any_progress body_event) body ->
  final (try_except body is_Exception (exception_handler msg u callbacks) w) = Some w' ->
  exists before after,
    new_events w w' = before ++ after
    /\ forallb body_event before = true
    /\ (after = []
        \/ exists w1 e rest,
             body w = Raise w1 e /\ is_Exception e = true
             /\ after = EvLog (msg e) :: EvUnit (on_exception e) :: rest
             /\ forallb exception_callback_event rest = true).
Proof.
  intros Hb H. unfold try_except in H.
  destruct (body w) as [w1 a|w1 e|] eqn:E; [| |discriminate].
  - injection H as <-.
    destruct (ev_trace _ _ _ _ (Hb w w1 ltac:(rewrite E; reflexivity)))
      as (evs & Ht & Hall).
    exists evs, []. rewrite app_nil_r, (new_events_app _ _ _ Ht). auto.
  - destruct (ev_trace _ _ _ _ (Hb w w1 ltac:(rewrite E; reflexivity)))
      as (evs & Ht & Hall).
    destruct (is_Exception e) eqn:Hx.
    + destruct (exception_handler_events msg e w1 w' H) as (rest & Hr & Hall2).
      exists evs, (EvLog (msg e) :: EvUnit (on_exception e) :: rest).
      split; [|split; [exact Hall|]].
      * apply new_events_app. rewrite Hr, Ht, <- app_assoc. reflexivity.
      * right. exists w1, e, rest. auto.
    + injection H as <-. exists evs, [].
      rewrite app_nil_r, (new_events_app _ _ _ Ht). auto.
Qed.
End BodyEvents.



(** ** When train returns *)

Section TrainReturns.
Context (ev : TrainUnit -> list Callback -> M unit) (Hev : evaluate_frame ev).
Context (u : TrainUnit) (callbacks : list Callback).

(** The epoch loop returns only in a world in which its condition is
    false: the stop flag is up or the run is done. *)
Lemma train_epoch_loop_exit fuel_steps : forall fuel_epochs w w' a,
  train_epoch_loop ev fuel_epochs fuel_steps u callbacks w = Ok w' a ->
  exists ts',
    train_state (state w') = Some ts'
    /\ should_stop (state w')
       || _is_done (progress ts') (max_epochs ts') (max_steps ts') = true.
Proof.
  induction fuel_epochs as [|fuel_epochs IH]; intros w w' a H; [discriminate|].
  simpl in H. unfold bind at 1, get in H. unfold bind at 1 in H.
  destruct (get_train_state AssertionError w) as [w0 ts| |] eqn:Eg; [|discriminate..].
  apply get_train_state_Ok in Eg as [-> E].
  destruct (should_stop (state w)
            || _is_done (progress ts) (max_epochs ts) (max_steps ts)) eqn:Hc.
  - injection H as <- _. exists ts. auto.
  - apply bind_Ok_inv in H as (w1 & [] & _ & H). eapply IH, H.
Qed.

Lemma train_body_exit fuel_epochs fuel_steps w w' a :
  train_body ev fuel_epochs fuel_steps u callbacks w = Ok w' a ->
  exists ts',
    train_state (state w') = Some ts'
    /\ should_stop (state w')
       || _is_done (progress ts') (max_epochs ts') (max_steps ts') = true.
Proof.
  intros H. unfold train_body in H. inv_ok H. unfold _train_impl in Hop0. inv_ok Hop0.
  destruct (train_epoch_loop_exit _ _ _ _ _ Hop8) as (ts5 & E5 & Hc).
  assert (G : evolves eq any_event w9 w').
  { transitivity w10.
    { eapply ensures_Ok; [|exact Hop9]. apply ensures_run_unit_hook; [apply _|reflexivity..]. }
    transitivity w11.
    { eapply ensures_Ok; [|exact Hop10]. apply ensures_run_callback_fn;
        [apply _|reflexivity..]. }
    transitivity w1.
    { eapply ensures_Ok; [|exact Hop0].
      apply ensures_reset_module_training_mode. apply _. }
    eapply ensures_Ok; [|exact H]. apply ensures_emit; [apply _|reflexivity]. }
  states G E5. destruct C as (_ & Cme & Cms & _). exists ts. split; [exact E|].
  apply orb_true_iff in Hc as [Hc|Hc].
  - rewrite (ev_stop _ _ _ _ G Hc). reflexivity.
  - rewrite <- P, Cme, Cms, Hc. apply orb_true_r.
Qed.
End TrainReturns.

(** X17. Whatever the user code does, [train] returns normally only when
    a stop was requested or the run is done: at exit the stop flag is up,
    or [max_steps] is set and [num_steps_completed] has reached it, and is
    then exactly the larger of [max_steps] and its value at entry, or
    [max_epochs] is set and [num_epochs_completed] has reached it. Here
    [_is_done] is the predicate of utils.py as the spec describes it. *)
Theorem train_returns_only_when_stopped_or_done
    (ev : TrainUnit -> list Callback -> M unit) (fuel_epochs fuel_steps : nat)
    (u : TrainUnit) (callbacks : option (list Callback)) (w w' : World)
    (ts : PhaseState) :
  evaluate_frame ev ->
  train_state (state w) = Some ts ->
  train ev fuel_epochs fuel_steps u callbacks w = Ok w' tt ->
  exists ts',
    train_state (state w') = Some ts'
    /\ (should_stop (state w') = true
        \/ (exists m, max_steps ts = Some m
                      /\ num_steps_completed (progress ts')
                         = Z.max (num_steps_completed (progress ts)) m)
        \/ (exists me, max_epochs ts = Some me
                       /\ me <= num_epochs_completed (progress ts'))).
Proof.
  intros Hev E H.
  assert (Hf : final (train ev fuel_epochs fuel_steps u callbacks w) = Some w')
    by (rewrite H; reflexivity).
  apply (ensures_train_capped ev Hev u (default [] callbacks) fuel_epochs fuel_steps
           callbacks eq_refl) in Hf as [G Hcap].
  states G E. destruct C as (_ & Cme & Cms & _).
  destruct (Hcap _ _ E E0) as [Hlo Hhi].
  unfold train in H. apply try_except_handler_Ok in H.
  destruct (train_body_exit ev u _ _ _ _ _ _ H) as (ts' & E' & Hc).
  rewrite E0 in E'. injection E' as <-. exists ts0. split; [exact E0|].
  apply orb_true_iff in Hc as [Hc|Hc]; [left; exact Hc | right].
  unfold _is_done in Hc. apply orb_true_iff in Hc as [Hc|Hc].
  - left. rewrite Cms in Hc. destruct (max_steps ts) as [m|]; [|discriminate].
    simpl in Hc. apply Z.leb_le in Hc. exists m. split; [reflexivity|].
    specialize (Hhi m eq_refl). lia.
  - right. rewrite Cme in Hc. destruct (max_epochs ts) as [me|]; [|discriminate].
    simpl in Hc. apply Z.leb_le in Hc. exists me. auto.
Qed.

Lemma train_returns_only_when_stopped_or_done_witness :
  exists w' ts',
    train evaluate_pass 3 5 calm_unit (Some [observer])
      (limited_world [1; 2]%nat Progress_init None (Some 3) None)
    = Ok w' tt
    /\ train_state (state w') = Some ts'
    /\ should_stop (state w') = false
    /\ num_steps_completed (progress ts') = 3.
Proof.
  assert (H : train evaluate_pass 3 5 calm_unit (Some [observer])
                (limited_world [1; 2]%nat Progress_init None (Some 3) None)
              = Ok (world_after (train evaluate_pass 3 5 calm_unit (Some [observer])
                                   (limited_world [1; 2]%nat Progress_init None (Some 3)
                                      None))
                      (limited_world [1; 2]%nat Progress_init None (Some 3) None)) tt)
    by (vm_compute; reflexivity).
  destruct (train_returns_only_when_stopped_or_done evaluate_pass 3 5 calm_unit
              (Some [observer])
              (limited_world [1; 2]%nat Progress_init None (Some 3) None) _
              (mkPhaseState [1; 2]%nat Progress_init None (Some 3) None None None None)
              evaluate_pass_frame eq_refl H)
    as (ts' & E' & [Hs | [(m & Hm & Hn) | (me & Hme & _)]]).
  - exfalso. revert Hs. vm_compute. discriminate.
  - eexists _, ts'. split; [exact H|]. split; [exact E'|].
    split; [vm_compute; reflexivity|]. injection Hm as <-. exact Hn.
  - discriminate Hme.
Defined.

(** ** Runs that end *)

Lemma final_bind {A B} (m : M A) (k : A -> M B) w :
  (exists w1, final (m w) = Some w1) ->
  (forall a w1, m w = Ok w1 a -> exists w', final (k a w1) = Some w') ->
  exists w', final (bind m k w) = Some w'.
Proof.
  intros [w1 H1] Hk. unfold bind.
  destruct (m w) as [w2 a|w2 e|]; [apply (Hk a w2 eq_refl) | exists w2; reflexivity
                                  | discriminate].
Qed.

Lemma ends_get : ends get.
Proof. intros w. exists w. reflexivity. Qed.

Lemma ends_when b m : ends m -> ends (when b m).
Proof. destruct b; [trivial | intros _; apply ends_ret]. Qed.

Lemma ends_run_step e0 f : ends (run_step e0 f).
Proof. intros w. unfold run_step. destruct (ho_raise _); eexists; reflexivity. Qed.

Lemma ends_get_eval_state e : ends (get_eval_state e).
Proof.
  intros w. unfold get_eval_state. destruct (eval_state (state w)); exists w; reflexivity.
Qed.

Lemma ends_tracked_modules : ends tracked_modules.
Proof. intros w. exists w. reflexivity. Qed.

Lemma ends_set_module_training_mode tracked mode :
  ends (_set_module_training_mode tracked mode).
Proof. intros w. eexists. reflexivity. Qed.

Lemma ends_call_evaluate ev site u callbacks :
  evaluate_ends ev -> ends (call_evaluate ev site u callbacks).
Proof. intros Hev. apply ends_bind; [apply ends_modify | intros _; apply Hev]. Qed.

Lemma ends_fetch_step_input pass data_iter : ends (fetch_step_input pass data_iter).
Proof.
  unfold fetch_step_input. destruct pass; [apply ends_ret|].
  destruct data_iter; [apply ends_raise | apply ends_ret].
Qed.

(** Straight-line driver code ends. *)
Ltac ends_prim :=
  first
    [ apply ends_ret
    | apply ends_raise
    | apply ends_get
    | apply ends_modify
    | apply ends_tracked_modules
    | apply ends_set_module_training_mode
    | apply ends_get_train_state
    | apply ends_get_eval_state
    | apply ends_run_unit_hook
    | apply ends_run_step
    | apply ends_run_callback_fn
    | apply ends_fetch_step_input
    | apply ends_call_evaluate; assumption ].

Ltac ends_all :=
  repeat first
    [ ends_prim
    | apply ends_bind; [|intros ?]
    | apply ends_when
    | apply ends_try_except; [|intros ?] ].

(** The evaluation pass of this development ends. *)
Lemma ends_eval_step_loop u callbacks data_iter : ends (eval_step_loop u callbacks data_iter).
Proof.
  induction data_iter as [|b rest IH]; simpl; [apply ends_ret|].
  apply ends_bind; [apply ends_get | intros w0].
  apply ends_bind; [apply ends_get_eval_state | intros es].
  destruct (_ || _); [apply ends_ret|].
  apply ends_bind; [|intros [|]; [apply IH | apply ends_ret]].
  unfold eval_step_body. ends_all.
Qed.

Lemma evaluate_pass_ends : evaluate_ends evaluate_pass.
Proof.
  intros u callbacks. unfold evaluate_pass.
  repeat first
    [ apply ends_eval_step_loop
    | ends_prim
    | apply ends_bind; [|intros ?]
    | apply ends_when ].
Qed.

Section EpochEnds.
Context (ev : TrainUnit -> list Callback -> M unit) (Hends : evaluate_ends ev).
Context (u : TrainUnit) (callbacks : list Callback).
Hypothesis Hadv : step_advances u.

Lemma ends_train_step_body every_n_steps data_iter :
  ends (train_step_body ev u callbacks every_n_steps data_iter).
Proof. unfold train_step_body. ends_all. Qed.

(** A pass through the body of the step loop that returns has taken at
    least one batch from the data iterator. *)
Lemma train_step_body_shrinks every_n_steps data_iter w w1 it :
  train_step_body ev u callbacks every_n_steps data_iter w = Ok w1 it ->
  (length it < length data_iter)%nat.
Proof.
  intros H. unfold train_step_body in H. inv_ok H. injection H as _ <-.
  unfold fetch_step_input in Hop.
  destruct (train_step_requires_iterator u) eqn:Hpass.
  - injection Hop as <- <-. simpl in *.
    unfold run_step in Hop1.
    destruct (ho_raise (so_outcome (train_step u (InIter data_iter)
                                      (add_event (EvTrainStep (InIter data_iter)) w2))))
      eqn:Hr; [discriminate|].
    injection Hop1 as _ <-. simpl.
    pose proof (Hadv Hpass _ _ Hr) as Hc. rewrite length_drop. lia.
  - destruct data_iter as [|b rest]; [discriminate|].
    injection Hop as <- <-. simpl. lia.
Qed.

(** With more fuel than batches the step loop ends. *)
Lemma train_step_loop_ends every_n_steps : forall fuel data_iter w,
  (length data_iter < fuel)%nat ->
  exists w', final (train_step_loop ev fuel u callbacks every_n_steps data_iter w) = Some w'.
Proof.
  induction fuel as [|fuel IH]; intros data_iter w Hlt; [lia|].
  simpl. apply final_bind; [apply ends_get | intros w0 ? _].
  apply final_bind; [apply ends_get_train_state | intros ts w2 _].
  destruct (_ || _); [apply ends_ret|].
  unfold bind, try_except.
  destruct (ends_train_step_body every_n_steps data_iter w2) as (w3 & H3).
  destruct (train_step_body ev u callbacks every_n_steps data_iter w2)
    as [w4 it|w4 e|] eqn:Eb; [| |discriminate].
  - apply IH. apply train_step_body_shrinks in Eb. lia.
  - destruct (is_StopIteration e); eexists; reflexivity.
Qed.

(** With more fuel than batches the epoch routine ends. *)
Lemma train_epoch_impl_ends fuel w ts :
  train_state (state w) = Some ts ->
  (length (dataloader ts) < fuel)%nat ->
  exists w', final (_train_epoch_impl ev fuel u callbacks w) = Some w'.
Proof.
  intros E Hlt. unfold _train_epoch_impl.
  repeat (erewrite bind_Ok
            by first [ reflexivity
                     | unfold get_train_state; simpl; rewrite E; reflexivity ]).
  match goal with
  | |- exists w', final (bind _ _ ?w0) = _ => set (w4 := w0)
  end.
  assert (E4 : train_state (state w4) = Some ts) by exact E.
  apply final_bind.
  { apply ends_when. ends_all. }
  intros [] wa Ha.
  assert (G : evolves eq any_event w4 wa).
  { eapply ensures_Ok; [|exact Ha]. ens. }
  states G E4.
  unfold bind at 1, get_train_state at 1. rewrite E0.
  apply final_bind.
  { apply train_step_loop_ends. destruct C as (-> & _). exact Hlt. }
  intros [] wb _.
  match goal with
  | |- exists w', final (?k wb) = _ => assert (Hk : ends k); [|apply Hk]
  end.
  ends_all.
Qed.
End EpochEnds.

Lemma pulling_unit_advances n : (0 < n)%nat -> step_advances (pulling_unit n).
Proof.
  intros Hn _ remaining w. simpl.
  destruct (length remaining <? n)%nat eqn:Hlt; simpl; [discriminate|].
  intros _. apply Nat.ltb_ge in Hlt. lia.
Qed.

Lemma final_try_except {A} (body : M A) catches handler w :
  (exists w1, final (body w) = Some w1) ->
  (forall e, ends (handler e)) ->
  exists w', final (try_except body catches handler w) = Some w'.
Proof.
  intros [w1 H1] Hh. unfold try_except.
  destruct (body w) as [w2 a|w2 e|]; [exists w2; reflexivity | | discriminate].
  destruct (catches e); [apply Hh | exists w2; reflexivity].
Qed.

Section RunEnds.
Context (ev : TrainUnit -> list Callback -> M unit) (Hev : evaluate_frame ev).
Context (Hends : evaluate_ends ev).
Context (u : TrainUnit) (callbacks : list Callback).
Hypothesis Hadv : step_advances u.

(** With more fuel than batches [train_epoch] ends. *)
Lemma train_epoch_ends fuel callbacks' w ts :
  callbacks = default [] callbacks' ->
  train_state (state w) = Some ts ->
  (length (dataloader ts) < fuel)%nat ->
  exists w', final (train_epoch ev fuel u callbacks' w) = Some w'.
Proof.
  intros Hc E Hlt. unfold train_epoch. rewrite <- Hc.
  apply final_try_except; [|intros e; apply ends_exception_handler].
  unfold train_epoch_body, bind at 1, get_train_state. rewrite E.
  destruct (negb _); [apply ends_raise|].
  apply final_bind; [apply ends_modify | intros [] w1 H1]. apply modify_Ok in H1 as ->.
  apply final_bind; [apply ends_modify | intros [] w2 H2]. apply emit_Ok in H2 as ->.
  apply final_bind; [|intros _ w3 _; apply ends_modify].
  apply (train_epoch_impl_ends ev Hends u callbacks Hadv fuel _ ts); [exact E | exact Hlt].
Qed.

(** With [max_epochs] set, more epoch fuel than epochs left and more step
    fuel than batches, the epoch loop ends. *)
Lemma train_epoch_loop_ends fuel_steps me : forall fuel_epochs w ts,
  train_state (state w) = Some ts ->
  max_epochs ts = Some me ->
  (length (dataloader ts) < fuel_steps)%nat ->
  (Z.to_nat (me - num_epochs_completed (progress ts)) < fuel_epochs)%nat ->
  exists w', final (train_epoch_loop ev fuel_epochs fuel_steps u callbacks w) = Some w'.
Proof.
  induction fuel_epochs as [|fuel_epochs IH]; intros w ts E Hme Hlen Hlt; [lia|].
  rewrite (train_epoch_loop_unfold ev u callbacks _ _ _ _ E).
  destruct (should_stop (state w)
            || _is_done (progress ts) (max_epochs ts) (max_steps ts)) eqn:Hc;
    [eexists; reflexivity|].
  apply orb_false_iff in Hc as [_ Hc]. unfold _is_done in Hc.
  apply orb_false_iff in Hc as [_ Hc]. rewrite Hme in Hc. simpl in Hc.
  apply Z.leb_gt in Hc.
  unfold bind.
  destruct (train_epoch_impl_ends ev Hends u callbacks Hadv fuel_steps w ts E Hlen)
    as (w1 & H1).
  destruct (_train_epoch_impl ev fuel_steps u callbacks w) as [w2 []|w2 e2|] eqn:Ee;
    [|eexists; reflexivity | discriminate].
  destruct (epoch_summary ev Hev u callbacks (fun _ => false) fuel_steps w w2 ts)
    as (tsb & ts' & E' & C' & R & P' & _); [discriminate | reflexivity | exact Ee | exact E |].
  destruct C' as (Cd & Cme & _). destruct R as (Re & _).
  apply (IH w2 ts' E'); [congruence | congruence |].
  rewrite P'. simpl. lia.
Qed.

(** With [max_epochs] set and enough fuel [train] ends. *)
Lemma train_ends fuel_epochs fuel_steps callbacks' w ts me :
  callbacks = default [] callbacks' ->
  train_state (state w) = Some ts ->
  max_epochs ts = Some me ->
  (length (dataloader ts) < fuel_steps)%nat ->
  (Z.to_nat (me - num_epochs_completed (progress ts)) < fuel_epochs)%nat ->
  exists w', final (train ev fuel_epochs fuel_steps u callbacks' w) = Some w'.
Proof.
  intros Hc E Hme Hlen Hlt. unfold train. rewrite <- Hc.
  apply final_try_except; [|intros e; apply ends_exception_handler].
  unfold train_body.
  apply final_bind; [apply ends_modify | intros [] w1 H1]. apply modify_Ok in H1 as ->.
  apply final_bind; [|intros _ w2 _; apply ends_modify].
  unfold _train_impl.
  repeat (erewrite bind_Ok
            by first [ reflexivity
                     | unfold get_train_state; simpl; rewrite E; reflexivity ]).
  match goal with
  | |- exists w', final (bind _ _ ?w0) = _ => set (w4 := w0)
  end.
  assert (E4 : train_state (state w4) = Some ts) by exact E.
  apply final_bind; [apply ends_run_unit_hook | intros [] w5 H5].
  apply final_bind; [apply ends_run_callback_fn | intros [] w6 H6].
  assert (G : evolves eq any_event w4 w6).
  { transitivity w5.
    - eapply ensures_Ok; [|exact H5]. apply ensures_run_unit_hook; [apply _|reflexivity..].
    - eapply ensures_Ok; [|exact H6]. apply ensures_run_callback_fn;
        [apply _|reflexivity..]. }
  states G E4. destruct C as (Cd & Cme & _).
  apply final_bind.
  { apply (train_epoch_loop_ends fuel_steps me fuel_epochs w6 ts0 E0);
      [congruence | congruence | rewrite <- P; exact Hlt]. }
  intros [] w7 _.
  match goal with
  | |- exists w', final (?k w7) = _ => assert (Hk : ends k); [|apply Hk]
  end.
  ends_all.
Qed.
End RunEnds.

(** ** C5: evaluation every n steps *)

Lemma eval_event_not_step_or_evaluation e :
  is_eval_event e = true -> step_or_evaluation e = false.
Proof. destruct e as [[]| | |? []|[]|[]]; simpl; intros H; first [discriminate | reflexivity]. Qed.

Lemma not_step_or_evaluation e :
  not_event step_or_evaluation e = true -> step_or_evaluation e = false.
Proof. unfold not_event. destruct (step_or_evaluation e); [discriminate | reflexivity]. Qed.

(** A piece of a run that leaves the progress alone and records neither a
    step nor an after-step evaluation. *)
Lemma still_summary w w' :
  evolves eq (not_event step_or_evaluation) w w' ->
  progress_moved (fun p => p) w w' /\ summary step_or_evaluation [] w w'.
Proof.
  intros G. split; [eapply progress_moved_evolves, G|].
  eapply summary_extends; [apply not_step_or_evaluation | apply (ev_trace _ _ _ _ G)].
Qed.

Lemma callbacks_still callbacks h w w' :
  final (_run_callback_fn callbacks h w) = Some w' ->
  progress_moved (fun p => p) w w' /\ summary step_or_evaluation [] w w'.
Proof.
  intros H. apply still_summary.
  eapply (ensures_run_callback_fn eq (not_event step_or_evaluation));
    [intros j; reflexivity | reflexivity | exact H].
Qed.

Lemma run_step_final u input w w' :
  final (run_step (EvTrainStep input) (train_step u input) w) = Some w' ->
  progress_moved (fun p => p) w w' /\ summary step_or_evaluation [EvTrainStep input] w w'.
Proof.
  intros H. split.
  - eapply (progress_moved_evolves any_event).
    eapply (ensures_run_step eq any_event); [reflexivity..|exact H].
  - exact (summary_run_step_final step_or_evaluation (EvTrainStep input)
             (train_step u input) w w' eq_refl H).
Qed.

(** The callback that makes [_run_callback_fn] raise, and the world it was
    called in. *)
Lemma run_callbacks_from_Raise_at h : forall callbacks i w w' e,
  run_callbacks_from i callbacks h w = Raise w' e ->
  exists j cb f wx,
    callbacks !! j = Some cb /\ cb h = Some f /\ ho_raise (f wx) = Some e
    /\ last (trace wx) = Some (EvCallback (i + j) h)
    /\ trace w `prefix_of` trace wx
    /\ trace wx `prefix_of` trace w'.
Proof.
  induction callbacks as [|cb rest IH]; intros i w w' e; simpl; [discriminate|].
  assert (Hnext : forall w0, trace w `prefix_of` trace w0 ->
            run_callbacks_from (S i) rest h w0 = Raise w' e ->
            exists j cb0 f wx,
              (cb :: rest) !! j = Some cb0 /\ cb0 h = Some f /\ ho_raise (f wx) = Some e
              /\ last (trace wx) = Some (EvCallback (i + j) h)
              /\ trace w `prefix_of` trace wx
              /\ trace wx `prefix_of` trace w').
  { intros w0 H0 H. destruct (IH _ _ _ _ H) as (j & cb0 & f0 & wx & Hj & Hf & Hr & Hl & Hp & Hq).
    exists (S j), cb0, f0, wx. split; [exact Hj|]. split; [exact Hf|]. split; [exact Hr|].
    split; [rewrite Hl; do 2 f_equal; lia|]. split; [|exact Hq].
    etransitivity; eassumption. }
  destruct (cb h) as [f|] eqn:E; [|apply Hnext; reflexivity].
  intros H. apply bind_Raise_inv in H as [H|(w1 & [] & H1 & H)].
  - unfold run_hook in H.
    destruct (ho_raise (f (add_event (EvCallback i h) w))) as [e0|] eqn:Hr; [|discriminate].
    injection H as <- <-.
    exists 0%nat, cb, f, (add_event (EvCallback i h) w).
    split; [reflexivity|]. split; [exact E|]. split; [exact Hr|].
    split; [rewrite Nat.add_0_r; apply last_snoc|].
    split; [eexists; reflexivity|].
    destruct (after_hook_trace (f (add_event (EvCallback i h) w))
                (add_event (EvCallback i h) w)) as (evs & Ht).
    exists evs. exact Ht.
  - apply (Hnext w1); [|exact H].
    unfold run_hook in H1. destruct (ho_raise _); [discriminate|]. injection H1 as <-.
    destruct (after_hook_trace (f (add_event (EvCallback i h) w))
                (add_event (EvCallback i h) w)) as (evs & Ht).
    exists ([EvCallback i h] ++ evs). rewrite Ht. simpl. rewrite <- app_assoc. reflexivity.
Qed.

Lemma cut_short_later u callbacks w w' last counted :
  trace w `prefix_of` trace w' ->
  cut_short u callbacks w last counted -> cut_short u callbacks w' last counted.
Proof.
  intros Hp [H | [(input & Hl & Hc & wx & e & Hr & Hlast & Hpre)
                  | (input & Hl & Hc & i & cb & f & wx & e & Hi & Hf & Hr & Hlast & Hpre)]].
  - left. exact H.
  - right; left. exists input. split; [exact Hl|]. split; [exact Hc|].
    exists wx, e. split; [exact Hr|]. split; [exact Hlast|]. etransitivity; eassumption.
  - right; right. exists input. split; [exact Hl|]. split; [exact Hc|].
    exists i, cb, f, wx, e. repeat (split; [assumption|]). etransitivity; eassumption.
Qed.

Lemma summary_prefix T l w w' : summary T l w w' -> trace w `prefix_of` trace w'.
Proof. intros (evs & Ht & _). exists evs. exact Ht. Qed.

Section StepPattern.
Context (ev : TrainUnit -> list Callback -> M unit) (Hev : evaluate_frame ev).
Context (u : TrainUnit) (callbacks : list Callback) (every_n_steps : option Z).

Lemma call_evaluate_final site w w' :
  final (call_evaluate ev site u callbacks w) = Some w' ->
  progress_moved (fun p => p) w w'
  /\ summary step_or_evaluation (List.filter step_or_evaluation [EvEvaluate site]) w w'.
Proof.
  intros H. unfold call_evaluate, bind, emit, modify in H.
  pose proof (Hev u callbacks _ _ H) as G. split.
  - eapply (progress_moved_trans (fun p => p) (fun p => p) w
              (add_event (EvEvaluate site) w));
      [apply progress_moved_same; reflexivity | eapply progress_moved_evolves, G].
  - rewrite <- (app_nil_r (List.filter step_or_evaluation [EvEvaluate site])).
    eapply summary_trans; [apply summary_add_event|].
    eapply summary_extends;
      [apply eval_event_not_step_or_evaluation | apply (ev_trace _ _ _ _ G)].
Qed.

(** The ways the body of the step loop raises: before [train_step] is
    called; out of [train_step], the step not counted; out of an
    [on_train_step_end] callback, the step counted; out of the evaluation
    pass that was due after the step. *)
Lemma train_step_body_Raise data_iter w w1 e ts :
  train_step_body ev u callbacks every_n_steps data_iter w = Raise w1 e ->
  train_state (state w) = Some ts ->
  exists ts1,
    train_state (state w1) = Some ts1 /\ same_config ts ts1
    /\ ((progress ts1 = progress ts /\ summary step_or_evaluation [] w w1)
        \/ (exists input,
              progress ts1 = progress ts
              /\ summary step_or_evaluation [EvTrainStep input] w w1
              /\ step_raised u input w1)
        \/ (exists input,
              progress ts1 = increment_step (progress ts)
              /\ summary step_or_evaluation [EvTrainStep input] w w1
              /\ step_end_raised callbacks w1)
        \/ (exists input,
              progress ts1 = increment_step (progress ts)
              /\ is_due every_n_steps
                   (num_steps_completed_in_epoch (progress ts) + 1) = true
              /\ summary step_or_evaluation
                   [EvTrainStep input; EvEvaluate AfterStep] w w1)).
Proof.
  intros H E. unfold train_step_body in H.
  apply bind_Raise_inv in H as [H|(w2 & a & H0 & H)].
  { assert (w1 = w) as ->.
    { unfold fetch_step_input in H. destruct (train_step_requires_iterator u);
        [discriminate|]. destruct data_iter; [|discriminate].
      unfold raise in H. congruence. }
    exists ts. split; [exact E|]. split; [apply same_config_refl|]. left.
    split; [reflexivity | apply summary_refl]. }
  assert (w2 = w) as ->.
  { unfold fetch_step_input in H0. destruct (train_step_requires_iterator u).
    - injection H0 as <- _. reflexivity.
    - destruct data_iter; [discriminate|]. injection H0 as <- _. reflexivity. }
  apply bind_Raise_inv in H as [H|(w3 & [] & Hcb & H)].
  { destruct (callbacks_still callbacks on_train_step_start w w1) as [P0 S0];
      [rewrite H; reflexivity|].
    destruct (P0 ts E) as (ts1 & E1 & C1 & Pr1).
    exists ts1. split; [exact E1|]. split; [exact C1|]. left. auto. }
  destruct (callbacks_still callbacks on_train_step_start w w3) as [P0 S0];
    [rewrite Hcb; reflexivity|].
  apply bind_Raise_inv in H as [H|(w4 & r & Hst & H)].
  { destruct (run_step_final u a.1 w3 w1) as [P1 S1]; [rewrite H; reflexivity|].
    destruct (progress_moved_trans _ _ _ _ _ P0 P1 ts E) as (ts1 & E1 & C1 & Pr1).
    exists ts1. split; [exact E1|]. split; [exact C1|]. right; left.
    exists a.1. split; [exact Pr1|]. split.
    - exact (summary_trans _ _ _ _ _ _ S0 S1).
    - unfold run_step in H.
      destruct (ho_raise (so_outcome (train_step u a.1 (add_event (EvTrainStep a.1) w3))))
        as [e0|] eqn:Hr; [|discriminate].
      injection H as <- _.
      exists (add_event (EvTrainStep a.1) w3), e0. split; [exact Hr|].
      split; [apply last_snoc|].
      destruct (after_hook_trace
                  (so_outcome (train_step u a.1 (add_event (EvTrainStep a.1) w3)))
                  (add_event (EvTrainStep a.1) w3)) as (evs & Ht).
      exists evs. exact Ht. }
  destruct (run_step_final u a.1 w3 w4) as [P1 S1]; [rewrite Hst; reflexivity|].
  apply bind_Raise_inv in H as [H|(w5 & [] & H5 & H)]; [discriminate|].
  apply bind_Raise_inv in H as [H|(w6 & [] & H6 & H)]; [discriminate|].
  assert (P5 : progress_moved (fun p => p) w4 w5).
  { eapply progress_moved_modify; [|exact H5]. intros ts0. split; [|reflexivity].
    unfold same_config. simpl. auto. }
  assert (P6 : progress_moved increment_step w5 w6).
  { eapply progress_moved_modify; [|exact H6]. intros ts0. split; [|reflexivity].
    unfold same_config. simpl. auto. }
  assert (S6 : summary step_or_evaluation [] w4 w6).
  { apply summary_same. apply modify_Ok in H5 as ->. apply modify_Ok in H6 as ->.
    reflexivity. }
  pose proof (progress_moved_trans _ _ _ _ _ P0
                (progress_moved_trans _ _ _ _ _ P1
                   (progress_moved_trans _ _ _ _ _ P5 P6))) as P06.
  pose proof (summary_trans _ _ _ _ _ _ S0 (summary_trans _ _ _ _ _ _ S1 S6)) as S06.
  simpl in P06, S06.
  apply bind_Raise_inv in H as [H|(w7 & [] & H7 & H)].
  { destruct (callbacks_still callbacks on_train_step_end w6 w1) as [P7 S7];
      [rewrite H; reflexivity|].
    destruct (progress_moved_trans _ _ _ _ _ P06 P7 ts E) as (ts1 & E1 & C1 & Pr1).
    exists ts1. split; [exact E1|]. split; [exact C1|]. right; right; left.
    exists a.1. split; [exact Pr1|]. split.
    - pose proof (summary_trans _ _ _ _ _ _ S06 S7) as S. simpl in S. exact S.
    - apply run_callbacks_from_Raise_at in H
        as (j & cb & f & wx & Hj & Hf & Hr & Hl & _ & Hp).
      exists j, cb, f, wx, e. auto. }
  destruct (callbacks_still callbacks on_train_step_end w6 w7) as [P7 S7];
    [rewrite H7; reflexivity|].
  apply bind_Raise_inv in H as [H|(w8 & [] & H8 & H)]; [discriminate|].
  assert (P8 : progress_moved (fun p => p) w7 w8).
  { eapply progress_moved_modify; [|exact H8]. intros ts0. split; [|reflexivity].
    unfold same_config. simpl. auto. }
  assert (S8 : summary step_or_evaluation [] w7 w8)
    by (apply summary_same; apply modify_Ok in H8 as ->; reflexivity).
  pose proof (progress_moved_trans _ _ _ _ _ P06
                (progress_moved_trans _ _ _ _ _ P7 P8)) as P08.
  pose proof (summary_trans _ _ _ _ _ _ S06 (summary_trans _ _ _ _ _ _ S7 S8)) as S08.
  simpl in P08, S08.
  destruct (P08 ts E) as (ts8 & E8 & C8 & Pr8).
  apply bind_Raise_inv in H as [H|(w9 & ts9 & H9 & H)].
  { unfold get_train_state in H. rewrite E8 in H. discriminate. }
  apply get_train_state_Ok in H9 as [-> E9]. rewrite E8 in E9. injection E9 as <-.
  apply bind_Raise_inv in H as [H|(w10 & [] & _ & H)]; [|discriminate].
  rewrite Pr8 in H. simpl in H.
  destruct (is_due every_n_steps (num_steps_completed_in_epoch (progress ts) + 1))
    eqn:Hdue; [|discriminate].
  simpl in H.
  destruct (call_evaluate_final AfterStep w8 w1) as [P9 S9]; [rewrite H; reflexivity|].
  destruct (progress_moved_trans _ _ _ _ _ P08 P9 ts E) as (ts1 & E1 & C1 & Pr1).
  exists ts1. split; [exact E1|]. split; [exact C1|]. right; right; right.
  exists a.1. split; [exact Pr1|]. split; [reflexivity|].
  exact (summary_trans _ _ _ _ _ _ S08 S9).
Qed.

(** The step loop, however it ends: the steps that reached their
    evaluation test, each followed by the evaluation pass iff it was due,
    and possibly a last step that was cut short. *)
Lemma train_step_loop_final fuel : forall data_iter w w' ts,
  final (train_step_loop ev fuel u callbacks every_n_steps data_iter w) = Some w' ->
  train_state (state w) = Some ts ->
  exists ts' steps last counted,
    train_state (state w') = Some ts' /\ same_config ts ts'
    /\ progress ts' = Nat.iter (length steps + counted) increment_step (progress ts)
    /\ summary step_or_evaluation
         (List.filter step_or_evaluation
            (loop_calls callbacks every_n_steps
               (num_steps_completed_in_epoch (progress ts)) steps) ++ last) w w'
    /\ cut_short u callbacks w' last counted.
Proof.
  induction fuel as [|fuel IH]; intros data_iter w w' ts H E; [discriminate|].
  simpl in H. unfold bind at 1, get in H. unfold bind at 1, get_train_state in H.
  rewrite E in H.
  destruct (_ || _).
  { injection H as <-. exists ts, [], [], 0%nat. simpl.
    split; [exact E|]. split; [apply same_config_refl|]. split; [reflexivity|].
    split; [apply summary_refl | left; auto]. }
  unfold bind at 1, try_except in H. unfold bind at 1 in H.
  destruct (train_step_body ev u callbacks every_n_steps data_iter w)
    as [w1 it|w1 e|] eqn:Eb; [| |discriminate].
  - destruct (train_step_body_Ok ev Hev u callbacks every_n_steps _ _ _ _ ts Eb E)
      as (ts1 & input & E1 & C1 & P1 & S1 & _).
    unfold ret in H.
    destruct (IH _ _ _ ts1 H E1)
      as (ts' & steps & last & counted & E' & C' & P' & S' & Hlast).
    exists ts', (input :: steps), last, counted. split; [exact E'|]. split.
    { eapply same_config_trans; eassumption. }
    split; [|split; [|exact Hlast]].
    + rewrite P', P1. simpl length. rewrite Nat.add_succ_l. symmetry.
      apply Nat.iter_succ_r.
    + apply (summary_refine step_or_evaluation _ _ _ _ step_or_evaluation_train_event)
        in S1.
      simpl loop_calls. rewrite List.filter_app, <- app_assoc.
      rewrite P1 in S'. simpl in S'.
      exact (summary_trans _ _ _ _ _ _ S1 S').
  - assert (w' = w1) as ->.
    { destruct (is_StopIteration e); simpl in H; congruence. }
    destruct (train_step_body_Raise _ _ _ _ ts Eb E)
      as (ts1 & E1 & C1
          & [(P1 & S1) | [(input & P1 & S1 & R1)
                          | [(input & P1 & S1 & R1) | (input & P1 & D1 & S1)]]]).
    + exists ts1, [], [], 0%nat. simpl. repeat (split; [assumption|]). left. auto.
    + exists ts1, [], [EvTrainStep input], 0%nat. simpl.
      repeat (split; [assumption|]). right; left. exists input. auto.
    + exists ts1, [], [EvTrainStep input], 1%nat. simpl.
      repeat (split; [assumption|]). right; right. exists input. auto.
    + exists ts1, [input], [], 0%nat. simpl.
      split; [exact E1|]. split; [exact C1|]. split; [exact P1|].
      split; [|left; auto].
      rewrite !app_nil_r, filter_step_or_evaluation_step_calls, D1. exact S1.
Qed.

End StepPattern.

Section EpochPattern.
Context (ev : TrainUnit -> list Callback -> M unit) (Hev : evaluate_frame ev).
Context (u : TrainUnit) (callbacks : list Callback).

(** The epoch routine, however it ends. *)
Lemma train_epoch_impl_final fuel w w' ts :
  final (_train_epoch_impl ev fuel u callbacks w) = Some w' ->
  train_state (state w) = Some ts ->
  exists ts' steps last counted,
    train_state (state w') = Some ts'
    /\ num_steps_completed (progress ts')
       = num_steps_completed (progress ts) + Z.of_nat (length steps + counted)
    /\ summary step_or_evaluation
         (List.filter step_or_evaluation
            (loop_calls callbacks (eval_cadence (state w)).1
               (num_steps_completed_in_epoch (progress ts)) steps) ++ last) w w'
    /\ cut_short u callbacks w' last counted.
Proof.
  intros H E. unfold _train_epoch_impl in H. run_prefix H E.
  change (eval_cadence (state _)) with (eval_cadence (state w)) in H.
  match type of H with
  | final (bind _ _ ?w0) = _ => set (w4 := w0) in *
  end.
  assert (S4 : summary step_or_evaluation [] w w4)
    by (exists [EvLog StartedTrainEpoch]; split; reflexivity).
  assert (E4 : train_state (state w4) = Some ts) by exact E.
  assert (Hhooks : ensures (evolves eq (not_event step_or_evaluation))
                     (when (num_steps_completed_in_epoch (progress ts) =? 0)
                        (let* _ := run_unit_hook u on_train_epoch_start in
                         _run_callback_fn callbacks on_train_epoch_start)))
    by ens.
  apply bind_final_inv in H as [[e H]|(wa & [] & Ha & H)].
  { destruct (still_summary w4 w') as [P5 S5]; [apply Hhooks; rewrite H; reflexivity|].
    destruct (P5 ts E4) as (ts' & E' & C' & Pr').
    exists ts', [], [], 0%nat. simpl. split; [exact E'|]. split; [rewrite Pr'; lia|].
    split; [|left; auto].
    exact (summary_trans _ _ _ _ _ _ S4 S5). }
  destruct (still_summary w4 wa) as [P5 S5]; [apply Hhooks; rewrite Ha; reflexivity|].
  destruct (P5 ts E4) as (tsa & Ea & Ca & Pa).
  unfold bind at 1, get_train_state in H. rewrite Ea in H.
  assert (Hdl : dataloader tsa = dataloader ts) by apply Ca. rewrite Hdl, Pa in H.
  apply bind_final_inv in H as [[e H]|(wb & [] & Hb & H)].
  { destruct (train_step_loop_final ev Hev u callbacks (eval_cadence (state w)).1 fuel (dataloader ts) wa w' tsa) as
      (ts' & steps & last & counted & E' & C' & P' & S' & Hlast);
      [rewrite H; reflexivity | exact Ea |].
    exists ts', steps, last, counted. split; [exact E'|].
    split; [rewrite P', Pa, iter_increment_step; reflexivity|].
    split; [|exact Hlast]. rewrite Pa in S'.
    exact (summary_trans _ _ _ _ _ _ S4 (summary_trans _ _ _ _ _ _ S5 S')). }
  destruct (train_step_loop_final ev Hev u callbacks (eval_cadence (state w)).1 fuel (dataloader ts) wa wb tsa) as
    (tsb & steps & last & counted & Eb & Cb & Pb & Sb & Hlast);
    [rewrite Hb; reflexivity | exact Ea |].
  match type of H with
  | final (?k wb) = _ =>
      assert (Hk : ensures (evolves steps_kept (not_event step_or_evaluation)) k)
  end.
  { repeat first
      [ ens_prim
      | solve [apply ensures_modify_train_state; intros ?;
               apply increment_epoch_steps_kept]
      | apply ensures_bind; [apply _ | | intros ?]
      | apply ensures_when; [apply _ | ] ]. }
  pose proof (Hk _ _ H) as G. states G Eb.
  exists ts0, steps, last, counted. split; [exact E0|].
  split; [unfold steps_kept in P; rewrite P, Pb, Pa, iter_increment_step; reflexivity|].
  split; [|eapply cut_short_later, Hlast; eapply summary_prefix, summary_extends;
            [apply not_step_or_evaluation | apply (ev_trace _ _ _ _ G)]].
  rewrite Pa in Sb.
  pose proof (summary_trans _ _ _ _ _ _ S4
                (summary_trans _ _ _ _ _ _ S5
                   (summary_trans _ _ _ _ _ _ Sb
                      (summary_extends _ _ _ _ not_step_or_evaluation
                         (ev_trace _ _ _ _ G))))) as S.
  simpl in S. rewrite app_nil_r in S. exact S.
Qed.
End EpochPattern.




(** ** C7: the epoch-start hooks *)



(** ** C2: an exception raised by user code reaches the except block *)

Lemma not_train_call_raises_nothing ev u callbacks c wx :
  is_train_call c = false -> raised_by ev u callbacks c wx = None.
Proof.
  destruct c as [h| | |i h| |]; simpl; intros H;
    first [discriminate | reflexivity | rewrite H; reflexivity].
Qed.

Lemma raised_by_callback ev u callbacks i h cb f wx :
  is_train_hook h = true -> callbacks !! i = Some cb -> cb h = Some f ->
  raised_by ev u callbacks (EvCallback i h) wx = ho_raise (f wx).
Proof.
  intros Hh Hi Hf. unfold raised_by. rewrite Hh.
  assert (G : forall o : option Callback,
            o = Some cb ->
            match o with
            | Some cb0 => match cb0 h with
                          | Some f0 => ho_raise (f0 wx)
                          | None => None
                          end
            | None => None
            end = ho_raise (f wx))
    by (intros o ->; rewrite Hf; reflexivity).
  exact (G _ Hi).
Qed.

Lemma eval_event_not_train_call c : is_eval_event c = true -> is_train_call c = false.
Proof.
  destruct c as [[]| | |? []|[]|[]]; simpl; intros H; first [discriminate | reflexivity].
Qed.

Lemma handler_event_not_train_call c : handler_event c = true -> is_train_call c = false.
Proof.
  destruct c as [[]| | |? []|[]|[]]; simpl; intros H; first [discriminate | reflexivity].
Qed.

Lemma still_event_not_train_call c :
  not_event is_train_call c = true -> is_train_call c = false.
Proof. unfold not_event. destruct (is_train_call c); [discriminate | reflexivity]. Qed.

Lemma step_try_event c :
  step_event c = true -> is_train_call c = true -> in_step_try c = true.
Proof.
  destruct c as [[]| | |? []|[]|[]]; simpl; intros H1 H2;
    first [discriminate | reflexivity].
Qed.

Lemma forallb_middle {A} (P : A -> bool) pre c rest :
  forallb P (pre ++ c :: rest) = true -> P c = true.
Proof.
  rewrite forallb_app. simpl. intros H.
  apply andb_true_iff in H as [_ H]. apply andb_true_iff in H as [H _]. exact H.
Qed.

Section Propagation.
Context (ev : TrainUnit -> list Callback -> M unit) (Hev : evaluate_frame ev).
Context (u : TrainUnit) (callbacks : list Callback) (e : exn).

Lemma struck_raises w pre c :
  struck_at ev u callbacks e (trace w ++ pre ++ [c]) ->
  forall wx, trace wx = trace w ++ pre ++ [c] -> raised_by ev u callbacks c wx = Some e.
Proof.
  intros [(c' & Hl & Hr) _]. rewrite app_assoc, last_snoc in Hl.
  injection Hl as <-. exact Hr.
Qed.

Lemma struck_train_call w pre c :
  struck_at ev u callbacks e (trace w ++ pre ++ [c]) -> is_train_call c = true.
Proof.
  intros H. destruct (is_train_call c) eqn:E; [reflexivity|].
  pose proof (struck_raises w pre c H
                (mkWorld (state w) (modules w) (trace w ++ pre ++ [c])) eq_refl) as Hr.
  rewrite (not_train_call_raises_nothing _ _ _ _ _ E) in Hr. discriminate.
Qed.

Lemma unswallowed_quiet (P : Event -> bool) r w w' :
  extends P w w' ->
  (forall c, P c = true -> is_train_call c = false) ->
  unswallowed ev u callbacks e r w w'.
Proof.
  intros (evs & Ht & Hall) HP. exists evs. split; [exact Ht|].
  intros pre c rest -> Hs. exfalso.
  apply struck_train_call in Hs. apply forallb_middle in Hall.
  rewrite (HP c Hall) in Hs. discriminate.
Qed.

Lemma unswallowed_trans r w w1 w2 :
  unswallowed ev u callbacks e None w w1 ->
  unswallowed ev u callbacks e r w1 w2 ->
  unswallowed ev u callbacks e r w w2.
Proof.
  intros (evs1 & Ht1 & H1) (evs2 & Ht2 & H2). exists (evs1 ++ evs2). split.
  { rewrite Ht2, Ht1. symmetry. apply app_assoc. }
  intros pre c rest Heq Hs.
  apply app_eq_app in Heq as [l [[Ha Hb]|[Ha Hb]]].
  - destruct l as [|c' l'].
    + rewrite app_nil_r in Ha. subst evs1. simpl in Hb.
      apply (H2 [] c rest); [symmetry; exact Hb|].
      rewrite Ht1. simpl. rewrite <- app_assoc. exact Hs.
    + simpl in Hb. injection Hb as <- ->.
      destruct (H1 pre c l' Ha Hs) as [Hn _]. discriminate.
  - subst pre. apply (H2 l c rest Hb).
    rewrite Ht1. rewrite <- !app_assoc in *. exact Hs.
Qed.

Lemma transparent_ret {A} (a : A) : transparent ev u callbacks e (ret a).
Proof.
  intros w w' [= <-]. exists []. split; [symmetry; apply app_nil_r|].
  intros pre c rest Heq. destruct pre; discriminate.
Qed.

Lemma transparent_raise {A} e0 : transparent ev u callbacks e (@raise A e0).
Proof.
  intros w w' [= <-]. exists []. split; [symmetry; apply app_nil_r|].
  intros pre c rest Heq. destruct pre; discriminate.
Qed.

Lemma transparent_out_of_fuel {A} : transparent ev u callbacks e (@out_of_fuel A).
Proof. intros w w' [=]. Qed.

Lemma transparent_bind {A B} (m : M A) (k : A -> M B) :
  transparent ev u callbacks e m ->
  (forall a, transparent ev u callbacks e (k a)) ->
  transparent ev u callbacks e (bind m k).
Proof.
  intros Hm Hk w w' H. specialize (Hm w). unfold bind in *.
  destruct (m w) as [w1 a|w1 e1|]; simpl in *.
  - eapply unswallowed_trans; [apply Hm; reflexivity | apply Hk, H].
  - apply Hm, H.
  - discriminate.
Qed.

Lemma transparent_when b m :
  transparent ev u callbacks e m -> transparent ev u callbacks e (when b m).
Proof. destruct b; [trivial | intros _; apply transparent_ret]. Qed.

(** Driver code that calls nothing lets [e] through. *)
Lemma transparent_still {A} (m : M A) :
  ensures (evolves any_progress (not_event is_train_call)) m ->
  transparent ev u callbacks e m.
Proof.
  intros Hm w w' H. eapply unswallowed_quiet.
  - apply (ev_trace _ _ _ _ (Hm _ _ H)).
  - apply still_event_not_train_call.
Qed.

(** A call of user code: what is raised at the record [c] in the world
    after it is what the code raises there. *)
Lemma unswallowed_call c (o : HookOutcome) w :
  raised_by ev u callbacks c (add_event c w) = ho_raise o ->
  unswallowed ev u callbacks e (ho_raise o) w (after_hook o (add_event c w)).
Proof.
  intros Hc.
  assert (Hstop : exists stop,
            trace (after_hook o (add_event c w)) = trace w ++ c :: stop
            /\ forallb is_eval_event stop = true).
  { unfold after_hook. destruct (ho_stop o).
    - exists [EvLog ReceivedSignalToStop]. simpl. rewrite <- app_assoc. auto.
    - exists []. auto. }
  destruct Hstop as (stop & Ht & Hstop). exists (c :: stop). split; [exact Ht|].
  intros pre c0 rest Heq Hs. destruct pre as [|p pre'].
  - simpl in Heq. injection Heq as <- <-. split; [|exact Hstop].
    rewrite <- Hc. apply (struck_raises w [] c Hs). reflexivity.
  - exfalso. simpl in Heq. injection Heq as _ Heq. subst stop.
    apply struck_train_call in Hs. apply forallb_middle in Hstop.
    rewrite (eval_event_not_train_call _ Hstop) in Hs. discriminate.
Qed.

Lemma transparent_run_hook c f :
  (forall wx, raised_by ev u callbacks c wx = ho_raise (f wx)) ->
  transparent ev u callbacks e (run_hook c f).
Proof.
  intros Hc w w' H. pose proof (unswallowed_call c (f (add_event c w)) w (Hc _)) as Hu.
  unfold run_hook in *.
  destruct (ho_raise (f (add_event c w))); simpl in *; injection H as <-; exact Hu.
Qed.

Lemma transparent_run_unit_hook h :
  is_train_hook h = true -> transparent ev u callbacks e (run_unit_hook u h).
Proof. intros Hh. apply transparent_run_hook. intros wx. simpl. rewrite Hh. reflexivity. Qed.

Lemma transparent_run_step input :
  transparent ev u callbacks e (run_step (EvTrainStep input) (train_step u input)).
Proof.
  intros w w' H.
  pose proof (unswallowed_call (EvTrainStep input)
                (so_outcome (train_step u input (add_event (EvTrainStep input) w))) w
                eq_refl) as Hu.
  unfold run_step in *.
  destruct (ho_raise (so_outcome (train_step u input (add_event (EvTrainStep input) w))));
    simpl in *; injection H as <-; exact Hu.
Qed.

Lemma transparent_run_callbacks_from h :
  is_train_hook h = true ->
  forall rest i,
    (forall j cb, rest !! j = Some cb -> callbacks !! (i + j)%nat = Some cb) ->
    transparent ev u callbacks e (run_callbacks_from i rest h).
Proof.
  intros Hh. induction rest as [|cb rest IH]; intros i Hsub; simpl.
  - apply transparent_ret.
  - assert (Hrest : forall j cb0, rest !! j = Some cb0 ->
                      callbacks !! (S i + j)%nat = Some cb0).
    { intros j cb0 Hj. replace (S i + j)%nat with (i + S j)%nat by lia.
      apply Hsub. exact Hj. }
    destruct (cb h) as [f|] eqn:E; [|apply IH, Hrest].
    apply transparent_bind; [|intros _; apply IH, Hrest].
    apply transparent_run_hook. intros wx.
    pose proof (Hsub 0%nat cb eq_refl) as H0. rewrite Nat.add_0_r in H0.
    exact (raised_by_callback ev u callbacks i h cb f wx Hh H0 E).
Qed.

Lemma transparent_run_callback_fn h :
  is_train_hook h = true -> transparent ev u callbacks e (_run_callback_fn callbacks h).
Proof.
  intros Hh. apply transparent_run_callbacks_from; [exact Hh|].
  intros j cb Hj. exact Hj.
Qed.

(** The evaluation pass: what leaves it is what is raised at its record. *)
Lemma transparent_call_evaluate site :
  transparent ev u callbacks e (call_evaluate ev site u callbacks).
Proof.
  intros w w' H. unfold call_evaluate, bind, emit, modify in *.
  destruct (ev_trace _ _ _ _ (Hev u callbacks _ _ H)) as (evs & Ht & Hall).
  exists (EvEvaluate site :: evs). split.
  { rewrite Ht. simpl. rewrite <- app_assoc. reflexivity. }
  intros pre c0 rest Heq Hs. destruct pre as [|p pre'].
  - simpl in Heq. injection Heq as <- <-. split; [|exact Hall].
    pose proof (struck_raises w [] (EvEvaluate site) Hs
                  (add_event (EvEvaluate site) w) eq_refl) as Hr.
    simpl in Hr.
    destruct (ev u callbacks (add_event (EvEvaluate site) w)); simpl;
      first [discriminate | exact Hr].
  - exfalso. simpl in Heq. injection Heq as _ Heq. subst evs.
    apply struck_train_call in Hs. apply forallb_middle in Hall.
    rewrite (eval_event_not_train_call _ Hall) in Hs. discriminate.
Qed.

(** The [try] of the step loop catches StopIteration only: an exception
    raised at a call out of its reach is let through. *)
Lemma transparent_try_step (body : M (option (list Batch))) :
  transparent ev u callbacks e body ->
  ensures (evolves step_rel step_event) body ->
  transparent ev u callbacks e (try_except body is_StopIteration (fun _ => ret None)).
Proof.
  intros Hb He w w' H. specialize (Hb w). specialize (He w). unfold try_except in *.
  destruct (body w) as [w1 a|w1 e1|]; simpl in *; [apply Hb, H | | discriminate].
  destruct (is_StopIteration e1) eqn:Hsi; [|apply Hb, H].
  injection H as <-. simpl.
  destruct (Hb w1 eq_refl) as (evs & Ht & Hu).
  destruct (ev_trace _ _ _ _ (He w1 eq_refl)) as (evs' & Ht' & Hall).
  assert (evs' = evs) as -> by (rewrite Ht in Ht'; eapply app_inv_head, eq_sym, Ht').
  exists evs. split; [exact Ht|].
  intros pre c rest Heq Hs. exfalso. subst evs.
  destruct (Hu pre c rest eq_refl Hs) as [[= ->] _].
  pose proof (struck_train_call _ _ _ Hs) as Hcall.
  destruct Hs as [_ Hsw]. specialize (Hsw c). rewrite app_assoc, last_snoc in Hsw.
  specialize (Hsw eq_refl). rewrite Hsi in Hsw. simpl in Hsw.
  rewrite (step_try_event c (forallb_middle _ _ _ _ Hall) Hcall) in Hsw. discriminate.
Qed.

Ltac transp :=
  repeat first
    [ apply transparent_ret
    | apply transparent_raise
    | apply transparent_out_of_fuel
    | solve [apply transparent_run_unit_hook; reflexivity]
    | solve [apply transparent_run_callback_fn; reflexivity]
    | apply transparent_run_step
    | apply transparent_call_evaluate
    | solve [apply transparent_still; ens]
    | match goal with
      | |- transparent _ _ _ _ (bind _ _) => apply transparent_bind; [|intros ?]
      | |- transparent _ _ _ _ (when _ _) => apply transparent_when
      end ].

Lemma transparent_train_step_body every_n_steps data_iter :
  transparent ev u callbacks e (train_step_body ev u callbacks every_n_steps data_iter).
Proof.
  unfold train_step_body, fetch_step_input.
  destruct (train_step_requires_iterator u); [|destruct data_iter]; transp.
Qed.

Lemma transparent_train_step_loop every_n_steps fuel : forall data_iter,
  transparent ev u callbacks e (train_step_loop ev fuel u callbacks every_n_steps data_iter).
Proof.
  induction fuel as [|fuel IH]; intros data_iter; simpl.
  - apply transparent_out_of_fuel.
  - apply transparent_bind; [transp | intros w0].
    apply transparent_bind; [transp | intros ts].
    destruct (_ || _); [transp|].
    apply transparent_bind; [|intros [it|]; [apply IH | transp]].
    apply transparent_try_step.
    + apply transparent_bind; [apply transparent_train_step_body | intros it; transp].
    + apply ensures_bind; [apply _ | apply ensures_train_step_body, Hev | intros it; ens].
Qed.

Lemma transparent_train_epoch_impl fuel :
  transparent ev u callbacks e (_train_epoch_impl ev fuel u callbacks).
Proof. unfold _train_epoch_impl. transp. apply transparent_train_step_loop. Qed.

Lemma transparent_train_epoch_loop fuel_steps : forall fuel_epochs,
  transparent ev u callbacks e (train_epoch_loop ev fuel_epochs fuel_steps u callbacks).
Proof.
  induction fuel_epochs as [|fuel IH]; simpl.
  - apply transparent_out_of_fuel.
  - apply transparent_bind; [transp | intros w0].
    apply transparent_bind; [transp | intros ts].
    destruct (_ || _); [transp|].
    apply transparent_bind; [apply transparent_train_epoch_impl | intros _; apply IH].
Qed.

Lemma transparent_train_body fuel_epochs fuel_steps :
  transparent ev u callbacks e (train_body ev fuel_epochs fuel_steps u callbacks).
Proof.
  unfold train_body, _train_impl. transp. apply transparent_train_epoch_loop.
Qed.

Lemma transparent_train_epoch_body fuel :
  transparent ev u callbacks e (train_epoch_body ev fuel u callbacks).
Proof.
  unfold train_epoch_body.
  apply transparent_bind; [transp | intros ts].
  destruct (negb _); [transp|]. transp. apply transparent_train_epoch_impl.
Qed.

(** An entry point whose body lets [e] through: a call at which [e] is
    raised has made the body raise [e], right there. *)
Lemma guarded_reached msg (body : M unit) w w' pre c rest :
  transparent ev u callbacks e body ->
  is_Exception e = true ->
  final (try_except body is_Exception (exception_handler msg u callbacks) w) = Some w' ->
  new_events w w' = pre ++ c :: rest ->
  struck_at ev u callbacks e (trace w ++ pre ++ [c]) ->
  exists w1 tail,
    body w = Raise w1 e
    /\ trace w1 = trace w ++ pre ++ c :: tail
    /\ forallb is_eval_event tail = true.
Proof.
  intros Hb Hexc H Hnew Hs. specialize (Hb w). unfold try_except in H.
  destruct (body w) as [w1 a|w1 e1|]; simpl in *; [| |discriminate].
  - exfalso. injection H as <-. destruct (Hb w1 eq_refl) as (evs & Ht & Hu).
    rewrite (new_events_app _ _ _ Ht) in Hnew.
    destruct (Hu pre c rest Hnew Hs) as [Hn _]. discriminate.
  - destruct (Hb w1 eq_refl) as (evs & Ht & Hu).
    destruct (is_Exception e1) eqn:He1.
    + destruct (exception_handler_raises msg u callbacks e1 w1)
        as (w2 & e2 & Hh & hevs & Hth & Hall).
      rewrite Hh in H. injection H as <-.
      assert (Ht2 : trace w2 = trace w ++ evs ++ hevs)
        by (rewrite Hth, Ht; symmetry; apply app_assoc).
      rewrite (new_events_app _ _ _ Ht2) in Hnew.
      apply app_eq_app in Hnew as [l [[Ha Hc]|[Ha Hc]]].
      * destruct l as [|c' l'].
        -- exfalso. simpl in Hc. subst hevs. apply struck_train_call in Hs.
           apply (forallb_middle _ []) in Hall.
           rewrite (handler_event_not_train_call _ Hall) in Hs. discriminate.
        -- simpl in Hc. injection Hc as <- ->.
           destruct (Hu pre c l' Ha Hs) as [[= ->] Htail].
           exists w1, l'. split; [reflexivity|]. split; [|exact Htail].
           rewrite Ht, Ha. reflexivity.
      * exfalso. subst hevs. apply struck_train_call in Hs.
        apply forallb_middle in Hall.
        rewrite (handler_event_not_train_call _ Hall) in Hs. discriminate.
    + exfalso. injection H as <-. rewrite (new_events_app _ _ _ Ht) in Hnew.
      destruct (Hu pre c rest Hnew Hs) as [[= ->] _]. congruence.
Qed.
End Propagation.

(** The handler of a callback is the first to raise. *)
Lemma run_callbacks_from_failure h cb after f e' :
  cb h = Some f ->
  (forall wx, ho_raise (f wx) = Some e') ->
  forall before i w,
    (forall cb0 f0 wx, cb0 ∈ before -> cb0 h = Some f0 -> ho_raise (f0 wx) = None) ->
    exists w2,
      run_callbacks_from i (before ++ cb :: after) h w = Raise w2 e'
      /\ summary is_call (callback_events i (before ++ [cb]) h) w w2.
Proof.
  intros Hf He'. induction before as [|cb0 before IH]; intros i w Hq; simpl.
  - rewrite Hf. unfold bind.
    destruct (run_hook (EvCallback i h) f w) as [w1 []|w1 e1|] eqn:E.
    + exfalso. unfold run_hook in E. rewrite He' in E. discriminate.
    + assert (e1 = e') as -> by (unfold run_hook in E; rewrite He' in E; congruence).
      exists w1. split; [reflexivity|].
      apply (summary_run_hook is_call eq_refl (EvCallback i h) f). rewrite E. reflexivity.
    + exfalso. unfold run_hook in E. rewrite He' in E. discriminate.
  - assert (Hrest : forall cb1 f1 wx, cb1 ∈ before -> cb1 h = Some f1 ->
                      ho_raise (f1 wx) = None)
      by (intros cb1 f1 wx Hin; apply Hq; right; exact Hin).
    destruct (cb0 h) as [f0|] eqn:E0; [|apply IH, Hrest].
    unfold bind.
    destruct (run_hook (EvCallback i h) f0 w) as [w1 []|w1 e1|] eqn:E.
    + destruct (IH (S i) w1 Hrest) as (w2 & Hr & S2). exists w2. split; [exact Hr|].
      change (EvCallback i h :: callback_events (S i) (before ++ [cb]) h)
        with ([EvCallback i h] ++ callback_events (S i) (before ++ [cb]) h).
      eapply summary_trans; [|exact S2].
      apply (summary_run_hook is_call eq_refl (EvCallback i h) f0). rewrite E. reflexivity.
    + exfalso. unfold run_hook in E.
      rewrite (Hq cb0 f0 _ ltac:(left) E0) in E. discriminate.
    + exfalso. unfold run_hook in E.
      rewrite (Hq cb0 f0 _ ltac:(left) E0) in E. discriminate.
Qed.

Lemma guarded_callback_failure msg u callbacks (body : M unit) w w1 e
    before cb after f e' :
  body w = Raise w1 e ->
  is_Exception e = true ->
  callbacks = before ++ cb :: after ->
  cb (on_exception e) = Some f ->
  (forall wx, ho_raise (unit_hook u (on_exception e) wx) = None) ->
  (forall cb0 f0 wx, cb0 ∈ before -> cb0 (on_exception e) = Some f0 ->
                     ho_raise (f0 wx) = None) ->
  (forall wx, ho_raise (f wx) = Some e') ->
  exists w2,
    try_except body is_Exception (exception_handler msg u callbacks) w = Raise w2 e'
    /\ List.filter is_call (new_events w1 w2)
       = EvUnit (on_exception e) :: callback_events 0 (before ++ [cb]) (on_exception e).
Proof.
  intros Hbody Hexc Hcbs Hf Hu Hq He'. unfold try_except. rewrite Hbody, Hexc.
  unfold exception_handler, bind at 1, emit, modify.
  unfold bind at 1, run_unit_hook.
  destruct (run_hook _ _ _) as [w3 []|w3 e3|] eqn:E3.
  - destruct (run_callbacks_from_failure (on_exception e) cb after f e' Hf He'
                before 0%nat w3 Hq) as (w4 & H4 & S4).
    unfold bind, _run_callback_fn. rewrite Hcbs, H4.
    exists w4. split; [reflexivity|].
    apply summary_new_events.
    change (EvUnit (on_exception e) :: callback_events 0 (before ++ [cb]) (on_exception e))
      with ([] ++ [EvUnit (on_exception e)]
               ++ callback_events 0 (before ++ [cb]) (on_exception e)).
    eapply summary_trans; [|eapply summary_trans].
    + apply (summary_add_event is_call (EvLog (msg e))).
    + apply (summary_run_hook is_call eq_refl (EvUnit (on_exception e))
               (unit_hook u (on_exception e))). rewrite E3.
      reflexivity.
    + exact S4.
  - exfalso. unfold run_hook in E3. rewrite Hu in E3. discriminate.
  - exfalso. unfold run_hook in E3. rewrite Hu in E3. discriminate.
Qed.

Lemma guarded_dispatched msg u callbacks (body : M unit) w w1 e :
  body w = Raise w1 e ->
  is_Exception e = true ->
  exception_dispatched (try_except body is_Exception (exception_handler msg u callbacks))
                       u callbacks w w1 e.
Proof.
  intros Hb He. split; [|split; [|split]].
  - eapply guarded_always_raises; eassumption.
  - eapply guarded_dispatch; eassumption.
  - intros e'. eapply guarded_handler_failure; eassumption.
  - intros before cb after f e' Hcbs. eapply guarded_callback_failure; eassumption.
Qed.



